(** * The InnoDB index page and physical record (MySQL 5.7)

    A shallow embedding of [storage/innobase/rem/rem0rec.cc] (the record
    codec) and [storage/innobase/page/page0page.cc] (the index page), with
    the properties of the page directory, the heap allocator, the bulk
    delete and the codec stated over it.

    Byte frames are functions from addresses to bytes; a pointer is the
    integer address it holds; [ulint] values are integers of type [Z], with
    the casts to [byte] written out. *)

From Stdlib Require Import ZArith List Lia Bool.
From Stdlib Require Import Strings.Byte.
From coqutil Require Import Z.bitblast.
Import ListNotations.
Local Open Scope Z_scope.

(** ** mach0data: machine-independent access to bytes *)
Module Mach.

(** A byte frame: the byte stored at every address. *)
Definition mem := Z -> byte.

(** The cast [(byte) n] of an integer. *)
Definition byte_of_Z (n : Z) : byte :=
  match Byte.of_N (Z.to_N (n mod 256)) with
  | Some b => b
  | None => x00
  end.

Definition Z_of_byte (b : byte) : Z := Z.of_N (Byte.to_N b).

(** [mach_read_from_1(b)]: the byte at [b] as a [ulint]. *)
Definition mach_read_from_1 (m : mem) (b : Z) : Z := Z_of_byte (m b).

(** [mach_write_to_1(b, n)]: [b[0] = (byte) n]. *)
Definition mach_write_to_1 (m : mem) (b n : Z) : mem :=
  fun a => if a =? b then byte_of_Z n else m a.

(** [mach_read_from_2(b)]: [(b[0] << 8) | b[1]], most significant byte
    first. *)
Definition mach_read_from_2 (m : mem) (b : Z) : Z :=
  Z.lor (Z.shiftl (mach_read_from_1 m b) 8) (mach_read_from_1 m (b + 1)).

(** [mach_write_to_2(b, n)]: [b[0] = (byte)(n >> 8); b[1] = (byte) n]. *)
Definition mach_write_to_2 (m : mem) (b n : Z) : mem :=
  mach_write_to_1 (mach_write_to_1 m b (Z.shiftr n 8)) (b + 1) n.

(** [mach_read_from_4(b)] and [mach_write_to_4(b, n)], most significant
    byte first. *)
Definition mach_read_from_4 (m : mem) (b : Z) : Z :=
  Z.lor (Z.shiftl (mach_read_from_2 m b) 16) (mach_read_from_2 m (b + 2)).

Definition mach_write_to_4 (m : mem) (b n : Z) : mem :=
  mach_write_to_2 (mach_write_to_2 m b (Z.shiftr n 16)) (b + 2) n.

(** [mach_read_from_8(b)] and [mach_write_to_8(b, n)]: two 4-byte halves,
    the high one first. *)
Definition mach_read_from_8 (m : mem) (b : Z) : Z :=
  Z.lor (Z.shiftl (mach_read_from_4 m b) 32) (mach_read_from_4 m (b + 4)).

Definition mach_write_to_8 (m : mem) (b n : Z) : mem :=
  mach_write_to_4 (mach_write_to_4 m b (Z.shiftr n 32)) (b + 4) n.

(** [memset(s, c, n)]. *)
Definition memset (m : mem) (s c n : Z) : mem :=
  fun a => if (s <=? a) && (a <? s + n) then byte_of_Z c else m a.

(** [memcpy(dst, src, n)] from a byte string held outside the frame (a
    constant array, or the data of a tuple field). *)
Definition memcpy (m : mem) (dst : Z) (src : list byte) (n : Z) : mem :=
  fun a =>
    if (dst <=? a) && (a <? dst + n)
    then nth (Z.to_nat (a - dst)) src x00
    else m a.

(** [memmove(dst, src, n)] inside one frame: the [n] bytes at [src], as they
    were before the call, end up at [dst]. *)
Definition memmove (m : mem) (dst src n : Z) : mem :=
  fun a => if (dst <=? a) && (a <? dst + n) then m (a - dst + src) else m a.

(** The bytes [m[a .. a+n)] as a string. *)
Definition bytes_at (m : mem) (a : Z) (n : nat) : list byte :=
  map (fun j => m (a + Z.of_nat j)) (seq 0 n).

Lemma Z_of_byte_range b : 0 <= Z_of_byte b < 256.
Proof.
  unfold Z_of_byte. pose proof (Byte.to_N_bounded b) as H.
  split; [lia|]. apply N.lt_succ_r in H.
  change 256 with (Z.of_N 256). lia.
Qed.

Lemma Z_of_byte_of_Z n : Z_of_byte (byte_of_Z n) = n mod 256.
Proof.
  unfold Z_of_byte, byte_of_Z.
  assert (Hr : 0 <= n mod 256 < 256) by (apply Z.mod_pos_bound; lia).
  destruct (Byte.of_N (Z.to_N (n mod 256))) eqn:E.
  - apply Byte.to_of_N in E. rewrite E. lia.
  - apply Byte.of_N_None_iff in E. lia.
Qed.

Lemma read1_range m a : 0 <= mach_read_from_1 m a < 256.
Proof. apply Z_of_byte_range. Qed.

Lemma read1_write1_same m a n :
  mach_read_from_1 (mach_write_to_1 m a n) a = n mod 256.
Proof.
  unfold mach_read_from_1, mach_write_to_1.
  rewrite Z.eqb_refl. apply Z_of_byte_of_Z.
Qed.

Lemma read1_write1_other m a b n :
  a <> b -> mach_read_from_1 (mach_write_to_1 m b n) a = mach_read_from_1 m a.
Proof.
  intros H. unfold mach_read_from_1, mach_write_to_1.
  destruct (a =? b) eqn:E; [apply Z.eqb_eq in E; lia | reflexivity].
Qed.

Lemma memset_in m s c n a :
  s <= a < s + n -> memset m s c n a = byte_of_Z c.
Proof.
  intros H. unfold memset.
  destruct (Z.leb_spec s a); destruct (Z.ltb_spec a (s + n)); simpl; auto; lia.
Qed.

Lemma memset_out m s c n a :
  a < s \/ s + n <= a -> memset m s c n a = m a.
Proof.
  intros H. unfold memset.
  destruct (Z.leb_spec s a); destruct (Z.ltb_spec a (s + n)); simpl; auto; lia.
Qed.

Lemma memcpy_in m dst src n a :
  dst <= a < dst + n -> memcpy m dst src n a = nth (Z.to_nat (a - dst)) src x00.
Proof.
  intros H. unfold memcpy.
  destruct (Z.leb_spec dst a); destruct (Z.ltb_spec a (dst + n)); simpl; auto; lia.
Qed.

Lemma memcpy_out m dst src n a :
  a < dst \/ dst + n <= a -> memcpy m dst src n a = m a.
Proof.
  intros H. unfold memcpy.
  destruct (Z.leb_spec dst a); destruct (Z.ltb_spec a (dst + n)); simpl; auto; lia.
Qed.

Lemma write1_same m a n : mach_write_to_1 m a n a = byte_of_Z n.
Proof. unfold mach_write_to_1. now rewrite Z.eqb_refl. Qed.

Lemma write1_other m a b n : a <> b -> mach_write_to_1 m b n a = m a.
Proof.
  intros H. unfold mach_write_to_1.
  destruct (a =? b) eqn:E; [apply Z.eqb_eq in E; lia | reflexivity].
Qed.

Lemma write2_other m a b n : a <> b -> a <> b + 1 -> mach_write_to_2 m b n a = m a.
Proof.
  intros H1 H2. unfold mach_write_to_2. now rewrite !write1_other by lia.
Qed.

(** *** Bit fields as quotients and remainders *)

(** The [n] bits of [x] from bit [s] upwards. *)
Definition fld (x s n : Z) : Z := (x / 2 ^ s) mod 2 ^ n.

Lemma land_mask x s n : 0 <= s -> 0 <= n ->
  Z.land x (Z.shiftl (Z.ones n) s) = fld x s n * 2 ^ s.
Proof.
  intros Hs Hn. unfold fld.
  rewrite <- Z.shiftl_mul_pow2 by lia.
  rewrite <- Z.shiftr_div_pow2 by lia.
  rewrite <- Z.land_ones by lia.
  Z.bitblast.
Qed.

Lemma land_lnot_mask x s n : 0 <= s -> 0 <= n ->
  Z.land x (Z.lnot (Z.shiftl (Z.ones n) s)) = x - fld x s n * 2 ^ s.
Proof.
  intros Hs Hn.
  rewrite <- land_mask by lia.
  enough (x = Z.land x (Z.lnot (Z.shiftl (Z.ones n) s))
              + Z.land x (Z.shiftl (Z.ones n) s)) by lia.
  rewrite <- Z.or_to_plus.
  - Z.bitblast.
  - Z.bitblast.
Qed.

Lemma lor_field y v s n :
  0 <= s -> 0 <= n -> 0 <= v < 2 ^ n -> fld y s n = 0 ->
  Z.lor y (Z.shiftl v s) = y + v * 2 ^ s.
Proof.
  intros Hs Hn Hv Hy.
  rewrite <- Z.shiftl_mul_pow2 by lia.
  apply Z.or_to_plus.
  assert (H : Z.land y (Z.shiftl (Z.ones n) s) = 0)
    by (rewrite land_mask by lia; rewrite Hy; lia).
  assert (Hv' : Z.land v (Z.ones n) = v)
    by (rewrite Z.land_ones by lia; apply Z.mod_small; lia).
  rewrite <- Hv'.
  apply Z.bits_inj'. intros i Hi. rewrite Z.bits_0.
  assert (Hb := f_equal (fun z => Z.testbit z i) H). simpl in Hb.
  rewrite Z.bits_0 in Hb.
  revert Hb. rewrite !Z.land_spec, !Z.shiftl_spec by lia.
  destruct (Z.ltb_spec i s).
  - intros _. rewrite (Z.testbit_neg_r _ (i - s)) by lia. apply Bool.andb_false_r.
  - rewrite !Z.land_spec.
    destruct (Z.testbit y i), (Z.testbit v (i - s)),
      (Z.testbit (Z.ones n) (i - s)); simpl; auto.
Qed.

(** A single bit: the mask [2 ^ k]. *)
Lemma land_pow2 x k : 0 <= k -> Z.land x (2 ^ k) = fld x k 1 * 2 ^ k.
Proof.
  intros Hk. rewrite <- (land_mask x k 1) by lia.
  change (Z.ones 1) with 1. now rewrite Z.shiftl_1_l.
Qed.

Lemma land_pow2_eqb x k :
  0 <= k -> (Z.land x (2 ^ k) =? 0) = negb (Z.testbit x k).
Proof.
  intros Hk.
  destruct (Z.testbit x k) eqn:E; simpl.
  - apply Z.eqb_neq. intros H.
    assert (Hb := f_equal (fun z => Z.testbit z k) H). simpl in Hb.
    rewrite Z.land_spec, Z.bits_0, Z.pow2_bits_true, E in Hb by lia.
    discriminate.
  - apply Z.eqb_eq. apply Z.bits_inj'. intros i Hi.
    rewrite Z.land_spec, Z.bits_0, Z.pow2_bits_eqb by lia.
    destruct (Z.eqb_spec k i); subst; rewrite ?E; simpl;
      auto using Bool.andb_false_r.
Qed.

Lemma testbit_lor_pow2 x k j :
  0 <= k -> Z.testbit (Z.lor x (2 ^ k)) j = Z.testbit x j || (k =? j).
Proof.
  intros Hk. rewrite Z.lor_spec. now rewrite Z.pow2_bits_eqb by lia.
Qed.

Lemma lor_shiftl_add hi lo k :
  0 <= k -> 0 <= lo < 2 ^ k -> Z.lor (Z.shiftl hi k) lo = hi * 2 ^ k + lo.
Proof.
  intros Hk Hlo. rewrite Z.lor_comm.
  replace lo with (Z.shiftl lo 0) at 1 by apply Z.shiftl_0_r.
  rewrite Z.lor_comm. rewrite Z.shiftl_0_r.
  rewrite Z.shiftl_mul_pow2 by lia.
  apply Z.or_to_plus.
  apply Z.bits_inj'. intros i Hi. rewrite Z.bits_0, Z.land_spec.
  destruct (Z.ltb_spec i k).
  - rewrite Z.mul_pow2_bits_low by lia. reflexivity.
  - assert (Z.testbit lo i = false) as ->; [|apply Bool.andb_false_r].
    rewrite <- (Z.mod_small lo (2 ^ k)) by lia.
    apply Z.mod_pow2_bits_high. lia.
Qed.

Lemma read2_eq m a :
  mach_read_from_2 m a = mach_read_from_1 m a * 256 + mach_read_from_1 m (a + 1).
Proof.
  unfold mach_read_from_2.
  pose proof (read1_range m (a + 1)).
  rewrite lor_shiftl_add by (change (2 ^ 8) with 256; lia). reflexivity.
Qed.

Lemma read2_range m a : 0 <= mach_read_from_2 m a < 65536.
Proof.
  rewrite read2_eq.
  pose proof (read1_range m a). pose proof (read1_range m (a + 1)). lia.
Qed.

Lemma read2_write2_same m a n :
  mach_read_from_2 (mach_write_to_2 m a n) a = n mod 65536.
Proof.
  rewrite read2_eq. unfold mach_write_to_2.
  rewrite read1_write1_other by lia.
  rewrite !read1_write1_same.
  rewrite Z.shiftr_div_pow2 by lia. change (2 ^ 8) with 256.
  Z.div_mod_to_equations. lia.
Qed.

Lemma read1_write2_other m a b n :
  a <> b -> a <> b + 1 ->
  mach_read_from_1 (mach_write_to_2 m b n) a = mach_read_from_1 m a.
Proof.
  intros. unfold mach_write_to_2. now rewrite !read1_write1_other by lia.
Qed.

Lemma read2_write1_other m a b n :
  b <> a -> b <> a + 1 ->
  mach_read_from_2 (mach_write_to_1 m b n) a = mach_read_from_2 m a.
Proof.
  intros. unfold mach_read_from_2. now rewrite !read1_write1_other by lia.
Qed.

Lemma read2_write2_other m a b n :
  a + 1 < b \/ b + 1 < a ->
  mach_read_from_2 (mach_write_to_2 m b n) a = mach_read_from_2 m a.
Proof.
  intros. unfold mach_read_from_2. now rewrite !read1_write2_other by lia.
Qed.

Lemma read1_ext m1 m2 a : m1 a = m2 a -> mach_read_from_1 m1 a = mach_read_from_1 m2 a.
Proof. unfold mach_read_from_1. now intros ->. Qed.

Lemma read2_ext m1 m2 a :
  m1 a = m2 a -> m1 (a + 1) = m2 (a + 1) ->
  mach_read_from_2 m1 a = mach_read_from_2 m2 a.
Proof. unfold mach_read_from_2, mach_read_from_1. now intros -> ->. Qed.

End Mach.

(** ** rem0rec: the physical record *)
Module Rem.
Import Mach.

(** *** Constants of rem0rec.h, rem0types.h, data0type.h and univ.i *)

Definition REC_N_OLD_EXTRA_BYTES : Z := 6.
Definition REC_N_NEW_EXTRA_BYTES : Z := 5.
Definition REC_NEXT : Z := 2.
Definition REC_OLD_SHORT : Z := 3.
Definition REC_OLD_SHORT_MASK : Z := 0x1.
Definition REC_OLD_SHORT_SHIFT : Z := 0.
Definition REC_OLD_N_FIELDS : Z := 4.
Definition REC_OLD_N_FIELDS_MASK : Z := 0x7FE.
Definition REC_OLD_N_FIELDS_SHIFT : Z := 1.
Definition REC_NEW_STATUS : Z := 3.
Definition REC_NEW_STATUS_MASK : Z := 0x7.
Definition REC_NEW_STATUS_SHIFT : Z := 0.
Definition REC_OLD_HEAP_NO : Z := 5.
Definition REC_NEW_HEAP_NO : Z := 4.
Definition REC_HEAP_NO_MASK : Z := 0xFFF8.
Definition REC_HEAP_NO_SHIFT : Z := 3.
Definition REC_OLD_N_OWNED : Z := 6.
Definition REC_NEW_N_OWNED : Z := 5.
Definition REC_N_OWNED_MASK : Z := 0xF.
Definition REC_N_OWNED_SHIFT : Z := 0.
Definition REC_OLD_INFO_BITS : Z := 6.
Definition REC_NEW_INFO_BITS : Z := 5.
Definition REC_INFO_BITS_MASK : Z := 0xF0.
Definition REC_INFO_BITS_SHIFT : Z := 0.

Definition REC_STATUS_ORDINARY : Z := 0.
Definition REC_STATUS_NODE_PTR : Z := 1.
Definition REC_STATUS_INFIMUM : Z := 2.
Definition REC_STATUS_SUPREMUM : Z := 3.

Definition REC_1BYTE_SQL_NULL_MASK : Z := 0x80.
Definition REC_2BYTE_SQL_NULL_MASK : Z := 0x8000.
Definition REC_2BYTE_EXTERN_MASK : Z := 0x4000.
Definition REC_1BYTE_OFFS_LIMIT : Z := 0x7F.
Definition REC_NODE_PTR_SIZE : Z := 4.
Definition REC_MAX_N_FIELDS : Z := 1023.

Definition REC_OFFS_HEADER_SIZE : Z := 2.
Definition REC_OFFS_COMPACT : Z := Z.shiftl 1 31.
Definition REC_OFFS_SQL_NULL : Z := Z.shiftl 1 31.
Definition REC_OFFS_EXTERNAL : Z := Z.shiftl 1 30.
Definition REC_OFFS_MASK : Z := REC_OFFS_EXTERNAL - 1.

Definition DATA_NOT_NULL : Z := 256.
Definition ULINT_UNDEFINED : Z := 2 ^ 64 - 1.
Definition UNIV_SQL_NULL : Z := 2 ^ 32 - 1.

(** [UT_BITS_IN_BYTES(b)]: the bytes that hold [b] bits. *)
Definition UT_BITS_IN_BYTES (b : Z) : Z := (b + 7) / 8.

(** *** The data dictionary and the data tuple, as the codec reads them *)

(** [dtype_t]: the type of a tuple field. *)
Record dtype_t := mk_dtype {
  dtype_prtype : Z;
  dtype_mtype : Z;
  dtype_len : Z
}.

(** [dict_col_t]: a column of a table. *)
Record dict_col_t := mk_col {
  col_prtype : Z;
  col_mtype : Z;
  col_len : Z
}.

(** [dict_field_t]: a field of an index; [fixed_len] is 0 for a
    variable-length field. *)
Record dict_field_t := mk_field {
  field_col : dict_col_t;
  fixed_len : Z
}.

(** [dict_index_t], with the attributes of [index->table] and of the index
    type that the record and page code consult. *)
Record dict_index_t := mk_index {
  index_fields : list dict_field_t;
  n_nullable : Z;
  dict_table_is_comp : bool;
  dict_index_get_n_unique_in_tree_nonleaf : Z;
  dict_index_is_sec_or_ibuf : bool;
  dict_table_is_temporary : bool;
  dict_index_is_spatial : bool
}.

(** [dfield_t]: a field of a data tuple; [dfield_len] is [UNIV_SQL_NULL] for
    an SQL null. *)
Record dfield_t := mk_dfield {
  dfield_data : list byte;
  dfield_ext : bool;
  dfield_len : Z;
  dfield_type : dtype_t
}.

(** [dtuple_t]; [n_fields] is the length of [fields]. *)
Record dtuple_t := mk_dtuple {
  dtuple_info_bits : Z;
  dtuple_fields : list dfield_t
}.

Definition dtuple_n_fields (t : dtuple_t) : Z :=
  Z.of_nat (length (dtuple_fields t)).

Definition dfield_is_null (f : dfield_t) : bool := dfield_len f =? UNIV_SQL_NULL.

Definition dict_index_get_n_fields (index : dict_index_t) : Z :=
  Z.of_nat (length (index_fields index)).

Definition dict_index_get_nth_field (index : dict_index_t) (i : Z) : dict_field_t :=
  nth (Z.to_nat i) (index_fields index) (mk_field (mk_col 0 0 0) 0).

Definition dtuple_get_nth_field (fields : list dfield_t) (i : Z) : dfield_t :=
  nth (Z.to_nat i) fields (mk_dfield [] false 0 (mk_dtype 0 0 0)).

(** [c & DATA_NOT_NULL] as a truth value. *)
Definition is_not_null (prtype : Z) : bool :=
  negb (Z.land prtype DATA_NOT_NULL =? 0).

(** *** Bit fields of the record header (rem0rec.ic) *)

Definition rec_get_bit_field_1 (m : mem) (rec offs mask shift : Z) : Z :=
  Z.shiftr (Z.land (mach_read_from_1 m (rec - offs)) mask) shift.

Definition rec_set_bit_field_1 (m : mem) (rec val offs mask shift : Z) : mem :=
  mach_write_to_1 m (rec - offs)
    (Z.lor (Z.land (mach_read_from_1 m (rec - offs)) (Z.lnot mask))
           (Z.shiftl val shift)).

Definition rec_get_bit_field_2 (m : mem) (rec offs mask shift : Z) : Z :=
  Z.shiftr (Z.land (mach_read_from_2 m (rec - offs)) mask) shift.

Definition rec_set_bit_field_2 (m : mem) (rec val offs mask shift : Z) : mem :=
  mach_write_to_2 m (rec - offs)
    (Z.lor (Z.land (mach_read_from_2 m (rec - offs)) (Z.lnot mask))
           (Z.shiftl val shift)).

Definition rec_get_status (m : mem) (rec : Z) : Z :=
  rec_get_bit_field_1 m rec REC_NEW_STATUS REC_NEW_STATUS_MASK REC_NEW_STATUS_SHIFT.

Definition rec_set_status (m : mem) (rec bits : Z) : mem :=
  rec_set_bit_field_1 m rec bits REC_NEW_STATUS REC_NEW_STATUS_MASK REC_NEW_STATUS_SHIFT.

Definition rec_set_info_bits_new (m : mem) (rec bits : Z) : mem :=
  rec_set_bit_field_1 m rec bits REC_NEW_INFO_BITS REC_INFO_BITS_MASK REC_INFO_BITS_SHIFT.

Definition rec_set_info_bits_old (m : mem) (rec bits : Z) : mem :=
  rec_set_bit_field_1 m rec bits REC_OLD_INFO_BITS REC_INFO_BITS_MASK REC_INFO_BITS_SHIFT.

(** [rec_set_info_and_status_bits]: the status bits, then the info bits. *)
Definition rec_set_info_and_status_bits (m : mem) (rec bits : Z) : mem :=
  rec_set_info_bits_new
    (rec_set_status m rec (Z.land bits REC_NEW_STATUS_MASK))
    rec (Z.land bits (Z.lnot REC_NEW_STATUS_MASK)).

Definition rec_get_n_fields_old (m : mem) (rec : Z) : Z :=
  rec_get_bit_field_2 m rec REC_OLD_N_FIELDS REC_OLD_N_FIELDS_MASK REC_OLD_N_FIELDS_SHIFT.

Definition rec_set_n_fields_old (m : mem) (rec n_fields : Z) : mem :=
  rec_set_bit_field_2 m rec n_fields REC_OLD_N_FIELDS REC_OLD_N_FIELDS_MASK
    REC_OLD_N_FIELDS_SHIFT.

Definition rec_get_1byte_offs_flag (m : mem) (rec : Z) : Z :=
  rec_get_bit_field_1 m rec REC_OLD_SHORT REC_OLD_SHORT_MASK REC_OLD_SHORT_SHIFT.

Definition rec_set_1byte_offs_flag (m : mem) (rec flag : Z) : mem :=
  rec_set_bit_field_1 m rec flag REC_OLD_SHORT REC_OLD_SHORT_MASK REC_OLD_SHORT_SHIFT.

Definition rec_1_get_field_end_info (m : mem) (rec n : Z) : Z :=
  mach_read_from_1 m (rec - (REC_N_OLD_EXTRA_BYTES + n + 1)).

Definition rec_2_get_field_end_info (m : mem) (rec n : Z) : Z :=
  mach_read_from_2 m (rec - (REC_N_OLD_EXTRA_BYTES + 2 * n + 2)).

Definition rec_1_set_field_end_info (m : mem) (rec n info : Z) : mem :=
  mach_write_to_1 m (rec - (REC_N_OLD_EXTRA_BYTES + n + 1)) info.

Definition rec_2_set_field_end_info (m : mem) (rec n info : Z) : mem :=
  mach_write_to_2 m (rec - (REC_N_OLD_EXTRA_BYTES + 2 * n + 2)) info.

(** *** The array of offsets (rem0rec.ic)

    [offsets[0]] is the allocated size, [offsets[1]] the number of fields,
    and [rec_offs_base(offsets)] starts [REC_OFFS_HEADER_SIZE] elements
    in. *)
Definition offsets_t := Z -> Z.

Definition arr_set (a : offsets_t) (i v : Z) : offsets_t :=
  fun k => if k =? i then v else a k.

Definition rec_offs_get_n_alloc (offsets : offsets_t) : Z := offsets 0.
Definition rec_offs_set_n_alloc (offsets : offsets_t) (n : Z) : offsets_t :=
  arr_set offsets 0 n.
Definition rec_offs_n_fields (offsets : offsets_t) : Z := offsets 1.
Definition rec_offs_set_n_fields (offsets : offsets_t) (n : Z) : offsets_t :=
  arr_set offsets 1 n.
Definition rec_offs_base (offsets : offsets_t) (k : Z) : Z :=
  offsets (REC_OFFS_HEADER_SIZE + k).
Definition rec_offs_base_set (offsets : offsets_t) (k v : Z) : offsets_t :=
  arr_set offsets (REC_OFFS_HEADER_SIZE + k) v.

(** [rec_get_nth_field_offs(offsets, n, &len)]: the offset of field [n]
    from the origin, and its length, [UNIV_SQL_NULL] for an SQL null. *)
Definition rec_get_nth_field_offs (offsets : offsets_t) (n : Z) : Z * Z :=
  let offs := if n =? 0 then 0
              else Z.land (rec_offs_base offsets n) REC_OFFS_MASK in
  let length := rec_offs_base offsets (1 + n) in
  if negb (Z.land length REC_OFFS_SQL_NULL =? 0)
  then (offs, UNIV_SQL_NULL)
  else (offs, Z.land length REC_OFFS_MASK - offs).

Definition rec_offs_nth_extern (offsets : offsets_t) (n : Z) : Z :=
  Z.land (rec_offs_base offsets (1 + n)) REC_OFFS_EXTERNAL.

Definition rec_offs_nth_sql_null (offsets : offsets_t) (n : Z) : Z :=
  Z.land (rec_offs_base offsets (1 + n)) REC_OFFS_SQL_NULL.

Definition rec_offs_extra_size (offsets : offsets_t) : Z :=
  Z.land (rec_offs_base offsets 0)
         (Z.lnot (Z.lor REC_OFFS_COMPACT REC_OFFS_EXTERNAL)).

Definition rec_offs_data_size (offsets : offsets_t) : Z :=
  Z.land (rec_offs_base offsets (rec_offs_n_fields offsets)) REC_OFFS_MASK.

Definition rec_offs_size (offsets : offsets_t) : Z :=
  rec_offs_data_size offsets + rec_offs_extra_size offsets.

(** Quotients and remainders as equations, for [lia]; the functions the
    context holds are left out of it. *)
Ltac div_mod_eqs :=
  repeat match goal with
         | x : _ -> ?T |- _ =>
           lazymatch type of T with
           | Prop => fail
           | _ => clear x
           end
         end;
  Z.div_mod_to_equations.

(** *** The codec *)
Section Codec.

(** [DATA_BIG_LEN_MTYPE(len, mtype)] of data0type.h, which is not among the
    sources at hand: the test for a column whose values may be longer than
    255 bytes, as the comments of rem0rec.cc put it where they explain the
    length prefix.  [DATA_BIG_COL(col)] applies it to a column. *)
Variable DATA_BIG_LEN_MTYPE : Z -> Z -> bool.

(** [dict_col_get_fixed_size(col, comp)] of dict0dict.ic, consulted only for
    records of temporary files. *)
Variable dict_col_get_fixed_size : dict_col_t -> bool -> Z.

(** [dtype_get_sql_null_size(type, comp)] of data0type.ic: the bytes an SQL
    null of the type occupies in a ROW_FORMAT=REDUNDANT record. *)
Variable dtype_get_sql_null_size : dtype_t -> Z -> Z.

(** What [mem_heap_alloc] hands out for an array of the given size. *)
Variable mem_heap_alloc : Z -> offsets_t.

Definition DATA_BIG_COL (col : dict_col_t) : bool :=
  DATA_BIG_LEN_MTYPE (col_len col) (col_mtype col).

(** The cast [(byte) n] inside an expression. *)
Definition to_byte (n : Z) : Z := n mod 256.

(** **** Decoding: [rec_init_offsets_comp_ordinary] *)

(** The local variables of the decoding loops. *)
Record dec_t := mk_dec {
  d_offs : Z;
  d_any_ext : Z;
  d_nulls : Z;
  d_lens : Z;
  d_null_mask : Z;
  d_offsets : offsets_t
}.

(** [resolved: rec_offs_base(offsets)[i + 1] = len]. *)
Definition resolved (i : Z) (offs any_ext nulls lens null_mask : Z)
    (offsets : offsets_t) (len : Z) : dec_t :=
  mk_dec offs any_ext nulls lens null_mask (rec_offs_base_set offsets (i + 1) len).

(** The part of a turn of the loop of [rec_init_offsets_comp_ordinary]
    that follows the null flag: the length of a field that is not null. *)
Definition comp_read_length (m : mem) (temp : bool) (index : dict_index_t)
    (i offs any_ext nulls lens null_mask : Z) (offsets : offsets_t) : dec_t :=
  let field := dict_index_get_nth_field index i in
  let col := field_col field in
  if (fixed_len field =? 0)
     || (temp && (dict_col_get_fixed_size col temp =? 0)) then
    (* Variable-length field: read the length *)
    let len := mach_read_from_1 m lens in
    let lens := lens - 1 in
    if DATA_BIG_COL col && negb (Z.land len 0x80 =? 0) then
      (* 1exxxxxxx xxxxxxxx *)
      let len := Z.lor (Z.shiftl len 8) (mach_read_from_1 m lens) in
      let lens := lens - 1 in
      let offs := offs + Z.land len 0x3fff in
      if negb (Z.land len 0x4000 =? 0) then
        resolved i offs REC_OFFS_EXTERNAL nulls lens null_mask offsets
          (Z.lor offs REC_OFFS_EXTERNAL)
      else
        resolved i offs any_ext nulls lens null_mask offsets offs
    else
      let offs := offs + len in
      resolved i offs any_ext nulls lens null_mask offsets offs
  else
    let offs := offs + fixed_len field in
    resolved i offs any_ext nulls lens null_mask offsets offs.

(** One turn of the loop of [rec_init_offsets_comp_ordinary]. *)
Definition comp_ordinary_field (m : mem) (temp : bool) (index : dict_index_t)
    (i : Z) (s : dec_t) : dec_t :=
  let field := dict_index_get_nth_field index i in
  let col := field_col field in
  let offs := d_offs s in
  let any_ext := d_any_ext s in
  let lens := d_lens s in
  let offsets := d_offsets s in
  let nullable := negb (is_not_null (col_prtype col)) in
  let wrap := nullable && (to_byte (d_null_mask s) =? 0) in
  let nulls := if wrap then d_nulls s - 1 else d_nulls s in
  let null_mask := if wrap then 1 else d_null_mask s in
  if nullable && negb (Z.land (mach_read_from_1 m nulls) null_mask =? 0) then
    (* No length is stored for NULL fields. *)
    resolved i offs any_ext nulls lens (Z.shiftl null_mask 1) offsets
      (Z.lor offs REC_OFFS_SQL_NULL)
  else
    let null_mask := if nullable then Z.shiftl null_mask 1 else null_mask in
    comp_read_length m temp index i offs any_ext nulls lens null_mask offsets.

(** [do { ... } while (++i < n)]: the body runs for [i], then again while the
    incremented [i] is below [n]; [k] bounds the turns that may follow. *)
Fixpoint do_while_fields (body : Z -> dec_t -> dec_t) (k : nat) (n i : Z)
    (s : dec_t) : dec_t :=
  let s' := body i s in
  match k with
  | O => s'
  | S k' => if i + 1 <? n then do_while_fields body k' n (i + 1) s' else s'
  end.

Definition rec_init_offsets_comp_ordinary (m : mem) (rec : Z) (temp : bool)
    (index : dict_index_t) (offsets : offsets_t) : offsets_t :=
  let n_null := n_nullable index in
  let nulls := if temp then rec - 1 else rec - (1 + REC_N_NEW_EXTRA_BYTES) in
  let lens := nulls - UT_BITS_IN_BYTES n_null in
  let temp := if temp && dict_table_is_comp index then false else temp in
  let n := rec_offs_n_fields offsets in
  let s := do_while_fields (comp_ordinary_field m temp index) (Z.to_nat n) n 0
             (mk_dec 0 0 nulls lens 1 offsets) in
  rec_offs_base_set (d_offsets s) 0
    (Z.lor (Z.lor (rec - (d_lens s + 1)) REC_OFFS_COMPACT) (d_any_ext s)).

(** **** Decoding: [rec_init_offsets] *)

(** One turn of the loop for a node pointer record; [None] is the failed
    [ut_a(!(len & 0x4000))]. *)
Definition node_ptr_field (m : mem) (index : dict_index_t)
    (n_node_ptr_field : Z) (i : Z) (s : dec_t) : option dec_t :=
  let offs := d_offs s in
  let any_ext := d_any_ext s in
  let lens := d_lens s in
  let offsets := d_offsets s in
  if i =? n_node_ptr_field then
    let offs := offs + REC_NODE_PTR_SIZE in
    Some (resolved i offs any_ext (d_nulls s) lens (d_null_mask s) offsets offs)
  else
    let field := dict_index_get_nth_field index i in
    let col := field_col field in
    let nullable := negb (is_not_null (col_prtype col)) in
    let wrap := nullable && (to_byte (d_null_mask s) =? 0) in
    let nulls := if wrap then d_nulls s - 1 else d_nulls s in
    let null_mask := if wrap then 1 else d_null_mask s in
    if nullable && negb (Z.land (mach_read_from_1 m nulls) null_mask =? 0) then
      Some (resolved i offs any_ext nulls lens (Z.shiftl null_mask 1) offsets
              (Z.lor offs REC_OFFS_SQL_NULL))
    else
      let null_mask := if nullable then Z.shiftl null_mask 1 else null_mask in
      if fixed_len field =? 0 then
        let len := mach_read_from_1 m lens in
        let lens := lens - 1 in
        if DATA_BIG_COL col && negb (Z.land len 0x80 =? 0) then
          let len := Z.lor (Z.shiftl len 8) (mach_read_from_1 m lens) in
          let lens := lens - 1 in
          if negb (Z.land len 0x4000 =? 0) then None
          else
            let offs := offs + Z.land len 0x3fff in
            Some (resolved i offs any_ext nulls lens null_mask offsets offs)
        else
          let offs := offs + len in
          Some (resolved i offs any_ext nulls lens null_mask offsets offs)
      else
        let offs := offs + fixed_len field in
        Some (resolved i offs any_ext nulls lens null_mask offsets offs).

Fixpoint do_while_fields_opt (body : Z -> dec_t -> option dec_t) (k : nat)
    (n i : Z) (s : dec_t) : option dec_t :=
  match body i s with
  | None => None
  | Some s' =>
    match k with
    | O => Some s'
    | S k' => if i + 1 <? n then do_while_fields_opt body k' n (i + 1) s'
              else Some s'
    end
  end.

(** One turn of the loops for an old-style record. *)
Definition old_1byte_field (m : mem) (rec : Z) (i : Z) (s : dec_t) : dec_t :=
  let offs := rec_1_get_field_end_info m rec i in
  let offs :=
    if negb (Z.land offs REC_1BYTE_SQL_NULL_MASK =? 0)
    then Z.lor (Z.land offs (Z.lnot REC_1BYTE_SQL_NULL_MASK)) REC_OFFS_SQL_NULL
    else offs in
  mk_dec offs (d_any_ext s) (d_nulls s) (d_lens s) (d_null_mask s)
    (rec_offs_base_set (d_offsets s) (1 + i) offs).

Definition old_2byte_field (m : mem) (rec : Z) (i : Z) (s : dec_t) : dec_t :=
  let offs := rec_2_get_field_end_info m rec i in
  let offs :=
    if negb (Z.land offs REC_2BYTE_SQL_NULL_MASK =? 0)
    then Z.lor (Z.land offs (Z.lnot REC_2BYTE_SQL_NULL_MASK)) REC_OFFS_SQL_NULL
    else offs in
  let ext := negb (Z.land offs REC_2BYTE_EXTERN_MASK =? 0) in
  let offs :=
    if ext
    then Z.lor (Z.land offs (Z.lnot REC_2BYTE_EXTERN_MASK)) REC_OFFS_EXTERNAL
    else offs in
  let offsets :=
    if ext
    then rec_offs_base_set (d_offsets s) 0
           (Z.lor (rec_offs_base (d_offsets s) 0) REC_OFFS_EXTERNAL)
    else d_offsets s in
  mk_dec offs (d_any_ext s) (d_nulls s) (d_lens s) (d_null_mask s)
    (rec_offs_base_set offsets (1 + i) offs).

(** [rec_init_offsets(rec, index, offsets)], with
    [rec_offs_n_fields(offsets)] set by the caller. *)
Definition rec_init_offsets (m : mem) (rec : Z) (index : dict_index_t)
    (offsets : offsets_t) : option offsets_t :=
  let n := rec_offs_n_fields offsets in
  if dict_table_is_comp index then
    let status := rec_get_status m rec in
    if (status =? REC_STATUS_INFIMUM) || (status =? REC_STATUS_SUPREMUM) then
      (* the field is 8 bytes long *)
      Some (rec_offs_base_set
              (rec_offs_base_set offsets 0
                 (Z.lor REC_N_NEW_EXTRA_BYTES REC_OFFS_COMPACT)) 1 8)
    else if status =? REC_STATUS_ORDINARY then
      Some (rec_init_offsets_comp_ordinary m rec false index offsets)
    else
      let n_node_ptr_field :=
        if status =? REC_STATUS_NODE_PTR
        then dict_index_get_n_unique_in_tree_nonleaf index
        else ULINT_UNDEFINED in
      let nulls := rec - (REC_N_NEW_EXTRA_BYTES + 1) in
      let lens := nulls - UT_BITS_IN_BYTES (n_nullable index) in
      match do_while_fields_opt (node_ptr_field m index n_node_ptr_field)
              (Z.to_nat n) n 0 (mk_dec 0 0 nulls lens 1 offsets) with
      | None => None
      | Some s =>
        Some (rec_offs_base_set (d_offsets s) 0
                (Z.lor (rec - (d_lens s + 1)) REC_OFFS_COMPACT))
      end
  else
    (* Old-style record: determine extra size and end offsets *)
    let offs := REC_N_OLD_EXTRA_BYTES in
    if negb (rec_get_1byte_offs_flag m rec =? 0) then
      let offs := offs + n in
      let offsets := rec_offs_base_set offsets 0 offs in
      Some (d_offsets (do_while_fields (old_1byte_field m rec) (Z.to_nat n) n 0
                         (mk_dec offs 0 0 0 0 offsets)))
    else
      let offs := offs + 2 * n in
      let offsets := rec_offs_base_set offsets 0 offs in
      Some (d_offsets (do_while_fields (old_2byte_field m rec) (Z.to_nat n) n 0
                         (mk_dec offs 0 0 0 0 offsets))).

(** [rec_get_offsets_func(rec, index, offsets, n_fields, heap)]; [offsets]
    is [None] for a NULL array, and the result is [None] where the source
    stops at [ut_error] or [ut_a]. *)
Definition rec_get_offsets_func (m : mem) (rec : Z) (index : dict_index_t)
    (offsets : option offsets_t) (n_fields : Z) : option offsets_t :=
  let n_opt :=
    if dict_table_is_comp index then
      let status := rec_get_status m rec in
      if status =? REC_STATUS_ORDINARY then Some (dict_index_get_n_fields index)
      else if status =? REC_STATUS_NODE_PTR
      then Some (dict_index_get_n_unique_in_tree_nonleaf index + 1)
      else if (status =? REC_STATUS_INFIMUM) || (status =? REC_STATUS_SUPREMUM)
      then Some 1
      else None
    else Some (rec_get_n_fields_old m rec) in
  match n_opt with
  | None => None
  | Some n =>
    let n := if n_fields <? n then n_fields else n in
    let size := n + (1 + REC_OFFS_HEADER_SIZE) in
    let offsets :=
      match offsets with
      | Some o =>
        if rec_offs_get_n_alloc o <? size
        then rec_offs_set_n_alloc (mem_heap_alloc size) size
        else o
      | None => rec_offs_set_n_alloc (mem_heap_alloc size) size
      end in
    rec_init_offsets m rec index (rec_offs_set_n_fields offsets n)
  end.

(** **** Size: [rec_get_converted_size_comp] *)

(** The loop of [rec_get_converted_size_comp_prefix_low] over
    [fields[i ..]]; the state is [(extra_size, data_size)]. *)
Fixpoint size_fields (index : dict_index_t) (temp : bool)
    (fields : list dfield_t) (i : Z) (extra_size data_size : Z) : Z * Z :=
  match fields with
  | [] => (extra_size, data_size)
  | f :: rest =>
    let field := dict_index_get_nth_field index i in
    let len := dfield_len f in
    let col := field_col field in
    if dfield_is_null f then
      (* No length is stored for NULL fields. *)
      size_fields index temp rest (i + 1) extra_size data_size
    else
      let fixed_len :=
        if temp && negb (fixed_len field =? 0)
           && (dict_col_get_fixed_size col temp =? 0)
        then 0 else fixed_len field in
      let extra_size :=
        if negb (fixed_len =? 0) then extra_size
        else if dfield_ext f then extra_size + 2
        else if (len <? 128) || negb (DATA_BIG_COL col) then extra_size + 1
        else extra_size + 2 in
      size_fields index temp rest (i + 1) extra_size (data_size + len)
  end.

(** [rec_get_converted_size_comp_prefix_low] with [v_entry == NULL]: the
    total size and the extra size. *)
Definition rec_get_converted_size_comp_prefix_low (index : dict_index_t)
    (fields : list dfield_t) (n_fields : Z) (temp : bool) : Z * Z :=
  let n_null := if 0 <? n_fields then n_nullable index else 0 in
  let extra_size :=
    if temp then UT_BITS_IN_BYTES n_null
    else REC_N_NEW_EXTRA_BYTES + UT_BITS_IN_BYTES n_null in
  let temp := if temp && dict_table_is_comp index then false else temp in
  let '(extra_size, data_size) :=
    size_fields index temp (firstn (Z.to_nat n_fields) fields) 0 extra_size 0 in
  (extra_size + data_size, extra_size).

(** [rec_get_converted_size_comp]: the total size and [*extra]; [None] is
    [ut_error]. *)
Definition rec_get_converted_size_comp (index : dict_index_t) (status : Z)
    (fields : list dfield_t) (n_fields : Z) : option (Z * Z) :=
  if status =? REC_STATUS_ORDINARY then
    let '(total, extra) :=
      rec_get_converted_size_comp_prefix_low index fields n_fields false in
    Some (0 + total, extra)
  else if status =? REC_STATUS_NODE_PTR then
    let n_fields := n_fields - 1 in
    let '(total, extra) :=
      rec_get_converted_size_comp_prefix_low index fields n_fields false in
    Some (REC_NODE_PTR_SIZE + total, extra)
  else if (status =? REC_STATUS_INFIMUM) || (status =? REC_STATUS_SUPREMUM) then
    (* infimum or supremum record, 8 data bytes *)
    Some (REC_N_NEW_EXTRA_BYTES + 8, REC_N_NEW_EXTRA_BYTES)
  else None.

(** **** Encoding: [rec_convert_dtuple_to_rec_comp] *)

(** The frame and the cursors of the encoder. *)
Record enc_t := mk_enc {
  e_mem : mem;
  e_nulls : Z;
  e_null_mask : Z;
  e_lens : Z;
  e_end : Z
}.

(** One turn of the loop for a field that is not the node pointer. *)
Definition comp_store_field (index : dict_index_t) (temp : bool)
    (field : dfield_t) (i : Z) (s : enc_t) : enc_t :=
  let type := dfield_type field in
  let len := dfield_len field in
  let m := e_mem s in
  let lens := e_lens s in
  let nullable := negb (is_not_null (dtype_prtype type)) in
  let wrap := nullable && (to_byte (e_null_mask s) =? 0) in
  let nulls := if wrap then e_nulls s - 1 else e_nulls s in
  let null_mask := if wrap then 1 else e_null_mask s in
  if nullable && dfield_is_null field then
    (* set the null flag *)
    mk_enc (mach_write_to_1 m nulls (Z.lor (mach_read_from_1 m nulls) null_mask))
      nulls (Z.shiftl null_mask 1) lens (e_end s)
  else
    let null_mask := if nullable then Z.shiftl null_mask 1 else null_mask in
    let ifield := dict_index_get_nth_field index i in
    let col := field_col ifield in
    let fixed_len :=
      if temp && negb (fixed_len ifield =? 0)
         && (dict_col_get_fixed_size col temp =? 0)
      then 0 else fixed_len ifield in
    let '(m, lens) :=
      if negb (fixed_len =? 0) then (m, lens)
      else if dfield_ext field then
        let m := mach_write_to_1 m lens (Z.lor (to_byte (Z.shiftr len 8)) 0xc0) in
        let m := mach_write_to_1 m (lens - 1) (to_byte len) in
        (m, lens - 2)
      else if (len <? 128)
              || negb (DATA_BIG_LEN_MTYPE (dtype_len type) (dtype_mtype type)) then
        (mach_write_to_1 m lens (to_byte len), lens - 1)
      else
        let m := mach_write_to_1 m lens (Z.lor (to_byte (Z.shiftr len 8)) 0x80) in
        let m := mach_write_to_1 m (lens - 1) (to_byte len) in
        (m, lens - 2) in
    mk_enc (memcpy m (e_end s) (dfield_data field) len)
      nulls null_mask lens (e_end s + len).

(** The loop [for (i = 0; i < n_fields; i++)] over [fields[i ..]], left at
    the node pointer field by [break]. *)
Fixpoint comp_store_fields (index : dict_index_t) (temp : bool)
    (n_node_ptr_field : Z) (fields : list dfield_t) (i : Z) (s : enc_t) : enc_t :=
  match fields with
  | [] => s
  | field :: rest =>
    if i =? n_node_ptr_field then
      mk_enc (memcpy (e_mem s) (e_end s) (dfield_data field) (dfield_len field))
        (e_nulls s) (e_null_mask s) (e_lens s) (e_end s + REC_NODE_PTR_SIZE)
    else
      comp_store_fields index temp n_node_ptr_field rest (i + 1)
        (comp_store_field index temp field i s)
  end.

(** [rec_convert_dtuple_to_rec_comp] with [v_entry == NULL]; the result
    carries the frame and the final cursors [lens] and [end].  With no field
    the source leaves [lens] unset and never reads it; it is [nulls] here. *)
Definition rec_convert_dtuple_to_rec_comp (m : mem) (rec : Z)
    (index : dict_index_t) (fields : list dfield_t) (n_fields : Z)
    (status : Z) (temp : bool) : option enc_t :=
  let setup :=
    if temp then
      Some (ULINT_UNDEFINED, rec - 1,
            if dict_table_is_comp index then false else temp)
    else
      let nulls := rec - (REC_N_NEW_EXTRA_BYTES + 1) in
      if status =? REC_STATUS_ORDINARY then Some (ULINT_UNDEFINED, nulls, temp)
      else if status =? REC_STATUS_NODE_PTR then Some (n_fields - 1, nulls, temp)
      else if (status =? REC_STATUS_INFIMUM) || (status =? REC_STATUS_SUPREMUM)
      then Some (ULINT_UNDEFINED, nulls, temp)
      else None in
  match setup with
  | None => None
  | Some (n_node_ptr_field, nulls, temp) =>
    let '(m, lens) :=
      if negb (n_fields =? 0) then
        let lens := nulls - UT_BITS_IN_BYTES (n_nullable index) in
        (* clear the SQL-null flags *)
        (memset m (lens + 1) 0 (nulls - lens), lens)
      else (m, nulls) in
    Some (comp_store_fields index temp n_node_ptr_field
            (firstn (Z.to_nat n_fields) fields) 0 (mk_enc m nulls 1 lens rec))
  end.

(** [rec_convert_dtuple_to_rec_new]: the frame after the call and the
    origin of the record. *)
Definition rec_convert_dtuple_to_rec_new (m : mem) (buf : Z)
    (index : dict_index_t) (dtuple : dtuple_t) : option (mem * Z) :=
  let status := Z.land (dtuple_info_bits dtuple) REC_NEW_STATUS_MASK in
  match rec_get_converted_size_comp index status (dtuple_fields dtuple)
          (dtuple_n_fields dtuple) with
  | None => None
  | Some (_, extra_size) =>
    let rec := buf + extra_size in
    match rec_convert_dtuple_to_rec_comp m rec index (dtuple_fields dtuple)
            (dtuple_n_fields dtuple) status false with
    | None => None
    | Some s =>
      Some (rec_set_info_and_status_bits (e_mem s) rec (dtuple_info_bits dtuple),
            rec)
    end
  end.

(** **** Encoding: [rec_convert_dtuple_to_rec_old] *)

(** [dtuple_get_data_size(tuple, comp)] of data0data.ic. *)
Definition dtuple_get_data_size (dtuple : dtuple_t) (comp : Z) : Z :=
  fold_left
    (fun sum f =>
       let len := dfield_len f in
       let len := if len =? UNIV_SQL_NULL
                  then dtype_get_sql_null_size (dfield_type f) comp else len in
       sum + len)
    (dtuple_fields dtuple) 0.

(** [rec_get_converted_extra_size(data_size, n_fields, n_ext)] of
    rem0rec.ic. *)
Definition rec_get_converted_extra_size (data_size n_fields n_ext : Z) : Z :=
  if (n_ext =? 0) && (data_size <=? REC_1BYTE_OFFS_LIMIT)
  then REC_N_OLD_EXTRA_BYTES + n_fields
  else REC_N_OLD_EXTRA_BYTES + 2 * n_fields.

(** [data_write_sql_null(data, len)]: [memset(data, 0, len)]. *)
Definition data_write_sql_null (m : mem) (data len : Z) : mem :=
  memset m data 0 len.

(** The two loops of [rec_convert_dtuple_to_rec_old] over [fields[i ..]];
    the state is the frame and [end_offset]. *)
Fixpoint old_store_fields_1 (rec : Z) (fields : list dfield_t) (i : Z)
    (m : mem) (end_offset : Z) : mem * Z :=
  match fields with
  | [] => (m, end_offset)
  | field :: rest =>
    let '(m, end_offset, ored_offset) :=
      if dfield_is_null field then
        let len := dtype_get_sql_null_size (dfield_type field) 0 in
        let m := data_write_sql_null m (rec + end_offset) len in
        (m, end_offset + len, Z.lor (end_offset + len) REC_1BYTE_SQL_NULL_MASK)
      else
        let len := dfield_len field in
        let m := memcpy m (rec + end_offset) (dfield_data field) len in
        (m, end_offset + len, end_offset + len) in
    old_store_fields_1 rec rest (i + 1)
      (rec_1_set_field_end_info m rec i ored_offset) end_offset
  end.

Fixpoint old_store_fields_2 (rec : Z) (fields : list dfield_t) (i : Z)
    (m : mem) (end_offset : Z) : mem * Z :=
  match fields with
  | [] => (m, end_offset)
  | field :: rest =>
    let '(m, end_offset, ored_offset) :=
      if dfield_is_null field then
        let len := dtype_get_sql_null_size (dfield_type field) 0 in
        let m := data_write_sql_null m (rec + end_offset) len in
        (m, end_offset + len, Z.lor (end_offset + len) REC_2BYTE_SQL_NULL_MASK)
      else
        let len := dfield_len field in
        let m := memcpy m (rec + end_offset) (dfield_data field) len in
        let ored_offset := end_offset + len in
        (m, end_offset + len,
         if dfield_ext field then Z.lor ored_offset REC_2BYTE_EXTERN_MASK
         else ored_offset) in
    old_store_fields_2 rec rest (i + 1)
      (rec_2_set_field_end_info m rec i ored_offset) end_offset
  end.

Definition rec_convert_dtuple_to_rec_old (m : mem) (buf : Z)
    (dtuple : dtuple_t) (n_ext : Z) : mem * Z :=
  let n_fields := dtuple_n_fields dtuple in
  let data_size := dtuple_get_data_size dtuple 0 in
  let rec := buf + rec_get_converted_extra_size data_size n_fields n_ext in
  let m := rec_set_n_fields_old m rec n_fields in
  let m := rec_set_info_bits_old m rec
             (Z.land (dtuple_info_bits dtuple) REC_INFO_BITS_MASK) in
  if (n_ext =? 0) && (data_size <=? REC_1BYTE_OFFS_LIMIT) then
    let m := rec_set_1byte_offs_flag m rec 1 in
    (fst (old_store_fields_1 rec (dtuple_fields dtuple) 0 m 0), rec)
  else
    let m := rec_set_1byte_offs_flag m rec 0 in
    (fst (old_store_fields_2 rec (dtuple_fields dtuple) 0 m 0), rec).

(** [rec_convert_dtuple_to_rec(buf, index, dtuple, n_ext)]: the frame after
    the call and the origin of the record. *)
Definition rec_convert_dtuple_to_rec (m : mem) (buf : Z) (index : dict_index_t)
    (dtuple : dtuple_t) (n_ext : Z) : option (mem * Z) :=
  if dict_table_is_comp index
  then rec_convert_dtuple_to_rec_new m buf index dtuple
  else Some (rec_convert_dtuple_to_rec_old m buf dtuple n_ext).

(** *** Properties of the codec *)

Lemma read1_memcpy_out m dst src n a :
  a < dst \/ dst + n <= a ->
  mach_read_from_1 (memcpy m dst src n) a = mach_read_from_1 m a.
Proof. intros H. apply read1_ext. now apply memcpy_out. Qed.

Lemma read1_memset_out m s c n a :
  a < s \/ s + n <= a ->
  mach_read_from_1 (memset m s c n) a = mach_read_from_1 m a.
Proof. intros H. apply read1_ext. now apply memset_out. Qed.

Lemma lor_0xc0 x : 0 <= x < 64 -> Z.lor x 0xc0 = x + 192.
Proof.
  intros H. rewrite Z.lor_comm.
  change (Z.lor 0xc0 x) with (Z.lor (Z.shiftl 3 6) x).
  rewrite lor_shiftl_add by (change (2 ^ 6) with 64; lia).
  change (2 ^ 6) with 64. lia.
Qed.

Lemma lor_0x80 x : 0 <= x < 64 -> Z.lor x 0x80 = x + 128.
Proof.
  intros H. rewrite Z.lor_comm.
  change (Z.lor 0x80 x) with (Z.lor (Z.shiftl 2 6) x).
  rewrite lor_shiftl_add by (change (2 ^ 6) with 64; lia).
  change (2 ^ 6) with 64. lia.
Qed.

Lemma land_0x80 x : 0 <= x < 256 -> Z.land x 0x80 = if x <? 128 then 0 else 128.
Proof.
  intros H. change 0x80 with (2 ^ 7). rewrite land_pow2 by lia.
  unfold fld. change (2 ^ 7) with 128. change (2 ^ 1) with 2.
  destruct (Z.ltb_spec x 128); div_mod_eqs; lia.
Qed.

Lemma land_0x3fff x : 0 <= x -> Z.land x 0x3fff = x mod 16384.
Proof.
  intros H. change 0x3fff with (Z.ones 14). now rewrite Z.land_ones by lia.
Qed.

Lemma land_0x4000 x :
  0 <= x < 65536 ->
  Z.land x 0x4000 = if (x mod 32768) <? 16384 then 0 else 16384.
Proof.
  intros H. change 0x4000 with (2 ^ 14). rewrite land_pow2 by lia.
  unfold fld. change (2 ^ 14) with 16384. change (2 ^ 1) with 2.
  destruct (Z.ltb_spec (x mod 32768) 16384); div_mod_eqs; lia.
Qed.

Lemma testbit_7 b : 0 <= b < 256 -> Z.testbit b 7 = (128 <=? b).
Proof.
  intros H. rewrite Z.testbit_eqb by lia. change (2 ^ 7) with 128.
  destruct (Z.leb_spec 128 b).
  - apply Z.eqb_eq. div_mod_eqs. lia.
  - apply Z.eqb_neq. div_mod_eqs. lia.
Qed.

Lemma testbit_6 b : 0 <= b < 256 -> Z.testbit b 6 = (64 <=? b mod 128).
Proof.
  intros H. rewrite Z.testbit_eqb by lia. change (2 ^ 6) with 64.
  destruct (Z.leb_spec 64 (b mod 128)).
  - apply Z.eqb_eq. div_mod_eqs. lia.
  - apply Z.eqb_neq. div_mod_eqs. lia.
Qed.

(** **** Tuples that respect an index *)

Definition nullable (prtype : Z) : bool := negb (is_not_null prtype).

(** [dict_col_type_assert_equal(col, type)]. *)
Definition type_matches (col : dict_col_t) (t : dtype_t) : bool :=
  (dtype_prtype t =? col_prtype col) && (dtype_mtype t =? col_mtype col)
  && (dtype_len t =? col_len col).

(** A tuple field respects a field of a ROW_FORMAT=COMPACT index: the types
    agree; only a nullable column holds an SQL null; a fixed-length column
    holds exactly [fixed_len] bytes, in the record; only a big column is
    stored externally; and a column that is not big holds at most 255
    bytes. *)
Definition field_fits_comp (ifield : dict_field_t) (f : dfield_t) : bool :=
  let col := field_col ifield in
  type_matches col (dfield_type f) && (0 <=? fixed_len ifield)
  && if dfield_is_null f
     then nullable (col_prtype col) && negb (dfield_ext f)
     else (0 <=? dfield_len f)
          && (Z.of_nat (length (dfield_data f)) =? dfield_len f)
          && if fixed_len ifield =? 0
             then implb (dfield_ext f) (DATA_BIG_COL col)
                  && (DATA_BIG_COL col || (dfield_len f <=? 255))
             else (dfield_len f =? fixed_len ifield) && negb (dfield_ext f).

(** The bytes of the length prefix and of the data of a field. *)
Definition comp_len_bytes (ifield : dict_field_t) (f : dfield_t) : Z :=
  if dfield_is_null f then 0
  else if negb (fixed_len ifield =? 0) then 0
  else if dfield_ext f then 2
  else if (dfield_len f <? 128) || negb (DATA_BIG_COL (field_col ifield)) then 1
  else 2.

Definition comp_data_len (f : dfield_t) : Z :=
  if dfield_is_null f then 0 else dfield_len f.

(** The element of the offsets array for a field that ends at [offs]. *)
Definition offs_entry (ifield : dict_field_t) (f : dfield_t) (offs : Z) : Z :=
  if dfield_is_null f then Z.lor offs REC_OFFS_SQL_NULL
  else if (fixed_len ifield =? 0) && dfield_ext f
  then Z.lor offs REC_OFFS_EXTERNAL
  else offs.

(** The cursor of the null flags once [p] nullable fields are done: the
    flag of the next one is bit [p mod 8] of the byte [nulls0 - p / 8], and
    the cursor moves to the next byte only when that flag is needed. *)
Definition null_cursor (nulls0 p nulls null_mask : Z) : Prop :=
  (p = 0 /\ nulls = nulls0 /\ null_mask = 1)
  \/ (0 < p /\ nulls = nulls0 - (p - 1) / 8
      /\ null_mask = 2 ^ ((p - 1) mod 8 + 1)).

Definition wrap_nulls (nulls null_mask : Z) : Z :=
  if to_byte null_mask =? 0 then nulls - 1 else nulls.

Definition wrap_mask (null_mask : Z) : Z :=
  if to_byte null_mask =? 0 then 1 else null_mask.

(** The null flag number [q] of a record whose flags start at [nulls0]. *)
Definition null_bit (m : mem) (nulls0 q : Z) : bool :=
  Z.testbit (mach_read_from_1 m (nulls0 - q / 8)) (q mod 8).

Lemma pow2_cases r :
  0 <= r < 8 ->
  r = 0 \/ r = 1 \/ r = 2 \/ r = 3 \/ r = 4 \/ r = 5 \/ r = 6 \/ r = 7.
Proof. lia. Qed.

Lemma null_cursor_wrap nulls0 p nulls null_mask :
  0 <= p -> null_cursor nulls0 p nulls null_mask ->
  wrap_nulls nulls null_mask = nulls0 - p / 8
  /\ wrap_mask null_mask = 2 ^ (p mod 8).
Proof.
  intros Hp [(-> & -> & ->) | (Hpos & -> & ->)].
  - unfold wrap_nulls, wrap_mask. change (to_byte 1 =? 0) with false.
    cbv iota. change (0 / 8) with 0. split; [lia | reflexivity].
  - unfold wrap_nulls, wrap_mask, to_byte.
    assert (Hr : 0 <= (p - 1) mod 8 < 8) by (apply Z.mod_pos_bound; lia).
    assert (Hm : p mod 8 = ((p - 1) mod 8 + 1) mod 8)
      by (div_mod_eqs; lia).
    assert (Hd : p / 8 = (p - 1) / 8 + ((p - 1) mod 8 + 1) / 8)
      by (div_mod_eqs; lia).
    rewrite Hm, Hd. clear Hm Hd. generalize ((p - 1) / 8). intros q.
    destruct (pow2_cases _ Hr) as [E|[E|[E|[E|[E|[E|[E|E]]]]]]]; rewrite E;
      cbn; split; try reflexivity; lia.
Qed.

Lemma null_cursor_next nulls0 p :
  0 <= p ->
  null_cursor nulls0 (p + 1) (nulls0 - p / 8) (Z.shiftl (2 ^ (p mod 8)) 1).
Proof.
  intros Hp. right. replace (p + 1 - 1) with p by lia.
  split; [lia|]. split; [reflexivity|].
  rewrite Z.shiftl_mul_pow2 by lia.
  rewrite Z.pow_add_r by (try lia; apply Z.mod_pos_bound; lia). reflexivity.
Qed.

Lemma wrap_mask_pos nulls0 p nulls null_mask :
  0 <= p -> null_cursor nulls0 p nulls null_mask ->
  exists r, 0 <= r < 8 /\ wrap_mask null_mask = 2 ^ r /\ r = p mod 8.
Proof.
  intros Hp Hc. exists (p mod 8).
  split; [apply Z.mod_pos_bound; lia|].
  split; [apply (null_cursor_wrap _ _ _ _ Hp Hc) | reflexivity].
Qed.

(** The first byte of a length prefix. *)
Definition comp_len_byte1 (ifield : dict_field_t) (f : dfield_t) : Z :=
  let len := dfield_len f in
  if dfield_ext f then len / 256 + 192
  else if (len <? 128) || negb (DATA_BIG_COL (field_col ifield)) then len
  else len / 256 + 128.

Lemma field_fits_comp_inv ifield f :
  field_fits_comp ifield f = true ->
  dtype_prtype (dfield_type f) = col_prtype (field_col ifield)
  /\ dtype_mtype (dfield_type f) = col_mtype (field_col ifield)
  /\ dtype_len (dfield_type f) = col_len (field_col ifield)
  /\ 0 <= fixed_len ifield
  /\ (dfield_is_null f = true -> nullable (col_prtype (field_col ifield)) = true)
  /\ (dfield_is_null f = false ->
      0 <= dfield_len f
      /\ Z.of_nat (length (dfield_data f)) = dfield_len f
      /\ (fixed_len ifield = 0 ->
          (dfield_ext f = true -> DATA_BIG_COL (field_col ifield) = true)
          /\ (DATA_BIG_COL (field_col ifield) = false -> dfield_len f <= 255))
      /\ (fixed_len ifield <> 0 ->
          dfield_len f = fixed_len ifield /\ dfield_ext f = false)).
Proof.
  unfold field_fits_comp. intros H.
  apply andb_prop in H as [H Hrest]. apply andb_prop in H as [Htm Hfl].
  unfold type_matches in Htm.
  apply andb_prop in Htm as [Htm H3]. apply andb_prop in Htm as [H1 H2].
  apply Z.eqb_eq in H1, H2, H3. apply Z.leb_le in Hfl.
  repeat (split; [assumption|]).
  destruct (dfield_is_null f) eqn:En.
  - apply andb_prop in Hrest as [Hrest _]. split; [auto | discriminate].
  - split; [discriminate | intros _].
    apply andb_prop in Hrest as [Hr Hcase]. apply andb_prop in Hr as [Hl0 Hdl].
    apply Z.leb_le in Hl0. apply Z.eqb_eq in Hdl.
    repeat (split; [assumption|]).
    destruct (Z.eqb_spec (fixed_len ifield) 0) as [E|E].
    + split; [intros _ | contradiction].
      apply andb_prop in Hcase as [Hi Hb]. split.
      * intros Hx. now rewrite Hx in Hi.
      * intros Hbig. rewrite Hbig in Hb. now apply Z.leb_le.
    + split; [contradiction | intros _].
      apply andb_prop in Hcase as [Hi Hb]. apply Z.eqb_eq in Hi.
      split; [assumption | now destruct (dfield_ext f)].
Qed.

Lemma field_fits_comp_null_ext ifield f :
  field_fits_comp ifield f = true ->
  dfield_is_null f = true -> dfield_ext f = false.
Proof.
  unfold field_fits_comp. intros H En. rewrite En in H.
  apply andb_prop in H as [_ H]. apply andb_prop in H as [_ H].
  now apply Bool.negb_true_iff.
Qed.

(** Where the null flags of a record start, and where its length prefixes
    start: [nulls] and [lens] before the first field. *)
Definition comp_nulls0 (rec : Z) : Z := rec - (REC_N_NEW_EXTRA_BYTES + 1).

Definition comp_lens0 (index : dict_index_t) (rec : Z) : Z :=
  comp_nulls0 rec - UT_BITS_IN_BYTES (n_nullable index).

Section CompStep.

Variable index : dict_index_t.
Variable rec : Z.

Lemma comp_store_field_cursors f i s :
  let ifield := dict_index_get_nth_field index i in
  field_fits_comp ifield f = true ->
  let s1 := comp_store_field index false f i s in
  e_nulls s1 = (if nullable (col_prtype (field_col ifield))
                then wrap_nulls (e_nulls s) (e_null_mask s) else e_nulls s)
  /\ e_null_mask s1 = (if nullable (col_prtype (field_col ifield))
                       then Z.shiftl (wrap_mask (e_null_mask s)) 1
                       else e_null_mask s)
  /\ e_lens s1 = e_lens s - comp_len_bytes ifield f
  /\ e_end s1 = e_end s + comp_data_len f.
Proof.
  intros ifield Hfit s1.
  destruct (field_fits_comp_inv _ _ Hfit)
    as (Hpr & Hmt & Hln & Hfl & Hnull & Hnn).
  subst s1. unfold comp_store_field, comp_len_bytes, comp_data_len,
    wrap_nulls, wrap_mask.
  fold ifield. rewrite Hpr, Hmt, Hln. fold (DATA_BIG_COL (field_col ifield)).
  fold (nullable (col_prtype (field_col ifield))).
  cbn [andb].
  destruct (dfield_is_null f) eqn:En.
  - rewrite (Hnull eq_refl). cbn [andb e_nulls e_null_mask e_lens e_end].
    repeat split; lia.
  - rewrite Bool.andb_false_r.
    destruct (Z.eqb_spec (fixed_len ifield) 0) as [E0|E0]; cbn [negb].
    + destruct (dfield_ext f);
        [| destruct ((dfield_len f <? 128)
                     || negb (DATA_BIG_COL (field_col ifield)))];
        cbn [e_nulls e_null_mask e_lens e_end];
        destruct (nullable (col_prtype (field_col ifield)));
        cbn [andb]; repeat split; lia.
    + cbn [e_nulls e_null_mask e_lens e_end];
        destruct (nullable (col_prtype (field_col ifield)));
        cbn [andb]; repeat split; lia.
Qed.

Lemma comp_store_field_mem_null f i s :
  let ifield := dict_index_get_nth_field index i in
  field_fits_comp ifield f = true ->
  dfield_is_null f = true ->
  e_mem (comp_store_field index false f i s)
  = mach_write_to_1 (e_mem s) (wrap_nulls (e_nulls s) (e_null_mask s))
      (Z.lor (mach_read_from_1 (e_mem s) (wrap_nulls (e_nulls s) (e_null_mask s)))
             (wrap_mask (e_null_mask s))).
Proof.
  intros ifield Hfit En.
  destruct (field_fits_comp_inv _ _ Hfit)
    as (Hpr & Hmt & Hln & Hfl & Hnull & Hnn).
  unfold comp_store_field, wrap_nulls, wrap_mask.
  fold ifield. rewrite Hpr.
  fold (nullable (col_prtype (field_col ifield))).
  rewrite En, (Hnull En). reflexivity.
Qed.

Lemma comp_store_field_mem_data f i s :
  let ifield := dict_index_get_nth_field index i in
  field_fits_comp ifield f = true ->
  dfield_is_null f = false ->
  dfield_len f < 16384 ->
  exists mL,
    e_mem (comp_store_field index false f i s)
    = memcpy mL (e_end s) (dfield_data f) (dfield_len f)
    /\ (forall a, a <= e_lens s - comp_len_bytes ifield f \/ e_lens s < a ->
                  mL a = e_mem s a)
    /\ (1 <= comp_len_bytes ifield f ->
        mach_read_from_1 mL (e_lens s) = comp_len_byte1 ifield f)
    /\ (comp_len_bytes ifield f = 2 ->
        mach_read_from_1 mL (e_lens s - 1) = dfield_len f mod 256).
Proof.
  intros ifield Hfit En Hlen.
  destruct (field_fits_comp_inv _ _ Hfit)
    as (Hpr & Hmt & Hln & Hfl & Hnull & Hnn).
  destruct (Hnn En) as (Hl0 & Hdl & Hvar & Hfix).
  unfold comp_store_field, comp_len_bytes, comp_len_byte1.
  fold ifield. rewrite Hpr, Hmt, Hln. fold (DATA_BIG_COL (field_col ifield)).
  rewrite En, Bool.andb_false_r. cbn [andb].
  assert (Hq : 0 <= dfield_len f / 256 < 64)
    by (div_mod_eqs; lia).
  destruct (Z.eqb_spec (fixed_len ifield) 0) as [E0|E0]; cbn [negb].
  - destruct (Hvar E0) as (Hext & Hsmall).
    destruct (dfield_ext f) eqn:Ex.
    + eexists. split; [reflexivity|]. split; [|split].
      * intros a Ha. rewrite !write1_other by lia. reflexivity.
      * intros _. rewrite read1_write1_other by lia.
        rewrite read1_write1_same.
        unfold to_byte. rewrite Z.shiftr_div_pow2 by lia.
        change (2 ^ 8) with 256.
        rewrite (Z.mod_small (dfield_len f / 256)) by lia.
        rewrite lor_0xc0 by lia. apply Z.mod_small. lia.
      * intros _. rewrite read1_write1_same. unfold to_byte.
        apply Z.mod_mod. lia.
    + destruct ((dfield_len f <? 128)
                || negb (DATA_BIG_COL (field_col ifield))) eqn:E1.
      * eexists. split; [reflexivity|]. split; [|split].
        -- intros a Ha. rewrite !write1_other by lia. reflexivity.
        -- intros _. rewrite read1_write1_same. unfold to_byte.
           rewrite Z.mod_mod by lia. apply Z.mod_small.
           apply Bool.orb_true_iff in E1. destruct E1 as [E1|E1].
           ++ apply Z.ltb_lt in E1. lia.
           ++ apply Bool.negb_true_iff in E1. specialize (Hsmall E1). lia.
        -- intros H. discriminate.
      * eexists. split; [reflexivity|]. split; [|split].
        -- intros a Ha. rewrite !write1_other by lia. reflexivity.
        -- intros _. rewrite read1_write1_other by lia.
           rewrite read1_write1_same.
           unfold to_byte. rewrite Z.shiftr_div_pow2 by lia.
           change (2 ^ 8) with 256.
           rewrite (Z.mod_small (dfield_len f / 256)) by lia.
           rewrite lor_0x80 by lia. apply Z.mod_small. lia.
        -- intros _. rewrite read1_write1_same. unfold to_byte.
           apply Z.mod_mod. lia.
  - eexists. split; [reflexivity|]. split; [|split].
    + intros a Ha. reflexivity.
    + intros H. lia.
    + intros H. discriminate.
Qed.

Lemma comp_read_length_step m f i offs any_ext nulls lens null_mask offsets :
  let ifield := dict_index_get_nth_field index i in
  field_fits_comp ifield f = true ->
  dfield_is_null f = false ->
  dfield_len f < 16384 ->
  (1 <= comp_len_bytes ifield f ->
   mach_read_from_1 m lens = comp_len_byte1 ifield f) ->
  (comp_len_bytes ifield f = 2 ->
   mach_read_from_1 m (lens - 1) = dfield_len f mod 256) ->
  comp_read_length m false index i offs any_ext nulls lens null_mask offsets
  = mk_dec (offs + dfield_len f)
      (if (fixed_len ifield =? 0) && dfield_ext f
       then REC_OFFS_EXTERNAL else any_ext)
      nulls (lens - comp_len_bytes ifield f) null_mask
      (rec_offs_base_set offsets (i + 1)
         (offs_entry ifield f (offs + dfield_len f))).
Proof.
  intros ifield Hfit En Hlen Hb1 Hb2.
  destruct (field_fits_comp_inv _ _ Hfit)
    as (Hpr & Hmt & Hln & Hfl & Hnull & Hnn).
  destruct (Hnn En) as (Hl0 & Hdl & Hvar & Hfix).
  unfold comp_read_length, resolved. fold ifield.
  unfold offs_entry, comp_len_bytes, comp_len_byte1 in *.
  rewrite En in *. cbn [negb andb orb] in *. rewrite Bool.orb_false_r.
  assert (Hq : 0 <= dfield_len f / 256 < 64)
    by (div_mod_eqs; lia).
  assert (Hm : 0 <= dfield_len f mod 256 < 256)
    by (apply Z.mod_pos_bound; lia).
  destruct (Z.eqb_spec (fixed_len ifield) 0) as [E0|E0]; cbn [negb andb] in *.
  - destruct (Hvar E0) as (Hext & Hsmall).
    destruct (dfield_ext f) eqn:Ex.
    + rewrite (Hext eq_refl). cbn [andb].
      rewrite (Hb1 ltac:(lia)), (Hb2 eq_refl).
      rewrite land_0x80 by lia.
      destruct (Z.ltb_spec (dfield_len f / 256 + 192) 128); [lia|].
      cbn [Z.eqb negb].
      rewrite lor_shiftl_add by (change (2 ^ 8) with 256; lia).
      change (2 ^ 8) with 256.
      rewrite land_0x4000 by lia. rewrite land_0x3fff by lia.
      destruct (Z.ltb_spec
                  (((dfield_len f / 256 + 192) * 256 + dfield_len f mod 256)
                     mod 32768) 16384) as [Hc|Hc];
        [exfalso; div_mod_eqs; lia|].
      cbn [Z.eqb negb].
      replace (((dfield_len f / 256 + 192) * 256 + dfield_len f mod 256)
                 mod 16384) with (dfield_len f)
        by (div_mod_eqs; lia).
      replace (lens - 1 - 1) with (lens - 2) by lia.
      reflexivity.
    + destruct ((dfield_len f <? 128)
                || negb (DATA_BIG_COL (field_col ifield))) eqn:E1.
      * rewrite (Hb1 ltac:(lia)).
        assert (Hskip : DATA_BIG_COL (field_col ifield)
                        && negb (Z.land (dfield_len f) 128 =? 0) = false).
        { destruct (DATA_BIG_COL (field_col ifield)) eqn:Eb; [|reflexivity].
          cbn [andb negb orb] in *. rewrite Bool.orb_false_r in E1.
          apply Z.ltb_lt in E1.
          rewrite land_0x80 by lia.
          destruct (Z.ltb_spec (dfield_len f) 128); [reflexivity | lia]. }
        rewrite Hskip. reflexivity.
      * apply Bool.orb_false_iff in E1. destruct E1 as [E1 E2].
        apply Z.ltb_ge in E1. apply Bool.negb_false_iff in E2.
        rewrite E2. cbn [andb].
        rewrite (Hb1 ltac:(lia)), (Hb2 eq_refl).
        rewrite land_0x80 by lia.
        destruct (Z.ltb_spec (dfield_len f / 256 + 128) 128); [lia|].
        cbn [Z.eqb negb].
        rewrite lor_shiftl_add by (change (2 ^ 8) with 256; lia).
        change (2 ^ 8) with 256.
        rewrite land_0x4000 by lia. rewrite land_0x3fff by lia.
        destruct (Z.ltb_spec
                    (((dfield_len f / 256 + 128) * 256 + dfield_len f mod 256)
                       mod 32768) 16384) as [Hc|Hc];
          [|exfalso; div_mod_eqs; lia].
        cbn [Z.eqb negb].
        replace (((dfield_len f / 256 + 128) * 256 + dfield_len f mod 256)
                   mod 16384) with (dfield_len f)
          by (div_mod_eqs; lia).
        replace (lens - 1 - 1) with (lens - 2) by lia.
        reflexivity.
  - destruct (Hfix E0) as (Hlf & Hex). rewrite Hlf.
    rewrite Z.sub_0_r. reflexivity.
Qed.

Lemma comp_ordinary_field_step m f i d :
  let ifield := dict_index_get_nth_field index i in
  let col := field_col ifield in
  field_fits_comp ifield f = true ->
  comp_data_len f < 16384 ->
  (nullable (col_prtype col) = true ->
   (Z.land (mach_read_from_1 m (wrap_nulls (d_nulls d) (d_null_mask d)))
           (wrap_mask (d_null_mask d)) =? 0) = negb (dfield_is_null f)) ->
  (1 <= comp_len_bytes ifield f ->
   mach_read_from_1 m (d_lens d) = comp_len_byte1 ifield f) ->
  (comp_len_bytes ifield f = 2 ->
   mach_read_from_1 m (d_lens d - 1) = dfield_len f mod 256) ->
  comp_ordinary_field m false index i d
  = mk_dec (d_offs d + comp_data_len f)
      (if negb (dfield_is_null f) && (fixed_len ifield =? 0) && dfield_ext f
       then REC_OFFS_EXTERNAL else d_any_ext d)
      (if nullable (col_prtype col)
       then wrap_nulls (d_nulls d) (d_null_mask d) else d_nulls d)
      (d_lens d - comp_len_bytes ifield f)
      (if nullable (col_prtype col)
       then Z.shiftl (wrap_mask (d_null_mask d)) 1 else d_null_mask d)
      (rec_offs_base_set (d_offsets d) (i + 1)
         (offs_entry ifield f (d_offs d + comp_data_len f))).
Proof.
  intros ifield col Hfit Hlen Hflag Hb1 Hb2.
  destruct (field_fits_comp_inv _ _ Hfit)
    as (Hpr & Hmt & Hln & Hfl & Hnull & Hnn).
  unfold comp_ordinary_field. fold ifield. fold col.
  fold (nullable (col_prtype col)).
  destruct (nullable (col_prtype col)) eqn:Enl; cbn [andb].
  - change (if to_byte (d_null_mask d) =? 0 then d_nulls d - 1 else d_nulls d)
      with (wrap_nulls (d_nulls d) (d_null_mask d)).
    change (if to_byte (d_null_mask d) =? 0 then 1 else d_null_mask d)
      with (wrap_mask (d_null_mask d)).
    rewrite (Hflag eq_refl).
    destruct (dfield_is_null f) eqn:En; cbn [negb andb].
    + unfold resolved, comp_data_len, comp_len_bytes, offs_entry.
      rewrite En. rewrite Z.add_0_r, Z.sub_0_r. reflexivity.
    + unfold comp_data_len in *. rewrite En in *.
      now apply comp_read_length_step.
  - destruct (dfield_is_null f) eqn:En.
    + specialize (Hnull eq_refl). fold col in Hnull. congruence.
    + cbn [negb andb]. unfold comp_data_len in *. rewrite En in *.
      now apply comp_read_length_step.
Qed.

Lemma UT_BITS_IN_BYTES_bound n p :
  0 <= p < n -> p / 8 < UT_BITS_IN_BYTES n.
Proof. unfold UT_BITS_IN_BYTES. intros H. div_mod_eqs. lia. Qed.

Lemma comp_len_bytes_range ifield f : 0 <= comp_len_bytes ifield f <= 2.
Proof.
  unfold comp_len_bytes.
  repeat match goal with |- context [if ?c then _ else _] => destruct c end; lia.
Qed.

(** One turn of the encoder writes the length prefix, the null flag and the
    data of its field, and nothing else. *)
Lemma comp_store_field_frame f i s p :
  let ifield := dict_index_get_nth_field index i in
  let s1 := comp_store_field index false f i s in
  field_fits_comp ifield f = true ->
  comp_data_len f < 16384 ->
  0 <= p ->
  null_cursor (comp_nulls0 rec) p (e_nulls s) (e_null_mask s) ->
  (nullable (col_prtype (field_col ifield)) = true -> p < n_nullable index) ->
  forall a,
    a <= e_lens s1 \/ e_lens s < a ->
    a < e_end s \/ e_end s1 <= a ->
    a <= comp_lens0 index rec \/ comp_nulls0 rec < a ->
    e_mem s1 a = e_mem s a.
Proof.
  intros ifield s1 Hfit Hlen Hp Hcur Hcap a Ha1 Ha2 Ha3.
  destruct (comp_store_field_cursors f i s Hfit) as (_ & _ & HL & HE).
  fold ifield in HL, HE. fold s1 in HL, HE.
  destruct (field_fits_comp_inv _ _ Hfit)
    as (Hpr & Hmt & Hln & Hfl & Hnull & Hnn).
  destruct (dfield_is_null f) eqn:En.
  - subst s1. rewrite (comp_store_field_mem_null f i s Hfit En).
    destruct (null_cursor_wrap _ _ _ _ Hp Hcur) as [Hw _].
    rewrite Hw. apply write1_other.
    pose proof (UT_BITS_IN_BYTES_bound (n_nullable index) p
                  (conj Hp (Hcap (Hnull eq_refl)))).
    assert (0 <= p / 8) by (div_mod_eqs; lia).
    unfold comp_lens0 in *. lia.
  - unfold comp_data_len in *. rewrite En in *.
    destruct (comp_store_field_mem_data f i s Hfit En Hlen)
      as (mL & Hm & HmL & _).
    fold s1 in Hm. rewrite Hm.
    rewrite memcpy_out by lia. apply HmL. fold ifield. lia.
Qed.

Lemma comp_store_field_null_bits f i s p :
  let ifield := dict_index_get_nth_field index i in
  let s1 := comp_store_field index false f i s in
  field_fits_comp ifield f = true ->
  comp_data_len f < 16384 ->
  0 <= p ->
  null_cursor (comp_nulls0 rec) p (e_nulls s) (e_null_mask s) ->
  (nullable (col_prtype (field_col ifield)) = true -> p < n_nullable index) ->
  e_lens s <= comp_lens0 index rec ->
  rec <= e_end s ->
  forall q,
    0 <= q < 8 * UT_BITS_IN_BYTES (n_nullable index) ->
    null_bit (e_mem s1) (comp_nulls0 rec) q
    = if nullable (col_prtype (field_col ifield)) && (q =? p)
      then null_bit (e_mem s) (comp_nulls0 rec) q || dfield_is_null f
      else null_bit (e_mem s) (comp_nulls0 rec) q.
Proof.
  intros ifield s1 Hfit Hlen Hp Hcur Hcap HL HE q Hq.
  destruct (field_fits_comp_inv _ _ Hfit)
    as (Hpr & Hmt & Hln & Hfl & Hnull & Hnn).
  assert (Hq8 : 0 <= q / 8 < UT_BITS_IN_BYTES (n_nullable index))
    by (div_mod_eqs; lia).
  assert (Hqm : 0 <= q mod 8 < 8) by (apply Z.mod_pos_bound; lia).
  unfold null_bit.
  destruct (dfield_is_null f) eqn:En.
  - specialize (Hnull eq_refl). fold ifield in Hnull. rewrite Hnull.
    cbn [andb]. subst s1.
    rewrite (comp_store_field_mem_null f i s Hfit En).
    destruct (null_cursor_wrap _ _ _ _ Hp Hcur) as [Hw Hwm].
    rewrite Hw, Hwm.
    assert (Hpm : 0 <= p mod 8 < 8) by (apply Z.mod_pos_bound; lia).
    destruct (Z.eqb_spec (q / 8) (p / 8)) as [Eb|Eb].
    + rewrite Eb. rewrite read1_write1_same.
      change 256 with (2 ^ 8). rewrite Z.mod_pow2_bits_low by lia.
      rewrite testbit_lor_pow2 by lia.
      destruct (Z.eqb_spec q p) as [Eq|Eq].
      * subst q. rewrite Z.eqb_refl. reflexivity.
      * destruct (Z.eqb_spec (p mod 8) (q mod 8)) as [Em|Em].
        -- exfalso. apply Eq. div_mod_eqs. lia.
        -- now rewrite Bool.orb_false_r.
    + rewrite read1_write1_other by lia.
      destruct (Z.eqb_spec q p) as [Eq|Eq]; [subst; contradiction | reflexivity].
  - rewrite Bool.orb_false_r.
    assert (Hsame : mach_read_from_1 (e_mem s1) (comp_nulls0 rec - q / 8)
                    = mach_read_from_1 (e_mem s) (comp_nulls0 rec - q / 8)).
    { apply read1_ext.
      destruct (comp_store_field_cursors f i s Hfit) as (_ & _ & HL1 & HE1).
      fold ifield in HL1, HE1. fold s1 in HL1, HE1.
      pose proof (comp_len_bytes_range ifield f).
      unfold comp_data_len in *. rewrite En in *.
      destruct (comp_store_field_mem_data f i s Hfit En Hlen)
        as (mL & Hm & HmL & _).
      fold s1 in Hm. rewrite Hm.
      unfold comp_lens0, comp_nulls0, REC_N_NEW_EXTRA_BYTES in *.
      rewrite memcpy_out by lia. apply HmL. fold ifield. lia. }
    rewrite Hsame. now destruct (nullable _ && _).
Qed.

Lemma comp_store_field_data f i s :
  let ifield := dict_index_get_nth_field index i in
  let s1 := comp_store_field index false f i s in
  field_fits_comp ifield f = true ->
  dfield_is_null f = false ->
  dfield_len f < 16384 ->
  forall a, e_end s <= a < e_end s + dfield_len f ->
            e_mem s1 a = nth (Z.to_nat (a - e_end s)) (dfield_data f) x00.
Proof.
  intros ifield s1 Hfit En Hlen a Ha.
  destruct (comp_store_field_mem_data f i s Hfit En Hlen) as (mL & Hm & _).
  fold s1 in Hm. rewrite Hm. now apply memcpy_in.
Qed.

Lemma comp_store_field_len_bytes f i s :
  let ifield := dict_index_get_nth_field index i in
  let s1 := comp_store_field index false f i s in
  field_fits_comp ifield f = true ->
  dfield_is_null f = false ->
  dfield_len f < 16384 ->
  e_lens s < e_end s ->
  (1 <= comp_len_bytes ifield f ->
   mach_read_from_1 (e_mem s1) (e_lens s) = comp_len_byte1 ifield f)
  /\ (comp_len_bytes ifield f = 2 ->
      mach_read_from_1 (e_mem s1) (e_lens s - 1) = dfield_len f mod 256).
Proof.
  intros ifield s1 Hfit En Hlen Hgeo.
  destruct (comp_store_field_mem_data f i s Hfit En Hlen)
    as (mL & Hm & _ & H1 & H2).
  fold s1 in Hm. rewrite Hm.
  split; intros H; rewrite read1_memcpy_out by lia; auto.
Qed.

(** **** The loops over the fields *)

(** The nullable fields, the length prefixes and the data of a list of
    tuple fields that starts at field [i] of the index. *)
Fixpoint n_null_fields (fs : list dfield_t) : Z :=
  match fs with
  | [] => 0
  | f :: rest =>
    (if nullable (dtype_prtype (dfield_type f)) then 1 else 0)
    + n_null_fields rest
  end.

Fixpoint comp_extra_sum (i : Z) (fs : list dfield_t) : Z :=
  match fs with
  | [] => 0
  | f :: rest =>
    comp_len_bytes (dict_index_get_nth_field index i) f
    + comp_extra_sum (i + 1) rest
  end.

Fixpoint comp_data_sum (fs : list dfield_t) : Z :=
  match fs with
  | [] => 0
  | f :: rest => comp_data_len f + comp_data_sum rest
  end.

(** The fields [fs] respect the fields of the index from number [i] on. *)
Definition fits_from (i : Z) (fs : list dfield_t) : Prop :=
  forall j f, nth_error fs j = Some f ->
    field_fits_comp (dict_index_get_nth_field index (i + Z.of_nat j)) f = true.

Lemma fits_from_cons i f fs :
  fits_from i (f :: fs) ->
  field_fits_comp (dict_index_get_nth_field index i) f = true
  /\ fits_from (i + 1) fs.
Proof.
  intros H. split.
  - specialize (H 0%nat f eq_refl). now rewrite Z.add_0_r in H.
  - intros j g Hj. specialize (H (S j) g Hj).
    now replace (i + 1 + Z.of_nat j) with (i + Z.of_nat (S j)) by lia.
Qed.

Lemma comp_data_len_nonneg ifield f :
  field_fits_comp ifield f = true -> 0 <= comp_data_len f.
Proof.
  intros Hfit. destruct (field_fits_comp_inv _ _ Hfit) as (_ & _ & _ & _ & _ & Hnn).
  unfold comp_data_len. destruct (dfield_is_null f); [lia|].
  now destruct (Hnn eq_refl).
Qed.

Lemma comp_data_sum_nonneg i fs : fits_from i fs -> 0 <= comp_data_sum fs.
Proof.
  revert i. induction fs as [|f fs IH]; intros i H; simpl; [lia|].
  destruct (fits_from_cons _ _ _ H) as [Hf Hr].
  pose proof (comp_data_len_nonneg _ _ Hf). specialize (IH _ Hr). lia.
Qed.

Lemma n_null_fields_nonneg fs : 0 <= n_null_fields fs.
Proof. induction fs; simpl; [lia|]. destruct (nullable _); lia. Qed.

Lemma comp_extra_sum_nonneg i fs : 0 <= comp_extra_sum i fs.
Proof.
  revert i. induction fs as [|f fs IH]; intros i; simpl; [lia|].
  pose proof (comp_len_bytes_range (dict_index_get_nth_field index i) f).
  specialize (IH (i + 1)). lia.
Qed.

(** What holds of the cursors of the encoder between two fields, [p] of
    them nullable so far. *)
Record enc_inv (p : Z) (s : enc_t) : Prop := mk_enc_inv {
  inv_p : 0 <= p;
  inv_cursor : null_cursor (comp_nulls0 rec) p (e_nulls s) (e_null_mask s);
  inv_lens : e_lens s <= comp_lens0 index rec;
  inv_end : rec <= e_end s
}.

Lemma comp_store_field_inv f i s p :
  let ifield := dict_index_get_nth_field index i in
  field_fits_comp ifield f = true ->
  enc_inv p s ->
  enc_inv (p + (if nullable (dtype_prtype (dfield_type f)) then 1 else 0))
    (comp_store_field index false f i s).
Proof.
  intros ifield Hfit [Hp Hcur HL HE].
  destruct (comp_store_field_cursors f i s Hfit) as (Hn & Hm & HL1 & HE1).
  fold ifield in Hn, Hm, HL1, HE1.
  destruct (field_fits_comp_inv _ _ Hfit) as (Hpr & _).
  rewrite Hpr.
  pose proof (comp_len_bytes_range ifield f).
  pose proof (comp_data_len_nonneg _ _ Hfit).
  destruct (null_cursor_wrap _ _ _ _ Hp Hcur) as [Hw Hwm].
  constructor; try lia.
  - destruct (nullable _); lia.
  - rewrite Hn, Hm. destruct (nullable (col_prtype (field_col ifield))).
    + rewrite Hw, Hwm. now apply null_cursor_next.
    + now rewrite Z.add_0_r.
Qed.

Lemma comp_store_fields_frame fs : forall i p s npf,
  enc_inv p s ->
  fits_from i fs ->
  comp_data_sum fs < 16384 ->
  p + n_null_fields fs <= n_nullable index ->
  i + Z.of_nat (length fs) <= npf ->
  let s_f := comp_store_fields index false npf fs i s in
  enc_inv (p + n_null_fields fs) s_f
  /\ e_lens s_f = e_lens s - comp_extra_sum i fs
  /\ e_end s_f = e_end s + comp_data_sum fs
  /\ (forall a,
        a <= e_lens s_f \/ e_lens s < a ->
        a < e_end s \/ e_end s_f <= a ->
        a <= comp_lens0 index rec \/ comp_nulls0 rec < a ->
        e_mem s_f a = e_mem s a)
  /\ (forall q, 0 <= q < p ->
        null_bit (e_mem s_f) (comp_nulls0 rec) q
        = null_bit (e_mem s) (comp_nulls0 rec) q).
Proof.
  induction fs as [|f fs IH]; intros i p s npf Hinv Hfits Hsum Hcap Hnpf s_f.
  - subst s_f. simpl. rewrite Z.add_0_r.
    split; [assumption|]. repeat split; auto; lia.
  - destruct (fits_from_cons _ _ _ Hfits) as [Hf Hr].
    pose proof (comp_data_len_nonneg _ _ Hf) as Hd0.
    pose proof (comp_data_sum_nonneg _ _ Hr) as Hs0.
    pose proof (n_null_fields_nonneg fs) as Hn0.
    pose proof (comp_extra_sum_nonneg (i + 1) fs) as He0.
    pose proof (comp_len_bytes_range (dict_index_get_nth_field index i) f) as Hlb.
    simpl in Hsum, Hcap, Hnpf.
    destruct (field_fits_comp_inv _ _ Hf) as (Hpr & _).
    subst s_f. cbn [comp_store_fields].
    destruct (Z.eqb_spec i npf) as [E|E]; [lia|].
    set (s1 := comp_store_field index false f i s).
    pose proof (comp_store_field_inv f i s p Hf Hinv) as Hinv1. fold s1 in Hinv1.
    destruct (comp_store_field_cursors f i s Hf) as (_ & _ & HL1 & HE1).
    fold s1 in HL1, HE1.
    destruct (IH (i + 1)
                (p + (if nullable (dtype_prtype (dfield_type f)) then 1 else 0))
                s1 npf Hinv1 Hr ltac:(lia) ltac:(lia) ltac:(lia))
      as (Hinvf & HLf & HEf & Hframe & Hbits).
    simpl. split; [|split; [|split; [|split]]].
    + now rewrite Z.add_assoc.
    + lia.
    + lia.
    + intros a Ha1 Ha2 Ha3. rewrite Hframe by lia.
      destruct Hinv as [Hp Hcur HL HE].
      apply (comp_store_field_frame f i s p Hf ltac:(lia) Hp Hcur);
        fold s1; try lia.
      intros Hnl. rewrite <- Hpr in Hnl. rewrite Hnl in Hcap. lia.
    + intros q Hq. rewrite Hbits by (destruct (nullable _); lia).
      destruct Hinv as [Hp Hcur HL HE].
      fold s1.
      rewrite (comp_store_field_null_bits f i s p Hf ltac:(lia) Hp Hcur); try lia.
      * destruct (Z.eqb_spec q p); [lia|]. now rewrite Bool.andb_false_r.
      * intros Hnl. rewrite <- Hpr in Hnl. rewrite Hnl in Hcap. lia.
      * assert (Hpn : p <= n_nullable index) by (destruct (nullable _); lia).
        pose proof (UT_BITS_IN_BYTES_bound (n_nullable index) q ltac:(lia)).
        div_mod_eqs. lia.
Qed.

(** [k] turns of a decoding loop, from field [i] on. *)
Fixpoint dec_iter (body : Z -> dec_t -> dec_t) (k : nat) (i : Z) (d : dec_t) : dec_t :=
  match k with
  | O => d
  | S k' => dec_iter body k' (i + 1) (body i d)
  end.

Lemma do_while_fields_iter body k : forall n i d,
  i < n -> n - i - 1 <= Z.of_nat k ->
  do_while_fields body k n i d = dec_iter body (Z.to_nat (n - i)) i d.
Proof.
  induction k as [|k IH]; intros n i d Hi Hk.
  - replace (n - i) with 1 by lia. reflexivity.
  - cbn [do_while_fields].
    destruct (Z.ltb_spec (i + 1) n) as [Hlt|Hge].
    + rewrite IH by lia.
      replace (Z.to_nat (n - i)) with (S (Z.to_nat (n - (i + 1)))) by lia.
      reflexivity.
    + replace (n - i) with 1 by lia. reflexivity.
Qed.

Lemma rec_offs_base_set_same offsets k v :
  rec_offs_base (rec_offs_base_set offsets k v) k = v.
Proof. unfold rec_offs_base, rec_offs_base_set, arr_set. now rewrite Z.eqb_refl. Qed.

Lemma arr_set_other a i v k : k <> i -> arr_set a i v k = a k.
Proof.
  intros H. unfold arr_set. destruct (Z.eqb_spec k i); [contradiction|reflexivity].
Qed.

Fixpoint dec_iter_opt (body : Z -> dec_t -> option dec_t) (k : nat) (i : Z)
    (d : dec_t) : option dec_t :=
  match k with
  | O => Some d
  | S k' =>
    match body i d with
    | None => None
    | Some d' => dec_iter_opt body k' (i + 1) d'
    end
  end.

Lemma do_while_fields_opt_iter body k : forall n i d,
  i < n -> n - i - 1 <= Z.of_nat k ->
  do_while_fields_opt body k n i d = dec_iter_opt body (Z.to_nat (n - i)) i d.
Proof.
  induction k as [|k IH]; intros n i d Hi Hk.
  - replace (n - i) with 1 by lia. change (Z.to_nat 1) with 1%nat.
    cbn [do_while_fields_opt dec_iter_opt]. now destruct (body i d).
  - cbn [do_while_fields_opt].
    destruct (Z.ltb_spec (i + 1) n) as [Hlt|Hge].
    + replace (Z.to_nat (n - i)) with (S (Z.to_nat (n - (i + 1)))) by lia.
      cbn [dec_iter_opt]. destruct (body i d); [|reflexivity].
      now rewrite IH by lia.
    + replace (n - i) with 1 by lia. change (Z.to_nat 1) with 1%nat.
      cbn [dec_iter_opt]. now destruct (body i d).
Qed.

Lemma dec_iter_opt_app body k1 k2 : forall i d,
  dec_iter_opt body (k1 + k2) i d
  = match dec_iter_opt body k1 i d with
    | None => None
    | Some d' => dec_iter_opt body k2 (i + Z.of_nat k1) d'
    end.
Proof.
  induction k1 as [|k1 IH]; intros i d.
  - cbn. now rewrite Z.add_0_r.
  - cbn [Nat.add dec_iter_opt]. destruct (body i d); [|reflexivity].
    rewrite IH. replace (i + 1 + Z.of_nat k1) with (i + Z.of_nat (S k1)) by lia.
    reflexivity.
Qed.

(** Away from the node pointer field, the loop of [rec_init_offsets] does
    what the loop for ordinary records does, unless it meets the flag of an
    externally stored field. *)
Lemma node_ptr_field_cases m npf i d :
  i <> npf ->
  node_ptr_field m index npf i d = Some (comp_ordinary_field m false index i d)
  \/ (node_ptr_field m index npf i d = None
      /\ d_any_ext (comp_ordinary_field m false index i d) = REC_OFFS_EXTERNAL).
Proof.
  intros Hi. unfold node_ptr_field, comp_ordinary_field, comp_read_length.
  destruct (Z.eqb_spec i npf); [contradiction|].
  cbn [andb]. rewrite Bool.orb_false_r.
  repeat match goal with
         | |- context [if ?c then _ else _] => destruct c eqn:?
         end; auto.
Qed.

(** Decoding what the encoder stored, field by field: the decoder runs on a
    frame [m_fin] that holds the header the encoder left. *)
Lemma comp_fields_roundtrip fs : forall i p s d npf m_fin,
  enc_inv p s ->
  fits_from i fs ->
  comp_data_sum fs < 16384 ->
  p + n_null_fields fs <= n_nullable index ->
  i + Z.of_nat (length fs) <= npf ->
  (forall q, p <= q < 8 * UT_BITS_IN_BYTES (n_nullable index) ->
             null_bit (e_mem s) (comp_nulls0 rec) q = false) ->
  d_nulls d = e_nulls s -> d_null_mask d = e_null_mask s ->
  d_lens d = e_lens s ->
  let s_f := comp_store_fields index false npf fs i s in
  (forall a, e_lens s_f < a <= comp_nulls0 rec -> m_fin a = e_mem s_f a) ->
  let d_f := dec_iter (comp_ordinary_field m_fin false index) (length fs) i d in
  d_lens d_f = e_lens s_f
  /\ d_nulls d_f = e_nulls s_f
  /\ d_null_mask d_f = e_null_mask s_f
  /\ d_offs d_f = d_offs d + comp_data_sum fs
  /\ (forall j f, nth_error fs j = Some f ->
        rec_offs_base (d_offsets d_f) (i + Z.of_nat j + 1)
        = offs_entry (dict_index_get_nth_field index (i + Z.of_nat j)) f
            (d_offs d + comp_data_sum (firstn (S j) fs)))
  /\ (forall k, k < REC_OFFS_HEADER_SIZE + i + 1 ->
                d_offsets d_f k = d_offsets d k)
  /\ (forallb (fun f => negb (dfield_ext f)) fs = true ->
      d_any_ext d = 0 ->
      dec_iter_opt (node_ptr_field m_fin index npf) (length fs) i d = Some d_f
      /\ d_any_ext d_f = 0).
Proof.
  induction fs as [|f fs IH];
    intros i p s d npf m_fin Hinv Hfits Hsum Hcap Hnpf Hclear Hdn Hdm Hdl s_f
      Hfin d_f.
  - subst s_f d_f. simpl. rewrite Z.add_0_r.
    repeat split; auto. intros j f Hj. destruct j; discriminate.
  - destruct (fits_from_cons _ _ _ Hfits) as [Hf Hr].
    pose proof (comp_data_len_nonneg _ _ Hf) as Hd0.
    pose proof (comp_data_sum_nonneg _ _ Hr) as Hs0.
    pose proof (n_null_fields_nonneg fs) as Hn0.
    pose proof (comp_extra_sum_nonneg (i + 1) fs) as He0.
    pose proof (comp_len_bytes_range (dict_index_get_nth_field index i) f) as Hlb.
    simpl in Hsum, Hcap, Hnpf.
    assert (Hnn0 : 0 <= n_nullable index)
      by (destruct Hinv; destruct (nullable _); lia).
    assert (HNB : 0 <= UT_BITS_IN_BYTES (n_nullable index))
      by (unfold UT_BITS_IN_BYTES; div_mod_eqs; lia).
    destruct (field_fits_comp_inv _ _ Hf) as (Hpr & _ & _ & _ & Hnull & Hnn).
    set (ifield := dict_index_get_nth_field index i) in *.
    set (nl := nullable (dtype_prtype (dfield_type f))) in *.
    assert (Hnl : nullable (col_prtype (field_col ifield)) = nl)
      by (subst nl; now rewrite Hpr).
    set (p1 := p + (if nl then 1 else 0)) in *.
    set (s1 := comp_store_field index false f i s).
    assert (Hsf : s_f = comp_store_fields index false npf fs (i + 1) s1).
    { subst s_f. cbn [comp_store_fields].
      destruct (Z.eqb_spec i npf); [lia | reflexivity]. }
    pose proof (comp_store_field_inv f i s p Hf Hinv) as Hinv1.
    fold s1 nl p1 in Hinv1.
    destruct (comp_store_field_cursors f i s Hf) as (Hn1 & Hm1 & HL1 & HE1).
    fold s1 ifield in Hn1, Hm1, HL1, HE1. rewrite Hnl in Hn1, Hm1.
    destruct (comp_store_fields_frame fs (i + 1) p1 s1 npf Hinv1 Hr
                ltac:(lia) ltac:(subst p1; lia) ltac:(lia))
      as (Hinvf & HLf & HEf & Hframe & Hbits).
    rewrite <- Hsf in Hinvf, HLf, HEf, Hframe, Hbits.
    destruct Hinv as [Hp Hcur HL HE].
    assert (Hcapp : nl = true -> p < n_nullable index)
      by (intros E; subst p1; rewrite E in Hcap; lia).
    destruct (null_cursor_wrap _ _ _ _ Hp Hcur) as [Hw Hwm].
    (* the step of the decoder *)
    assert (Hstep :
      comp_ordinary_field m_fin false index i d
      = mk_dec (d_offs d + comp_data_len f)
          (if negb (dfield_is_null f) && (fixed_len ifield =? 0) && dfield_ext f
           then REC_OFFS_EXTERNAL else d_any_ext d)
          (e_nulls s1) (e_lens s1) (e_null_mask s1)
          (rec_offs_base_set (d_offsets d) (i + 1)
             (offs_entry ifield f (d_offs d + comp_data_len f)))).
    { rewrite (comp_ordinary_field_step m_fin f i d Hf ltac:(lia)).
      - fold ifield. rewrite Hnl, Hdn, Hdm, Hdl, Hn1, Hm1, HL1. reflexivity.
      - fold ifield. rewrite Hnl. intros E. specialize (Hcapp E).
        rewrite Hdn, Hdm, Hw, Hwm.
        assert (Hpm : 0 <= p mod 8 < 8) by (apply Z.mod_pos_bound; lia).
        rewrite land_pow2_eqb by lia. f_equal.
        pose proof (UT_BITS_IN_BYTES_bound (n_nullable index) p ltac:(lia)) as Hb.
        assert (Hp8 : 0 <= p / 8) by (div_mod_eqs; lia).
        assert (Hrange : 0 <= p < 8 * UT_BITS_IN_BYTES (n_nullable index))
          by (div_mod_eqs; lia).
        rewrite (read1_ext m_fin (e_mem s_f)).
        2:{ apply Hfin. unfold comp_lens0 in *. lia. }
        change (Z.testbit (mach_read_from_1 (e_mem s_f) (comp_nulls0 rec - p / 8))
                  (p mod 8)) with (null_bit (e_mem s_f) (comp_nulls0 rec) p).
        rewrite Hbits by (subst p1; rewrite E; lia).
        subst s1.
        rewrite (comp_store_field_null_bits f i s p Hf ltac:(lia) Hp Hcur);
          try assumption.
        + fold ifield. rewrite Hnl, E, Z.eqb_refl. cbn [andb].
          rewrite Hclear by lia. reflexivity.
        + fold ifield. rewrite Hnl. intros _. assumption.
      - fold ifield. intros Hge1.
        destruct (dfield_is_null f) eqn:En;
          [unfold comp_len_bytes in Hge1; rewrite En in Hge1; lia|].
        unfold comp_data_len in *. rewrite En in *.
        rewrite Hdl. rewrite (read1_ext m_fin (e_mem s_f)).
        2:{ apply Hfin. unfold comp_lens0, comp_nulls0 in *.
            lia. }
        rewrite (read1_ext (e_mem s_f) (e_mem s1)).
        2:{ apply Hframe; unfold comp_lens0, comp_nulls0,
              REC_N_NEW_EXTRA_BYTES in *; lia. }
        apply (comp_store_field_len_bytes f i s Hf En ltac:(lia)).
        * unfold comp_lens0, comp_nulls0, REC_N_NEW_EXTRA_BYTES in *.
          lia.
        * assumption.
      - fold ifield. intros H2.
        destruct (dfield_is_null f) eqn:En;
          [unfold comp_len_bytes in H2; rewrite En in H2; lia|].
        unfold comp_data_len in *. rewrite En in *.
        rewrite Hdl. rewrite (read1_ext m_fin (e_mem s_f)).
        2:{ apply Hfin. unfold comp_lens0, comp_nulls0 in *.
            lia. }
        rewrite (read1_ext (e_mem s_f) (e_mem s1)).
        2:{ apply Hframe; unfold comp_lens0, comp_nulls0,
              REC_N_NEW_EXTRA_BYTES in *; lia. }
        apply (comp_store_field_len_bytes f i s Hf En ltac:(lia)).
        * unfold comp_lens0, comp_nulls0, REC_N_NEW_EXTRA_BYTES in *.
          lia.
        * assumption. }
    (* the fields that follow *)
    assert (Hclear1 : forall q,
              p1 <= q < 8 * UT_BITS_IN_BYTES (n_nullable index) ->
              null_bit (e_mem s1) (comp_nulls0 rec) q = false).
    { intros q Hq. subst s1.
      rewrite (comp_store_field_null_bits f i s p Hf ltac:(lia) Hp Hcur);
        try assumption.
      - fold ifield. rewrite Hnl.
        assert (Hqp : nl && (q =? p) = false).
        { destruct nl; [|reflexivity]. subst p1.
          destruct (Z.eqb_spec q p); [lia | reflexivity]. }
        rewrite Hqp. apply Hclear. subst p1. destruct nl; lia.
      - fold ifield. rewrite Hnl. assumption.
      - subst p1. destruct nl; lia. }
    subst d_f. cbn [dec_iter length]. rewrite Hstep.
    match goal with
    | |- context [dec_iter _ _ _ ?d1] => set (d1' := d1)
    end.
    destruct (IH (i + 1) p1 s1 d1' npf m_fin Hinv1 Hr ltac:(lia)
                ltac:(subst p1; lia) ltac:(lia) Hclear1 eq_refl eq_refl eq_refl
                ltac:(rewrite <- Hsf; exact Hfin))
      as (R1 & R2 & R3 & R4 & R5 & R6 & R7).
    rewrite <- Hsf in R1, R2, R3.
    split; [exact R1|]. split; [exact R2|]. split; [exact R3|].
    split; [rewrite R4; subst d1'; cbn [d_offs comp_data_sum]; lia|].
    split; [|split].
    + intros j g Hj. destruct j as [|j].
      * injection Hj as <-. cbn [Z.of_nat]. rewrite Z.add_0_r.
        unfold rec_offs_base. rewrite R6 by lia.
        subst d1'. cbn [d_offsets firstn comp_data_sum].
        fold (rec_offs_base
                (rec_offs_base_set (d_offsets d) (i + 1)
                   (offs_entry ifield f (d_offs d + comp_data_len f))) (i + 1)).
        rewrite rec_offs_base_set_same. now rewrite Z.add_0_r.
      * cbn [nth_error] in Hj. specialize (R5 j g Hj).
        replace (i + Z.of_nat (S j)) with (i + 1 + Z.of_nat j) by lia.
        rewrite R5. subst d1'. cbn [d_offs].
        change (firstn (S (S j)) (f :: fs)) with (f :: firstn (S j) fs).
        cbn [comp_data_sum]. now rewrite Z.add_assoc.
    + intros k Hk. rewrite R6 by lia. subst d1'. cbn [d_offsets].
      unfold rec_offs_base_set. apply arr_set_other. lia.
    + intros Hne Hany. cbn [forallb] in Hne.
      apply andb_prop in Hne as [Hx Hne]. apply Bool.negb_true_iff in Hx.
      assert (Hany1 : d_any_ext d1' = 0).
      { subst d1'. cbn [d_any_ext]. rewrite Hx, Bool.andb_false_r. exact Hany. }
      destruct (R7 Hne Hany1) as [R7a R7b]. split; [|exact R7b].
      cbn [dec_iter_opt].
      destruct (node_ptr_field_cases m_fin npf i d ltac:(lia)) as [Hc|[Hc Hc']].
      * rewrite Hc, Hstep. exact R7a.
      * exfalso. rewrite Hstep in Hc'. cbn [d_any_ext] in Hc'.
        rewrite Hx, Bool.andb_false_r, Hany in Hc'. discriminate.
Qed.

(** The data of every field lies where the offsets say, in the order of the
    fields. *)
Lemma comp_store_fields_data fs : forall i p s npf,
  enc_inv p s ->
  fits_from i fs ->
  comp_data_sum fs < 16384 ->
  p + n_null_fields fs <= n_nullable index ->
  i + Z.of_nat (length fs) <= npf ->
  let s_f := comp_store_fields index false npf fs i s in
  forall j f, nth_error fs j = Some f ->
    dfield_is_null f = false ->
    forall a,
      e_end s + comp_data_sum (firstn j fs) <= a
        < e_end s + comp_data_sum (firstn j fs) + dfield_len f ->
      e_mem s_f a
      = nth (Z.to_nat (a - (e_end s + comp_data_sum (firstn j fs))))
          (dfield_data f) x00.
Proof.
  induction fs as [|f fs IH]; intros i p s npf Hinv Hfits Hsum Hcap Hnpf s_f
    j g Hj Hg a Ha.
  - destruct j; discriminate.
  - destruct (fits_from_cons _ _ _ Hfits) as [Hf Hr].
    pose proof (comp_data_len_nonneg _ _ Hf) as Hd0.
    pose proof (comp_data_sum_nonneg _ _ Hr) as Hs0.
    pose proof (n_null_fields_nonneg fs) as Hn0.
    pose proof (comp_len_bytes_range (dict_index_get_nth_field index i) f) as Hlb.
    simpl in Hsum, Hcap, Hnpf.
    assert (Hnn0 : 0 <= n_nullable index)
      by (destruct Hinv; destruct (nullable _); lia).
    assert (HNB : 0 <= UT_BITS_IN_BYTES (n_nullable index))
      by (unfold UT_BITS_IN_BYTES; div_mod_eqs; lia).
    set (s1 := comp_store_field index false f i s).
    assert (Hsf : s_f = comp_store_fields index false npf fs (i + 1) s1).
    { subst s_f. cbn [comp_store_fields].
      destruct (Z.eqb_spec i npf); [lia | reflexivity]. }
    pose proof (comp_store_field_inv f i s p Hf Hinv) as Hinv1. fold s1 in Hinv1.
    destruct (comp_store_field_cursors f i s Hf) as (_ & _ & HL1 & HE1).
    fold s1 in HL1, HE1.
    assert (Hcap1 : p + (if nullable (dtype_prtype (dfield_type f)) then 1 else 0)
                    + n_null_fields fs <= n_nullable index) by lia.
    destruct j as [|j].
    + injection Hj as <-. cbn [firstn comp_data_sum] in *.
      destruct (comp_store_fields_frame fs (i + 1) _ s1 npf Hinv1 Hr
                  ltac:(lia) Hcap1 ltac:(lia))
        as (_ & HLf & HEf & Hframe & _).
      rewrite <- Hsf in HLf, HEf, Hframe.
      unfold comp_data_len in *. rewrite Hg in *.
      destruct Hinv as [Hp Hcur HL HE].
      pose proof (comp_extra_sum_nonneg (i + 1) fs).
      rewrite Hframe
        by (unfold comp_lens0, comp_nulls0, REC_N_NEW_EXTRA_BYTES in *; lia).
      rewrite Z.add_0_r in *.
      apply (comp_store_field_data f i s Hf Hg ltac:(lia)). lia.
    + cbn [nth_error] in Hj.
      change (firstn (S j) (f :: fs)) with (f :: firstn j fs) in *.
      cbn [comp_data_sum] in *.
      rewrite Hsf.
      replace (e_end s + (comp_data_len f + comp_data_sum (firstn j fs)))
        with (e_end s1 + comp_data_sum (firstn j fs)) in * by lia.
      apply (IH (i + 1) _ s1 npf Hinv1 Hr ltac:(lia) Hcap1 ltac:(lia) j g Hj Hg).
      exact Ha.
Qed.

End CompStep.

(** **** Flags in the array of offsets *)

Lemma lor_pow2_add x k : 0 <= k -> 0 <= x < 2 ^ k -> Z.lor x (2 ^ k) = x + 2 ^ k.
Proof.
  intros Hk Hx. rewrite Z.lor_comm. rewrite <- (Z.shiftl_1_l k) at 1.
  rewrite lor_shiftl_add by lia. lia.
Qed.

Lemma offs_flags x :
  0 <= x < 2 ^ 30 ->
  Z.land x REC_OFFS_MASK = x
  /\ Z.land x REC_OFFS_EXTERNAL = 0
  /\ Z.land x REC_OFFS_SQL_NULL = 0
  /\ Z.land (Z.lor x REC_OFFS_EXTERNAL) REC_OFFS_MASK = x
  /\ Z.land (Z.lor x REC_OFFS_EXTERNAL) REC_OFFS_EXTERNAL = 2 ^ 30
  /\ Z.land (Z.lor x REC_OFFS_EXTERNAL) REC_OFFS_SQL_NULL = 0
  /\ Z.land (Z.lor x REC_OFFS_SQL_NULL) REC_OFFS_MASK = x
  /\ Z.land (Z.lor x REC_OFFS_SQL_NULL) REC_OFFS_EXTERNAL = 0
  /\ Z.land (Z.lor x REC_OFFS_SQL_NULL) REC_OFFS_SQL_NULL = 2 ^ 31.
Proof.
  intros Hx. unfold REC_OFFS_MASK, REC_OFFS_EXTERNAL, REC_OFFS_SQL_NULL.
  rewrite !Z.shiftl_1_l.
  change (2 ^ 30 - 1) with (Z.ones 30).
  rewrite (lor_pow2_add x 30) by lia.
  rewrite (lor_pow2_add x 31) by (change (2 ^ 31) with (2 * 2 ^ 30); lia).
  rewrite !Z.land_ones by lia. rewrite !land_pow2 by lia. unfold fld.
  change (2 ^ 1) with 2. change (2 ^ 31) with 2147483648 in *.
  change (2 ^ 30) with 1073741824 in *.
  repeat split; div_mod_eqs; lia.
Qed.

(** **** The header bits that the decoder reads back *)

Lemma rec_set_info_and_status_bits_other m rec bits a :
  a <> rec - 3 -> a <> rec - 5 ->
  rec_set_info_and_status_bits m rec bits a = m a.
Proof.
  intros H3 H5.
  unfold rec_set_info_and_status_bits, rec_set_info_bits_new, rec_set_status,
    rec_set_bit_field_1, REC_NEW_INFO_BITS, REC_NEW_STATUS.
  now rewrite !write1_other by lia.
Qed.

Lemma rec_get_status_set m rec bits :
  rec_get_status (rec_set_info_and_status_bits m rec bits) rec
  = Z.land bits REC_NEW_STATUS_MASK.
Proof.
  unfold rec_set_info_and_status_bits, rec_set_info_bits_new, rec_set_status,
    rec_get_status, rec_set_bit_field_1, rec_get_bit_field_1,
    REC_NEW_INFO_BITS, REC_NEW_STATUS, REC_NEW_STATUS_MASK,
    REC_NEW_STATUS_SHIFT, REC_INFO_BITS_SHIFT.
  rewrite read1_write1_other by lia. rewrite read1_write1_same.
  rewrite Z.shiftr_0_r.
  pose proof (read1_range m (rec - 3)) as Hr.
  set (x := mach_read_from_1 m (rec - 3)) in *.
  change 7 with (Z.shiftl (Z.ones 3) 0).
  rewrite (land_mask bits 0 3) by lia.
  rewrite (land_lnot_mask x 0 3) by lia.
  rewrite (land_mask _ 0 3) by lia.
  unfold fld. change (2 ^ 0) with 1. change (2 ^ 3) with 8.
  rewrite !Z.div_1_r, !Z.mul_1_r.
  assert (Hv : 0 <= bits mod 8 < 8) by (apply Z.mod_pos_bound; lia).
  change (Z.shiftl (bits mod 8) 0) with (Z.shiftl (bits mod 8) 0).
  rewrite (lor_field (x - x mod 8) (bits mod 8) 0 3); try lia.
  - change (2 ^ 0) with 1. div_mod_eqs. lia.
  - unfold fld. change (2 ^ 0) with 1. change (2 ^ 3) with 8.
    div_mod_eqs. lia.
Qed.

(** The header of an old-style record after [rec_set_n_fields_old],
    [rec_set_info_bits_old] and [rec_set_1byte_offs_flag]. *)
Definition old_header (m : mem) (rec n_fields info flag : Z) : mem :=
  rec_set_1byte_offs_flag
    (rec_set_info_bits_old (rec_set_n_fields_old m rec n_fields) rec info)
    rec flag.

Lemma old_header_other m rec n_fields info flag a :
  a <> rec - 3 -> a <> rec - 4 -> a <> rec - 6 ->
  old_header m rec n_fields info flag a = m a.
Proof.
  intros H3 H4 H6.
  unfold old_header, rec_set_1byte_offs_flag, rec_set_info_bits_old,
    rec_set_n_fields_old, rec_set_bit_field_1, rec_set_bit_field_2,
    REC_OLD_SHORT, REC_OLD_INFO_BITS, REC_OLD_N_FIELDS.
  rewrite !write1_other by lia. now rewrite write2_other by lia.
Qed.

Lemma old_header_flag m rec n_fields info flag :
  0 <= flag < 2 ->
  rec_get_1byte_offs_flag (old_header m rec n_fields info flag) rec = flag.
Proof.
  intros Hf.
  unfold old_header, rec_get_1byte_offs_flag, rec_set_1byte_offs_flag,
    rec_get_bit_field_1, rec_set_bit_field_1, REC_OLD_SHORT,
    REC_OLD_SHORT_MASK, REC_OLD_SHORT_SHIFT.
  rewrite read1_write1_same. rewrite Z.shiftr_0_r.
  match goal with
  | |- context [Z.land (mach_read_from_1 ?mm ?a) (Z.lnot 1)] =>
    pose proof (read1_range mm a) as Hr; set (x := mach_read_from_1 mm a) in *
  end.
  change 1 with (Z.shiftl (Z.ones 1) 0) at 1 2.
  rewrite (land_lnot_mask x 0 1) by lia.
  rewrite (land_mask _ 0 1) by lia.
  rewrite (lor_field (x - fld x 0 1 * 2 ^ 0) flag 0 1); try lia.
  - unfold fld. change (2 ^ 0) with 1. change (2 ^ 1) with 2.
    div_mod_eqs. lia.
  - unfold fld. change (2 ^ 0) with 1. change (2 ^ 1) with 2.
    div_mod_eqs. lia.
Qed.

Lemma old_header_n_fields m rec n_fields info flag :
  0 <= n_fields < 1024 -> 0 <= flag < 2 ->
  rec_get_n_fields_old (old_header m rec n_fields info flag) rec = n_fields.
Proof.
  intros Hn Hf.
  unfold old_header, rec_get_n_fields_old, rec_set_1byte_offs_flag,
    rec_set_info_bits_old, rec_set_n_fields_old,
    rec_get_bit_field_2, rec_set_bit_field_1, rec_set_bit_field_2,
    REC_OLD_SHORT, REC_OLD_SHORT_MASK, REC_OLD_SHORT_SHIFT,
    REC_OLD_INFO_BITS, REC_OLD_N_FIELDS, REC_OLD_N_FIELDS_MASK,
    REC_OLD_N_FIELDS_SHIFT.
  rewrite read2_eq.
  rewrite (read1_write1_other _ (rec - 4)) by lia.
  replace (rec - 4 + 1) with (rec - 3) by lia.
  rewrite read1_write1_same.
  rewrite !(read1_write1_other _ _ (rec - 6)) by lia.
  pose proof (read2_range m (rec - 4)) as Hw.
  set (w := mach_read_from_2 m (rec - 4)) in *.
  change 0x7FE with (Z.shiftl (Z.ones 10) 1).
  rewrite (land_lnot_mask w 1 10) by lia.
  rewrite (lor_field (w - fld w 1 10 * 2 ^ 1) n_fields 1 10); try lia.
  2:{ unfold fld. change (2 ^ 1) with 2. change (2 ^ 10) with 1024.
      div_mod_eqs. lia. }
  set (w' := w - fld w 1 10 * 2 ^ 1 + n_fields * 2 ^ 1).
  assert (Hw' : 0 <= w' < 65536 /\ (w' / 2) mod 1024 = n_fields).
  { subst w'. unfold fld. change (2 ^ 1) with 2. change (2 ^ 10) with 1024.
    split; div_mod_eqs; lia. }
  unfold mach_write_to_2.
  rewrite (read1_write1_other _ (rec - 4)) by lia.
  replace (rec - 4 + 1) with (rec - 3) by lia.
  rewrite !read1_write1_same.
  rewrite Z.shiftr_div_pow2 by lia. change (2 ^ 8) with 256.
  change 1 with (Z.shiftl (Z.ones 1) 0) at 1.
  rewrite (land_lnot_mask (w' mod 256) 0 1) by lia.
  rewrite (lor_field _ flag 0 1); try lia.
  2:{ unfold fld. change (2 ^ 0) with 1. change (2 ^ 1) with 2.
      div_mod_eqs. lia. }
  rewrite (land_mask _ 1 10) by lia.
  rewrite Z.shiftr_div_pow2 by lia.
  unfold fld. change (2 ^ 0) with 1. change (2 ^ 1) with 2.
  change (2 ^ 10) with 1024. change (2 ^ 8) with 256.
  destruct Hw' as [Hw1 Hw2]. revert Hw2. generalize w' Hw1. clear - Hf.
  intros w' Hw1 Hw2. div_mod_eqs. lia.
Qed.

(** **** Reading the fields back *)

(** What reading field [i] back through the offsets yields, against the
    tuple field [f] it was built from: the external flag is that of [f]; an
    SQL null is reported as such; of any other field the length and the
    bytes are those of [f]. *)
Definition field_read_back (m : mem) (rec : Z) (offsets : offsets_t) (i : Z)
    (f : dfield_t) : Prop :=
  let '(offs, len) := rec_get_nth_field_offs offsets i in
  negb (rec_offs_nth_extern offsets i =? 0) = dfield_ext f
  /\ if dfield_is_null f then len = UNIV_SQL_NULL
     else len = dfield_len f
          /\ bytes_at m (rec + offs) (length (dfield_data f)) = dfield_data f.

(** The element of the offsets array of a field that ends at [offs]. *)
Definition gen_entry (is_null ext : bool) (offs : Z) : Z :=
  if is_null then Z.lor offs REC_OFFS_SQL_NULL
  else if ext then Z.lor offs REC_OFFS_EXTERNAL
  else offs.

Fixpoint sum_with (L : dfield_t -> Z) (fs : list dfield_t) : Z :=
  match fs with
  | [] => 0
  | f :: rest => L f + sum_with L rest
  end.

Lemma sum_with_nonneg L fs :
  (forall f, In f fs -> 0 <= L f) -> 0 <= sum_with L fs.
Proof.
  induction fs as [|f fs IH]; intros H; simpl; [lia|].
  pose proof (H f (or_introl eq_refl)).
  assert (0 <= sum_with L fs) by (apply IH; intros g Hg; apply H; now right).
  lia.
Qed.

Lemma sum_with_firstn_le L fs j :
  (forall f, In f fs -> 0 <= L f) ->
  0 <= sum_with L (firstn j fs) <= sum_with L fs.
Proof.
  revert j. induction fs as [|f fs IH]; intros j H.
  - destruct j; simpl; lia.
  - destruct j as [|j]; simpl.
    + pose proof (sum_with_nonneg L (f :: fs) H). simpl in *. lia.
    + pose proof (H f (or_introl eq_refl)).
      assert (Hr : forall g, In g fs -> 0 <= L g) by (intros g Hg; apply H; now right).
      specialize (IH j Hr). lia.
Qed.

Lemma sum_with_firstn_S L fs j f :
  nth_error fs j = Some f ->
  sum_with L (firstn (S j) fs) = sum_with L (firstn j fs) + L f.
Proof.
  revert j. induction fs as [|g fs IH]; intros j Hj.
  - destruct j; discriminate.
  - destruct j as [|j].
    + injection Hj as <-. simpl. lia.
    + cbn [nth_error] in Hj. specialize (IH j Hj).
      change (firstn (S (S j)) (g :: fs)) with (g :: firstn (S j) fs).
      change (firstn (S j) (g :: fs)) with (g :: firstn j fs).
      cbn [sum_with]. lia.
Qed.

Lemma bytes_at_eq m a (data : list byte) :
  (forall k, (k < length data)%nat -> m (a + Z.of_nat k) = nth k data x00) ->
  bytes_at m a (length data) = data.
Proof.
  intros H. unfold bytes_at.
  apply (nth_ext _ _ x00 x00).
  - now rewrite length_map, length_seq.
  - intros k Hk. rewrite length_map, length_seq in Hk.
    rewrite (nth_indep _ x00 (m (a + Z.of_nat 0))) by (now rewrite length_map, length_seq).
    rewrite (map_nth (fun j => m (a + Z.of_nat j)) (seq 0 (length data)) 0%nat k).
    rewrite seq_nth by assumption. cbn [Nat.add]. now apply H.
Qed.

Lemma entries_read_back m rec offsets (L : dfield_t -> Z) fs :
  (forall f, In f fs -> 0 <= L f) ->
  (forall f, In f fs -> dfield_is_null f = true -> dfield_ext f = false) ->
  sum_with L fs < 2 ^ 30 ->
  (forall j f, nth_error fs j = Some f ->
     rec_offs_base offsets (Z.of_nat j + 1)
     = gen_entry (dfield_is_null f) (dfield_ext f)
         (sum_with L (firstn (S j) fs))) ->
  (forall j f, nth_error fs j = Some f -> dfield_is_null f = false ->
     L f = dfield_len f
     /\ Z.of_nat (length (dfield_data f)) = dfield_len f
     /\ forall a, rec + sum_with L (firstn j fs) <= a
                    < rec + sum_with L (firstn j fs) + dfield_len f ->
          m a = nth (Z.to_nat (a - (rec + sum_with L (firstn j fs))))
                  (dfield_data f) x00) ->
  forall i f, nth_error fs i = Some f ->
    field_read_back m rec offsets (Z.of_nat i) f.
Proof.
  intros HL Hne Hsum Hent Hdata i f Hi.
  assert (Hstart : (if Z.of_nat i =? 0 then 0
                    else Z.land (rec_offs_base offsets (Z.of_nat i)) REC_OFFS_MASK)
                   = sum_with L (firstn i fs)).
  { destruct i as [|i]; [reflexivity|].
    destruct (Z.eqb_spec (Z.of_nat (S i)) 0); [lia|].
    assert (Hprev : exists g, nth_error fs i = Some g).
    { destruct (nth_error fs i) eqn:E; [eauto|].
      apply nth_error_None in E.
      assert (nth_error fs (S i) <> None) by congruence.
      apply nth_error_Some in H. lia. }
    destruct Hprev as [g Hg].
    replace (Z.of_nat (S i)) with (Z.of_nat i + 1) by lia.
    rewrite (Hent i g Hg).
    pose proof (sum_with_firstn_le L fs (S i) HL).
    destruct (offs_flags (sum_with L (firstn (S i) fs)) ltac:(lia))
      as (F1 & _ & _ & F4 & _ & _ & F7 & _ & _).
    unfold gen_entry. destruct (dfield_is_null g); [exact F7|].
    destruct (dfield_ext g); [exact F4 | exact F1]. }
  unfold field_read_back, rec_get_nth_field_offs, rec_offs_nth_extern.
  rewrite Hstart.
  replace (1 + Z.of_nat i) with (Z.of_nat i + 1) by lia.
  rewrite (Hent i f Hi).
  pose proof (sum_with_firstn_le L fs (S i) HL) as Hb1.
  pose proof (sum_with_firstn_le L fs i HL) as Hb0.
  destruct (offs_flags (sum_with L (firstn (S i) fs)) ltac:(lia))
    as (F1 & F2 & F3 & F4 & F5 & F6 & F7 & F8 & F9).
  unfold gen_entry.
  destruct (dfield_is_null f) eqn:En.
  - rewrite F9, F8. rewrite (Hne f (nth_error_In _ _ Hi) En).
    split; reflexivity.
  - destruct (Hdata i f Hi En) as (HLf & Hdl & Hbytes).
    pose proof (sum_with_firstn_S L fs i f Hi) as HS.
    destruct (dfield_ext f) eqn:Ex.
    + rewrite F6, F4, F5. cbn [Z.eqb negb].
      split; [reflexivity|]. split; [lia|].
      apply bytes_at_eq. intros k Hk. rewrite Hbytes by lia. f_equal. lia.
    + rewrite F3, F1, F2. cbn [Z.eqb negb].
      split; [reflexivity|]. split; [lia|].
      apply bytes_at_eq. intros k Hk. rewrite Hbytes by lia. f_equal. lia.
Qed.

(** **** Tuples that respect an index, as a whole *)

Definition REC_MAX_DATA_SIZE : Z := 16384.

Fixpoint fields_fit_comp (ifs : list dict_field_t) (fs : list dfield_t) : bool :=
  match ifs, fs with
  | [], [] => true
  | ifield :: ifs', f :: fs' =>
    field_fits_comp ifield f && fields_fit_comp ifs' fs'
  | _, _ => false
  end.

(** The nullable fields of an index: what [index->n_nullable] counts. *)
Fixpoint count_nullable (ifs : list dict_field_t) : Z :=
  match ifs with
  | [] => 0
  | ifield :: rest =>
    (if nullable (col_prtype (field_col ifield)) then 1 else 0)
    + count_nullable rest
  end.

(** The child page number of a node pointer: 4 bytes, never null. *)
Definition child_field_ok (f : dfield_t) : bool :=
  negb (dfield_is_null f) && (dfield_len f =? REC_NODE_PTR_SIZE)
  && (Z.of_nat (length (dfield_data f)) =? REC_NODE_PTR_SIZE)
  && negb (dfield_ext f).

(** A tuple respects a ROW_FORMAT=COMPACT index.  An ordinary tuple has a
    field for every field of the index; a node pointer has the fields that
    identify a record in the tree, none of them stored externally, and the
    child page number; the infimum and the supremum have the one 8-byte
    field of the index they are built for.  The data stays below
    [REC_MAX_DATA_SIZE], and there are at most [REC_MAX_N_FIELDS] fields. *)
Definition dtuple_fits_comp (index : dict_index_t) (t : dtuple_t) : bool :=
  let status := Z.land (dtuple_info_bits t) REC_NEW_STATUS_MASK in
  let fs := dtuple_fields t in
  let n := dtuple_n_fields t in
  (n_nullable index =? count_nullable (index_fields index))
  && (comp_data_sum fs <? REC_MAX_DATA_SIZE)
  && (n <=? REC_MAX_N_FIELDS)
  && if status =? REC_STATUS_ORDINARY then
       fields_fit_comp (index_fields index) fs && (1 <=? n)
     else if status =? REC_STATUS_NODE_PTR then
       let n_uniq := dict_index_get_n_unique_in_tree_nonleaf index in
       (1 <=? n_uniq) && (n =? n_uniq + 1)
       && fields_fit_comp (firstn (Z.to_nat n_uniq) (index_fields index))
            (firstn (Z.to_nat n_uniq) fs)
       && forallb (fun f => negb (dfield_ext f)) (firstn (Z.to_nat n_uniq) fs)
       && child_field_ok (dtuple_get_nth_field fs n_uniq)
     else if (status =? REC_STATUS_INFIMUM) || (status =? REC_STATUS_SUPREMUM) then
       (n =? 1) && (n_nullable index =? 0)
       && fields_fit_comp (firstn 1 (index_fields index)) fs
       && (fixed_len (dict_index_get_nth_field index 0) =? 8)
     else false.

Lemma fields_fit_comp_nth ifs : forall fs,
  fields_fit_comp ifs fs = true ->
  length ifs = length fs
  /\ n_null_fields fs = count_nullable ifs
  /\ forall j f d, nth_error fs j = Some f ->
       field_fits_comp (nth j ifs d) f = true.
Proof.
  induction ifs as [|ifield ifs IH]; intros [|f fs] H; try discriminate.
  - repeat split; auto. intros j f d Hj. destruct j; discriminate.
  - cbn [fields_fit_comp] in H. apply andb_prop in H as [Hf Hr].
    destruct (IH fs Hr) as (Hlen & Hcnt & Hnth).
    destruct (field_fits_comp_inv _ _ Hf) as (Hpr & _).
    split; [simpl; lia|]. split.
    + simpl. now rewrite Hpr, Hcnt.
    + intros j g d Hj. destruct j as [|j].
      * now injection Hj as <-.
      * cbn [nth_error nth] in *. now apply Hnth.
Qed.

Lemma fields_fit_comp_from index fs :
  fields_fit_comp (index_fields index) fs = true ->
  fits_from index 0 fs.
Proof.
  intros H j f Hj. destruct (fields_fit_comp_nth _ _ H) as (_ & _ & Hnth).
  unfold dict_index_get_nth_field. rewrite Z.add_0_l, Nat2Z.id. now apply Hnth.
Qed.

Lemma comp_data_sum_eq fs : comp_data_sum fs = sum_with comp_data_len fs.
Proof. induction fs; simpl; [reflexivity | now rewrite IHfs]. Qed.

Lemma fits_from_In index i fs f :
  fits_from index i fs -> In f fs -> exists j, 
    field_fits_comp (dict_index_get_nth_field index (i + Z.of_nat j)) f = true.
Proof.
  intros H Hin. apply In_nth_error in Hin as [j Hj]. exists j. now apply H.
Qed.

Lemma offs_entry_gen ifield f offs :
  field_fits_comp ifield f = true ->
  offs_entry ifield f offs = gen_entry (dfield_is_null f) (dfield_ext f) offs.
Proof.
  intros Hfit.
  destruct (field_fits_comp_inv _ _ Hfit) as (_ & _ & _ & _ & _ & Hnn).
  unfold offs_entry, gen_entry. destruct (dfield_is_null f); [reflexivity|].
  destruct (Hnn eq_refl) as (_ & _ & _ & Hfix).
  destruct (Z.eqb_spec (fixed_len ifield) 0) as [E|E]; [reflexivity|].
  destruct (Hfix E) as [_ Hx]. now rewrite Hx.
Qed.

Lemma count_nullable_nonneg ifs : 0 <= count_nullable ifs.
Proof. induction ifs; simpl; [lia|]. destruct (nullable _); lia. Qed.

(** The state of the encoder before the first field. *)
Definition comp_start (m : mem) (index : dict_index_t) (rec : Z) : enc_t :=
  mk_enc (memset m (comp_lens0 index rec + 1) 0
            (comp_nulls0 rec - comp_lens0 index rec))
    (comp_nulls0 rec) 1 (comp_lens0 index rec) rec.

Lemma comp_start_inv m index rec :
  0 <= n_nullable index ->
  enc_inv index rec 0 (comp_start m index rec)
  /\ forall q, 0 <= q < 8 * UT_BITS_IN_BYTES (n_nullable index) ->
       null_bit (e_mem (comp_start m index rec)) (comp_nulls0 rec) q = false.
Proof.
  intros Hn. split.
  - constructor; cbn; try lia. left. auto.
  - intros q Hq. unfold null_bit, comp_start. cbn [e_mem].
    unfold mach_read_from_1. rewrite memset_in.
    + rewrite Z_of_byte_of_Z. change (0 mod 256) with 0. apply Z.testbit_0_l.
    + unfold comp_lens0. div_mod_eqs. lia.
Qed.

Lemma comp_encode_eq m rec index fs n status :
  n = Z.of_nat (length fs) -> 1 <= n ->
  status = REC_STATUS_ORDINARY \/ status = REC_STATUS_NODE_PTR
  \/ status = REC_STATUS_INFIMUM \/ status = REC_STATUS_SUPREMUM ->
  rec_convert_dtuple_to_rec_comp m rec index fs n status false
  = Some (comp_store_fields index false
            (if status =? REC_STATUS_NODE_PTR then n - 1 else ULINT_UNDEFINED)
            fs 0 (comp_start m index rec)).
Proof.
  intros Hn H1 Hst. unfold rec_convert_dtuple_to_rec_comp.
  assert (Hfn : firstn (Z.to_nat n) fs = fs)
    by (apply firstn_all2; lia).
  rewrite Hfn.
  destruct (Z.eqb_spec n 0); [lia|]. cbn [negb].
  destruct Hst as [-> | [-> | [-> | ->]]]; reflexivity.
Qed.

Lemma dtuple_fits_comp_inv index t :
  dtuple_fits_comp index t = true ->
  n_nullable index = count_nullable (index_fields index)
  /\ comp_data_sum (dtuple_fields t) < 16384
  /\ dtuple_n_fields t <= 1023.
Proof.
  unfold dtuple_fits_comp. intros H.
  apply andb_prop in H as [H _]. apply andb_prop in H as [H H3].
  apply andb_prop in H as [H1 H2].
  apply Z.eqb_eq in H1. apply Z.ltb_lt in H2. apply Z.leb_le in H3.
  auto.
Qed.

(** The offsets array that [rec_get_offsets_func] sets up for [n] fields
    when it is given no array. *)
Definition fresh_offsets (n : Z) : offsets_t :=
  rec_offs_set_n_fields
    (rec_offs_set_n_alloc (mem_heap_alloc (n + (1 + REC_OFFS_HEADER_SIZE)))
       (n + (1 + REC_OFFS_HEADER_SIZE))) n.

Lemma fresh_offsets_n_fields n : rec_offs_n_fields (fresh_offsets n) = n.
Proof. reflexivity. Qed.

Lemma rec_get_offsets_comp_eq m rec index :
  dict_table_is_comp index = true ->
  rec_get_status m rec = REC_STATUS_ORDINARY ->
  dict_index_get_n_fields index <= 1023 ->
  rec_get_offsets_func m rec index None ULINT_UNDEFINED
  = Some (rec_init_offsets_comp_ordinary m rec false index
            (fresh_offsets (dict_index_get_n_fields index))).
Proof.
  intros Hcomp Hst Hn. unfold rec_get_offsets_func, rec_init_offsets.
  rewrite Hcomp, Hst.
  change (REC_STATUS_ORDINARY =? REC_STATUS_ORDINARY) with true. cbv iota.
  destruct (Z.ltb_spec ULINT_UNDEFINED (dict_index_get_n_fields index)) as [H|H].
  - unfold ULINT_UNDEFINED in H.
    change (2 ^ 64 - 1) with 18446744073709551615 in H. lia.
  - change ((REC_STATUS_ORDINARY =? REC_STATUS_INFIMUM)
            || (REC_STATUS_ORDINARY =? REC_STATUS_SUPREMUM)) with false.
    cbv iota. reflexivity.
Qed.

Lemma roundtrip_comp_ordinary m buf index t :
  dict_table_is_comp index = true ->
  dtuple_fits_comp index t = true ->
  Z.land (dtuple_info_bits t) REC_NEW_STATUS_MASK = REC_STATUS_ORDINARY ->
  exists m' rec offsets,
    rec_convert_dtuple_to_rec_new m buf index t = Some (m', rec)
    /\ rec_get_offsets_func m' rec index None ULINT_UNDEFINED = Some offsets
    /\ rec_offs_n_fields offsets = dtuple_n_fields t
    /\ forall i f, nth_error (dtuple_fields t) i = Some f ->
         field_read_back m' rec offsets (Z.of_nat i) f.
Proof.
  intros Hcomp Hfit Hst.
  destruct (dtuple_fits_comp_inv _ _ Hfit) as (H1 & H2 & Hmax).
  unfold dtuple_fits_comp in Hfit. rewrite Hst in Hfit.
  change (REC_STATUS_ORDINARY =? REC_STATUS_ORDINARY) with true in Hfit.
  cbv iota in Hfit.
  apply andb_prop in Hfit as [_ H3]. apply andb_prop in H3 as [H3 H4].
  apply Z.leb_le in H4.
  set (fs := dtuple_fields t) in *.
  destruct (fields_fit_comp_nth _ _ H3) as (Hlen & Hcnt & _).
  pose proof (fields_fit_comp_from index fs H3) as Hfrom.
  pose proof (count_nullable_nonneg (index_fields index)) as Hc0.
  assert (Hn : dtuple_n_fields t = Z.of_nat (length fs)) by reflexivity.
  assert (Hni : dict_index_get_n_fields index = Z.of_nat (length fs))
    by (unfold dict_index_get_n_fields; lia).
  (* encoding *)
  unfold rec_convert_dtuple_to_rec_new. rewrite Hst.
  unfold rec_get_converted_size_comp.
  change (REC_STATUS_ORDINARY =? REC_STATUS_ORDINARY) with true. cbv iota.
  destruct (rec_get_converted_size_comp_prefix_low index (dtuple_fields t)
              (dtuple_n_fields t) false) as [total extra].
  set (rec := buf + extra).
  fold fs.
  rewrite (comp_encode_eq m rec index fs (dtuple_n_fields t) REC_STATUS_ORDINARY
             Hn H4 (or_introl eq_refl)).
  change (REC_STATUS_ORDINARY =? REC_STATUS_NODE_PTR) with false. cbv iota.
  set (s_f := comp_store_fields index false ULINT_UNDEFINED fs 0
                (comp_start m index rec)).
  set (m' := rec_set_info_and_status_bits (e_mem s_f) rec (dtuple_info_bits t)).
  destruct (comp_start_inv m index rec ltac:(lia)) as [Hinv0 Hclear0].
  assert (Hund : 0 + Z.of_nat (length fs) <= ULINT_UNDEFINED).
  { unfold ULINT_UNDEFINED. change (2 ^ 64 - 1) with 18446744073709551615. lia. }
  assert (Hcap : 0 + n_null_fields fs <= n_nullable index) by lia.
  exists m', rec.
  (* decoding *)
  assert (Hstat : rec_get_status m' rec = REC_STATUS_ORDINARY).
  { subst m'. now rewrite rec_get_status_set. }
  rewrite (rec_get_offsets_comp_eq m' rec index Hcomp Hstat ltac:(lia)).
  eexists. split; [reflexivity|]. split; [reflexivity|].
  unfold rec_init_offsets_comp_ordinary.
  rewrite Hcomp. cbn [andb].
  rewrite fresh_offsets_n_fields, Hni.
  rewrite do_while_fields_iter by lia.
  rewrite Z.sub_0_r, Nat2Z.id.
  change (rec - (1 + REC_N_NEW_EXTRA_BYTES)) with (comp_nulls0 rec).
  change (comp_nulls0 rec - UT_BITS_IN_BYTES (n_nullable index))
    with (comp_lens0 index rec).
  set (d0 := mk_dec 0 0 (comp_nulls0 rec) (comp_lens0 index rec) 1
               (fresh_offsets (Z.of_nat (length fs)))).
  assert (Hfin : forall a, e_lens s_f < a <= comp_nulls0 rec ->
                           m' a = e_mem s_f a).
  { intros a Ha. subst m'. apply rec_set_info_and_status_bits_other;
      unfold comp_nulls0, REC_N_NEW_EXTRA_BYTES in Ha; lia. }
  destruct (comp_fields_roundtrip index rec fs 0 0 (comp_start m index rec) d0
              ULINT_UNDEFINED m' Hinv0 Hfrom H2 Hcap Hund Hclear0
              eq_refl eq_refl eq_refl Hfin)
    as (R1 & R2 & R3 & R4 & R5 & R6 & _).
  fold s_f in R1, R2, R3.
  set (d_f := dec_iter (comp_ordinary_field m' false index) (length fs) 0 d0) in *.
  split.
  - (* the number of fields *)
    unfold rec_offs_n_fields, rec_offs_base_set.
    rewrite arr_set_other by (unfold REC_OFFS_HEADER_SIZE; lia).
    rewrite R6 by (unfold REC_OFFS_HEADER_SIZE; lia).
    subst d0. cbn [d_offsets]. rewrite Hn. reflexivity.
  - (* the fields *)
    assert (HL : forall f, In f fs -> 0 <= comp_data_len f).
    { intros f Hin. destruct (fits_from_In index 0 fs f Hfrom Hin) as [j Hj].
      now apply comp_data_len_nonneg in Hj. }
    assert (Hne : forall f, In f fs -> dfield_is_null f = true ->
                            dfield_ext f = false).
    { intros f Hin. destruct (fits_from_In index 0 fs f Hfrom Hin) as [j Hj].
      exact (field_fits_comp_null_ext _ _ Hj). }
    apply (entries_read_back m' rec _ comp_data_len fs HL Hne).
    + rewrite <- comp_data_sum_eq. lia.
    + intros j f Hj. unfold rec_offs_base, rec_offs_base_set.
      rewrite arr_set_other by lia.
      specialize (R5 j f Hj). unfold rec_offs_base in R5.
      rewrite Z.add_0_l in R5. rewrite R5.
      subst d0. cbn [d_offs]. rewrite Z.add_0_l, comp_data_sum_eq.
      apply offs_entry_gen. now apply Hfrom.
    + intros j f Hj En.
      pose proof (Hfrom j f Hj) as Hf.
      destruct (field_fits_comp_inv _ _ Hf) as (_ & _ & _ & _ & _ & Hnn).
      destruct (Hnn En) as (Hl0 & Hdl & _).
      split; [unfold comp_data_len; now rewrite En|]. split; [exact Hdl|].
      intros a Ha. subst m'.
      rewrite rec_set_info_and_status_bits_other
        by (pose proof (sum_with_firstn_le comp_data_len fs j HL); lia).
      rewrite <- comp_data_sum_eq in *.
      apply (comp_store_fields_data index rec fs 0 0 (comp_start m index rec)
               ULINT_UNDEFINED Hinv0 Hfrom H2 Hcap Hund j f Hj En).
      exact Ha.
Qed.

(** ***** Node pointers *)

Lemma comp_store_fields_app index temp npf fs1 : forall fs2 i s,
  i + Z.of_nat (length fs1) <= npf ->
  comp_store_fields index temp npf (fs1 ++ fs2) i s
  = comp_store_fields index temp npf fs2 (i + Z.of_nat (length fs1))
      (comp_store_fields index temp npf fs1 i s).
Proof.
  induction fs1 as [|f fs1 IH]; intros fs2 i s H.
  - cbn. now rewrite Z.add_0_r.
  - cbn [app comp_store_fields length] in *.
    destruct (Z.eqb_spec i npf); [lia|].
    rewrite IH by lia. f_equal. lia.
Qed.

Lemma list_split_last (A : Type) (l : list A) (k : nat) (d : A) :
  length l = S k -> l = firstn k l ++ [nth k l d].
Proof.
  revert k. induction l as [|a l IH]; intros k H; [discriminate|].
  destruct k as [|k].
  - destruct l; [reflexivity | discriminate].
  - cbn [firstn nth app]. f_equal. apply IH. simpl in H. lia.
Qed.

Lemma count_nullable_firstn k ifs :
  count_nullable (firstn k ifs) <= count_nullable ifs.
Proof.
  revert k. induction ifs as [|a l IH]; intros k.
  - destruct k; simpl; lia.
  - destruct k as [|k]; cbn [firstn count_nullable].
    + pose proof (count_nullable_nonneg l). destruct (nullable _); lia.
    + specialize (IH k). lia.
Qed.

Lemma nth_firstn_lt (A : Type) (l : list A) (j k : nat) (d : A) :
  (j < k)%nat -> nth j (firstn k l) d = nth j l d.
Proof.
  revert j k. induction l as [|a l IH]; intros j k H.
  - destruct k; destruct j; reflexivity.
  - destruct k as [|k]; [lia|]. destruct j as [|j]; [reflexivity|].
    cbn [firstn nth]. apply IH. lia.
Qed.

Lemma sum_with_app L fs1 fs2 :
  sum_with L (fs1 ++ fs2) = sum_with L fs1 + sum_with L fs2.
Proof. induction fs1; simpl; [reflexivity | rewrite IHfs1; lia]. Qed.

Lemma rec_get_offsets_node_ptr_eq m rec index :
  dict_table_is_comp index = true ->
  rec_get_status m rec = REC_STATUS_NODE_PTR ->
  0 <= dict_index_get_n_unique_in_tree_nonleaf index <= 1023 ->
  let n_uniq := dict_index_get_n_unique_in_tree_nonleaf index in
  let offsets := fresh_offsets (n_uniq + 1) in
  rec_get_offsets_func m rec index None ULINT_UNDEFINED
  = match dec_iter_opt (node_ptr_field m index n_uniq)
            (Z.to_nat (n_uniq + 1)) 0
            (mk_dec 0 0 (comp_nulls0 rec) (comp_lens0 index rec) 1 offsets) with
    | None => None
    | Some s =>
      Some (rec_offs_base_set (d_offsets s) 0
              (Z.lor (rec - (d_lens s + 1)) REC_OFFS_COMPACT))
    end.
Proof.
  intros Hcomp Hst Hn n_uniq offsets.
  unfold rec_get_offsets_func, rec_init_offsets.
  rewrite Hcomp, Hst.
  change (REC_STATUS_NODE_PTR =? REC_STATUS_ORDINARY) with false.
  change (REC_STATUS_NODE_PTR =? REC_STATUS_NODE_PTR) with true.
  change ((REC_STATUS_NODE_PTR =? REC_STATUS_INFIMUM)
          || (REC_STATUS_NODE_PTR =? REC_STATUS_SUPREMUM)) with false.
  cbv iota. fold n_uniq.
  destruct (Z.ltb_spec ULINT_UNDEFINED (n_uniq + 1)) as [H|H].
  - unfold ULINT_UNDEFINED in H.
    change (2 ^ 64 - 1) with 18446744073709551615 in H. lia.
  - fold (fresh_offsets (n_uniq + 1)). fold offsets.
    change (rec_offs_n_fields offsets) with (n_uniq + 1).
    rewrite do_while_fields_opt_iter by lia.
    rewrite Z.sub_0_r. reflexivity.
Qed.

Lemma child_field_ok_inv f :
  child_field_ok f = true ->
  dfield_is_null f = false /\ dfield_len f = 4
  /\ Z.of_nat (length (dfield_data f)) = 4 /\ dfield_ext f = false.
Proof.
  unfold child_field_ok, REC_NODE_PTR_SIZE. intros H.
  apply andb_prop in H as [H H4]. apply andb_prop in H as [H H3].
  apply andb_prop in H as [H1 H2].
  apply Bool.negb_true_iff in H1, H4. apply Z.eqb_eq in H2, H3. auto.
Qed.

Lemma roundtrip_comp_node_ptr m buf index t :
  dict_table_is_comp index = true ->
  dtuple_fits_comp index t = true ->
  Z.land (dtuple_info_bits t) REC_NEW_STATUS_MASK = REC_STATUS_NODE_PTR ->
  exists m' rec offsets,
    rec_convert_dtuple_to_rec_new m buf index t = Some (m', rec)
    /\ rec_get_offsets_func m' rec index None ULINT_UNDEFINED = Some offsets
    /\ rec_offs_n_fields offsets = dtuple_n_fields t
    /\ forall i f, nth_error (dtuple_fields t) i = Some f ->
         field_read_back m' rec offsets (Z.of_nat i) f.
Proof.
  intros Hcomp Hfit Hst.
  destruct (dtuple_fits_comp_inv _ _ Hfit) as (H1 & H2 & Hmax).
  unfold dtuple_fits_comp in Hfit. rewrite Hst in Hfit.
  change (REC_STATUS_NODE_PTR =? REC_STATUS_ORDINARY) with false in Hfit.
  change (REC_STATUS_NODE_PTR =? REC_STATUS_NODE_PTR) with true in Hfit.
  cbv iota in Hfit.
  apply andb_prop in Hfit as [_ H3].
  apply andb_prop in H3 as [H3 Hchild]. apply andb_prop in H3 as [H3 Hnoext].
  apply andb_prop in H3 as [H3 Hkeys]. apply andb_prop in H3 as [Hu1 Hn].
  apply Z.leb_le in Hu1. apply Z.eqb_eq in Hn.
  unfold dtuple_n_fields in *.
  remember (dtuple_fields t) as fs eqn:Efs.
  set (n_uniq := dict_index_get_n_unique_in_tree_nonleaf index) in *.
  set (k := Z.to_nat n_uniq) in *.
  set (keys := firstn k fs) in *.
  set (child := dtuple_get_nth_field fs n_uniq) in *.
  assert (Hlen : length fs = S k) by lia.
  assert (Hsplit : fs = keys ++ [child]) by (apply list_split_last; exact Hlen).
  assert (Hklen : length keys = k) by (subst keys; rewrite length_firstn; lia).
  destruct (fields_fit_comp_nth _ _ Hkeys) as (Hl2 & Hcnt & Hnth).
  assert (Hfrom : fits_from index 0 keys).
  { intros j f Hj. unfold dict_index_get_nth_field. rewrite Z.add_0_l, Nat2Z.id.
    assert (Hjk : (j < k)%nat).
    { rewrite <- Hklen. apply nth_error_Some. congruence. }
    rewrite <- (nth_firstn_lt _ (index_fields index) j k) by exact Hjk.
    now apply Hnth. }
  destruct (child_field_ok_inv _ Hchild) as (Cn & Cl & Cd & Cx).
  pose proof (count_nullable_nonneg (index_fields index)) as Hc0.
  pose proof (count_nullable_firstn k (index_fields index)) as Hcf.
  assert (Hcl : comp_data_len child = 4) by (unfold comp_data_len; now rewrite Cn).
  assert (Hsumk : comp_data_sum fs = comp_data_sum keys + 4).
  { rewrite Hsplit at 1. rewrite !comp_data_sum_eq, sum_with_app.
    cbn [sum_with]. lia. }
  pose proof (comp_data_sum_nonneg index 0 keys Hfrom) as Hk0.
  clearbody keys child.
  (* encoding *)
  unfold rec_convert_dtuple_to_rec_new. rewrite Hst.
  unfold rec_get_converted_size_comp.
  change (REC_STATUS_NODE_PTR =? REC_STATUS_ORDINARY) with false.
  change (REC_STATUS_NODE_PTR =? REC_STATUS_NODE_PTR) with true. cbv iota.
  unfold dtuple_n_fields. rewrite <- Efs.
  destruct (rec_get_converted_size_comp_prefix_low index fs
              (Z.of_nat (length fs) - 1) false) as [total extra].
  set (rec := buf + extra).
  rewrite (comp_encode_eq m rec index fs (Z.of_nat (length fs))
             REC_STATUS_NODE_PTR eq_refl ltac:(lia)
             (or_intror (or_introl eq_refl))).
  change (REC_STATUS_NODE_PTR =? REC_STATUS_NODE_PTR) with true. cbv iota.
  replace (Z.of_nat (length fs) - 1) with n_uniq by lia.
  assert (Hnpf : 0 + Z.of_nat (length keys) <= n_uniq) by lia.
  replace (comp_store_fields index false n_uniq fs 0 (comp_start m index rec))
    with (comp_store_fields index false n_uniq (keys ++ [child]) 0
            (comp_start m index rec)) by (now rewrite <- Hsplit).
  rewrite (comp_store_fields_app index false n_uniq keys [child] 0 _ Hnpf).
  set (s_k := comp_store_fields index false n_uniq keys 0 (comp_start m index rec)).
  cbn [comp_store_fields].
  replace (0 + Z.of_nat (length keys)) with n_uniq by lia.
  rewrite Z.eqb_refl. cbn [e_mem].
  set (m1 := memcpy (e_mem s_k) (e_end s_k) (dfield_data child) (dfield_len child)).
  set (m' := rec_set_info_and_status_bits m1 rec (dtuple_info_bits t)).
  destruct (comp_start_inv m index rec ltac:(lia)) as [Hinv0 Hclear0].
  assert (Hcap : 0 + n_null_fields keys <= n_nullable index) by lia.
  destruct (comp_store_fields_frame index rec keys 0 0 (comp_start m index rec)
              n_uniq Hinv0 Hfrom ltac:(lia) Hcap Hnpf)
    as (Hinvk & HLk & HEk & _ & _).
  fold s_k in Hinvk, HLk, HEk. cbn [comp_start e_end e_lens] in HLk, HEk.
  destruct Hinvk as [_ _ HLk' HEk'].
  exists m', rec.
  (* decoding *)
  assert (Hstat : rec_get_status m' rec = REC_STATUS_NODE_PTR).
  { subst m'. now rewrite rec_get_status_set. }
  rewrite (rec_get_offsets_node_ptr_eq m' rec index Hcomp Hstat
             ltac:(fold n_uniq; lia)).
  fold n_uniq.
  set (d0 := mk_dec 0 0 (comp_nulls0 rec) (comp_lens0 index rec) 1
               (fresh_offsets (n_uniq + 1))).
  assert (HNB : 0 <= UT_BITS_IN_BYTES (n_nullable index))
    by (unfold UT_BITS_IN_BYTES; div_mod_eqs; lia).
  assert (Hfin : forall a, e_lens s_k < a <= comp_nulls0 rec ->
                           m' a = e_mem s_k a).
  { intros a Ha. subst m' m1.
    rewrite rec_set_info_and_status_bits_other
      by (unfold comp_nulls0, REC_N_NEW_EXTRA_BYTES in Ha; lia).
    apply memcpy_out. unfold comp_nulls0, REC_N_NEW_EXTRA_BYTES in Ha. lia. }
  destruct (comp_fields_roundtrip index rec keys 0 0 (comp_start m index rec) d0
              n_uniq m' Hinv0 Hfrom ltac:(lia) Hcap Hnpf Hclear0
              eq_refl eq_refl eq_refl Hfin)
    as (R1 & R2 & R3 & R4 & R5 & R6 & R7).
  destruct (R7 Hnoext eq_refl) as [R7a R7b].
  set (d_k := dec_iter (comp_ordinary_field m' false index) (length keys) 0 d0) in *.
  replace (Z.to_nat (n_uniq + 1)) with (length keys + 1)%nat by lia.
  rewrite dec_iter_opt_app, R7a.
  cbn [dec_iter_opt]. rewrite Z.add_0_l.
  replace (Z.of_nat (length keys)) with n_uniq by lia.
  unfold node_ptr_field at 1. rewrite Z.eqb_refl. unfold resolved.
  eexists. split; [reflexivity|]. split; [reflexivity|].
  cbn [d_offsets d_lens].
  subst d0. cbn [d_offs d_offsets] in R4, R5, R6.
  split.
  - unfold rec_offs_n_fields, rec_offs_base_set.
    rewrite !arr_set_other by (unfold REC_OFFS_HEADER_SIZE; lia).
    rewrite R6 by (unfold REC_OFFS_HEADER_SIZE; lia).
    change (fresh_offsets (n_uniq + 1) 1) with (n_uniq + 1). lia.
  - assert (HL : forall f, In f fs -> 0 <= comp_data_len f).
    { intros f Hin. rewrite Hsplit in Hin. apply in_app_or in Hin as [Hin|Hin].
      - destruct (fits_from_In index 0 keys f Hfrom Hin) as [j Hj].
        now apply comp_data_len_nonneg in Hj.
      - destruct Hin as [<-|[]]. lia. }
    assert (Hne : forall f, In f fs -> dfield_is_null f = true ->
                            dfield_ext f = false).
    { intros f Hin. rewrite Hsplit in Hin. apply in_app_or in Hin as [Hin|Hin].
      - destruct (fits_from_In index 0 keys f Hfrom Hin) as [j Hj].
        exact (field_fits_comp_null_ext _ _ Hj).
      - destruct Hin as [<-|[]]. congruence. }
    apply (entries_read_back m' rec _ comp_data_len fs HL Hne).
    + rewrite <- comp_data_sum_eq. lia.
    + intros j f Hj. rewrite Hsplit in Hj.
      destruct (Nat.lt_ge_cases j (length keys)) as [Hjk|Hjk].
      * rewrite nth_error_app1 in Hj by exact Hjk.
        unfold rec_offs_base, rec_offs_base_set.
        rewrite !arr_set_other by lia.
        specialize (R5 j f Hj). unfold rec_offs_base in R5.
        rewrite !Z.add_0_l in R5. rewrite R5.
        rewrite (offs_entry_gen _ _ _ (Hfrom j f Hj)).
        rewrite Z.add_0_l in *. f_equal.
        rewrite comp_data_sum_eq. rewrite Hsplit.
        rewrite firstn_app.
        replace (S j - length keys)%nat with 0%nat by lia.
        cbn [firstn]. now rewrite app_nil_r.
      * rewrite nth_error_app2 in Hj by exact Hjk.
        destruct (j - length keys)%nat as [|x] eqn:Ej;
          [|destruct x; discriminate].
        injection Hj as <-.
        assert (j = length keys) by lia. subst j.
        unfold rec_offs_base, rec_offs_base_set.
        rewrite arr_set_other by lia.
        replace (REC_OFFS_HEADER_SIZE + (Z.of_nat (length keys) + 1))
          with (REC_OFFS_HEADER_SIZE + (n_uniq + 1)) by lia.
        unfold arr_set. rewrite Z.eqb_refl.
        unfold gen_entry. rewrite Cn, Cx.
        rewrite R4, Z.add_0_l.
        rewrite firstn_all2 by lia.
        rewrite <- comp_data_sum_eq, Hsumk. reflexivity.
    + intros j f Hj En. rewrite Hsplit in Hj.
      destruct (Nat.lt_ge_cases j (length keys)) as [Hjk|Hjk].
      * rewrite nth_error_app1 in Hj by exact Hjk.
        pose proof (Hfrom j f Hj) as Hf.
        destruct (field_fits_comp_inv _ _ Hf) as (_ & _ & _ & _ & _ & Hnn).
        destruct (Hnn En) as (Hl0 & Hdl & _).
        split; [unfold comp_data_len; now rewrite En|]. split; [exact Hdl|].
        assert (Hfj : firstn j fs = firstn j keys).
        { rewrite Hsplit, firstn_app.
          replace (j - length keys)%nat with 0%nat by lia.
          cbn [firstn]. now rewrite app_nil_r. }
        rewrite Hfj.
        assert (HLk2 : forall g, In g keys -> 0 <= comp_data_len g).
        { intros g Hg. apply HL. rewrite Hsplit. apply in_or_app. now left. }
        pose proof (sum_with_firstn_le comp_data_len keys j HLk2) as Hb.
        pose proof (sum_with_firstn_S comp_data_len keys j f Hj) as HS.
        pose proof (sum_with_firstn_le comp_data_len keys (S j) HLk2) as Hb2.
        assert (Hcf' : comp_data_len f = dfield_len f)
          by (unfold comp_data_len; now rewrite En).
        rewrite Hcf' in HS.
        rewrite <- !comp_data_sum_eq in *.
        intros a Ha. subst m' m1.
        rewrite rec_set_info_and_status_bits_other by lia.
        rewrite memcpy_out by lia.
        apply (comp_store_fields_data index rec keys 0 0 (comp_start m index rec)
                 n_uniq Hinv0 Hfrom ltac:(lia) Hcap Hnpf j f Hj En).
        exact Ha.
      * rewrite nth_error_app2 in Hj by exact Hjk.
        destruct (j - length keys)%nat as [|x] eqn:Ej;
          [|destruct x; discriminate].
        injection Hj as <-.
        assert (j = length keys) by lia. subst j.
        split; [lia|]. split; [lia|].
        assert (Hfj : firstn (length keys) fs = keys).
        { rewrite Hsplit, firstn_app, Nat.sub_diag. cbn [firstn].
          rewrite app_nil_r. apply firstn_all. }
        rewrite Hfj. rewrite <- comp_data_sum_eq.
        intros a Ha. subst m' m1.
        rewrite rec_set_info_and_status_bits_other by lia.
        rewrite memcpy_in by lia. f_equal. lia.
Qed.

(** *** Infimum and supremum *)

Lemma rec_get_offsets_infsup_eq m rec index :
  dict_table_is_comp index = true ->
  rec_get_status m rec = REC_STATUS_INFIMUM
  \/ rec_get_status m rec = REC_STATUS_SUPREMUM ->
  rec_get_offsets_func m rec index None ULINT_UNDEFINED
  = Some (rec_offs_base_set
            (rec_offs_base_set (fresh_offsets 1) 0
               (Z.lor REC_N_NEW_EXTRA_BYTES REC_OFFS_COMPACT)) 1 8).
Proof.
  intros Hcomp Hst.
  unfold rec_get_offsets_func, rec_init_offsets. rewrite Hcomp.
  destruct Hst as [-> | ->]; reflexivity.
Qed.

Lemma roundtrip_comp_infsup m buf index t :
  dict_table_is_comp index = true ->
  dtuple_fits_comp index t = true ->
  Z.land (dtuple_info_bits t) REC_NEW_STATUS_MASK = REC_STATUS_INFIMUM
  \/ Z.land (dtuple_info_bits t) REC_NEW_STATUS_MASK = REC_STATUS_SUPREMUM ->
  exists m' rec offsets,
    rec_convert_dtuple_to_rec_new m buf index t = Some (m', rec)
    /\ rec_get_offsets_func m' rec index None ULINT_UNDEFINED = Some offsets
    /\ rec_offs_n_fields offsets = dtuple_n_fields t
    /\ forall i f, nth_error (dtuple_fields t) i = Some f ->
         field_read_back m' rec offsets (Z.of_nat i) f.
Proof.
  intros Hcomp Hfit Hst.
  destruct (dtuple_fits_comp_inv _ _ Hfit) as (H1 & H2 & Hmax).
  assert (Hfit' : (dtuple_n_fields t =? 1) && (n_nullable index =? 0)
                  && fields_fit_comp (firstn 1 (index_fields index))
                       (dtuple_fields t)
                  && (fixed_len (dict_index_get_nth_field index 0) =? 8) = true).
  { unfold dtuple_fits_comp in Hfit.
    apply andb_prop in Hfit as [_ Hfit].
    destruct Hst as [E | E]; rewrite E in Hfit; exact Hfit. }
  clear Hfit.
  apply andb_prop in Hfit' as [H3 Hfix]. apply andb_prop in H3 as [H3 Hff].
  apply andb_prop in H3 as [Hn Hnn].
  apply Z.eqb_eq in Hn, Hnn, Hfix.
  unfold dtuple_n_fields in *.
  remember (dtuple_fields t) as fs eqn:Efs.
  destruct fs as [|f [|g fs]]; cbn [length] in Hn; try lia.
  destruct (fields_fit_comp_nth _ _ Hff) as (Hl2 & Hcnt & Hnth).
  assert (Hfrom : fits_from index 0 [f]).
  { intros j g Hj. destruct j as [|j]; [|destruct j; discriminate].
    injection Hj as <-. unfold dict_index_get_nth_field.
    change (Z.to_nat (0 + Z.of_nat 0)) with 0%nat.
    rewrite <- (nth_firstn_lt _ (index_fields index) 0 1) by lia.
    now apply Hnth. }
  pose proof (Hfrom 0%nat f eq_refl) as Hf0. cbn in Hf0.
  pose proof (count_nullable_nonneg (firstn 1 (index_fields index))) as Hc0.
  pose proof (count_nullable_firstn 1 (index_fields index)) as Hcf.
  destruct (field_fits_comp_inv _ _ Hf0)
    as (Hpr & _ & _ & _ & Hnull & Hnotnull).
  assert (En : dfield_is_null f = false).
  { destruct (dfield_is_null f) eqn:E; [|reflexivity].
    specialize (Hnull eq_refl). cbn [n_null_fields] in Hcnt.
    rewrite Hpr, Hnull in Hcnt. lia. }
  destruct (Hnotnull En) as (Hl0 & Hdl & _ & Hfx).
  destruct (Hfx ltac:(lia)) as [Hlen Hext].
  assert (Hcl : comp_data_len f = 8)
    by (unfold comp_data_len; rewrite En; lia).
  (* encoding *)
  unfold rec_convert_dtuple_to_rec_new, rec_get_converted_size_comp.
  unfold dtuple_n_fields. rewrite <- Efs.
  set (status := Z.land (dtuple_info_bits t) REC_NEW_STATUS_MASK) in *.
  assert (Hsz : ((if status =? REC_STATUS_ORDINARY
                  then let '(total, extra) :=
                         rec_get_converted_size_comp_prefix_low index [f]
                           (Z.of_nat (length [f])) false in
                       Some (0 + total, extra)
                  else if status =? REC_STATUS_NODE_PTR
                  then let '(total, extra) :=
                         rec_get_converted_size_comp_prefix_low index [f]
                           (Z.of_nat (length [f]) - 1) false in
                       Some (REC_NODE_PTR_SIZE + total, extra)
                  else if (status =? REC_STATUS_INFIMUM)
                          || (status =? REC_STATUS_SUPREMUM)
                  then Some (REC_N_NEW_EXTRA_BYTES + 8, REC_N_NEW_EXTRA_BYTES)
                  else None)
                 = Some (REC_N_NEW_EXTRA_BYTES + 8, REC_N_NEW_EXTRA_BYTES))).
  { destruct Hst as [-> | ->]; reflexivity. }
  rewrite Hsz. clear Hsz.
  set (rec := buf + REC_N_NEW_EXTRA_BYTES).
  rewrite (comp_encode_eq m rec index [f] (Z.of_nat (length [f])) status
             eq_refl ltac:(cbn; lia)
             (or_intror (or_intror Hst))).
  replace (if status =? REC_STATUS_NODE_PTR
           then Z.of_nat (length [f]) - 1 else ULINT_UNDEFINED)
    with ULINT_UNDEFINED by (destruct Hst as [-> | ->]; reflexivity).
  set (s_f := comp_store_fields index false ULINT_UNDEFINED [f] 0
                (comp_start m index rec)).
  set (m' := rec_set_info_and_status_bits (e_mem s_f) rec (dtuple_info_bits t)).
  destruct (comp_start_inv m index rec ltac:(lia)) as [Hinv0 _].
  assert (Hcap : 0 + n_null_fields [f] <= n_nullable index).
  { cbn [n_null_fields] in *. rewrite Hpr in *.
    destruct (nullable _); [|lia]. specialize (Hcnt). lia. }
  assert (Hnpf : 0 + Z.of_nat (length [f]) <= ULINT_UNDEFINED).
  { unfold ULINT_UNDEFINED. change (2 ^ 64 - 1) with 18446744073709551615.
    cbn. lia. }
  exists m', rec. eexists.
  split; [reflexivity|]. split.
  { apply rec_get_offsets_infsup_eq; [exact Hcomp|].
    subst m'. rewrite rec_get_status_set. exact Hst. }
  split; [reflexivity|].
  assert (HL : forall g, In g [f] -> 0 <= comp_data_len g).
  { intros g [<-|[]]. lia. }
  assert (Hne : forall g, In g [f] -> dfield_is_null g = true ->
                          dfield_ext g = false).
  { intros g [<-|[]]. congruence. }
  apply (entries_read_back m' rec _ comp_data_len [f] HL Hne).
  - cbn [sum_with]. rewrite Hcl. change (2 ^ 30) with 1073741824. lia.
  - intros j g Hj. destruct j as [|j]; [|destruct j; discriminate].
    injection Hj as <-. cbn [firstn sum_with]. rewrite Hcl.
    unfold gen_entry. rewrite En, Hext. reflexivity.
  - intros j g Hj Eg. destruct j as [|j]; [|destruct j; discriminate].
    injection Hj as <-. split; [lia|]. split; [exact Hdl|].
    cbn [firstn sum_with]. intros a Ha. subst m'.
    rewrite rec_set_info_and_status_bits_other by lia.
    apply (comp_store_fields_data index rec [f] 0 0 (comp_start m index rec)
             ULINT_UNDEFINED Hinv0 Hfrom ltac:(cbn [comp_data_sum] in *; lia)
             Hcap Hnpf 0%nat f eq_refl En).
    exact Ha.
Qed.

(** *** Old-style records *)

(** The bytes a field takes in an old-style record: an SQL null takes the
    bytes of its type. *)
Definition old_len (f : dfield_t) : Z :=
  if dfield_is_null f then dtype_get_sql_null_size (dfield_type f) 0
  else dfield_len f.

Definition field_fits_old (f : dfield_t) : bool :=
  (0 <=? old_len f)
  && if dfield_is_null f then negb (dfield_ext f)
     else Z.of_nat (length (dfield_data f)) =? dfield_len f.

(** A tuple that an old-style record can hold: the header has ten bits for
    the number of fields, an end offset has fourteen, and [n_ext] is zero
    only when no field is stored externally. *)
Definition dtuple_fits_old (t : dtuple_t) (n_ext : Z) : bool :=
  (1 <=? dtuple_n_fields t) && (dtuple_n_fields t <=? REC_MAX_N_FIELDS)
  && forallb field_fits_old (dtuple_fields t)
  && (dtuple_get_data_size t 0 <? REC_MAX_DATA_SIZE)
  && implb (n_ext =? 0) (forallb (fun f => negb (dfield_ext f)) (dtuple_fields t)).

Lemma testbit_small x k j :
  0 <= x < 2 ^ k -> 0 <= k <= j -> Z.testbit x j = false.
Proof.
  intros Hx Hk. rewrite <- (Z.mod_small x (2 ^ k)) by lia.
  apply Z.mod_pow2_bits_high. lia.
Qed.

Lemma lor_pow2_clear x k :
  0 <= k -> 0 <= x < 2 ^ k -> Z.land (Z.lor x (2 ^ k)) (Z.lnot (2 ^ k)) = x.
Proof.
  intros Hk Hx. apply Z.bits_inj'. intros i Hi.
  rewrite Z.land_spec, Z.lor_spec, Z.lnot_spec, Z.pow2_bits_eqb by lia.
  destruct (Z.eqb_spec k i) as [<-|Hne]; cbn [negb].
  - rewrite (testbit_small x k k) by lia. reflexivity.
  - now rewrite Bool.orb_false_r, Bool.andb_true_r.
Qed.

Lemma old_1byte_decode x (null : bool) :
  0 <= x < 128 ->
  let v := if null then Z.lor x REC_1BYTE_SQL_NULL_MASK else x in
  (if negb (Z.land v REC_1BYTE_SQL_NULL_MASK =? 0)
   then Z.lor (Z.land v (Z.lnot REC_1BYTE_SQL_NULL_MASK)) REC_OFFS_SQL_NULL
   else v) = gen_entry null false x.
Proof.
  intros Hx v. subst v. unfold REC_1BYTE_SQL_NULL_MASK, gen_entry.
  change 0x80 with (2 ^ 7). rewrite land_pow2_eqb by lia.
  assert (Hx' : 0 <= x < 2 ^ 7) by (change (2 ^ 7) with 128; lia).
  destruct null.
  - rewrite testbit_lor_pow2 by lia. rewrite Z.eqb_refl, Bool.orb_true_r.
    cbn [negb]. now rewrite lor_pow2_clear by lia.
  - now rewrite (testbit_small x 7 7) by lia.
Qed.

Lemma old_2byte_decode x (null ext : bool) :
  0 <= x < 16384 ->
  let v := if null then Z.lor x REC_2BYTE_SQL_NULL_MASK
           else if ext then Z.lor x REC_2BYTE_EXTERN_MASK else x in
  let offs :=
    if negb (Z.land v REC_2BYTE_SQL_NULL_MASK =? 0)
    then Z.lor (Z.land v (Z.lnot REC_2BYTE_SQL_NULL_MASK)) REC_OFFS_SQL_NULL
    else v in
  (if negb (Z.land offs REC_2BYTE_EXTERN_MASK =? 0)
   then Z.lor (Z.land offs (Z.lnot REC_2BYTE_EXTERN_MASK)) REC_OFFS_EXTERNAL
   else offs) = gen_entry null ext x.
Proof.
  intros Hx v offs. subst offs v.
  unfold REC_2BYTE_SQL_NULL_MASK, REC_2BYTE_EXTERN_MASK, gen_entry.
  change 0x8000 with (2 ^ 15). change 0x4000 with (2 ^ 14).
  assert (Hx14 : 0 <= x < 2 ^ 14) by (change (2 ^ 14) with 16384; lia).
  assert (Hx15 : 0 <= x < 2 ^ 15) by (change (2 ^ 15) with 32768; lia).
  destruct null.
  - rewrite (land_pow2_eqb _ 15) by lia.
    rewrite testbit_lor_pow2 by lia. rewrite Z.eqb_refl, Bool.orb_true_r.
    cbn [negb]. rewrite lor_pow2_clear by lia.
    rewrite (land_pow2_eqb _ 14) by lia.
    unfold REC_OFFS_SQL_NULL. rewrite Z.shiftl_1_l.
    rewrite testbit_lor_pow2 by lia.
    rewrite (testbit_small x 14 14) by lia. reflexivity.
  - destruct ext.
    + rewrite (land_pow2_eqb _ 15) by lia.
      rewrite testbit_lor_pow2 by lia.
      rewrite (testbit_small x 14 15) by lia. cbn [negb orb Z.eqb Pos.eqb].
      rewrite (land_pow2_eqb _ 14) by lia.
      rewrite testbit_lor_pow2 by lia. rewrite Z.eqb_refl, Bool.orb_true_r.
      cbn [negb]. now rewrite lor_pow2_clear by lia.
    + rewrite (land_pow2_eqb _ 15) by lia.
      rewrite (testbit_small x 14 15) by lia. cbn [negb].
      rewrite (land_pow2_eqb _ 14) by lia.
      now rewrite (testbit_small x 14 14) by lia.
Qed.

Lemma old_1byte_field_entry m rec i s x (null : bool) :
  0 <= x < 128 ->
  rec_1_get_field_end_info m rec i
  = (if null then Z.lor x REC_1BYTE_SQL_NULL_MASK else x) ->
  rec_offs_base (d_offsets (old_1byte_field m rec i s)) (1 + i)
  = gen_entry null false x
  /\ forall k, k <> REC_OFFS_HEADER_SIZE -> k <> REC_OFFS_HEADER_SIZE + (1 + i) ->
       d_offsets (old_1byte_field m rec i s) k = d_offsets s k.
Proof.
  intros Hx Hr. unfold old_1byte_field. cbn [d_offsets]. rewrite Hr. split.
  - rewrite rec_offs_base_set_same. now apply old_1byte_decode.
  - intros k _ Hk. unfold rec_offs_base_set. now apply arr_set_other.
Qed.

Lemma old_2byte_field_entry m rec i s x (null ext : bool) :
  0 <= x < 16384 ->
  rec_2_get_field_end_info m rec i
  = (if null then Z.lor x REC_2BYTE_SQL_NULL_MASK
     else if ext then Z.lor x REC_2BYTE_EXTERN_MASK else x) ->
  rec_offs_base (d_offsets (old_2byte_field m rec i s)) (1 + i)
  = gen_entry null ext x
  /\ forall k, k <> REC_OFFS_HEADER_SIZE -> k <> REC_OFFS_HEADER_SIZE + (1 + i) ->
       d_offsets (old_2byte_field m rec i s) k = d_offsets s k.
Proof.
  intros Hx Hr. unfold old_2byte_field. cbn [d_offsets]. rewrite Hr. split.
  - rewrite rec_offs_base_set_same. now apply old_2byte_decode.
  - intros k Hk0 Hk. unfold rec_offs_base_set.
    rewrite arr_set_other by exact Hk.
    match goal with |- (if ?c then _ else _) k = _ => destruct c end;
      [|reflexivity].
    apply arr_set_other. lia.
Qed.

(** The entries a loop over the end offsets leaves in the array. *)
Lemma dec_iter_entries (body : Z -> dec_t -> dec_t) (E : Z -> Z) k :
  forall i d,
  0 <= i ->
  (forall j s, i <= j < i + Z.of_nat k ->
     rec_offs_base (d_offsets (body j s)) (1 + j) = E j
     /\ forall x, x <> REC_OFFS_HEADER_SIZE ->
          x <> REC_OFFS_HEADER_SIZE + (1 + j) ->
          d_offsets (body j s) x = d_offsets s x) ->
  (forall j, i <= j < i + Z.of_nat k ->
     rec_offs_base (d_offsets (dec_iter body k i d)) (1 + j) = E j)
  /\ (forall x, x <> REC_OFFS_HEADER_SIZE -> x < REC_OFFS_HEADER_SIZE + 1 + i ->
        d_offsets (dec_iter body k i d) x = d_offsets d x).
Proof.
  induction k as [|k IH]; intros i d Hi Hbody.
  - split; [intros j Hj; lia | reflexivity].
  - cbn [dec_iter].
    destruct (IH (i + 1) (body i d) ltac:(lia)) as [IH1 IH2].
    { intros j s Hj. apply Hbody. lia. }
    destruct (Hbody i d ltac:(lia)) as [B1 B2].
    split.
    + intros j Hj. destruct (Z.eq_dec j i) as [->|Hne].
      * unfold rec_offs_base. rewrite IH2 by (unfold REC_OFFS_HEADER_SIZE; lia).
        exact B1.
      * apply IH1. lia.
    + intros x Hx0 Hx. rewrite IH2 by lia. apply B2; lia.
Qed.

Lemma data_size_eq_aux fs : forall acc,
  fold_left
    (fun sum f =>
       let len := dfield_len f in
       let len := if len =? UNIV_SQL_NULL
                  then dtype_get_sql_null_size (dfield_type f) 0 else len in
       sum + len) fs acc
  = acc + sum_with old_len fs.
Proof.
  induction fs as [|f fs IH]; intros acc; cbn [fold_left sum_with]; [lia|].
  rewrite IH. unfold old_len, dfield_is_null. lia.
Qed.

Lemma data_size_eq t :
  dtuple_get_data_size t 0 = sum_with old_len (dtuple_fields t).
Proof. unfold dtuple_get_data_size. now rewrite data_size_eq_aux. Qed.

Lemma field_fits_old_inv f :
  field_fits_old f = true ->
  0 <= old_len f
  /\ (dfield_is_null f = true -> dfield_ext f = false)
  /\ (dfield_is_null f = false ->
      old_len f = dfield_len f
      /\ Z.of_nat (length (dfield_data f)) = dfield_len f).
Proof.
  unfold field_fits_old. intros H. apply andb_prop in H as [H1 H2].
  apply Z.leb_le in H1. split; [exact H1|].
  unfold old_len in *. destruct (dfield_is_null f).
  - split; [intros _; now apply Bool.negb_true_iff | discriminate].
  - split; [discriminate | intros _]. apply Z.eqb_eq in H2. auto.
Qed.

Lemma old_store_fields_1_spec rec fs : forall i m e,
  0 <= i -> 0 <= e ->
  forallb field_fits_old fs = true ->
  e + sum_with old_len fs <= REC_1BYTE_OFFS_LIMIT ->
  let r := old_store_fields_1 rec fs i m e in
  snd r = e + sum_with old_len fs
  /\ (forall a, a < rec - (REC_N_OLD_EXTRA_BYTES + i + Z.of_nat (length fs))
                \/ rec - (REC_N_OLD_EXTRA_BYTES + i) <= a < rec + e
                \/ rec + snd r <= a ->
        fst r a = m a)
  /\ (forall j f, nth_error fs j = Some f ->
        rec_1_get_field_end_info (fst r) rec (i + Z.of_nat j)
        = if dfield_is_null f
          then Z.lor (e + sum_with old_len (firstn (S j) fs))
                 REC_1BYTE_SQL_NULL_MASK
          else e + sum_with old_len (firstn (S j) fs))
  /\ (forall j f, nth_error fs j = Some f -> dfield_is_null f = false ->
        forall a, rec + (e + sum_with old_len (firstn j fs)) <= a
                  < rec + (e + sum_with old_len (firstn j fs)) + dfield_len f ->
          fst r a = nth (Z.to_nat (a - (rec + (e + sum_with old_len (firstn j fs)))))
                      (dfield_data f) x00).
Proof.
  unfold REC_1BYTE_OFFS_LIMIT, REC_N_OLD_EXTRA_BYTES.
  induction fs as [|f fs IH]; intros i m e Hi He Hfit Hsum;
    set (r := old_store_fields_1 rec _ i m e).
  - subst r. cbn. split; [lia|]. split; [reflexivity|].
    split; intros j f Hj; destruct j; discriminate.
  - cbn [forallb] in Hfit. apply andb_prop in Hfit as [Hf Hfit].
    destruct (field_fits_old_inv _ Hf) as (Hl0 & _ & Hnn).
    cbn [sum_with] in Hsum.
    assert (Hs0 : 0 <= sum_with old_len fs).
    { apply sum_with_nonneg. intros g Hg.
      rewrite forallb_forall in Hfit.
      now destruct (field_fits_old_inv _ (Hfit g Hg)). }
    set (e1 := e + old_len f).
    set (ored := if dfield_is_null f
                 then Z.lor e1 REC_1BYTE_SQL_NULL_MASK else e1).
    set (m0 := if dfield_is_null f
               then data_write_sql_null m (rec + e)
                      (dtype_get_sql_null_size (dfield_type f) 0)
               else memcpy m (rec + e) (dfield_data f) (dfield_len f)).
    set (m1 := rec_1_set_field_end_info m0 rec i ored).
    assert (Er : r = old_store_fields_1 rec fs (i + 1) m1 e1).
    { subst r m1 m0 ored e1. cbn [old_store_fields_1]. unfold old_len.
      destruct (dfield_is_null f); reflexivity. }
    destruct (IH (i + 1) m1 e1 ltac:(lia) ltac:(lia) Hfit ltac:(lia))
      as (I1 & I2 & I3 & I4).
    rewrite <- Er in I1, I2, I3, I4. clearbody r.
    assert (Hm0 : forall a, a < rec + e \/ rec + e1 <= a -> m0 a = m a).
    { intros a Ha. subst m0 e1. unfold old_len, data_write_sql_null in *.
      destruct (dfield_is_null f);
        [apply memset_out | apply memcpy_out]; lia. }
    assert (Hm1 : forall a, a <> rec - (6 + i + 1) -> m1 a = m0 a).
    { intros a Ha. subst m1. unfold rec_1_set_field_end_info,
        REC_N_OLD_EXTRA_BYTES. now apply write1_other. }
    assert (Hored : 0 <= ored < 256).
    { subst ored. destruct (dfield_is_null f); [|lia].
      unfold REC_1BYTE_SQL_NULL_MASK. change 0x80 with (2 ^ 7).
      rewrite lor_pow2_add by (change (2 ^ 7) with 128; lia).
      change (2 ^ 7) with 128. lia. }
    cbn [length]. split; [cbn [sum_with]; lia|]. split; [|split].
    + intros a Ha. rewrite I2 by lia. rewrite Hm1 by lia. apply Hm0. lia.
    + intros j g Hj. destruct j as [|j].
      * injection Hj as <-. cbn [firstn sum_with].
        rewrite Z.add_0_r, Z.add_0_r. fold e1. fold ored.
        unfold rec_1_get_field_end_info, REC_N_OLD_EXTRA_BYTES.
        rewrite (read1_ext _ m1) by (apply I2; lia).
        subst m1. unfold rec_1_set_field_end_info, REC_N_OLD_EXTRA_BYTES.
        rewrite read1_write1_same. apply Z.mod_small. exact Hored.
      * cbn [nth_error] in Hj. specialize (I3 j g Hj).
        replace (i + Z.of_nat (S j)) with (i + 1 + Z.of_nat j) by lia.
        rewrite I3. rewrite firstn_cons. cbn [sum_with].
        replace (e1 + sum_with old_len (firstn (S j) fs))
          with (e + (old_len f + sum_with old_len (firstn (S j) fs)))
          by (subst e1; lia).
        reflexivity.
    + intros j g Hj Eg a Ha. destruct j as [|j].
      * injection Hj as <-. cbn [firstn sum_with] in *.
        destruct (Hnn Eg) as [HLf Hdl].
        rewrite I2 by lia. rewrite Hm1 by lia.
        subst m0. rewrite Eg. rewrite memcpy_in by lia. f_equal. lia.
      * cbn [nth_error] in Hj. cbn [firstn sum_with] in *.
        pose proof (I4 j g Hj Eg a) as I4'.
        replace (e1 + sum_with old_len (firstn j fs))
          with (e + (old_len f + sum_with old_len (firstn j fs))) in I4'
          by (subst e1; lia).
        apply I4'. exact Ha.
Qed.

Lemma old_store_fields_2_spec rec fs : forall i m e,
  0 <= i -> 0 <= e ->
  forallb field_fits_old fs = true ->
  e + sum_with old_len fs < REC_MAX_DATA_SIZE ->
  let r := old_store_fields_2 rec fs i m e in
  snd r = e + sum_with old_len fs
  /\ (forall a, a < rec - (REC_N_OLD_EXTRA_BYTES + 2 * i
                           + 2 * Z.of_nat (length fs))
                \/ rec - (REC_N_OLD_EXTRA_BYTES + 2 * i) <= a < rec + e
                \/ rec + snd r <= a ->
        fst r a = m a)
  /\ (forall j f, nth_error fs j = Some f ->
        rec_2_get_field_end_info (fst r) rec (i + Z.of_nat j)
        = if dfield_is_null f
          then Z.lor (e + sum_with old_len (firstn (S j) fs))
                 REC_2BYTE_SQL_NULL_MASK
          else if dfield_ext f
          then Z.lor (e + sum_with old_len (firstn (S j) fs))
                 REC_2BYTE_EXTERN_MASK
          else e + sum_with old_len (firstn (S j) fs))
  /\ (forall j f, nth_error fs j = Some f -> dfield_is_null f = false ->
        forall a, rec + (e + sum_with old_len (firstn j fs)) <= a
                  < rec + (e + sum_with old_len (firstn j fs)) + dfield_len f ->
          fst r a = nth (Z.to_nat (a - (rec + (e + sum_with old_len (firstn j fs)))))
                      (dfield_data f) x00).
Proof.
  unfold REC_MAX_DATA_SIZE, REC_N_OLD_EXTRA_BYTES.
  induction fs as [|f fs IH]; intros i m e Hi He Hfit Hsum;
    set (r := old_store_fields_2 rec _ i m e).
  - subst r. cbn. split; [lia|]. split; [reflexivity|].
    split; intros j f Hj; destruct j; discriminate.
  - cbn [forallb] in Hfit. apply andb_prop in Hfit as [Hf Hfit].
    destruct (field_fits_old_inv _ Hf) as (Hl0 & _ & Hnn).
    cbn [sum_with] in Hsum.
    assert (Hs0 : 0 <= sum_with old_len fs).
    { apply sum_with_nonneg. intros g Hg.
      rewrite forallb_forall in Hfit.
      now destruct (field_fits_old_inv _ (Hfit g Hg)). }
    set (e1 := e + old_len f).
    set (ored := if dfield_is_null f
                 then Z.lor e1 REC_2BYTE_SQL_NULL_MASK
                 else if dfield_ext f then Z.lor e1 REC_2BYTE_EXTERN_MASK
                 else e1).
    set (m0 := if dfield_is_null f
               then data_write_sql_null m (rec + e)
                      (dtype_get_sql_null_size (dfield_type f) 0)
               else memcpy m (rec + e) (dfield_data f) (dfield_len f)).
    set (m1 := rec_2_set_field_end_info m0 rec i ored).
    assert (Er : r = old_store_fields_2 rec fs (i + 1) m1 e1).
    { subst r m1 m0 ored e1. cbn [old_store_fields_2]. unfold old_len.
      destruct (dfield_is_null f); reflexivity. }
    destruct (IH (i + 1) m1 e1 ltac:(lia) ltac:(lia) Hfit ltac:(lia))
      as (I1 & I2 & I3 & I4).
    rewrite <- Er in I1, I2, I3, I4. clearbody r.
    assert (Hm0 : forall a, a < rec + e \/ rec + e1 <= a -> m0 a = m a).
    { intros a Ha. subst m0 e1. unfold old_len, data_write_sql_null in *.
      destruct (dfield_is_null f);
        [apply memset_out | apply memcpy_out]; lia. }
    assert (Hm1 : forall a, a <> rec - (6 + 2 * i + 2) ->
                            a <> rec - (6 + 2 * i + 2) + 1 -> m1 a = m0 a).
    { intros a Ha Ha'. subst m1. unfold rec_2_set_field_end_info,
        REC_N_OLD_EXTRA_BYTES. now apply write2_other. }
    assert (Hored : 0 <= ored < 65536).
    { subst ored. unfold REC_2BYTE_SQL_NULL_MASK, REC_2BYTE_EXTERN_MASK.
      change 0x8000 with (2 ^ 15). change 0x4000 with (2 ^ 14).
      destruct (dfield_is_null f); [|destruct (dfield_ext f)].
      - rewrite lor_pow2_add by (change (2 ^ 15) with 32768; lia).
        change (2 ^ 15) with 32768. lia.
      - rewrite lor_pow2_add by (change (2 ^ 14) with 16384; lia).
        change (2 ^ 14) with 16384. lia.
      - lia. }
    cbn [length]. split; [cbn [sum_with]; lia|]. split; [|split].
    + intros a Ha. rewrite I2 by lia. rewrite Hm1 by lia. apply Hm0. lia.
    + intros j g Hj. destruct j as [|j].
      * injection Hj as <-. cbn [firstn sum_with].
        rewrite Z.add_0_r, Z.add_0_r. fold e1. fold ored.
        unfold rec_2_get_field_end_info, REC_N_OLD_EXTRA_BYTES.
        rewrite (read2_ext _ m1) by (apply I2; lia).
        subst m1. unfold rec_2_set_field_end_info, REC_N_OLD_EXTRA_BYTES.
        rewrite read2_write2_same. apply Z.mod_small. exact Hored.
      * cbn [nth_error] in Hj. specialize (I3 j g Hj).
        replace (i + Z.of_nat (S j)) with (i + 1 + Z.of_nat j) by lia.
        rewrite I3. rewrite firstn_cons. cbn [sum_with].
        replace (e1 + sum_with old_len (firstn (S j) fs))
          with (e + (old_len f + sum_with old_len (firstn (S j) fs)))
          by (subst e1; lia).
        reflexivity.
    + intros j g Hj Eg a Ha. destruct j as [|j].
      * injection Hj as <-. cbn [firstn sum_with] in *.
        destruct (Hnn Eg) as [HLf Hdl].
        rewrite I2 by lia. rewrite Hm1 by lia.
        subst m0. rewrite Eg. rewrite memcpy_in by lia. f_equal. lia.
      * cbn [nth_error] in Hj. cbn [firstn sum_with] in *.
        pose proof (I4 j g Hj Eg a) as I4'.
        replace (e1 + sum_with old_len (firstn j fs))
          with (e + (old_len f + sum_with old_len (firstn j fs))) in I4'
          by (subst e1; lia).
        apply I4'. exact Ha.
Qed.

Lemma rec_get_offsets_old_eq m rec index n :
  dict_table_is_comp index = false ->
  rec_get_n_fields_old m rec = n -> 1 <= n <= 1023 ->
  rec_get_offsets_func m rec index None ULINT_UNDEFINED
  = Some (d_offsets
            (if negb (rec_get_1byte_offs_flag m rec =? 0)
             then dec_iter (old_1byte_field m rec) (Z.to_nat n) 0
                    (mk_dec (REC_N_OLD_EXTRA_BYTES + n) 0 0 0 0
                       (rec_offs_base_set (fresh_offsets n) 0
                          (REC_N_OLD_EXTRA_BYTES + n)))
             else dec_iter (old_2byte_field m rec) (Z.to_nat n) 0
                    (mk_dec (REC_N_OLD_EXTRA_BYTES + 2 * n) 0 0 0 0
                       (rec_offs_base_set (fresh_offsets n) 0
                          (REC_N_OLD_EXTRA_BYTES + 2 * n))))).
Proof.
  intros Hcomp Hn Hr. unfold rec_get_offsets_func, rec_init_offsets.
  rewrite Hcomp, Hn.
  destruct (Z.ltb_spec ULINT_UNDEFINED n) as [H|H].
  - unfold ULINT_UNDEFINED in H.
    change (2 ^ 64 - 1) with 18446744073709551615 in H. lia.
  - fold (fresh_offsets n).
    change (rec_offs_n_fields (fresh_offsets n)) with n.
    destruct (negb (rec_get_1byte_offs_flag m rec =? 0));
      rewrite do_while_fields_iter by lia; rewrite Z.sub_0_r; reflexivity.
Qed.

(** Reading back an old-style record whose end offsets are decoded. *)
Lemma old_read_back m rec fs (body : Z -> dec_t -> dec_t) d :
  forallb field_fits_old fs = true ->
  sum_with old_len fs < REC_MAX_DATA_SIZE ->
  rec_offs_n_fields (d_offsets d) = Z.of_nat (length fs) ->
  (forall j f s, nth_error fs j = Some f ->
     rec_offs_base (d_offsets (body (Z.of_nat j) s)) (1 + Z.of_nat j)
     = gen_entry (dfield_is_null f) (dfield_ext f)
         (sum_with old_len (firstn (S j) fs))
     /\ forall x, x <> REC_OFFS_HEADER_SIZE ->
          x <> REC_OFFS_HEADER_SIZE + (1 + Z.of_nat j) ->
          d_offsets (body (Z.of_nat j) s) x = d_offsets s x) ->
  (forall j f, nth_error fs j = Some f -> dfield_is_null f = false ->
     forall a, rec + (0 + sum_with old_len (firstn j fs)) <= a
               < rec + (0 + sum_with old_len (firstn j fs)) + dfield_len f ->
       m a = nth (Z.to_nat (a - (rec + (0 + sum_with old_len (firstn j fs)))))
               (dfield_data f) x00) ->
  let offsets := d_offsets (dec_iter body (length fs) 0 d) in
  rec_offs_n_fields offsets = Z.of_nat (length fs)
  /\ forall i f, nth_error fs i = Some f ->
       field_read_back m rec offsets (Z.of_nat i) f.
Proof.
  intros Hfit Hsum Hnf Hbody Hdata offsets.
  set (E := fun j : Z =>
              match nth_error fs (Z.to_nat j) with
              | Some f => gen_entry (dfield_is_null f) (dfield_ext f)
                            (sum_with old_len (firstn (S (Z.to_nat j)) fs))
              | None => 0
              end).
  destruct (dec_iter_entries body E (length fs) 0 d ltac:(lia)) as [D1 D2].
  { intros j s Hj.
    destruct (nth_error fs (Z.to_nat j)) as [f|] eqn:Ef.
    - destruct (Hbody (Z.to_nat j) f s Ef) as [B1 B2].
      rewrite Z2Nat.id in B1, B2 by lia. split; [|exact B2].
      rewrite B1. unfold E. now rewrite Ef.
    - apply nth_error_None in Ef. lia. }
  fold offsets in D1, D2.
  rewrite forallb_forall in Hfit.
  split.
  - unfold rec_offs_n_fields. rewrite D2 by (unfold REC_OFFS_HEADER_SIZE; lia).
    exact Hnf.
  - assert (HL : forall f, In f fs -> 0 <= old_len f).
    { intros f Hin. now destruct (field_fits_old_inv _ (Hfit f Hin)). }
    assert (Hne : forall f, In f fs -> dfield_is_null f = true ->
                            dfield_ext f = false).
    { intros f Hin. now destruct (field_fits_old_inv _ (Hfit f Hin)) as (_ & H & _). }
    apply (entries_read_back m rec offsets old_len fs HL Hne).
    + unfold REC_MAX_DATA_SIZE in Hsum. change (2 ^ 30) with 1073741824. lia.
    + intros j f Hj.
      assert (Hjl : (j < length fs)%nat) by (apply nth_error_Some; congruence).
      replace (Z.of_nat j + 1) with (1 + Z.of_nat j) by lia.
      rewrite D1 by lia. unfold E. now rewrite Nat2Z.id, Hj.
    + intros j f Hj En.
      destruct (field_fits_old_inv _ (Hfit f (nth_error_In _ _ Hj)))
        as (_ & _ & Hnn).
      destruct (Hnn En) as [HLf Hdl]. split; [exact HLf|]. split; [exact Hdl|].
      intros a Ha. pose proof (Hdata j f Hj En a) as Hd.
      rewrite Z.add_0_l in Hd. now apply Hd.
Qed.

Lemma roundtrip_old m buf index t n_ext :
  dict_table_is_comp index = false ->
  dtuple_fits_old t n_ext = true ->
  exists m' rec offsets,
    rec_convert_dtuple_to_rec_old m buf t n_ext = (m', rec)
    /\ rec_get_offsets_func m' rec index None ULINT_UNDEFINED = Some offsets
    /\ rec_offs_n_fields offsets = dtuple_n_fields t
    /\ forall i f, nth_error (dtuple_fields t) i = Some f ->
         field_read_back m' rec offsets (Z.of_nat i) f.
Proof.
  intros Hcomp Hfit. unfold dtuple_fits_old in Hfit.
  apply andb_prop in Hfit as [Hfit Hext]. apply andb_prop in Hfit as [Hfit Hds].
  apply andb_prop in Hfit as [Hfit Hff]. apply andb_prop in Hfit as [Hn1 Hn2].
  apply Z.leb_le in Hn1, Hn2. apply Z.ltb_lt in Hds.
  rewrite data_size_eq in Hds.
  unfold rec_convert_dtuple_to_rec_old. rewrite data_size_eq.
  unfold dtuple_n_fields, REC_MAX_N_FIELDS in *.
  remember (dtuple_fields t) as fs eqn:Efs.
  set (n := Z.of_nat (length fs)) in *.
  set (rec := buf + rec_get_converted_extra_size (sum_with old_len fs) n n_ext).
  set (info := Z.land (dtuple_info_bits t) REC_INFO_BITS_MASK).
  fold (old_header m rec n info 1). fold (old_header m rec n info 0).
  assert (Hs0 : 0 <= sum_with old_len fs).
  { apply sum_with_nonneg. intros g Hg. rewrite forallb_forall in Hff.
    now destruct (field_fits_old_inv _ (Hff g Hg)). }
  destruct ((n_ext =? 0) && (sum_with old_len fs <=? REC_1BYTE_OFFS_LIMIT))
    eqn:Ec.
  - apply andb_prop in Ec as [Ee Es]. apply Z.leb_le in Es.
    rewrite Ee in Hext. cbn [implb] in Hext. rewrite forallb_forall in Hext.
    set (mh := old_header m rec n info 1).
    destruct (old_store_fields_1_spec rec fs 0 mh 0 ltac:(lia) ltac:(lia) Hff
                ltac:(lia)) as (S1 & S2 & S3 & S4).
    set (r := old_store_fields_1 rec fs 0 mh 0) in *.
    unfold REC_N_OLD_EXTRA_BYTES in S2.
    assert (Hnf : rec_get_n_fields_old (fst r) rec = n).
    { unfold rec_get_n_fields_old, rec_get_bit_field_2, REC_OLD_N_FIELDS.
      rewrite (read2_ext _ mh) by (apply S2; lia).
      apply (old_header_n_fields m rec n info 1); lia. }
    assert (Hfl : rec_get_1byte_offs_flag (fst r) rec = 1).
    { unfold rec_get_1byte_offs_flag, rec_get_bit_field_1, REC_OLD_SHORT.
      rewrite (read1_ext _ mh) by (apply S2; lia).
      apply (old_header_flag m rec n info 1); lia. }
    exists (fst r), rec. eexists. split; [reflexivity|].
    rewrite (rec_get_offsets_old_eq _ _ _ n Hcomp Hnf ltac:(lia)), Hfl.
    cbn [Z.eqb negb]. split; [reflexivity|].
    replace (Z.to_nat n) with (length fs) by lia.
    apply old_read_back; try assumption.
    + cbn [d_offsets]. unfold rec_offs_n_fields, rec_offs_base_set.
      now rewrite arr_set_other by (unfold REC_OFFS_HEADER_SIZE; lia).
    + intros j f s Hj.
      pose proof (sum_with_firstn_le old_len fs (S j)) as Hb.
      assert (Ex : dfield_ext f = false)
        by (apply Bool.negb_true_iff, Hext, (nth_error_In _ _ Hj)).
      rewrite Ex.
      apply old_1byte_field_entry.
      * unfold REC_1BYTE_OFFS_LIMIT in Es.
        assert (HL : forall g, In g fs -> 0 <= old_len g).
        { intros g Hg. rewrite forallb_forall in Hff.
          now destruct (field_fits_old_inv _ (Hff g Hg)). }
        specialize (Hb HL). lia.
      * specialize (S3 j f Hj). rewrite !Z.add_0_l in S3. exact S3.
  - set (mh := old_header m rec n info 0).
    destruct (old_store_fields_2_spec rec fs 0 mh 0 ltac:(lia) ltac:(lia) Hff
                ltac:(lia)) as (S1 & S2 & S3 & S4).
    set (r := old_store_fields_2 rec fs 0 mh 0) in *.
    unfold REC_N_OLD_EXTRA_BYTES in S2.
    assert (Hnf : rec_get_n_fields_old (fst r) rec = n).
    { unfold rec_get_n_fields_old, rec_get_bit_field_2, REC_OLD_N_FIELDS.
      rewrite (read2_ext _ mh) by (apply S2; lia).
      apply (old_header_n_fields m rec n info 0); lia. }
    assert (Hfl : rec_get_1byte_offs_flag (fst r) rec = 0).
    { unfold rec_get_1byte_offs_flag, rec_get_bit_field_1, REC_OLD_SHORT.
      rewrite (read1_ext _ mh) by (apply S2; lia).
      apply (old_header_flag m rec n info 0); lia. }
    exists (fst r), rec. eexists. split; [reflexivity|].
    rewrite (rec_get_offsets_old_eq _ _ _ n Hcomp Hnf ltac:(lia)), Hfl.
    cbn [Z.eqb negb]. split; [reflexivity|].
    replace (Z.to_nat n) with (length fs) by lia.
    apply old_read_back; try assumption.
    + cbn [d_offsets]. unfold rec_offs_n_fields, rec_offs_base_set.
      now rewrite arr_set_other by (unfold REC_OFFS_HEADER_SIZE; lia).
    + intros j f s Hj.
      pose proof (sum_with_firstn_le old_len fs (S j)) as Hb.
      apply old_2byte_field_entry.
      * unfold REC_MAX_DATA_SIZE in Hds.
        assert (HL : forall g, In g fs -> 0 <= old_len g).
        { intros g Hg. rewrite forallb_forall in Hff.
          now destruct (field_fits_old_inv _ (Hff g Hg)). }
        specialize (Hb HL). lia.
      * specialize (S3 j f Hj). rewrite !Z.add_0_l in S3. exact S3.
Qed.

(** *** The round trip of the codec *)

(** A tuple that respects the index: the types, the nullability and the
    external-storage flags of its fields are those the index allows, and
    the record fits the format. *)
Definition dtuple_fits (index : dict_index_t) (t : dtuple_t) (n_ext : Z) : bool :=
  if dict_table_is_comp index
  then dtuple_fits_comp index t
  else dtuple_fits_old t n_ext.

(** C1.  Codec round trip: for every data tuple whose fields respect the
    index descriptor's types, nullability and external-storage flags,
    [rec_convert_dtuple_to_rec] builds a record, [rec_get_offsets] reads its
    offsets, and the access to each field through the offsets yields the
    tuple again: the number of fields is that of the tuple, every field that
    is not null has its length and its bytes unchanged, every SQL-null field
    is reported with the length [UNIV_SQL_NULL], and the EXTERNAL flag of
    each field is set exactly when the field is stored externally. *)
Theorem codec_round_trip m buf index t n_ext :
  dtuple_fits index t n_ext = true ->
  exists m' rec offsets,
    rec_convert_dtuple_to_rec m buf index t n_ext = Some (m', rec)
    /\ rec_get_offsets_func m' rec index None ULINT_UNDEFINED = Some offsets
    /\ rec_offs_n_fields offsets = dtuple_n_fields t
    /\ forall i f, nth_error (dtuple_fields t) i = Some f ->
         field_read_back m' rec offsets (Z.of_nat i) f.
Proof.
  unfold dtuple_fits, rec_convert_dtuple_to_rec. intros Hfit.
  destruct (dict_table_is_comp index) eqn:Hcomp.
  - assert (Hst : Z.land (dtuple_info_bits t) REC_NEW_STATUS_MASK
                    = REC_STATUS_ORDINARY
                  \/ Z.land (dtuple_info_bits t) REC_NEW_STATUS_MASK
                    = REC_STATUS_NODE_PTR
                  \/ (Z.land (dtuple_info_bits t) REC_NEW_STATUS_MASK
                      = REC_STATUS_INFIMUM
                      \/ Z.land (dtuple_info_bits t) REC_NEW_STATUS_MASK
                      = REC_STATUS_SUPREMUM)).
    { pose proof Hfit as H. unfold dtuple_fits_comp in H.
      apply andb_prop in H as [_ H].
      destruct (Z.eqb_spec (Z.land (dtuple_info_bits t) REC_NEW_STATUS_MASK)
                  REC_STATUS_ORDINARY); [now left|].
      destruct (Z.eqb_spec (Z.land (dtuple_info_bits t) REC_NEW_STATUS_MASK)
                  REC_STATUS_NODE_PTR); [now right; left|].
      right; right.
      destruct (Z.eqb_spec (Z.land (dtuple_info_bits t) REC_NEW_STATUS_MASK)
                  REC_STATUS_INFIMUM); [now left|].
      destruct (Z.eqb_spec (Z.land (dtuple_info_bits t) REC_NEW_STATUS_MASK)
                  REC_STATUS_SUPREMUM); [now right|].
      discriminate. }
    destruct Hst as [Hst | [Hst | Hst]].
    + now apply roundtrip_comp_ordinary.
    + now apply roundtrip_comp_node_ptr.
    + now apply roundtrip_comp_infsup.
  - destruct (roundtrip_old m buf index t n_ext Hcomp Hfit)
      as (m' & rec & offsets & E & H).
    exists m', rec, offsets. rewrite E. split; [reflexivity | exact H].
Qed.

(** *** The size of a compact record *)





(** *** The length prefix of a compact record *)

(** The length prefix, whatever the big columns are: for a field that is
    not null, of a variable-length column, the encoder writes a length
    prefix of 1 byte exactly when the column is not a big one,
    [DATA_BIG_COL] being false, or the actual length is below 128 and the
    field is not stored externally; that byte is the length.  In every
    other case it writes 2 bytes: the top bit of the first is set, its
    second-highest bit is the external-storage flag of the field, and the
    fourteen bits that remain are the length.  The decoder consumes the
    same bytes, and finds the length and the flag again. *)
Lemma length_prefix_rule index f i s :
  let ifield := dict_index_get_nth_field index i in
  let col := field_col ifield in
  let s1 := comp_store_field index false f i s in
  let n := e_lens s - e_lens s1 in
  let b1 := mach_read_from_1 (e_mem s1) (e_lens s) in
  let b2 := mach_read_from_1 (e_mem s1) (e_lens s - 1) in
  field_fits_comp ifield f = true ->
  dfield_is_null f = false ->
  fixed_len ifield = 0 ->
  dfield_len f < 16384 ->
  e_lens s < e_end s ->
  (n = 1 <-> DATA_BIG_COL col = false
             \/ (dfield_len f < 128 /\ dfield_ext f = false))
  /\ (n = 1 -> b1 = dfield_len f)
  /\ (n <> 1 ->
      n = 2 /\ Z.testbit b1 7 = true /\ Z.testbit b1 6 = dfield_ext f
      /\ (b1 mod 64) * 256 + b2 = dfield_len f)
  /\ forall offs any_ext nulls null_mask offsets,
       let d := comp_read_length (e_mem s1) false index i offs any_ext nulls
                  (e_lens s) null_mask offsets in
       d_lens d = e_lens s - n
       /\ d_offs d = offs + dfield_len f
       /\ rec_offs_base (d_offsets d) (i + 1)
          = if dfield_ext f then Z.lor (offs + dfield_len f) REC_OFFS_EXTERNAL
            else offs + dfield_len f.
Proof.
  intros ifield col s1 n b1 b2 Hfit En Hvar Hlen Hgeo.
  destruct (comp_store_field_cursors index f i s Hfit) as (_ & _ & HL & _).
  destruct (comp_store_field_len_bytes index f i s Hfit En Hlen Hgeo)
    as [HB1 HB2].
  fold ifield in HL, HB1, HB2. fold s1 in HL, HB1, HB2.
  fold b1 in HB1. fold b2 in HB2.
  assert (Hn : n = comp_len_bytes ifield f) by (subst n; lia).
  destruct (field_fits_comp_inv _ _ Hfit)
    as (_ & _ & _ & _ & _ & Hnn).
  destruct (Hnn En) as (Hl0 & _ & Hv & _).
  destruct (Hv Hvar) as [Hext Hsmall].
  assert (Hq : 0 <= dfield_len f / 256 < 64)
    by (div_mod_eqs; lia).
  unfold comp_len_bytes, comp_len_byte1 in *. fold col in Hn, HB1, HB2, Hext, Hsmall.
  rewrite En, Hvar in Hn, HB2, HB1. cbn [Z.eqb negb] in Hn, HB1, HB2.
  split; [|split; [|split]].
  - rewrite Hn. destruct (dfield_ext f) eqn:Ex.
    + rewrite (Hext eq_refl). split; [lia|].
      intros [H|[_ H]]; discriminate.
    + destruct (Z.ltb_spec (dfield_len f) 128) as [Hlt|Hge]; cbn [orb].
      * split; [intros _; right; auto | reflexivity].
      * destruct (DATA_BIG_COL col); cbn [negb].
        -- split; [lia|]. intros [H|[H _]]; [discriminate | lia].
        -- split; [intros _; now left | reflexivity].
  - intros H1. rewrite Hn in H1.
    destruct (dfield_ext f); [lia|].
    destruct ((dfield_len f <? 128) || negb (DATA_BIG_COL col)); [|lia].
    apply HB1. lia.
  - intros H1. rewrite Hn in H1 |- *.
    assert (Hb : b1 = dfield_len f / 256 + (if dfield_ext f then 192 else 128)
                 /\ b2 = dfield_len f mod 256
                 /\ (if dfield_ext f then 2
                     else if (dfield_len f <? 128) || negb (DATA_BIG_COL col)
                          then 1 else 2) = 2).
    { destruct (dfield_ext f).
      - rewrite HB1, HB2 by lia. auto.
      - destruct ((dfield_len f <? 128) || negb (DATA_BIG_COL col));
          [lia|]. rewrite HB1, HB2 by lia. auto. }
    destruct Hb as (E1 & E2 & E3). split; [exact E3|].
    rewrite testbit_7, testbit_6 by (rewrite E1; destruct (dfield_ext f); lia).
    rewrite E1, E2.
    destruct (dfield_ext f).
    + split; [apply Z.leb_le; lia|]. split.
      * apply Z.leb_le. div_mod_eqs. lia.
      * div_mod_eqs. lia.
    + split; [apply Z.leb_le; lia|]. split.
      * apply Z.leb_gt. div_mod_eqs. lia.
      * div_mod_eqs. lia.
  - intros offs any_ext nulls null_mask offsets. cbv zeta.
    rewrite (comp_read_length_step index (e_mem s1) f i offs any_ext nulls
               (e_lens s) null_mask offsets Hfit En Hlen).
    + cbn [d_lens d_offs d_offsets]. rewrite rec_offs_base_set_same.
      fold ifield. unfold comp_len_bytes, offs_entry. fold col.
      rewrite En, Hvar, Hn. cbn [Z.eqb negb andb].
      split; [reflexivity|]. split; reflexivity.
    + fold ifield. unfold comp_len_bytes, comp_len_byte1. fold col.
      rewrite En, Hvar. cbn [Z.eqb negb]. exact HB1.
    + fold ifield. unfold comp_len_bytes. fold col.
      rewrite En, Hvar. cbn [Z.eqb negb]. exact HB2.
Qed.

(** ** Fields of an old-style record read from the record itself

    [rec_1_get_prev_field_end_info], [rec_2_get_prev_field_end_info],
    [rec_1_get_field_start_offs], [rec_2_get_field_start_offs],
    [rec_get_field_start_offs] and [rec_get_nth_field_size] are the inline
    functions of rem0rec.ic. *)
Definition rec_1_get_prev_field_end_info (m : mem) (rec n : Z) : Z :=
  mach_read_from_1 m (rec - (REC_N_OLD_EXTRA_BYTES + n)).

Definition rec_2_get_prev_field_end_info (m : mem) (rec n : Z) : Z :=
  mach_read_from_2 m (rec - (REC_N_OLD_EXTRA_BYTES + 2 * n)).

Definition rec_1_get_field_start_offs (m : mem) (rec n : Z) : Z :=
  if n =? 0 then 0
  else Z.land (rec_1_get_prev_field_end_info m rec n)
              (Z.lnot REC_1BYTE_SQL_NULL_MASK).

Definition rec_2_get_field_start_offs (m : mem) (rec n : Z) : Z :=
  if n =? 0 then 0
  else Z.land (rec_2_get_prev_field_end_info m rec n)
              (Z.lnot (Z.lor REC_2BYTE_SQL_NULL_MASK REC_2BYTE_EXTERN_MASK)).

Definition rec_get_field_start_offs (m : mem) (rec n : Z) : Z :=
  if n =? 0 then 0
  else if negb (rec_get_1byte_offs_flag m rec =? 0)
  then rec_1_get_field_start_offs m rec n
  else rec_2_get_field_start_offs m rec n.

(** The difference of two [ulint] values wraps around. *)
Definition rec_get_nth_field_size (m : mem) (rec n : Z) : Z :=
  let os := rec_get_field_start_offs m rec n in
  let next_os := rec_get_field_start_offs m rec (n + 1) in
  (next_os - os) mod 2 ^ 64.

(** [rec_get_nth_field_offs_old(rec, n, &len)]: the offset of field [n] of
    an old-style record and its length, [UNIV_SQL_NULL] for an SQL null;
    [None] where [ut_a] stops the server. *)
Definition rec_get_nth_field_offs_old (m : mem) (rec n : Z) : option (Z * Z) :=
  if rec =? 0 then None
  else if negb (n <? rec_get_n_fields_old m rec) then None
  else if negb (rec_get_1byte_offs_flag m rec =? 0) then
    let os := rec_1_get_field_start_offs m rec n in
    let next_os := rec_1_get_field_end_info m rec n in
    if negb (Z.land next_os REC_1BYTE_SQL_NULL_MASK =? 0)
    then Some (os, UNIV_SQL_NULL)
    else
      let next_os := Z.land next_os (Z.lnot REC_1BYTE_SQL_NULL_MASK) in
      Some (os, (next_os - os) mod 2 ^ 64)
  else
    let os := rec_2_get_field_start_offs m rec n in
    let next_os := rec_2_get_field_end_info m rec n in
    if negb (Z.land next_os REC_2BYTE_SQL_NULL_MASK =? 0)
    then Some (os, UNIV_SQL_NULL)
    else
      let next_os :=
        Z.land next_os
          (Z.lnot (Z.lor REC_2BYTE_SQL_NULL_MASK REC_2BYTE_EXTERN_MASK)) in
      Some (os, (next_os - os) mod 2 ^ 64).

(** What one end offset of an old-style record becomes in the array of
    offsets. *)
Definition entry_1byte (v : Z) : Z :=
  if negb (Z.land v REC_1BYTE_SQL_NULL_MASK =? 0)
  then Z.lor (Z.land v (Z.lnot REC_1BYTE_SQL_NULL_MASK)) REC_OFFS_SQL_NULL
  else v.

Definition entry_2byte (v : Z) : Z :=
  let offs :=
    if negb (Z.land v REC_2BYTE_SQL_NULL_MASK =? 0)
    then Z.lor (Z.land v (Z.lnot REC_2BYTE_SQL_NULL_MASK)) REC_OFFS_SQL_NULL
    else v in
  if negb (Z.land offs REC_2BYTE_EXTERN_MASK =? 0)
  then Z.lor (Z.land offs (Z.lnot REC_2BYTE_EXTERN_MASK)) REC_OFFS_EXTERNAL
  else offs.

Ltac bits_done Hhi :=
  match goal with i : Z |- _ =>
    try rewrite (Hhi i) by lia;
    repeat match goal with
           | |- context [?a =? i] => destruct (Z.eqb_spec a i); try lia
           end;
    subst; cbn [negb andb orb];
    repeat match goal with
           | H : Z.testbit _ _ = _ |- _ => rewrite H
           end;
    cbn [negb andb orb];
    repeat match goal with
           | |- context [Z.testbit ?x ?k] => destruct (Z.testbit x k)
           end;
    reflexivity
  end.

Lemma entry_1byte_bits v :
  0 <= v < 256 ->
  Z.land (entry_1byte v) REC_OFFS_MASK
  = Z.land v (Z.lnot REC_1BYTE_SQL_NULL_MASK)
  /\ (Z.land (entry_1byte v) REC_OFFS_SQL_NULL =? 0)
     = (Z.land v REC_1BYTE_SQL_NULL_MASK =? 0).
Proof using.
  clear DATA_BIG_LEN_MTYPE mem_heap_alloc.
  intros Hv. unfold entry_1byte.
  unfold REC_1BYTE_SQL_NULL_MASK, REC_OFFS_SQL_NULL, REC_OFFS_MASK,
    REC_OFFS_EXTERNAL.
  rewrite !Z.shiftl_1_l.
  change 0x80 with (2 ^ 7). change (2 ^ 30 - 1) with (Z.ones 30).
  assert (Hhi : forall j, 8 <= j -> Z.testbit v j = false).
  { intros j Hj. apply (testbit_small v 8 j); [change (2 ^ 8) with 256|]; lia. }
  rewrite !land_pow2_eqb by lia.
  destruct (Z.testbit v 7) eqn:E7; cbn [negb].
  - split.
    + Z.bitblast; bits_done Hhi.
    + rewrite testbit_lor_pow2 by lia.
      rewrite Z.eqb_refl, orb_true_r. reflexivity.
  - split.
    + Z.bitblast; bits_done Hhi.
    + rewrite ?E7, ?(Hhi 31) by lia. reflexivity.
Qed.

Lemma entry_2byte_bits v :
  0 <= v < 65536 ->
  Z.land (entry_2byte v) REC_OFFS_MASK
  = Z.land v (Z.lnot (Z.lor REC_2BYTE_SQL_NULL_MASK REC_2BYTE_EXTERN_MASK))
  /\ (Z.land (entry_2byte v) REC_OFFS_SQL_NULL =? 0)
     = (Z.land v REC_2BYTE_SQL_NULL_MASK =? 0)
  /\ (Z.land (entry_2byte v) REC_OFFS_EXTERNAL =? 0)
     = (Z.land v REC_2BYTE_EXTERN_MASK =? 0).
Proof using.
  clear DATA_BIG_LEN_MTYPE mem_heap_alloc.
  intros Hv. unfold entry_2byte.
  unfold REC_2BYTE_SQL_NULL_MASK, REC_2BYTE_EXTERN_MASK, REC_OFFS_SQL_NULL,
    REC_OFFS_MASK, REC_OFFS_EXTERNAL.
  rewrite !Z.shiftl_1_l.
  change 0x8000 with (2 ^ 15). change 0x4000 with (2 ^ 14).
  change (2 ^ 30 - 1) with (Z.ones 30).
  assert (Hhi : forall j, 16 <= j -> Z.testbit v j = false).
  { intros j Hj. apply (testbit_small v 16 j);
      [change (2 ^ 16) with 65536|]; lia. }
  rewrite !(land_pow2_eqb v) by lia.
  destruct (Z.testbit v 15) eqn:E15; cbn [negb];
    rewrite !land_pow2_eqb by lia;
    repeat (rewrite ?Z.lor_spec, ?Z.land_spec, ?Z.lnot_spec,
              ?Z.pow2_bits_eqb by lia);
    rewrite ?E15; change (15 =? 14) with false; change (31 =? 14) with false;
    cbn [negb andb orb]; rewrite ?andb_true_r, ?orb_false_r;
    destruct (Z.testbit v 14) eqn:E14; cbn [negb];
    (split; [Z.bitblast; bits_done Hhi|]);
    rewrite ?land_pow2_eqb by lia;
    repeat (rewrite ?Z.lor_spec, ?Z.land_spec, ?Z.lnot_spec,
              ?Z.pow2_bits_eqb by lia);
    rewrite ?E15, ?E14, ?(Hhi 30), ?(Hhi 31) by lia; split; reflexivity.
Qed.

Lemma rec_get_n_fields_old_range m rec :
  0 <= rec_get_n_fields_old m rec <= 1023.
Proof.
  unfold rec_get_n_fields_old, rec_get_bit_field_2, REC_OLD_N_FIELDS_MASK,
    REC_OLD_N_FIELDS_SHIFT.
  change 0x7FE with (Z.shiftl (Z.ones 10) 1).
  rewrite land_mask by lia. rewrite Z.shiftr_div_pow2 by lia.
  rewrite Z.div_mul by lia. unfold fld.
  pose proof (Z.mod_pos_bound
                (mach_read_from_2 m (rec - REC_OLD_N_FIELDS) / 2 ^ 1) (2 ^ 10)
                ltac:(lia)).
  change (2 ^ 10) with 1024 in *. lia.
Qed.

(** The entries of the array of offsets of an old-style record. *)
Lemma old_offsets_entries m rec index :
  dict_table_is_comp index = false ->
  1 <= rec_get_n_fields_old m rec ->
  exists offsets,
    rec_get_offsets_func m rec index None ULINT_UNDEFINED = Some offsets
    /\ rec_offs_n_fields offsets = rec_get_n_fields_old m rec
    /\ forall j, 0 <= j < rec_get_n_fields_old m rec ->
         rec_offs_base offsets (1 + j)
         = if negb (rec_get_1byte_offs_flag m rec =? 0)
           then entry_1byte (rec_1_get_field_end_info m rec j)
           else entry_2byte (rec_2_get_field_end_info m rec j).
Proof.
  intros Hcomp Hn.
  pose proof (rec_get_n_fields_old_range m rec) as Hr.
  rewrite (rec_get_offsets_old_eq m rec index _ Hcomp eq_refl) by lia.
  eexists. split; [reflexivity|].
  set (n := rec_get_n_fields_old m rec) in *.
  destruct (negb (rec_get_1byte_offs_flag m rec =? 0)).
  - destruct (dec_iter_entries (old_1byte_field m rec)
                (fun j => entry_1byte (rec_1_get_field_end_info m rec j))
                (Z.to_nat n) 0
                (mk_dec (REC_N_OLD_EXTRA_BYTES + n) 0 0 0 0
                   (rec_offs_base_set (fresh_offsets n) 0
                      (REC_N_OLD_EXTRA_BYTES + n))) ltac:(lia)) as [E1 E2].
    { intros j s _. unfold old_1byte_field. cbn [d_offsets]. split.
      - now rewrite rec_offs_base_set_same.
      - intros x _ Hx. unfold rec_offs_base_set. now apply arr_set_other. }
    split.
    + unfold rec_offs_n_fields. rewrite E2 by (unfold REC_OFFS_HEADER_SIZE; lia).
      cbn [d_offsets]. unfold rec_offs_base_set.
      rewrite arr_set_other by (unfold REC_OFFS_HEADER_SIZE; lia).
      reflexivity.
    + intros j Hj. apply E1. lia.
  - destruct (dec_iter_entries (old_2byte_field m rec)
                (fun j => entry_2byte (rec_2_get_field_end_info m rec j))
                (Z.to_nat n) 0
                (mk_dec (REC_N_OLD_EXTRA_BYTES + 2 * n) 0 0 0 0
                   (rec_offs_base_set (fresh_offsets n) 0
                      (REC_N_OLD_EXTRA_BYTES + 2 * n))) ltac:(lia)) as [E1 E2].
    { intros j s _. unfold old_2byte_field. cbn [d_offsets]. split.
      - now rewrite rec_offs_base_set_same.
      - intros x Hx0 Hx. unfold rec_offs_base_set.
        rewrite arr_set_other by exact Hx.
        match goal with |- (if ?c then _ else _) x = _ => destruct c end;
          [|reflexivity].
        apply arr_set_other. lia. }
    split.
    + unfold rec_offs_n_fields. rewrite E2 by (unfold REC_OFFS_HEADER_SIZE; lia).
      cbn [d_offsets]. unfold rec_offs_base_set.
      rewrite arr_set_other by (unfold REC_OFFS_HEADER_SIZE; lia).
      reflexivity.
    + intros j Hj. apply E1. lia.
Qed.

(** R1. For every old-style record, whatever its bytes, the array that
    [rec_get_offsets_func] computes and [rec_get_nth_field_offs] reads
    gives for each field the offset and the length that
    [rec_get_nth_field_offs_old] reads from the record itself: the start
    is the end offset of the field before without its flags, an SQL null
    has the length [UNIV_SQL_NULL], and the length is otherwise the
    difference of the two offsets, as a [ulint]. *)
Theorem rec_get_nth_field_offs_old_agrees m rec index n :
  dict_table_is_comp index = false ->
  rec <> 0 ->
  0 <= n < rec_get_n_fields_old m rec ->
  exists offsets,
    rec_get_offsets_func m rec index None ULINT_UNDEFINED = Some offsets
    /\ rec_offs_n_fields offsets = rec_get_n_fields_old m rec
    /\ rec_get_nth_field_offs_old m rec n
       = Some (fst (rec_get_nth_field_offs offsets n),
               snd (rec_get_nth_field_offs offsets n) mod 2 ^ 64).
Proof.
  intros Hcomp Hrec Hn.
  destruct (old_offsets_entries m rec index Hcomp ltac:(lia))
    as (offsets & Hoff & Hnf & Hent).
  exists offsets. split; [exact Hoff|]. split; [exact Hnf|].
  unfold rec_get_nth_field_offs_old, rec_get_nth_field_offs.
  destruct (Z.eqb_spec rec 0) as [|_]; [contradiction|].
  destruct (Z.ltb_spec n (rec_get_n_fields_old m rec)) as [_|]; [|lia].
  cbn [negb].
  rewrite (Hent n) by lia.
  assert (Hprev : n <> 0 ->
            rec_offs_base offsets n
            = if negb (rec_get_1byte_offs_flag m rec =? 0)
              then entry_1byte (rec_1_get_prev_field_end_info m rec n)
              else entry_2byte (rec_2_get_prev_field_end_info m rec n)).
  { intros Hn0. replace n with (1 + (n - 1)) at 1 by lia.
    rewrite (Hent (n - 1)) by lia.
    unfold rec_1_get_prev_field_end_info, rec_2_get_prev_field_end_info,
      rec_1_get_field_end_info, rec_2_get_field_end_info.
    replace (REC_N_OLD_EXTRA_BYTES + (n - 1) + 1)
      with (REC_N_OLD_EXTRA_BYTES + n) by lia.
    replace (REC_N_OLD_EXTRA_BYTES + 2 * (n - 1) + 2)
      with (REC_N_OLD_EXTRA_BYTES + 2 * n) by lia.
    reflexivity. }
  assert (Hnull : 2 ^ 32 - 1 = (2 ^ 32 - 1) mod 2 ^ 64) by reflexivity.
  destruct (negb (rec_get_1byte_offs_flag m rec =? 0)).
  - destruct (entry_1byte_bits (rec_1_get_field_end_info m rec n)
                (read1_range _ _)) as [A1 A2].
    rewrite A2.
    assert (Hos : (if n =? 0 then 0 else Z.land (rec_offs_base offsets n) REC_OFFS_MASK)
                  = rec_1_get_field_start_offs m rec n).
    { unfold rec_1_get_field_start_offs.
      destruct (Z.eqb_spec n 0) as [|Hn0]; [reflexivity|].
      rewrite (Hprev Hn0).
      apply (entry_1byte_bits (rec_1_get_prev_field_end_info m rec n)
               (read1_range _ _)). }
    rewrite Hos.
    destruct (Z.land (rec_1_get_field_end_info m rec n) REC_1BYTE_SQL_NULL_MASK =? 0);
      cbn [negb fst snd].
    + now rewrite A1.
    + unfold UNIV_SQL_NULL. now rewrite <- Hnull.
  - destruct (entry_2byte_bits (rec_2_get_field_end_info m rec n)
                (read2_range _ _)) as (A1 & A2 & _).
    rewrite A2.
    assert (Hos : (if n =? 0 then 0 else Z.land (rec_offs_base offsets n) REC_OFFS_MASK)
                  = rec_2_get_field_start_offs m rec n).
    { unfold rec_2_get_field_start_offs.
      destruct (Z.eqb_spec n 0) as [|Hn0]; [reflexivity|].
      rewrite (Hprev Hn0).
      apply (entry_2byte_bits (rec_2_get_prev_field_end_info m rec n)
               (read2_range _ _)). }
    rewrite Hos.
    destruct (Z.land (rec_2_get_field_end_info m rec n) REC_2BYTE_SQL_NULL_MASK =? 0);
      cbn [negb fst snd].
    + now rewrite A1.
    + unfold UNIV_SQL_NULL. now rewrite <- Hnull.
Qed.

(** ** Setting a field of an old-style record to SQL null *)

(** [rec_set_nth_field_null_bit(rec, i, val)]. *)
Definition rec_set_nth_field_null_bit (m : mem) (rec i : Z) (val : bool) : mem :=
  if negb (rec_get_1byte_offs_flag m rec =? 0) then
    let info := rec_1_get_field_end_info m rec i in
    let info :=
      if val then Z.lor info REC_1BYTE_SQL_NULL_MASK
      else Z.land info (Z.lnot REC_1BYTE_SQL_NULL_MASK) in
    rec_1_set_field_end_info m rec i info
  else
    let info := rec_2_get_field_end_info m rec i in
    let info :=
      if val then Z.lor info REC_2BYTE_SQL_NULL_MASK
      else Z.land info (Z.lnot REC_2BYTE_SQL_NULL_MASK) in
    rec_2_set_field_end_info m rec i info.

(** [rec_set_nth_field_sql_null(rec, n)]. *)
Definition rec_set_nth_field_sql_null (m : mem) (rec n : Z) : mem :=
  let offset := rec_get_field_start_offs m rec n in
  let m := data_write_sql_null m (rec + offset) (rec_get_nth_field_size m rec n) in
  rec_set_nth_field_null_bit m rec n true.

Lemma null_bit_1byte v :
  0 <= v < 256 ->
  0 <= Z.lor v REC_1BYTE_SQL_NULL_MASK < 256
  /\ (Z.land (Z.lor v REC_1BYTE_SQL_NULL_MASK) REC_1BYTE_SQL_NULL_MASK =? 0)
     = false
  /\ Z.land (Z.lor v REC_1BYTE_SQL_NULL_MASK) (Z.lnot REC_1BYTE_SQL_NULL_MASK)
     = Z.land v (Z.lnot REC_1BYTE_SQL_NULL_MASK).
Proof using.
  clear DATA_BIG_LEN_MTYPE mem_heap_alloc.
  intros Hv. unfold REC_1BYTE_SQL_NULL_MASK. change 0x80 with (2 ^ 7).
  assert (Hhi : forall j, 8 <= j -> Z.testbit v j = false).
  { intros j Hj. apply (testbit_small v 8 j); [change (2 ^ 8) with 256|]; lia. }
  split; [|split].
  - assert (E : Z.lor v (2 ^ 7) mod 2 ^ 8 = Z.lor v (2 ^ 7)).
    { rewrite <- Z.land_ones by lia. Z.bitblast; bits_done Hhi. }
    rewrite <- E. change (2 ^ 8) with 256. apply Z.mod_pos_bound. lia.
  - rewrite land_pow2_eqb by lia. rewrite testbit_lor_pow2 by lia.
    rewrite Z.eqb_refl, orb_true_r. reflexivity.
  - Z.bitblast; bits_done Hhi.
Qed.

Lemma null_bit_2byte v :
  0 <= v < 65536 ->
  0 <= Z.lor v REC_2BYTE_SQL_NULL_MASK < 65536
  /\ (Z.land (Z.lor v REC_2BYTE_SQL_NULL_MASK) REC_2BYTE_SQL_NULL_MASK =? 0)
     = false
  /\ Z.land (Z.lor v REC_2BYTE_SQL_NULL_MASK)
       (Z.lnot (Z.lor REC_2BYTE_SQL_NULL_MASK REC_2BYTE_EXTERN_MASK))
     = Z.land v (Z.lnot (Z.lor REC_2BYTE_SQL_NULL_MASK REC_2BYTE_EXTERN_MASK))
  /\ Z.land (Z.lor v REC_2BYTE_SQL_NULL_MASK) REC_2BYTE_EXTERN_MASK
     = Z.land v REC_2BYTE_EXTERN_MASK.
Proof using.
  clear DATA_BIG_LEN_MTYPE mem_heap_alloc.
  intros Hv. unfold REC_2BYTE_SQL_NULL_MASK, REC_2BYTE_EXTERN_MASK.
  change 0x8000 with (2 ^ 15). change 0x4000 with (2 ^ 14).
  assert (Hhi : forall j, 16 <= j -> Z.testbit v j = false).
  { intros j Hj. apply (testbit_small v 16 j);
      [change (2 ^ 16) with 65536|]; lia. }
  split; [|split; [|split]].
  - assert (E : Z.lor v (2 ^ 15) mod 2 ^ 16 = Z.lor v (2 ^ 15)).
    { rewrite <- Z.land_ones by lia. Z.bitblast; bits_done Hhi. }
    rewrite <- E. change (2 ^ 16) with 65536. apply Z.mod_pos_bound. lia.
  - rewrite land_pow2_eqb by lia. rewrite testbit_lor_pow2 by lia.
    rewrite Z.eqb_refl, orb_true_r. reflexivity.
  - Z.bitblast; bits_done Hhi.
  - Z.bitblast; bits_done Hhi.
Qed.

(** The header of an old-style record in a frame that agrees with another
    one on the six bytes before the origin. *)
Lemma old_header_agree m m' rec :
  (forall a, rec - REC_N_OLD_EXTRA_BYTES <= a < rec -> m' a = m a) ->
  rec_get_n_fields_old m' rec = rec_get_n_fields_old m rec
  /\ rec_get_1byte_offs_flag m' rec = rec_get_1byte_offs_flag m rec.
Proof.
  intros H.
  unfold rec_get_n_fields_old, rec_get_1byte_offs_flag, rec_get_bit_field_2,
    rec_get_bit_field_1.
  unfold REC_N_OLD_EXTRA_BYTES, REC_OLD_N_FIELDS, REC_OLD_SHORT in *. split.
  - rewrite (read2_ext m' m); [reflexivity | apply H; lia ..].
  - rewrite (read1_ext m' m); [reflexivity | apply H; lia].
Qed.

Lemma rec_get_field_start_offs_nonneg m rec n :
  0 <= rec_get_field_start_offs m rec n.
Proof.
  unfold rec_get_field_start_offs, rec_1_get_field_start_offs,
    rec_2_get_field_start_offs, rec_1_get_prev_field_end_info,
    rec_2_get_prev_field_end_info.
  destruct (n =? 0); [lia|].
  destruct (negb (rec_get_1byte_offs_flag m rec =? 0)); apply Z.land_nonneg; left.
  - apply read1_range.
  - apply read2_range.
Qed.

(** R2. [rec_set_nth_field_sql_null] on a field whose end is not before
    its start: the field reads back as an SQL null at the same offset, every
    other field keeps its offset and its length, every field keeps its
    physical size, the bytes of the field are zero, and no byte but those
    and the end offset of the field changes. *)
Theorem rec_set_nth_field_sql_null_spec m rec n :
  0 <= n < rec_get_n_fields_old m rec ->
  rec_get_field_start_offs m rec n <= rec_get_field_start_offs m rec (n + 1) ->
  let m' := rec_set_nth_field_sql_null m rec n in
  let os := rec_get_field_start_offs m rec n in
  let size := rec_get_nth_field_size m rec n in
  rec_get_n_fields_old m' rec = rec_get_n_fields_old m rec
  /\ rec_get_1byte_offs_flag m' rec = rec_get_1byte_offs_flag m rec
  /\ (rec <> 0 -> rec_get_nth_field_offs_old m' rec n = Some (os, UNIV_SQL_NULL))
  /\ (forall j, 0 <= j -> j <> n ->
        rec_get_nth_field_offs_old m' rec j = rec_get_nth_field_offs_old m rec j)
  /\ (forall j, 0 <= j ->
        rec_get_nth_field_size m' rec j = rec_get_nth_field_size m rec j)
  /\ (forall a, rec + os <= a < rec + os + size -> m' a = x00)
  /\ (forall a, ~ rec + os <= a < rec + os + size ->
        (if negb (rec_get_1byte_offs_flag m rec =? 0)
         then a <> rec - (REC_N_OLD_EXTRA_BYTES + n + 1)
         else a <> rec - (REC_N_OLD_EXTRA_BYTES + 2 * n + 2)
              /\ a <> rec - (REC_N_OLD_EXTRA_BYTES + 2 * n + 2) + 1) ->
        m' a = m a).
Proof.
  intros Hn Hsz. cbv zeta.
  set (os := rec_get_field_start_offs m rec n).
  set (size := rec_get_nth_field_size m rec n).
  unfold rec_set_nth_field_sql_null. cbv zeta. fold os. fold size.
  set (m1 := data_write_sql_null m (rec + os) size).
  assert (Hos : 0 <= os) by apply rec_get_field_start_offs_nonneg.
  assert (Hm1 : forall a, a < rec + os -> m1 a = m a).
  { intros a Ha. apply memset_out. lia. }
  destruct (old_header_agree m m1 rec) as [N1 F1].
  { intros a Ha. apply Hm1. lia. }
  unfold rec_set_nth_field_null_bit. rewrite F1.
  assert (Hstart' : forall m2 j,
            rec_get_1byte_offs_flag m2 rec = rec_get_1byte_offs_flag m rec ->
            rec_1_get_field_start_offs m2 rec j = rec_1_get_field_start_offs m rec j ->
            rec_2_get_field_start_offs m2 rec j = rec_2_get_field_start_offs m rec j ->
            rec_get_field_start_offs m2 rec j = rec_get_field_start_offs m rec j).
  { intros m2 j E0 E1 E2. unfold rec_get_field_start_offs.
    now rewrite E0, E1, E2. }
  unfold REC_N_OLD_EXTRA_BYTES in *.
  destruct (negb (rec_get_1byte_offs_flag m rec =? 0)) eqn:Ef.
  - replace (rec_1_get_field_end_info m1 rec n)
      with (rec_1_get_field_end_info m rec n)
      by (unfold rec_1_get_field_end_info, REC_N_OLD_EXTRA_BYTES;
          apply read1_ext; symmetry; apply Hm1; lia).
    set (info := rec_1_get_field_end_info m rec n).
    destruct (null_bit_1byte info (read1_range _ _)) as (B1 & B2 & B3).
    set (m' := rec_1_set_field_end_info m1 rec n
                 (Z.lor info REC_1BYTE_SQL_NULL_MASK)).
    assert (Hm' : forall a, a <> rec - (6 + n + 1) -> m' a = m1 a).
    { intros a Ha. unfold m', rec_1_set_field_end_info, mach_write_to_1,
        REC_N_OLD_EXTRA_BYTES.
      destruct (Z.eqb_spec a (rec - (6 + n + 1))); [contradiction|reflexivity]. }
    assert (Hinfo : rec_1_get_field_end_info m' rec n
                    = Z.lor info REC_1BYTE_SQL_NULL_MASK).
    { unfold m', rec_1_get_field_end_info, rec_1_set_field_end_info.
      rewrite read1_write1_same. apply Z.mod_small. exact B1. }
    assert (Hend : forall j, 0 <= j -> j <> n ->
              rec_1_get_field_end_info m' rec j = rec_1_get_field_end_info m rec j).
    { intros j Hj Hne. unfold rec_1_get_field_end_info, REC_N_OLD_EXTRA_BYTES.
      apply read1_ext. rewrite Hm' by lia. apply Hm1. lia. }
    assert (Hstart : forall j, 0 <= j ->
              rec_1_get_field_start_offs m' rec j
              = rec_1_get_field_start_offs m rec j).
    { intros j Hj. unfold rec_1_get_field_start_offs.
      destruct (Z.eqb_spec j 0) as [|Hj0]; [reflexivity|].
      assert (Hp : forall m2, rec_1_get_prev_field_end_info m2 rec j
                              = rec_1_get_field_end_info m2 rec (j - 1)).
      { intros m2. unfold rec_1_get_prev_field_end_info,
          rec_1_get_field_end_info. f_equal. lia. }
      rewrite !Hp. destruct (Z.eq_dec (j - 1) n) as [E|E].
      - rewrite E, Hinfo. exact B3.
      - now rewrite Hend by lia. }
    destruct (old_header_agree m m' rec) as [N2 F2].
    { intros a Ha. rewrite Hm' by (unfold REC_N_OLD_EXTRA_BYTES in Ha; lia).
      apply Hm1. lia. }
    assert (Hgen : forall j, 0 <= j ->
              rec_get_field_start_offs m' rec j = rec_get_field_start_offs m rec j).
    { intros j Hj. unfold rec_get_field_start_offs.
      rewrite F2, Ef, Hstart by lia. reflexivity. }
    split; [exact N2|]. split; [exact F2|].
    split; [|split; [|split; [|split]]].
    + intros Hrec. unfold rec_get_nth_field_offs_old.
      destruct (Z.eqb_spec rec 0) as [|_]; [contradiction|].
      rewrite N2, F2, Ef.
      destruct (Z.ltb_spec n (rec_get_n_fields_old m rec)) as [_|]; [|lia].
      cbn [negb]. rewrite Hinfo, B2. cbn [negb]. rewrite Hstart by lia.
      unfold os, rec_get_field_start_offs, rec_1_get_field_start_offs.
      rewrite Ef. destruct (n =? 0); reflexivity.
    + intros j Hj Hne. unfold rec_get_nth_field_offs_old.
      rewrite N2, F2, Ef, Hstart, Hend by lia. reflexivity.
    + intros j Hj. unfold rec_get_nth_field_size.
      now rewrite !Hgen by lia.
    + intros a Ha. rewrite Hm' by lia. unfold m1, data_write_sql_null.
      rewrite memset_in by lia. reflexivity.
    + intros a Ha Hne. rewrite Hm' by lia. apply memset_out. lia.
  - replace (rec_2_get_field_end_info m1 rec n)
      with (rec_2_get_field_end_info m rec n)
      by (unfold rec_2_get_field_end_info, REC_N_OLD_EXTRA_BYTES;
          apply read2_ext; symmetry; apply Hm1; lia).
    set (info := rec_2_get_field_end_info m rec n).
    destruct (null_bit_2byte info (read2_range _ _)) as (B1 & B2 & B3 & _).
    set (m' := rec_2_set_field_end_info m1 rec n
                 (Z.lor info REC_2BYTE_SQL_NULL_MASK)).
    assert (Hm' : forall a, a <> rec - (6 + 2 * n + 2) ->
              a <> rec - (6 + 2 * n + 2) + 1 -> m' a = m1 a).
    { intros a Ha Ha'. unfold m', rec_2_set_field_end_info, mach_write_to_2,
        mach_write_to_1, REC_N_OLD_EXTRA_BYTES.
      destruct (Z.eqb_spec a (rec - (6 + 2 * n + 2) + 1)); [contradiction|].
      destruct (Z.eqb_spec a (rec - (6 + 2 * n + 2))); [contradiction|].
      reflexivity. }
    assert (Hinfo : rec_2_get_field_end_info m' rec n
                    = Z.lor info REC_2BYTE_SQL_NULL_MASK).
    { unfold m', rec_2_get_field_end_info, rec_2_set_field_end_info.
      rewrite read2_write2_same. apply Z.mod_small. exact B1. }
    assert (Hend : forall j, 0 <= j -> j <> n ->
              rec_2_get_field_end_info m' rec j = rec_2_get_field_end_info m rec j).
    { intros j Hj Hne. unfold rec_2_get_field_end_info, REC_N_OLD_EXTRA_BYTES.
      apply read2_ext; (rewrite Hm' by lia); apply Hm1; lia. }
    assert (Hstart : forall j, 0 <= j ->
              rec_2_get_field_start_offs m' rec j
              = rec_2_get_field_start_offs m rec j).
    { intros j Hj. unfold rec_2_get_field_start_offs.
      destruct (Z.eqb_spec j 0) as [|Hj0]; [reflexivity|].
      assert (Hp : forall m2, rec_2_get_prev_field_end_info m2 rec j
                              = rec_2_get_field_end_info m2 rec (j - 1)).
      { intros m2. unfold rec_2_get_prev_field_end_info,
          rec_2_get_field_end_info. f_equal. lia. }
      rewrite !Hp. destruct (Z.eq_dec (j - 1) n) as [E|E].
      - rewrite E, Hinfo. exact B3.
      - now rewrite Hend by lia. }
    destruct (old_header_agree m m' rec) as [N2 F2].
    { intros a Ha. rewrite Hm' by (unfold REC_N_OLD_EXTRA_BYTES in Ha; lia).
      apply Hm1. lia. }
    assert (Hgen : forall j, 0 <= j ->
              rec_get_field_start_offs m' rec j = rec_get_field_start_offs m rec j).
    { intros j Hj. unfold rec_get_field_start_offs.
      rewrite F2, Ef, Hstart by lia. reflexivity. }
    split; [exact N2|]. split; [exact F2|].
    split; [|split; [|split; [|split]]].
    + intros Hrec. unfold rec_get_nth_field_offs_old.
      destruct (Z.eqb_spec rec 0) as [|_]; [contradiction|].
      rewrite N2, F2, Ef.
      destruct (Z.ltb_spec n (rec_get_n_fields_old m rec)) as [_|]; [|lia].
      cbn [negb]. rewrite Hinfo, B2. cbn [negb]. rewrite Hstart by lia.
      unfold os, rec_get_field_start_offs, rec_2_get_field_start_offs.
      rewrite Ef. destruct (n =? 0); reflexivity.
    + intros j Hj Hne. unfold rec_get_nth_field_offs_old.
      rewrite N2, F2, Ef, Hstart, Hend by lia. reflexivity.
    + intros j Hj. unfold rec_get_nth_field_size.
      now rewrite !Hgen by lia.
    + intros a Ha. rewrite Hm' by lia. unfold m1, data_write_sql_null.
      rewrite memset_in by lia. reflexivity.
    + intros a Ha Hne. rewrite Hm' by lia. apply memset_out. lia.
Qed.

(** ** Marking a field as externally stored *)

(** [rec_offs_make_nth_extern(offsets, n)]. *)
Definition rec_offs_make_nth_extern (offsets : offsets_t) (n : Z) : offsets_t :=
  rec_offs_base_set offsets (1 + n)
    (Z.lor (rec_offs_base offsets (1 + n)) REC_OFFS_EXTERNAL).

Lemma extern_bit_entry e :
  Z.land (Z.lor e REC_OFFS_EXTERNAL) REC_OFFS_MASK = Z.land e REC_OFFS_MASK
  /\ Z.land (Z.lor e REC_OFFS_EXTERNAL) REC_OFFS_SQL_NULL
     = Z.land e REC_OFFS_SQL_NULL
  /\ Z.land (Z.lor e REC_OFFS_EXTERNAL) REC_OFFS_EXTERNAL = REC_OFFS_EXTERNAL.
Proof using.
  clear DATA_BIG_LEN_MTYPE mem_heap_alloc.
  unfold REC_OFFS_SQL_NULL, REC_OFFS_MASK, REC_OFFS_EXTERNAL.
  rewrite !Z.shiftl_1_l. change (2 ^ 30 - 1) with (Z.ones 30).
  assert (Hhi : forall j : Z, False -> Z.testbit e j = false) by tauto.
  repeat split; Z.bitblast; bits_done Hhi.
Qed.

(** R8. [rec_offs_make_nth_extern] sets the flag of field [n] and nothing
    else: every field keeps its offset, its length and its SQL-null flag,
    the other fields keep their flags, and the first element of the array,
    which holds the size of the header and the flag that says whether some
    field is external, is left as it was. *)
Theorem rec_offs_make_nth_extern_spec offsets n :
  0 <= n ->
  let offsets' := rec_offs_make_nth_extern offsets n in
  rec_offs_nth_extern offsets' n = REC_OFFS_EXTERNAL
  /\ rec_offs_n_fields offsets' = rec_offs_n_fields offsets
  /\ rec_offs_base offsets' 0 = rec_offs_base offsets 0
  /\ (forall k, 0 <= k ->
        rec_get_nth_field_offs offsets' k = rec_get_nth_field_offs offsets k)
  /\ (forall k, 0 <= k ->
        rec_offs_nth_sql_null offsets' k = rec_offs_nth_sql_null offsets k)
  /\ (forall k, 0 <= k -> k <> n ->
        rec_offs_nth_extern offsets' k = rec_offs_nth_extern offsets k).
Proof using.
  intros Hn offsets'.
  destruct (extern_bit_entry (rec_offs_base offsets (1 + n))) as (B1 & B2 & B3).
  assert (Hsame : rec_offs_base offsets' (1 + n)
                  = Z.lor (rec_offs_base offsets (1 + n)) REC_OFFS_EXTERNAL).
  { unfold offsets', rec_offs_make_nth_extern. apply rec_offs_base_set_same. }
  assert (Hother : forall k, k <> 1 + n ->
            rec_offs_base offsets' k = rec_offs_base offsets k).
  { intros k Hk. unfold offsets', rec_offs_make_nth_extern, rec_offs_base_set,
      rec_offs_base. apply arr_set_other. lia. }
  assert (Hmask : forall k,
            Z.land (rec_offs_base offsets' k) REC_OFFS_MASK
            = Z.land (rec_offs_base offsets k) REC_OFFS_MASK).
  { intros k. destruct (Z.eq_dec k (1 + n)) as [->|Hk].
    - now rewrite Hsame.
    - now rewrite Hother. }
  assert (Hnull : forall k,
            Z.land (rec_offs_base offsets' k) REC_OFFS_SQL_NULL
            = Z.land (rec_offs_base offsets k) REC_OFFS_SQL_NULL).
  { intros k. destruct (Z.eq_dec k (1 + n)) as [->|Hk].
    - now rewrite Hsame.
    - now rewrite Hother. }
  split; [|split; [|split; [|split; [|split]]]].
  - unfold rec_offs_nth_extern. now rewrite Hsame.
  - unfold rec_offs_n_fields, offsets', rec_offs_make_nth_extern,
      rec_offs_base_set. apply arr_set_other. unfold REC_OFFS_HEADER_SIZE. lia.
  - apply Hother. lia.
  - intros k Hk. unfold rec_get_nth_field_offs.
    now rewrite !Hmask, Hnull.
  - intros k Hk. unfold rec_offs_nth_sql_null. apply Hnull.
  - intros k Hk Hne. unfold rec_offs_nth_extern. rewrite Hother by lia.
    reflexivity.
Qed.

(** ** Counting the externally stored columns of a compact record *)

(** The local variables of the loop of [rec_get_n_extern_new]. *)
Record ext_t := mk_ext {
  x_nulls : Z;
  x_lens : Z;
  x_null_mask : Z;
  x_n_extern : Z
}.

(** One turn of the loop; [continue] goes on to the test of the loop. *)
Definition n_extern_field (m : mem) (index : dict_index_t) (i : Z)
    (s : ext_t) : ext_t :=
  let field := dict_index_get_nth_field index i in
  let col := field_col field in
  let nullable := negb (is_not_null (col_prtype col)) in
  let wrap := nullable && (to_byte (x_null_mask s) =? 0) in
  let nulls := if wrap then x_nulls s - 1 else x_nulls s in
  let null_mask := if wrap then 1 else x_null_mask s in
  if nullable && negb (Z.land (mach_read_from_1 m nulls) null_mask =? 0) then
    (* No length is stored for NULL fields. *)
    mk_ext nulls (x_lens s) (Z.shiftl null_mask 1) (x_n_extern s)
  else
    let null_mask := if nullable then Z.shiftl null_mask 1 else null_mask in
    if fixed_len field =? 0 then
      (* Variable-length field: read the length *)
      let len := mach_read_from_1 m (x_lens s) in
      let lens := x_lens s - 1 in
      if DATA_BIG_COL col && negb (Z.land len 0x80 =? 0) then
        (* 1exxxxxxx xxxxxxxx *)
        let n_extern :=
          if negb (Z.land len 0x40 =? 0) then x_n_extern s + 1
          else x_n_extern s in
        mk_ext nulls (lens - 1) null_mask n_extern
      else mk_ext nulls lens null_mask (x_n_extern s)
    else mk_ext nulls (x_lens s) null_mask (x_n_extern s).

Fixpoint do_while_ext (body : Z -> ext_t -> ext_t) (k : nat) (n i : Z)
    (s : ext_t) : ext_t :=
  let s' := body i s in
  match k with
  | O => s'
  | S k' => if i + 1 <? n then do_while_ext body k' n (i + 1) s' else s'
  end.

(** [rec_get_n_extern_new(rec, index, n)]. *)
Definition rec_get_n_extern_new (m : mem) (rec : Z) (index : dict_index_t)
    (n : Z) : Z :=
  let n := if n =? ULINT_UNDEFINED then dict_index_get_n_fields index else n in
  let nulls := rec - (REC_N_NEW_EXTRA_BYTES + 1) in
  let lens := nulls - UT_BITS_IN_BYTES (n_nullable index) in
  x_n_extern
    (do_while_ext (n_extern_field m index) (Z.to_nat n) n 0
       (mk_ext nulls lens 1 0)).

(** The fields [i .. i + k - 1] that an array of offsets flags as
    external. *)
Fixpoint n_extern_in (offsets : offsets_t) (k : nat) (i : Z) : Z :=
  match k with
  | O => 0
  | S k' =>
    (if negb (rec_offs_nth_extern offsets i =? 0) then 1 else 0)
    + n_extern_in offsets k' (i + 1)
  end.

Fixpoint ext_iter (body : Z -> ext_t -> ext_t) (k : nat) (i : Z) (x : ext_t) : ext_t :=
  match k with
  | O => x
  | S k' => ext_iter body k' (i + 1) (body i x)
  end.

Lemma do_while_ext_iter body k : forall n i x,
  i < n -> n - i - 1 <= Z.of_nat k ->
  do_while_ext body k n i x = ext_iter body (Z.to_nat (n - i)) i x.
Proof.
  induction k as [|k IH]; intros n i x Hi Hk.
  - replace (n - i) with 1 by lia. reflexivity.
  - cbn [do_while_ext].
    destruct (Z.ltb_spec (i + 1) n) as [Hlt|Hge].
    + rewrite IH by lia.
      replace (Z.to_nat (n - i)) with (S (Z.to_nat (n - (i + 1)))) by lia.
      reflexivity.
    + replace (n - i) with 1 by lia. reflexivity.
Qed.

Lemma two_byte_length b1 b2 :
  0 <= b1 < 256 -> 0 <= b2 < 256 ->
  let len := Z.lor (Z.shiftl b1 8) b2 in
  (Z.land len 0x4000 =? 0) = (Z.land b1 0x40 =? 0)
  /\ 0 <= Z.land len 0x3fff <= 16383.
Proof using.
  clear DATA_BIG_LEN_MTYPE mem_heap_alloc.
  intros H1 H2 len. split.
  - change 0x4000 with (2 ^ 14). change 0x40 with (2 ^ 6).
    rewrite !land_pow2_eqb by lia. subst len.
    rewrite Z.lor_spec, Z.shiftl_spec by lia.
    rewrite (testbit_small b2 8 14) by (change (2 ^ 8) with 256; lia).
    now rewrite orb_false_r.
  - change (Z.land len 0x3fff) with (Z.land len (Z.ones 14)).
    rewrite Z.land_ones by lia.
    pose proof (Z.mod_pos_bound len (2 ^ 14) ltac:(lia)).
    change (2 ^ 14) with 16384 in *. lia.
Qed.

Lemma n_extern_step m index i d x :
  d_nulls d = x_nulls x -> d_lens d = x_lens x ->
  d_null_mask d = x_null_mask x ->
  0 <= d_offs d -> d_offs d + 16383 < 2 ^ 30 ->
  0 <= fixed_len (dict_index_get_nth_field index i) <= 16383 ->
  let d' := comp_ordinary_field m false index i d in
  let x' := n_extern_field m index i x in
  d_nulls d' = x_nulls x' /\ d_lens d' = x_lens x'
  /\ d_null_mask d' = x_null_mask x'
  /\ d_offs d <= d_offs d' <= d_offs d + 16383
  /\ x_n_extern x'
     = x_n_extern x
       + (if negb (rec_offs_nth_extern (d_offsets d') i =? 0) then 1 else 0)
  /\ forall a, a <> REC_OFFS_HEADER_SIZE + (1 + i) ->
       d_offsets d' a = d_offsets d a.
Proof.
  intros En El Em H0 Hb Hf. cbv zeta.
  unfold comp_ordinary_field, n_extern_field, comp_read_length, resolved.
  rewrite <- En, <- El, <- Em. cbn [andb]. rewrite orb_false_r.
  unfold rec_offs_nth_extern.
  replace (i + 1) with (1 + i) by lia.
  pose proof (read1_range m (d_lens d)) as R1.
  pose proof (read1_range m (d_lens d - 1)) as R2.
  destruct (two_byte_length _ _ R1 R2) as [T1 T2]. cbv zeta in T1, T2.
  assert (Hframe : forall v a, a <> REC_OFFS_HEADER_SIZE + (1 + i) ->
            rec_offs_base_set (d_offsets d) (1 + i) v a = d_offsets d a).
  { intros v a Ha. unfold rec_offs_base_set. now apply arr_set_other. }
  change (2 ^ 30) with 1073741824 in Hb.
  assert (Hfl : forall v, 0 <= v < 1073741824 ->
            (Z.land v REC_OFFS_EXTERNAL =? 0) = true
            /\ (Z.land (Z.lor v REC_OFFS_SQL_NULL) REC_OFFS_EXTERNAL =? 0) = true
            /\ (Z.land (Z.lor v REC_OFFS_EXTERNAL) REC_OFFS_EXTERNAL =? 0) = false).
  { intros v Hv. destruct (offs_flags v Hv) as (_ & F1 & _ & _ & F2 & _ & _ & F3 & _).
    rewrite F1, F2, F3. repeat split. }
  rewrite T1.
  set (len2 := Z.land (Z.lor (Z.shiftl (mach_read_from_1 m (d_lens d)) 8)
                         (mach_read_from_1 m (d_lens d - 1))) 16383) in *.
  destruct (Hfl (d_offs d) ltac:(lia)) as (A1 & A2 & _).
  destruct (Hfl (d_offs d + len2) ltac:(lia)) as (B1 & _ & B3).
  destruct (Hfl (d_offs d + mach_read_from_1 m (d_lens d)) ltac:(lia))
    as (C1 & _ & _).
  destruct (Hfl (d_offs d + fixed_len (dict_index_get_nth_field index i))
              ltac:(lia)) as (D1 & _ & _).
  set (nl := if _ && (to_byte (d_null_mask d) =? 0) then d_nulls d - 1
             else d_nulls d).
  set (nm := if _ && (to_byte (d_null_mask d) =? 0) then 1 else d_null_mask d).
  repeat match goal with
         | |- context [if ?c then _ else _] =>
           lazymatch c with
           | negb (Z.land (rec_offs_base _ _) _ =? 0) => fail
           | _ => destruct c eqn:?
           end
         end;
    cbn [d_nulls d_lens d_null_mask d_offs d_offsets x_nulls x_lens x_null_mask
         x_n_extern];
    rewrite rec_offs_base_set_same;
    rewrite ?A1, ?A2, ?B1, ?B3, ?C1, ?D1; cbn [negb];
    (split; [reflexivity|]); (split; [reflexivity|]); (split; [reflexivity|]);
    (split; [lia|]); (split; [lia|]); apply Hframe.
Qed.

Lemma n_extern_iter m index k : forall i d x,
  0 <= i ->
  d_nulls d = x_nulls x -> d_lens d = x_lens x ->
  d_null_mask d = x_null_mask x ->
  0 <= d_offs d <= 16383 * i ->
  i + Z.of_nat k <= REC_MAX_N_FIELDS ->
  (forall j, i <= j < i + Z.of_nat k ->
     0 <= fixed_len (dict_index_get_nth_field index j) <= 16383) ->
  x_n_extern (ext_iter (n_extern_field m index) k i x)
  = x_n_extern x
    + n_extern_in (d_offsets (dec_iter (comp_ordinary_field m false index) k i d))
        k i
  /\ forall a, a < REC_OFFS_HEADER_SIZE + 1 + i ->
       d_offsets (dec_iter (comp_ordinary_field m false index) k i d) a
       = d_offsets d a.
Proof.
  induction k as [|k IH]; intros i d x Hi En El Em Ho Hk Hf.
  - cbn [ext_iter dec_iter n_extern_in]. split; [lia | reflexivity].
  - cbn [ext_iter dec_iter n_extern_in].
    unfold REC_MAX_N_FIELDS in *.
    destruct (n_extern_step m index i d x En El Em ltac:(lia))
      as (En' & El' & Em' & Ho' & Hx & Hfr).
    { change (2 ^ 30) with 1073741824. lia. }
    { apply Hf. lia. }
    destruct (IH (i + 1) (comp_ordinary_field m false index i d)
                (n_extern_field m index i x) ltac:(lia) En' El' Em'
                ltac:(lia) ltac:(lia)) as [IH1 IH2].
    { intros j Hj. apply Hf. lia. }
    split.
    + rewrite IH1, Hx. unfold rec_offs_nth_extern at 2, rec_offs_base.
      rewrite IH2 by lia. unfold rec_offs_nth_extern, rec_offs_base. lia.
    + intros a Ha. rewrite IH2 by lia. apply Hfr. lia.
Qed.

Lemma n_extern_in_ext o1 o2 k : forall i,
  (forall j, i <= j -> rec_offs_base o1 (1 + j) = rec_offs_base o2 (1 + j)) ->
  n_extern_in o1 k i = n_extern_in o2 k i.
Proof.
  induction k as [|k IH]; intros i H; [reflexivity|].
  cbn [n_extern_in]. unfold rec_offs_nth_extern.
  rewrite (H i) by lia. rewrite (IH (i + 1)); [reflexivity|].
  intros j Hj. apply H. lia.
Qed.

(** With [n] zero the loop still runs once: field 0 is examined, as it is
    with [n] one. *)
Lemma rec_get_n_extern_new_zero m rec index :
  rec_get_n_extern_new m rec index 0 = rec_get_n_extern_new m rec index 1.
Proof.
  unfold rec_get_n_extern_new.
  change (0 =? ULINT_UNDEFINED) with false.
  change (1 =? ULINT_UNDEFINED) with false.
  reflexivity.
Qed.

(** R3. On an ordinary compact record, [rec_get_n_extern_new] called with
    [n] from 1 to the number of fields of the index, or with
    [ULINT_UNDEFINED] for all of them, counts the fields among the first
    [n] that the array of [rec_get_offsets_func] flags as external; the
    index has at most [REC_MAX_N_FIELDS] fields and no fixed length has
    more than ten bits.  Called with [n] zero, which its assertions let
    through, it examines field 0 all the same and returns what it returns
    for [n] one. *)
Theorem rec_get_n_extern_new_spec m rec index n :
  dict_table_is_comp index = true ->
  rec_get_status m rec = REC_STATUS_ORDINARY ->
  let n' := if n =? ULINT_UNDEFINED then dict_index_get_n_fields index else n in
  1 <= n' <= dict_index_get_n_fields index ->
  dict_index_get_n_fields index <= REC_MAX_N_FIELDS ->
  (forall i, 0 <= i < n' ->
     0 <= fixed_len (dict_index_get_nth_field index i) < 1024) ->
  (exists offsets,
     rec_get_offsets_func m rec index None n = Some offsets
     /\ rec_offs_n_fields offsets = n'
     /\ rec_get_n_extern_new m rec index n
        = n_extern_in offsets (Z.to_nat n') 0)
  /\ rec_get_n_extern_new m rec index 0 = rec_get_n_extern_new m rec index 1.
Proof.
  intros Hcomp Hst n' Hn Hmax Hfix.
  split; [|apply rec_get_n_extern_new_zero].
  unfold rec_get_offsets_func, rec_init_offsets. rewrite Hcomp, Hst.
  change (REC_STATUS_ORDINARY =? REC_STATUS_ORDINARY) with true.
  change ((REC_STATUS_ORDINARY =? REC_STATUS_INFIMUM)
          || (REC_STATUS_ORDINARY =? REC_STATUS_SUPREMUM)) with false.
  cbv iota.
  assert (Hn' : (if n <? dict_index_get_n_fields index then n
                 else dict_index_get_n_fields index) = n').
  { subst n'. unfold REC_MAX_N_FIELDS, ULINT_UNDEFINED in *.
    change (2 ^ 64 - 1) with 18446744073709551615 in *.
    destruct (Z.eqb_spec n 18446744073709551615);
      destruct (Z.ltb_spec n (dict_index_get_n_fields index)); lia. }
  cbv zeta. rewrite Hn'. fold (fresh_offsets n').
  eexists. split; [reflexivity|].
  unfold rec_init_offsets_comp_ordinary, rec_get_n_extern_new.
  cbn [andb]. cbv zeta. fold n'.
  change (rec_offs_n_fields (fresh_offsets n')) with n'.
  rewrite do_while_fields_iter, do_while_ext_iter by lia.
  rewrite Z.sub_0_r.
  replace (rec - (1 + REC_N_NEW_EXTRA_BYTES))
    with (rec - (REC_N_NEW_EXTRA_BYTES + 1)) by lia.
  set (nulls := rec - (REC_N_NEW_EXTRA_BYTES + 1)).
  set (lens := nulls - UT_BITS_IN_BYTES (n_nullable index)).
  destruct (n_extern_iter m index (Z.to_nat n') 0
              (mk_dec 0 0 nulls lens 1 (fresh_offsets n'))
              (mk_ext nulls lens 1 0) ltac:(lia) eq_refl eq_refl eq_refl)
    as [H1 H2].
  { cbn [d_offs]. lia. }
  { lia. }
  { intros j Hj. specialize (Hfix j ltac:(lia)). lia. }
  cbn [x_n_extern d_offsets] in H1, H2. split.
  - unfold rec_offs_n_fields, rec_offs_base_set.
    rewrite arr_set_other by (unfold REC_OFFS_HEADER_SIZE; lia).
    rewrite H2 by (unfold REC_OFFS_HEADER_SIZE; lia). reflexivity.
  - rewrite H1. rewrite Z.add_0_l. apply n_extern_in_ext.
    intros j Hj. unfold rec_offs_base, rec_offs_base_set.
    rewrite arr_set_other by lia. reflexivity.
Qed.

End Codec.

(** *** A table and a row

    A compact table of an INT NOT NULL column and a VARCHAR(100) column
    that may be null, and a row of it; the columns longer than 255 bytes
    are the big ones. *)
Definition big_over_255 (len mtype : Z) : bool := 255 <? len.
Definition no_fixed_size (col : dict_col_t) (temp : bool) : Z := 0.
Definition null_size_zero (type : dtype_t) (comp : Z) : Z := 0.
Definition zero_heap (n : Z) : offsets_t := fun _ => 0.
Definition zero_mem : mem := fun _ => x00.

Definition int_value : dfield_t :=
  mk_dfield [x01; x02; x03; x04] false 4 (mk_dtype DATA_NOT_NULL 6 4).
Definition varchar_value : dfield_t :=
  mk_dfield [x61; x62] false 2 (mk_dtype 0 1 100).

Definition two_col_index : dict_index_t :=
  mk_index [mk_field (mk_col DATA_NOT_NULL 6 4) 4; mk_field (mk_col 0 1 100) 0]
    1 true 1 false false false.
Definition one_row : dtuple_t := mk_dtuple 0 [int_value; varchar_value].

(** The cursors of the encoder before the second field of a record whose
    origin is at 100. *)
Definition some_cursors : enc_t := mk_enc zero_mem 94 1 93 104.

Lemma codec_round_trip_witness :
  dtuple_fits big_over_255 null_size_zero two_col_index one_row 0 = true
  /\ exists m' rec offsets,
       rec_convert_dtuple_to_rec big_over_255 no_fixed_size null_size_zero
         zero_mem 100 two_col_index one_row 0 = Some (m', rec)
       /\ rec_get_offsets_func big_over_255 no_fixed_size zero_heap
            m' rec two_col_index None ULINT_UNDEFINED = Some offsets
       /\ rec_offs_n_fields offsets = dtuple_n_fields one_row
       /\ forall i f, nth_error (dtuple_fields one_row) i = Some f ->
            field_read_back m' rec offsets (Z.of_nat i) f.
Proof.
  split; [vm_compute; reflexivity|].
  apply (codec_round_trip big_over_255 no_fixed_size null_size_zero zero_heap
           zero_mem 100 two_col_index one_row 0).
  vm_compute. reflexivity.
Defined.


(** *** An old-style record

    The row above stored in the old format, with its origin where
    [rec_convert_dtuple_to_rec] puts it. *)
Definition two_col_index_old : dict_index_t :=
  mk_index [mk_field (mk_col DATA_NOT_NULL 6 4) 4; mk_field (mk_col 0 1 100) 0]
    1 false 1 false false false.

Definition old_row : mem * Z :=
  match rec_convert_dtuple_to_rec big_over_255 no_fixed_size null_size_zero
          zero_mem 100 two_col_index_old one_row 0 with
  | Some p => p
  | None => (zero_mem, 0)
  end.

Lemma rec_get_nth_field_offs_old_agrees_witness :
  exists offsets,
    rec_get_offsets_func big_over_255 no_fixed_size zero_heap
      (fst old_row) (snd old_row) two_col_index_old None ULINT_UNDEFINED
    = Some offsets
    /\ rec_offs_n_fields offsets = rec_get_n_fields_old (fst old_row) (snd old_row)
    /\ rec_get_nth_field_offs_old (fst old_row) (snd old_row) 1
       = Some (fst (rec_get_nth_field_offs offsets 1),
               snd (rec_get_nth_field_offs offsets 1) mod 2 ^ 64).
Proof.
  apply (rec_get_nth_field_offs_old_agrees big_over_255 no_fixed_size zero_heap
           (fst old_row) (snd old_row) two_col_index_old 1).
  - reflexivity.
  - vm_compute. discriminate.
  - vm_compute. split; [discriminate | reflexivity].
Defined.

Lemma rec_set_nth_field_sql_null_witness :
  let m := fst old_row in
  let rec := snd old_row in
  let m' := rec_set_nth_field_sql_null m rec 1 in
  let os := rec_get_field_start_offs m rec 1 in
  let size := rec_get_nth_field_size m rec 1 in
  rec_get_n_fields_old m' rec = rec_get_n_fields_old m rec
  /\ rec_get_1byte_offs_flag m' rec = rec_get_1byte_offs_flag m rec
  /\ (rec <> 0 -> rec_get_nth_field_offs_old m' rec 1 = Some (os, UNIV_SQL_NULL))
  /\ (forall j, 0 <= j -> j <> 1 ->
        rec_get_nth_field_offs_old m' rec j = rec_get_nth_field_offs_old m rec j)
  /\ (forall j, 0 <= j ->
        rec_get_nth_field_size m' rec j = rec_get_nth_field_size m rec j)
  /\ (forall a, rec + os <= a < rec + os + size -> m' a = x00)
  /\ (forall a, ~ rec + os <= a < rec + os + size ->
        (if negb (rec_get_1byte_offs_flag m rec =? 0)
         then a <> rec - (REC_N_OLD_EXTRA_BYTES + 1 + 1)
         else a <> rec - (REC_N_OLD_EXTRA_BYTES + 2 * 1 + 2)
              /\ a <> rec - (REC_N_OLD_EXTRA_BYTES + 2 * 1 + 2) + 1) ->
        m' a = m a).
Proof.
  apply (rec_set_nth_field_sql_null_spec (fst old_row) (snd old_row) 1).
  - vm_compute. split; [discriminate | reflexivity].
  - vm_compute. discriminate.
Defined.

(** The array of offsets of the row above, in the compact format. *)
Definition one_row_offsets : offsets_t :=
  match rec_convert_dtuple_to_rec big_over_255 no_fixed_size null_size_zero
          zero_mem 100 two_col_index one_row 0 with
  | Some (m, rec) =>
    match rec_get_offsets_func big_over_255 no_fixed_size zero_heap
            m rec two_col_index None ULINT_UNDEFINED with
    | Some offsets => offsets
    | None => zero_heap 0
    end
  | None => zero_heap 0
  end.

Lemma rec_offs_make_nth_extern_witness :
  let offsets' := rec_offs_make_nth_extern one_row_offsets 1 in
  rec_offs_nth_extern offsets' 1 = REC_OFFS_EXTERNAL
  /\ rec_offs_n_fields offsets' = rec_offs_n_fields one_row_offsets
  /\ rec_offs_base offsets' 0 = rec_offs_base one_row_offsets 0
  /\ (forall k, 0 <= k ->
        rec_get_nth_field_offs offsets' k
        = rec_get_nth_field_offs one_row_offsets k)
  /\ (forall k, 0 <= k ->
        rec_offs_nth_sql_null offsets' k
        = rec_offs_nth_sql_null one_row_offsets k)
  /\ (forall k, 0 <= k -> k <> 1 ->
        rec_offs_nth_extern offsets' k = rec_offs_nth_extern one_row_offsets k).
Proof.
  apply (rec_offs_make_nth_extern_spec one_row_offsets 1). lia.
Defined.

(** *** A row with an externally stored column

    A compact table of an INT NOT NULL column and a VARCHAR(1000) column,
    and a row of it that keeps twenty bytes of the second column in the
    record. *)
Definition big_col_index : dict_index_t :=
  mk_index [mk_field (mk_col DATA_NOT_NULL 6 4) 4; mk_field (mk_col 0 1 1000) 0]
    1 true 1 false false false.

Definition extern_value : dfield_t :=
  mk_dfield (repeat x2a 20) true 20 (mk_dtype 0 1 1000).

Definition extern_row : mem * Z :=
  match rec_convert_dtuple_to_rec big_over_255 no_fixed_size null_size_zero
          zero_mem 100 big_col_index (mk_dtuple 0 [int_value; extern_value]) 0
  with
  | Some p => p
  | None => (zero_mem, 0)
  end.

Lemma rec_get_n_extern_new_witness :
  (exists offsets,
     rec_get_offsets_func big_over_255 no_fixed_size zero_heap
       (fst extern_row) (snd extern_row) big_col_index None ULINT_UNDEFINED
     = Some offsets
     /\ rec_offs_n_fields offsets = 2
     /\ rec_get_n_extern_new big_over_255 (fst extern_row) (snd extern_row)
          big_col_index ULINT_UNDEFINED
        = n_extern_in offsets 2 0)
  /\ rec_get_n_extern_new big_over_255 (fst extern_row) (snd extern_row)
       big_col_index 0
     = rec_get_n_extern_new big_over_255 (fst extern_row) (snd extern_row)
         big_col_index 1.
Proof.
  apply (rec_get_n_extern_new_spec big_over_255 no_fixed_size zero_heap
           (fst extern_row) (snd extern_row) big_col_index ULINT_UNDEFINED).
  - reflexivity.
  - vm_compute. reflexivity.
  - vm_compute. split; discriminate.
  - vm_compute. discriminate.
  - intros i Hi.
    assert (E : i = 0 \/ i = 1) by (change (0 <= i < 2) in Hi; lia).
    destruct E as [-> | ->]; vm_compute; (split; [discriminate | reflexivity]).
Defined.


(** *** Big columns

    [DATA_BLOB], [DATA_GEOMETRY], [DATA_VAR_POINT], [DATA_LARGE_MTYPE] and
    [DATA_BIG_LEN_MTYPE] of data0type.h, which is not among the sources at
    hand.  A column is big when its length is over 255 bytes, or when its
    main type is a BLOB or a geometry type that is stored as one: this is
    what the comment at the first [DATA_BIG_COL] of rem0rec.cc says, and why
    the encoder passes the main type with the length and lets a value of a
    [DATA_LARGE_MTYPE] column be longer than the length of the column. *)
Definition DATA_BLOB : Z := 5.
Definition DATA_GEOMETRY : Z := 14.
Definition DATA_VAR_POINT : Z := 16.

Definition DATA_LARGE_MTYPE (mtype : Z) : bool :=
  (mtype =? DATA_BLOB) || (mtype =? DATA_VAR_POINT) || (mtype =? DATA_GEOMETRY).

Definition DATA_BIG_LEN_MTYPE (len mtype : Z) : bool :=
  (255 <? len) || DATA_LARGE_MTYPE mtype.

Lemma big_col_false col :
  DATA_BIG_COL DATA_BIG_LEN_MTYPE col = false
  <-> col_len col <= 255 /\ DATA_LARGE_MTYPE (col_mtype col) = false.
Proof.
  unfold DATA_BIG_COL, DATA_BIG_LEN_MTYPE. rewrite Bool.orb_false_iff.
  rewrite Z.ltb_ge. reflexivity.
Qed.

(** C3, as the code has it.  Compact length-prefix rule: for a field that
    is not null, of a variable-length column, the encoder writes a length
    prefix of 1 byte exactly when the column is not a big one, that is,
    its length is at most 255 bytes and its main type is none of
    [DATA_BLOB], [DATA_VAR_POINT] and [DATA_GEOMETRY], or the actual length
    is below 128 and the field is not stored externally; that byte is the
    length.  In every other case it writes 2 bytes: the top bit of the
    first is set, its second-highest bit is the external-storage flag of
    the field, and the fourteen bits that remain are the length.  The
    decoder consumes the same bytes, and finds the length and the flag
    again. *)
Theorem length_prefix_big_col
    (dict_col_get_fixed_size : dict_col_t -> bool -> Z) index f i s :
  let ifield := dict_index_get_nth_field index i in
  let col := field_col ifield in
  let s1 := comp_store_field DATA_BIG_LEN_MTYPE dict_col_get_fixed_size
              index false f i s in
  let n := e_lens s - e_lens s1 in
  let b1 := mach_read_from_1 (e_mem s1) (e_lens s) in
  let b2 := mach_read_from_1 (e_mem s1) (e_lens s - 1) in
  field_fits_comp DATA_BIG_LEN_MTYPE ifield f = true ->
  dfield_is_null f = false ->
  fixed_len ifield = 0 ->
  dfield_len f < 16384 ->
  e_lens s < e_end s ->
  (n = 1 <-> (col_len col <= 255 /\ DATA_LARGE_MTYPE (col_mtype col) = false)
             \/ (dfield_len f < 128 /\ dfield_ext f = false))
  /\ (n = 1 -> b1 = dfield_len f)
  /\ (n <> 1 ->
      n = 2 /\ Z.testbit b1 7 = true /\ Z.testbit b1 6 = dfield_ext f
      /\ (b1 mod 64) * 256 + b2 = dfield_len f)
  /\ forall offs any_ext nulls null_mask offsets,
       let d := comp_read_length DATA_BIG_LEN_MTYPE dict_col_get_fixed_size
                  (e_mem s1) false index i offs any_ext nulls
                  (e_lens s) null_mask offsets in
       d_lens d = e_lens s - n
       /\ d_offs d = offs + dfield_len f
       /\ rec_offs_base (d_offsets d) (i + 1)
          = if dfield_ext f then Z.lor (offs + dfield_len f) REC_OFFS_EXTERNAL
            else offs + dfield_len f.
Proof.
  intros ifield col s1 n b1 b2 Hfit En Hvar Hlen Hgeo.
  destruct (length_prefix_rule DATA_BIG_LEN_MTYPE dict_col_get_fixed_size
              index f i s Hfit En Hvar Hlen Hgeo) as (H1 & H2 & H3 & H4).
  fold ifield col s1 n b1 b2 in H1, H2, H3, H4.
  split; [|split; [exact H2|split; [exact H3 | exact H4]]].
  rewrite H1. rewrite (big_col_false col). reflexivity.
Qed.

(** *** A short BLOB column

    A compact table of one column of main type [DATA_BLOB] whose length is
    255 bytes, and a value of 200 bytes that is stored in the record. *)
Definition short_blob_index : dict_index_t :=
  mk_index [mk_field (mk_col 0 DATA_BLOB 255) 0] 1 true 1 false false false.

Definition short_blob_value : dfield_t :=
  mk_dfield (repeat x2a 200) false 200 (mk_dtype 0 DATA_BLOB 255).

(** The cursors of the encoder before the first field of a record whose
    origin is at 100. *)
Definition first_cursors : enc_t := mk_enc zero_mem 94 1 93 100.

Lemma length_prefix_big_col_witness :
  e_lens some_cursors
  - e_lens (comp_store_field DATA_BIG_LEN_MTYPE no_fixed_size two_col_index
              false varchar_value 1 some_cursors) = 1
  <-> (col_len (field_col (dict_index_get_nth_field two_col_index 1)) <= 255
       /\ DATA_LARGE_MTYPE
            (col_mtype (field_col (dict_index_get_nth_field two_col_index 1)))
          = false)
      \/ (dfield_len varchar_value < 128 /\ dfield_ext varchar_value = false).
Proof.
  apply (length_prefix_big_col no_fixed_size two_col_index varchar_value 1
           some_cursors);
    vm_compute; reflexivity.
Defined.

(** The length of the column is at most 255 bytes, and yet the prefix of
    the value takes 2 bytes: the column is of a BLOB type and the value has
    more than 127 bytes. *)
Lemma length_prefix_short_blob :
  col_len (field_col (dict_index_get_nth_field short_blob_index 0)) <= 255
  /\ field_fits_comp DATA_BIG_LEN_MTYPE
       (dict_index_get_nth_field short_blob_index 0) short_blob_value = true
  /\ dfield_is_null short_blob_value = false
  /\ fixed_len (dict_index_get_nth_field short_blob_index 0) = 0
  /\ dfield_ext short_blob_value = false
  /\ e_lens first_cursors
     - e_lens (comp_store_field DATA_BIG_LEN_MTYPE no_fixed_size
                 short_blob_index false short_blob_value 0 first_cursors) = 2.
Proof.
  split; [vm_compute; discriminate|].
  repeat split; vm_compute; reflexivity.
Qed.

End Rem.

(** ** page0page: the index page *)
Module Page.
Import Mach.
Import Rem.

(** *** Constants of page0page.h, page0types.h and fil0fil.h *)

Definition PAGE_HEADER : Z := 38.
Definition PAGE_N_DIR_SLOTS : Z := 0.
Definition PAGE_HEAP_TOP : Z := 2.
Definition PAGE_N_HEAP : Z := 4.
Definition PAGE_FREE : Z := 6.
Definition PAGE_GARBAGE : Z := 8.
Definition PAGE_LAST_INSERT : Z := 10.
Definition PAGE_DIRECTION : Z := 12.
Definition PAGE_N_DIRECTION : Z := 14.
Definition PAGE_N_RECS : Z := 16.
Definition PAGE_MAX_TRX_ID : Z := 18.
Definition PAGE_HEADER_PRIV_END : Z := 26.
Definition PAGE_LEVEL : Z := 26.
Definition PAGE_INDEX_ID : Z := 28.
Definition PAGE_DATA : Z := PAGE_HEADER + 36 + 2 * 10.
Definition PAGE_OLD_INFIMUM : Z := PAGE_DATA + 1 + REC_N_OLD_EXTRA_BYTES.
Definition PAGE_OLD_SUPREMUM : Z := PAGE_DATA + 2 + 2 * REC_N_OLD_EXTRA_BYTES + 8.
Definition PAGE_OLD_SUPREMUM_END : Z := PAGE_OLD_SUPREMUM + 9.
Definition PAGE_NEW_INFIMUM : Z := PAGE_DATA + REC_N_NEW_EXTRA_BYTES.
Definition PAGE_NEW_SUPREMUM : Z := PAGE_DATA + 2 * REC_N_NEW_EXTRA_BYTES + 8.
Definition PAGE_NEW_SUPREMUM_END : Z := PAGE_NEW_SUPREMUM + 8.
Definition PAGE_HEAP_NO_USER_LOW : Z := 2.
Definition PAGE_NO_DIRECTION : Z := 5.
Definition PAGE_DIR : Z := 8.
Definition PAGE_DIR_SLOT_SIZE : Z := 2.
Definition PAGE_DIR_SLOT_MAX_N_OWNED : Z := 8.
Definition PAGE_DIR_SLOT_MIN_N_OWNED : Z := 4.
Definition FIL_PAGE_TYPE : Z := 24.
Definition FIL_PAGE_INDEX : Z := 17855.
Definition FIL_PAGE_RTREE : Z := 17854.

(** The null pointer.  A pointer into the page is kept as its offset from
    the start of the frame, so that [page_offset] is the identity and
    [page_align] yields the frame; no record lies at offset 0. *)
Definition NULL : Z := 0.

(** *** The accessors of page0page.ic and rem0rec.ic *)
Section Index_page.

(** [UNIV_PAGE_SIZE], set when the server starts. *)
Variable UNIV_PAGE_SIZE : Z.

(** [page_zip_des_t], the compressed copy of a page, and the two functions
    of page0zip that keep it in step with the directory and the header:
    [page_zip_write_header(page_zip, str, length, NULL)], given the frame,
    and [page_zip_rec_set_owned(page_zip, rec, flag)]. *)
Variable zip_t : Type.
Variable page_zip_write_header : zip_t -> mem -> Z -> Z -> zip_t.
Variable page_zip_rec_set_owned : zip_t -> Z -> Z -> zip_t.

Definition page_header_get_field (page : mem) (field : Z) : Z :=
  mach_read_from_2 page (PAGE_HEADER + field).

Definition page_header_set_field (page : mem) (page_zip : option zip_t)
    (field val : Z) : mem * option zip_t :=
  let page := mach_write_to_2 page (PAGE_HEADER + field) val in
  (page,
   match page_zip with
   | Some z => Some (page_zip_write_header z page (PAGE_HEADER + field) 2)
   | None => None
   end).

Definition page_header_get_offs (page : mem) (field : Z) : Z :=
  page_header_get_field page field.

Definition page_header_get_ptr (page : mem) (field : Z) : Z :=
  let offs := page_header_get_offs page field in
  if negb (offs =? 0) then offs else NULL.

Definition page_header_set_ptr (page : mem) (page_zip : option zip_t)
    (field ptr : Z) : mem * option zip_t :=
  let offs := if ptr =? NULL then 0 else ptr in
  page_header_set_field page page_zip field offs.

(** [page_is_comp(page)]: nonzero for the compact format. *)
Definition page_is_comp (page : mem) : Z :=
  Z.land (page_header_get_field page PAGE_N_HEAP) 0x8000.

Definition page_get_n_recs (page : mem) : Z :=
  page_header_get_field page PAGE_N_RECS.

Definition page_dir_get_n_slots (page : mem) : Z :=
  page_header_get_field page PAGE_N_DIR_SLOTS.

Definition page_dir_set_n_slots (page : mem) (page_zip : option zip_t)
    (n_slots : Z) : mem * option zip_t :=
  page_header_set_field page page_zip PAGE_N_DIR_SLOTS n_slots.

Definition page_dir_get_n_heap (page : mem) : Z :=
  Z.land (page_header_get_field page PAGE_N_HEAP) 0x7fff.

Definition page_dir_set_n_heap (page : mem) (page_zip : option zip_t)
    (n_heap : Z) : mem * option zip_t :=
  page_header_set_field page page_zip PAGE_N_HEAP
    (Z.lor n_heap (Z.land 0x8000 (page_header_get_field page PAGE_N_HEAP))).

(** [page_dir_get_nth_slot(page, n)]: the directory grows downwards from
    the trailer of the page. *)
Definition page_dir_get_nth_slot (n : Z) : Z :=
  UNIV_PAGE_SIZE - PAGE_DIR - (n + 1) * PAGE_DIR_SLOT_SIZE.

Definition page_dir_slot_get_rec (page : mem) (slot : Z) : Z :=
  mach_read_from_2 page slot.

Definition page_dir_slot_set_rec (page : mem) (slot rec : Z) : mem :=
  mach_write_to_2 page slot rec.

Definition rec_get_n_owned_old (page : mem) (rec : Z) : Z :=
  rec_get_bit_field_1 page rec REC_OLD_N_OWNED REC_N_OWNED_MASK REC_N_OWNED_SHIFT.

Definition rec_set_n_owned_old (page : mem) (rec n_owned : Z) : mem :=
  rec_set_bit_field_1 page rec n_owned REC_OLD_N_OWNED REC_N_OWNED_MASK
    REC_N_OWNED_SHIFT.

Definition rec_get_n_owned_new (page : mem) (rec : Z) : Z :=
  rec_get_bit_field_1 page rec REC_NEW_N_OWNED REC_N_OWNED_MASK REC_N_OWNED_SHIFT.

Definition rec_set_n_owned_new (page : mem) (page_zip : option zip_t)
    (rec n_owned : Z) : mem * option zip_t :=
  let page := rec_set_bit_field_1 page rec n_owned REC_NEW_N_OWNED
                REC_N_OWNED_MASK REC_N_OWNED_SHIFT in
  (page,
   match page_zip with
   | Some z =>
     if negb (rec_get_status page rec =? REC_STATUS_SUPREMUM)
     then Some (page_zip_rec_set_owned z rec n_owned)
     else Some z
   | None => None
   end).

Definition page_dir_slot_get_n_owned (page : mem) (slot : Z) : Z :=
  let rec := page_dir_slot_get_rec page slot in
  if negb (page_is_comp page =? 0)
  then rec_get_n_owned_new page rec
  else rec_get_n_owned_old page rec.

Definition page_dir_slot_set_n_owned (page : mem) (page_zip : option zip_t)
    (slot n : Z) : mem * option zip_t :=
  let rec := page_dir_slot_get_rec page slot in
  if negb (page_is_comp page =? 0)
  then rec_set_n_owned_new page page_zip rec n
  else (rec_set_n_owned_old page rec n, page_zip).

(** [rec_get_next_offs(rec, comp)]: in the compact format the field holds
    the distance to the next record, modulo the size of the page. *)
Definition rec_get_next_offs (page : mem) (rec : Z) (comp : bool) : Z :=
  let field_value := mach_read_from_2 page (rec - REC_NEXT) in
  if comp then
    if field_value =? 0 then 0
    else (rec + field_value) mod UNIV_PAGE_SIZE
  else field_value.

(** [rec_get_next_ptr(rec, comp)]. *)
Definition rec_get_next_ptr (page : mem) (rec : Z) (comp : bool) : Z :=
  let field_value := mach_read_from_2 page (rec - REC_NEXT) in
  if field_value =? 0 then NULL
  else if comp then (rec + field_value) mod UNIV_PAGE_SIZE
  else field_value.

(** [page_rec_get_next_low(rec, comp)]; [None] is [ut_error]. *)
Definition page_rec_get_next_low (page : mem) (rec : Z) (comp : bool)
    : option Z :=
  let offs := rec_get_next_offs page rec comp in
  if UNIV_PAGE_SIZE <=? offs then None
  else if offs =? 0 then Some NULL
  else Some offs.

Definition page_rec_get_next (page : mem) (rec : Z) : option Z :=
  page_rec_get_next_low page rec (negb (page_is_comp page =? 0)).

(** *** Allocation from the heap *)

(** Modelled from the spec: [page_get_max_insert_size(page, n_recs)] of
    page0page.ic is the free region between [heap_top] and the slot array,
    which ends at the lowest slot. *)
Definition page_get_max_insert_size (page : mem) (n_recs : Z) : Z :=
  Z.max 0 (page_dir_get_nth_slot (page_dir_get_n_slots page - 1)
           - page_header_get_field page PAGE_HEAP_TOP).

(** [page_mem_alloc_heap(page, page_zip, need, heap_no)]: the block and
    [*heap_no], or [None] for [NULL], with the page after the call. *)
Definition page_mem_alloc_heap (page : mem) (page_zip : option zip_t)
    (need : Z) : option (Z * Z) * (mem * option zip_t) :=
  let avl_space := page_get_max_insert_size page 1 in
  if need <=? avl_space then
    let block := page_header_get_ptr page PAGE_HEAP_TOP in
    let '(page, page_zip) :=
      page_header_set_ptr page page_zip PAGE_HEAP_TOP (block + need) in
    let heap_no := page_dir_get_n_heap page in
    (Some (block, heap_no), page_dir_set_n_heap page page_zip (1 + heap_no))
  else (None, (page, page_zip)).

(** *** The directory *)

(** The loop of [page_dir_delete_slot] that copies the slots [i ..] one
    place down, [count] of them. *)
Fixpoint page_dir_copy_slots_down (page : mem) (i : Z) (count : nat) : mem :=
  match count with
  | O => page
  | S count' =>
    let rec := page_dir_slot_get_rec page (page_dir_get_nth_slot i) in
    page_dir_copy_slots_down
      (page_dir_slot_set_rec page (page_dir_get_nth_slot (i - 1)) rec)
      (i + 1) count'
  end.

Definition page_dir_delete_slot (page : mem) (page_zip : option zip_t)
    (slot_no : Z) : mem * option zip_t :=
  let n_slots := page_dir_get_n_slots page in
  (* 1. Reset the n_owned fields of the slots to be deleted *)
  let slot := page_dir_get_nth_slot slot_no in
  let n_owned := page_dir_slot_get_n_owned page slot in
  let '(page, page_zip) := page_dir_slot_set_n_owned page page_zip slot 0 in
  (* 2. Update the n_owned value of the first non-deleted slot *)
  let slot := page_dir_get_nth_slot (slot_no + 1) in
  let '(page, page_zip) :=
    page_dir_slot_set_n_owned page page_zip slot
      (n_owned + page_dir_slot_get_n_owned page slot) in
  (* 3. Destroy the slot by copying slots *)
  let page := page_dir_copy_slots_down page (slot_no + 1)
                (Z.to_nat (n_slots - (slot_no + 1))) in
  (* 4. Zero out the last slot, which will be removed *)
  let page := mach_write_to_2 page (page_dir_get_nth_slot (n_slots - 1)) 0 in
  (* 5. Update the page header *)
  page_header_set_field page page_zip PAGE_N_DIR_SLOTS (n_slots - 1).

Definition page_dir_add_slot (page : mem) (page_zip : option zip_t)
    (start : Z) : mem * option zip_t :=
  let n_slots := page_dir_get_n_slots page in
  (* Update the page header *)
  let '(page, page_zip) := page_dir_set_n_slots page page_zip (n_slots + 1) in
  (* Move slots up *)
  let slot := page_dir_get_nth_slot n_slots in
  (memmove page slot (slot + PAGE_DIR_SLOT_SIZE)
     ((n_slots - 1 - start) * PAGE_DIR_SLOT_SIZE),
   page_zip).

(** [for (i = 0; i < n; i++) rec = page_rec_get_next(rec)]; the source
    does not survive the step from a null record. *)
Fixpoint page_rec_get_next_times (page : mem) (rec : Z) (n : nat) : option Z :=
  match n with
  | O => Some rec
  | S n' =>
    if rec =? NULL then None
    else match page_rec_get_next page rec with
         | None => None
         | Some rec' => page_rec_get_next_times page rec' n'
         end
  end.

(** [page_dir_split_slot(page, page_zip, slot_no)]. *)
Definition page_dir_split_slot (page : mem) (page_zip : option zip_t)
    (slot_no : Z) : option (mem * option zip_t) :=
  let slot := page_dir_get_nth_slot slot_no in
  let n_owned := page_dir_slot_get_n_owned page slot in
  (* 1. We loop to find a record approximately in the middle of the
     records owned by the slot. *)
  let prev_slot := page_dir_get_nth_slot (slot_no - 1) in
  let rec := page_dir_slot_get_rec page prev_slot in
  match page_rec_get_next_times page rec (Z.to_nat (n_owned / 2)) with
  | None => None
  | Some rec =>
    (* 2. We add one directory slot immediately below the slot to be
       split. *)
    let '(page, page_zip) := page_dir_add_slot page page_zip (slot_no - 1) in
    let new_slot := page_dir_get_nth_slot slot_no in
    let slot := page_dir_get_nth_slot (slot_no + 1) in
    (* 3. We store the appropriate values to the new slot. *)
    let page := page_dir_slot_set_rec page new_slot rec in
    let '(page, page_zip) :=
      page_dir_slot_set_n_owned page page_zip new_slot (n_owned / 2) in
    (* 4. Finally, we update the number of records field of the
       original slot *)
    Some (page_dir_slot_set_n_owned page page_zip slot
            (n_owned - (n_owned / 2)))
  end.

(** [page_dir_balance_slot(page, page_zip, slot_no)]. *)
Definition page_dir_balance_slot (page : mem) (page_zip : option zip_t)
    (slot_no : Z) : mem * option zip_t :=
  let slot := page_dir_get_nth_slot slot_no in
  (* The last directory slot cannot be balanced with the upper
     neighbor, as there is none. *)
  if slot_no =? page_dir_get_n_slots page - 1 then (page, page_zip)
  else
    let up_slot := page_dir_get_nth_slot (slot_no + 1) in
    let n_owned := page_dir_slot_get_n_owned page slot in
    let up_n_owned := page_dir_slot_get_n_owned page up_slot in
    if PAGE_DIR_SLOT_MIN_N_OWNED <? up_n_owned then
      (* In this case we can just transfer one record owned by the upper
         slot to the property of the lower slot *)
      let old_rec := page_dir_slot_get_rec page slot in
      let '(new_rec, (page, page_zip)) :=
        if negb (page_is_comp page =? 0) then
          let new_rec := rec_get_next_ptr page old_rec true in
          let '(page, page_zip) := rec_set_n_owned_new page page_zip old_rec 0 in
          (new_rec, rec_set_n_owned_new page page_zip new_rec (n_owned + 1))
        else
          let new_rec := rec_get_next_ptr page old_rec false in
          let page := rec_set_n_owned_old page old_rec 0 in
          (new_rec, (rec_set_n_owned_old page new_rec (n_owned + 1), page_zip)) in
      let page := page_dir_slot_set_rec page slot new_rec in
      page_dir_slot_set_n_owned page page_zip up_slot (up_n_owned - 1)
    else
      (* In this case we may merge the two slots *)
      page_dir_delete_slot page page_zip slot_no.

(** *** Properties of the header fields *)

Lemma n_heap_word n f :
  0 <= n < 0x8000 -> 0 <= f < 65536 ->
  let w := Z.lor n (Z.land 0x8000 f) in
  0 <= w < 65536 /\ Z.land w 0x7fff = n /\ Z.land w 0x8000 = Z.land f 0x8000.
Proof.
  intros Hn Hf.
  assert (Hc : 0 <= fld f 15 1 < 2 ^ 1).
  { unfold fld. apply Z.mod_pos_bound. reflexivity. }
  assert (Hw : Z.lor n (Z.land 0x8000 f) = n + fld f 15 1 * 2 ^ 15).
  { rewrite (Z.land_comm 0x8000 f).
    change 0x8000 with (Z.shiftl (Z.ones 1) 15).
    rewrite (land_mask f 15 1) by lia.
    rewrite <- Z.shiftl_mul_pow2 by lia.
    rewrite (lor_field n (fld f 15 1) 15 1); try lia.
    - now rewrite Z.shiftl_mul_pow2 by lia.
    - unfold fld. change (2 ^ 15) with 32768. change (2 ^ 1) with 2.
      div_mod_eqs. lia. }
  cbv zeta. rewrite Hw.
  change 0x7fff with (Z.ones 15). rewrite Z.land_ones by lia.
  change 0x8000 with (2 ^ 15). rewrite !land_pow2 by lia.
  unfold fld in *. change (2 ^ 15) with 32768 in *. change (2 ^ 1) with 2 in *.
  repeat split; div_mod_eqs; lia.
Qed.

Lemma header_field_set_same page page_zip field val :
  0 <= val < 65536 ->
  page_header_get_field (fst (page_header_set_field page page_zip field val))
    field = val.
Proof.
  intros H. unfold page_header_get_field, page_header_set_field. cbn [fst].
  rewrite read2_write2_same. now apply Z.mod_small.
Qed.

Lemma header_field_set_other page page_zip field val field' :
  field' + 1 < field \/ field + 1 < field' ->
  page_header_get_field (fst (page_header_set_field page page_zip field val))
    field' = page_header_get_field page field'.
Proof.
  intros H. unfold page_header_get_field, page_header_set_field. cbn [fst].
  apply read2_write2_other. lia.
Qed.

Lemma header_field_set_frame page page_zip field val a :
  a <> PAGE_HEADER + field -> a <> PAGE_HEADER + field + 1 ->
  fst (page_header_set_field page page_zip field val) a = page a.
Proof.
  intros H1 H2. unfold page_header_set_field. cbn [fst].
  now apply write2_other.
Qed.

(** C6.  Heap allocation, for a page whose heap ends below the slot array:
    [page_mem_alloc_heap] returns a block, which is not [NULL], exactly
    when the free region between [heap_top] and the slot array has at
    least [need] bytes.  Then the block is the old [heap_top], [heap_top]
    has advanced by [need], the heap number returned is the old [n_heap],
    [n_heap] has grown by one, and nothing but these two fields of the
    header has changed.  Otherwise the result is [NULL] and the page is as
    it was. *)
Theorem page_mem_alloc_heap_spec page page_zip need :
  let top := page_header_get_field page PAGE_HEAP_TOP in
  let free := page_dir_get_nth_slot (page_dir_get_n_slots page - 1) - top in
  UNIV_PAGE_SIZE <= 65536 ->
  0 < top -> 0 <= free -> 0 <= need ->
  page_dir_get_n_heap page + 1 < 0x8000 ->
  (need <= free ->
   exists page' page_zip',
     page_mem_alloc_heap page page_zip need
     = (Some (top, page_dir_get_n_heap page), (page', page_zip'))
     /\ top <> NULL
     /\ page_header_get_field page' PAGE_HEAP_TOP = top + need
     /\ page_dir_get_n_heap page' = page_dir_get_n_heap page + 1
     /\ page_is_comp page' = page_is_comp page
     /\ forall a, a < PAGE_HEADER + PAGE_HEAP_TOP
                  \/ PAGE_HEADER + PAGE_N_HEAP + 2 <= a -> page' a = page a)
  /\ (free < need ->
      page_mem_alloc_heap page page_zip need = (None, (page, page_zip))).
Proof.
  intros top free Hups Htop Hfree Hneed Hheap.
  assert (Hslot : page_dir_get_nth_slot (page_dir_get_n_slots page - 1)
                  < UNIV_PAGE_SIZE).
  { pose proof (read2_range page (PAGE_HEADER + PAGE_N_DIR_SLOTS)) as Hr.
    unfold page_dir_get_nth_slot, page_dir_get_n_slots, page_header_get_field,
      PAGE_DIR, PAGE_DIR_SLOT_SIZE. lia. }
  unfold page_mem_alloc_heap, page_get_max_insert_size.
  fold top. fold free. rewrite Z.max_r by lia.
  split; intros Hcmp.
  - destruct (Z.leb_spec need free) as [_|]; [|lia].
    unfold page_header_get_ptr, page_header_get_offs. fold top.
    destruct (Z.eqb_spec top 0) as [|Hnz]; [lia|]. cbn [negb].
    unfold page_header_set_ptr.
    destruct (Z.eqb_spec (top + need) NULL) as [E|_]; [unfold NULL in E; lia|].
    destruct (page_header_set_field page page_zip PAGE_HEAP_TOP (top + need))
      as [page1 zip1] eqn:E1.
    assert (Hp1 : page1 = fst (page_header_set_field page page_zip
                                 PAGE_HEAP_TOP (top + need)))
      by now rewrite E1.
    assert (Hf1 : page_header_get_field page1 PAGE_N_HEAP
                  = page_header_get_field page PAGE_N_HEAP).
    { rewrite Hp1. apply header_field_set_other.
      unfold PAGE_HEAP_TOP, PAGE_N_HEAP. lia. }
    assert (Hh1 : page_dir_get_n_heap page1 = page_dir_get_n_heap page)
      by (unfold page_dir_get_n_heap; now rewrite Hf1).
    rewrite Hh1.
    unfold page_dir_set_n_heap. rewrite Hf1.
    set (f := page_header_get_field page PAGE_N_HEAP) in *.
    pose proof (read2_range page (PAGE_HEADER + PAGE_N_HEAP)) as Hfr.
    fold (page_header_get_field page PAGE_N_HEAP) in Hfr. fold f in Hfr.
    assert (Hn0 : 0 <= page_dir_get_n_heap page).
    { unfold page_dir_get_n_heap. fold f. change 0x7fff with (Z.ones 15).
      rewrite Z.land_ones by lia. apply Z.mod_pos_bound. reflexivity. }
    destruct (n_heap_word (1 + page_dir_get_n_heap page) f ltac:(lia) Hfr)
      as (W1 & W2 & W3).
    set (w := Z.lor (1 + page_dir_get_n_heap page) (Z.land 32768 f)) in *.
    destruct (page_header_set_field page1 zip1 PAGE_N_HEAP w)
      as [page2 zip2] eqn:E2.
    assert (Hp2 : page2 = fst (page_header_set_field page1 zip1 PAGE_N_HEAP w))
      by now rewrite E2.
    exists page2, zip2. split; [reflexivity|].
    split; [unfold NULL; lia|]. split; [|split; [|split]].
    + rewrite Hp2, header_field_set_other
        by (unfold PAGE_HEAP_TOP, PAGE_N_HEAP; lia).
      rewrite Hp1. apply header_field_set_same. lia.
    + unfold page_dir_get_n_heap at 1.
      rewrite Hp2, header_field_set_same by exact W1. rewrite W2. lia.
    + unfold page_is_comp.
      rewrite Hp2, header_field_set_same by exact W1. exact W3.
    + intros a Ha. unfold PAGE_HEADER, PAGE_HEAP_TOP, PAGE_N_HEAP in Ha.
      rewrite Hp2, header_field_set_frame
        by (unfold PAGE_HEADER, PAGE_N_HEAP; lia).
      rewrite Hp1. apply header_field_set_frame;
        unfold PAGE_HEADER, PAGE_HEAP_TOP; lia.
  - destruct (Z.leb_spec need free) as [|_]; [lia|]. reflexivity.
Qed.

(** *** Properties of the directory *)

Lemma memmove_in m dst src n a :
  dst <= a < dst + n -> memmove m dst src n a = m (a - dst + src).
Proof.
  intros H. unfold memmove.
  destruct (Z.leb_spec dst a); destruct (Z.ltb_spec a (dst + n)); simpl; auto; lia.
Qed.

Lemma memmove_out m dst src n a :
  a < dst \/ dst + n <= a -> memmove m dst src n a = m a.
Proof.
  intros H. unfold memmove.
  destruct (Z.leb_spec dst a); destruct (Z.ltb_spec a (dst + n)); simpl; auto; lia.
Qed.

Lemma memmove_in_read m dst src n a :
  dst <= a < dst + n ->
  mach_read_from_1 (memmove m dst src n) a = mach_read_from_1 m (a - dst + src).
Proof. intros H. unfold mach_read_from_1. now rewrite memmove_in. Qed.

(** The byte that holds [n_owned], and the field itself, in the format of
    the page. *)
Definition n_owned_addr (page : mem) (rec : Z) : Z :=
  rec - (if negb (page_is_comp page =? 0)
         then REC_NEW_N_OWNED else REC_OLD_N_OWNED).

Definition rec_get_n_owned (page : mem) (rec : Z) : Z :=
  if negb (page_is_comp page =? 0)
  then rec_get_n_owned_new page rec
  else rec_get_n_owned_old page rec.

(** A record of the heap: its header starts in the data area and the
    record lies below [heap_top]. *)
Definition rec_in_heap (page : mem) (rec : Z) : Prop :=
  PAGE_DATA <= n_owned_addr page rec
  /\ rec < page_header_get_field page PAGE_HEAP_TOP.

Lemma n_owned_field_set_same m rec v offs :
  0 <= v < 16 ->
  rec_get_bit_field_1
    (rec_set_bit_field_1 m rec v offs REC_N_OWNED_MASK REC_N_OWNED_SHIFT)
    rec offs REC_N_OWNED_MASK REC_N_OWNED_SHIFT = v.
Proof.
  intros Hv. unfold rec_get_bit_field_1, rec_set_bit_field_1,
    REC_N_OWNED_MASK, REC_N_OWNED_SHIFT.
  rewrite read1_write1_same, Z.shiftr_0_r.
  pose proof (read1_range m (rec - offs)) as Hr.
  set (x := mach_read_from_1 m (rec - offs)) in *. clearbody x.
  change (Z.lnot 0xF) with (Z.lnot (Z.shiftl (Z.ones 4) 0)).
  rewrite (land_lnot_mask x 0 4) by lia.
  rewrite (lor_field _ v 0 4); try lia.
  2:{ unfold fld. change (2 ^ 0) with 1. change (2 ^ 4) with 16.
      div_mod_eqs. lia. }
  change 0xF with (Z.ones 4). rewrite Z.land_ones by lia.
  unfold fld. change (2 ^ 0) with 1. change (2 ^ 4) with 16.
  div_mod_eqs. lia.
Qed.

Lemma page_is_comp_ext page page' :
  page' (PAGE_HEADER + PAGE_N_HEAP) = page (PAGE_HEADER + PAGE_N_HEAP) ->
  page' (PAGE_HEADER + PAGE_N_HEAP + 1) = page (PAGE_HEADER + PAGE_N_HEAP + 1) ->
  page_is_comp page' = page_is_comp page.
Proof.
  intros H1 H2. unfold page_is_comp, page_header_get_field.
  now rewrite (read2_ext page' page) by assumption.
Qed.

Lemma n_owned_addr_ext page page' rec :
  page_is_comp page' = page_is_comp page ->
  n_owned_addr page' rec = n_owned_addr page rec.
Proof. intros H. unfold n_owned_addr. now rewrite H. Qed.

Lemma rec_get_n_owned_ext page page' rec :
  page_is_comp page' = page_is_comp page ->
  page' (n_owned_addr page rec) = page (n_owned_addr page rec) ->
  rec_get_n_owned page' rec = rec_get_n_owned page rec.
Proof.
  intros Hc Ha. unfold rec_get_n_owned, n_owned_addr in *. rewrite Hc.
  unfold rec_get_n_owned_new, rec_get_n_owned_old, rec_get_bit_field_1.
  destruct (negb (page_is_comp page =? 0));
    now rewrite (read1_ext page' page) by assumption.
Qed.

Lemma slot_get_n_owned_eq page slot :
  page_dir_slot_get_n_owned page slot
  = rec_get_n_owned page (page_dir_slot_get_rec page slot).
Proof. reflexivity. Qed.

(** What [page_dir_slot_set_n_owned] does to the frame. *)
Lemma slot_set_n_owned_spec page page_zip slot n :
  let rec := page_dir_slot_get_rec page slot in
  let page' := fst (page_dir_slot_set_n_owned page page_zip slot n) in
  0 <= n < 16 ->
  PAGE_DATA <= n_owned_addr page rec ->
  (forall a, a <> n_owned_addr page rec -> page' a = page a)
  /\ page_is_comp page' = page_is_comp page
  /\ rec_get_n_owned page' rec = n.
Proof.
  intros rec page' Hn Ha.
  assert (Hfr : forall a, a <> n_owned_addr page rec -> page' a = page a).
  { intros a Hne. subst page'. unfold page_dir_slot_set_n_owned, n_owned_addr in *.
    fold rec.
    destruct (negb (page_is_comp page =? 0)); cbn [fst];
      unfold rec_set_n_owned_new, rec_set_n_owned_old, rec_set_bit_field_1;
      cbn [fst]; now apply write1_other. }
  assert (Hc : page_is_comp page' = page_is_comp page).
  { apply page_is_comp_ext; apply Hfr;
      unfold PAGE_DATA, PAGE_HEADER, PAGE_N_HEAP in *; lia. }
  split; [exact Hfr|]. split; [exact Hc|].
  unfold rec_get_n_owned. rewrite Hc.
  subst page'. unfold page_dir_slot_set_n_owned. fold rec.
  destruct (negb (page_is_comp page =? 0)); cbn [fst].
  - unfold rec_set_n_owned_new, rec_get_n_owned_new. cbn [fst].
    now apply n_owned_field_set_same.
  - unfold rec_set_n_owned_old, rec_get_n_owned_old.
    now apply n_owned_field_set_same.
Qed.

Lemma slot_rec_ext page page' slot :
  page' slot = page slot -> page' (slot + 1) = page (slot + 1) ->
  page_dir_slot_get_rec page' slot = page_dir_slot_get_rec page slot.
Proof. intros H1 H2. unfold page_dir_slot_get_rec. now apply read2_ext. Qed.

Lemma n_slots_ext page page' :
  page' (PAGE_HEADER + PAGE_N_DIR_SLOTS) = page (PAGE_HEADER + PAGE_N_DIR_SLOTS) ->
  page' (PAGE_HEADER + PAGE_N_DIR_SLOTS + 1)
  = page (PAGE_HEADER + PAGE_N_DIR_SLOTS + 1) ->
  page_dir_get_n_slots page' = page_dir_get_n_slots page.
Proof.
  intros H1 H2. unfold page_dir_get_n_slots, page_header_get_field.
  now apply read2_ext.
Qed.

(** What [page_dir_add_slot] does to the frame. *)
Lemma page_dir_add_slot_spec page page_zip start :
  let n_slots := page_dir_get_n_slots page in
  let page' := fst (page_dir_add_slot page page_zip start) in
  0 <= start < n_slots - 1 ->
  PAGE_DATA <= page_dir_get_nth_slot n_slots ->
  UNIV_PAGE_SIZE <= 65536 ->
  page_dir_get_n_slots page' = n_slots + 1
  /\ (forall j, start + 1 <= j < n_slots ->
        page_dir_slot_get_rec page' (page_dir_get_nth_slot (j + 1))
        = page_dir_slot_get_rec page (page_dir_get_nth_slot j))
  /\ (forall a, a < PAGE_HEADER + PAGE_N_DIR_SLOTS
                \/ PAGE_HEADER + PAGE_N_DIR_SLOTS + 2 <= a
                   < page_dir_get_nth_slot n_slots
                \/ page_dir_get_nth_slot (start + 1) <= a ->
        page' a = page a).
Proof.
  intros n_slots page' Hs Hlow Hups.
  unfold page_dir_get_nth_slot, PAGE_DATA, PAGE_HEADER, PAGE_DIR,
    PAGE_DIR_SLOT_SIZE, PAGE_N_DIR_SLOTS in *.
  assert (Hp : page' = memmove (mach_write_to_2 page 38 (n_slots + 1))
                         (UNIV_PAGE_SIZE - 8 - (n_slots + 1) * 2)
                         (UNIV_PAGE_SIZE - 8 - (n_slots + 1) * 2 + 2)
                         ((n_slots - 1 - start) * 2)).
  { subst page'. unfold page_dir_add_slot, page_dir_set_n_slots,
      page_header_set_field, page_dir_get_nth_slot, PAGE_HEADER, PAGE_DIR,
      PAGE_DIR_SLOT_SIZE, PAGE_N_DIR_SLOTS. fold n_slots.
    destruct page_zip; reflexivity. }
  rewrite Hp. clear Hp. split; [|split].
  - unfold page_dir_get_n_slots, page_header_get_field, PAGE_HEADER,
      PAGE_N_DIR_SLOTS.
    rewrite (read2_ext _ (mach_write_to_2 page 38 (n_slots + 1)))
      by (apply memmove_out; lia).
    rewrite read2_write2_same. apply Z.mod_small. lia.
  - intros j Hj. unfold page_dir_slot_get_rec.
    rewrite !read2_eq.
    rewrite !memmove_in_read by lia.
    rewrite !(read1_write2_other _ _ 38) by lia.
    f_equal; [f_equal|]; f_equal; lia.
  - intros a Ha. rewrite memmove_out by lia. apply write2_other; lia.
Qed.

Lemma slot_set_rec_same page slot rec :
  0 <= rec < 65536 ->
  page_dir_slot_get_rec (page_dir_slot_set_rec page slot rec) slot = rec.
Proof.
  intros H. unfold page_dir_slot_get_rec, page_dir_slot_set_rec.
  rewrite read2_write2_same. now apply Z.mod_small.
Qed.

Lemma slot_set_rec_frame page slot rec a :
  a <> slot -> a <> slot + 1 -> page_dir_slot_set_rec page slot rec a = page a.
Proof. intros. unfold page_dir_slot_set_rec. now apply write2_other. Qed.

(** C4.  Directory slot split, on a page whose heap leaves room for one
    more slot: when the record of slot [slot_no > 0] owns
    [PAGE_DIR_SLOT_MAX_N_OWNED + 1] records, [page_dir_split_slot] adds a
    slot between [slot_no - 1] and [slot_no].  The new slot, number
    [slot_no], points at the record [rec] reached in [n_owned / 2] steps
    along the list from the record of slot [slot_no - 1], and owns
    [n_owned / 2] records; the old slot, now number [slot_no + 1], owns the
    [n_owned - n_owned / 2] others; the slots below are as they were, every
    slot from [slot_no] on has moved up by one, [n_dir_slots] has grown by
    one, and neither of the two slots owns more than
    [PAGE_DIR_SLOT_MAX_N_OWNED] records.  Outside [n_dir_slots], the
    directory and the [n_owned] fields of the two records the page is as
    it was. *)
Theorem page_dir_split_slot_spec page page_zip slot_no rec :
  let n_slots := page_dir_get_n_slots page in
  let slot_rec := fun j => page_dir_slot_get_rec page (page_dir_get_nth_slot j) in
  let n_owned := page_dir_slot_get_n_owned page (page_dir_get_nth_slot slot_no) in
  UNIV_PAGE_SIZE <= 65536 ->
  0 < slot_no < n_slots ->
  n_owned = PAGE_DIR_SLOT_MAX_N_OWNED + 1 ->
  page_header_get_field page PAGE_HEAP_TOP <= page_dir_get_nth_slot n_slots ->
  page_rec_get_next_times page (slot_rec (slot_no - 1)) (Z.to_nat (n_owned / 2))
  = Some rec ->
  rec_in_heap page rec ->
  rec_in_heap page (slot_rec slot_no) ->
  rec <> slot_rec slot_no ->
  exists page' page_zip',
    page_dir_split_slot page page_zip slot_no = Some (page', page_zip')
    /\ page_dir_get_n_slots page' = n_slots + 1
    /\ (forall j, 0 <= j < slot_no ->
          page_dir_slot_get_rec page' (page_dir_get_nth_slot j) = slot_rec j)
    /\ page_dir_slot_get_rec page' (page_dir_get_nth_slot slot_no) = rec
    /\ (forall j, slot_no <= j < n_slots ->
          page_dir_slot_get_rec page' (page_dir_get_nth_slot (j + 1))
          = slot_rec j)
    /\ page_dir_slot_get_n_owned page' (page_dir_get_nth_slot slot_no)
       = n_owned / 2
    /\ page_dir_slot_get_n_owned page' (page_dir_get_nth_slot (slot_no + 1))
       = n_owned - n_owned / 2
    /\ n_owned / 2 <= PAGE_DIR_SLOT_MAX_N_OWNED
    /\ n_owned - n_owned / 2 <= PAGE_DIR_SLOT_MAX_N_OWNED
    /\ forall a,
         a <> PAGE_HEADER + PAGE_N_DIR_SLOTS ->
         a <> PAGE_HEADER + PAGE_N_DIR_SLOTS + 1 ->
         a < page_dir_get_nth_slot n_slots
         \/ page_dir_get_nth_slot (slot_no - 1) <= a ->
         a <> n_owned_addr page rec ->
         a <> n_owned_addr page (slot_rec slot_no) ->
         page' a = page a.
Proof.
  intros n_slots slot_rec n_owned Hups Hk Hn Hroom Hwalk [Hr1 Hr2] [Ho1 Ho2] Hne.
  set (owner := slot_rec slot_no) in *.
  unfold page_dir_split_slot. fold n_owned. fold (slot_rec (slot_no - 1)).
  rewrite Hwalk. rewrite Hn.
  change ((PAGE_DIR_SLOT_MAX_N_OWNED + 1) / 2) with 4.
  change (PAGE_DIR_SLOT_MAX_N_OWNED + 1 - 4) with 5.
  change PAGE_DIR_SLOT_MAX_N_OWNED with 8.
  (* the addresses *)
  set (ra := n_owned_addr page rec) in *.
  set (oa := n_owned_addr page owner) in *.
  set (top := page_header_get_field page PAGE_HEAP_TOP) in *.
  assert (Hra : ra < rec /\ rec <= ra + 6).
  { subst ra. unfold n_owned_addr, REC_NEW_N_OWNED, REC_OLD_N_OWNED.
    destruct (negb (page_is_comp page =? 0)); lia. }
  assert (Hoa : oa < owner /\ owner <= oa + 6).
  { subst oa. unfold n_owned_addr, REC_NEW_N_OWNED, REC_OLD_N_OWNED.
    destruct (negb (page_is_comp page =? 0)); lia. }
  assert (Hrao : ra <> oa).
  { subst ra oa. unfold n_owned_addr.
    destruct (negb (page_is_comp page =? 0)); lia. }
  pose proof (read2_range page (PAGE_HEADER + PAGE_N_DIR_SLOTS)) as Hns.
  fold (page_header_get_field page PAGE_N_DIR_SLOTS) in Hns.
  fold (page_dir_get_n_slots page) in Hns. fold n_slots in Hns.
  (* 2. the slot added *)
  assert (Hlow : PAGE_DATA <= page_dir_get_nth_slot n_slots) by lia.
  destruct (page_dir_add_slot_spec page page_zip (slot_no - 1) ltac:(lia)
              Hlow Hups) as (A1 & A2 & A3).
  fold n_slots in A1, A2, A3.
  destruct (page_dir_add_slot page page_zip (slot_no - 1)) as [p1 z1].
  cbn [fst] in A1, A2, A3.
  unfold page_dir_get_nth_slot, PAGE_DATA, PAGE_HEADER, PAGE_DIR,
    PAGE_DIR_SLOT_SIZE, PAGE_N_DIR_SLOTS, PAGE_N_HEAP in *.
  assert (Hc1 : page_is_comp p1 = page_is_comp page).
  { apply page_is_comp_ext; apply A3; unfold PAGE_HEADER, PAGE_N_HEAP; lia. }
  (* 3. the record of the new slot *)
  set (ns := UNIV_PAGE_SIZE - 8 - (slot_no + 1) * 2) in *.
  set (p2 := page_dir_slot_set_rec p1 ns rec).
  assert (Hc2 : page_is_comp p2 = page_is_comp page).
  { rewrite <- Hc1. apply page_is_comp_ext; apply slot_set_rec_frame;
      unfold PAGE_HEADER, PAGE_N_HEAP; lia. }
  assert (Hrec2 : page_dir_slot_get_rec p2 ns = rec)
    by (apply slot_set_rec_same; lia).
  destruct (slot_set_n_owned_spec p2 z1 ns 4 ltac:(lia)) as (B1 & B2 & B3).
  { rewrite Hrec2, (n_owned_addr_ext page p2) by exact Hc2. exact Hr1. }
  rewrite Hrec2, (n_owned_addr_ext page p2) in B1 by exact Hc2.
  rewrite Hrec2 in B3. fold ra in B1.
  destruct (page_dir_slot_set_n_owned p2 z1 ns 4) as [p3 z3].
  cbn [fst] in B1, B2, B3.
  (* 4. the old slot *)
  set (os := UNIV_PAGE_SIZE - 8 - (slot_no + 1 + 1) * 2) in *.
  assert (Hrec3 : page_dir_slot_get_rec p3 os = owner).
  { rewrite (slot_rec_ext p2 p3) by (apply B1; lia).
    unfold p2. rewrite (slot_rec_ext p1) by (apply slot_set_rec_frame; lia).
    subst os. rewrite (A2 slot_no) by lia. reflexivity. }
  assert (Hc3 : page_is_comp p3 = page_is_comp page) by congruence.
  destruct (slot_set_n_owned_spec p3 z3 os 5 ltac:(lia)) as (C1 & C2 & C3).
  { rewrite Hrec3, (n_owned_addr_ext page p3) by exact Hc3. exact Ho1. }
  rewrite Hrec3, (n_owned_addr_ext page p3) in C1 by exact Hc3.
  rewrite Hrec3 in C3. fold oa in C1.
  destruct (page_dir_slot_set_n_owned p3 z3 os 5) as [p4 z4].
  cbn [fst] in C1, C2, C3.
  assert (Hc4 : page_is_comp p4 = page_is_comp page) by congruence.
  (* the frame, from the page before to the page after *)
  assert (F : forall a, a <> ra -> a <> oa -> a <> ns -> a <> ns + 1 ->
                        p4 a = p1 a).
  { intros a H1 H2 H3 H4. rewrite C1, B1 by assumption.
    now apply slot_set_rec_frame. }
  exists p4, z4. split; [reflexivity|].
  split; [|split; [|split; [|split; [|split; [|split]]]]].
  - rewrite (n_slots_ext p1 p4) by (apply F; unfold PAGE_HEADER,
      PAGE_N_DIR_SLOTS; lia). exact A1.
  - intros j Hj.
    rewrite (slot_rec_ext p1 p4) by (apply F; lia).
    apply slot_rec_ext; apply A3; lia.
  - rewrite (slot_rec_ext p2 p4) by (rewrite C1, B1 by lia; reflexivity).
    exact Hrec2.
  - intros j Hj.
    rewrite (slot_rec_ext p1 p4) by (apply F; lia).
    apply A2. lia.
  - rewrite slot_get_n_owned_eq.
    rewrite (slot_rec_ext p2 p4) by (rewrite C1, B1 by lia; reflexivity).
    fold ns. rewrite Hrec2.
    rewrite (rec_get_n_owned_ext p3 p4); [exact B3 | congruence |].
    rewrite (n_owned_addr_ext page p3) by exact Hc3. fold ra.
    apply C1. exact Hrao.
  - rewrite slot_get_n_owned_eq.
    replace (UNIV_PAGE_SIZE - 8 - (slot_no + 1 + 1) * 2) with os by reflexivity.
    rewrite (slot_rec_ext p3 p4) by (apply C1; lia).
    rewrite Hrec3. exact C3.
  - split; [lia|]. split; [lia|].
    intros a H38 H39 Hdir Har Hao.
    destruct (Z.eq_dec a ns) as [->|Hns1]; [lia|].
    destruct (Z.eq_dec a (ns + 1)) as [->|Hns2]; [lia|].
    rewrite F by assumption. apply A3. lia.
Qed.

(** [rec_set_n_owned_new] or [rec_set_n_owned_old], by the format of the
    page. *)
Definition rec_set_n_owned (page : mem) (page_zip : option zip_t)
    (rec n : Z) : mem * option zip_t :=
  if negb (page_is_comp page =? 0)
  then rec_set_n_owned_new page page_zip rec n
  else (rec_set_n_owned_old page rec n, page_zip).

Lemma rec_set_n_owned_spec page page_zip rec n :
  let page' := fst (rec_set_n_owned page page_zip rec n) in
  0 <= n < 16 ->
  PAGE_DATA <= n_owned_addr page rec ->
  (forall a, a <> n_owned_addr page rec -> page' a = page a)
  /\ page_is_comp page' = page_is_comp page
  /\ rec_get_n_owned page' rec = n.
Proof.
  intros page' Hn Ha.
  assert (Hfr : forall a, a <> n_owned_addr page rec -> page' a = page a).
  { intros a Hne. subst page'. unfold rec_set_n_owned, n_owned_addr in *.
    destruct (negb (page_is_comp page =? 0)); cbn [fst];
      unfold rec_set_n_owned_new, rec_set_n_owned_old, rec_set_bit_field_1;
      cbn [fst]; now apply write1_other. }
  assert (Hc : page_is_comp page' = page_is_comp page).
  { apply page_is_comp_ext; apply Hfr;
      unfold PAGE_DATA, PAGE_HEADER, PAGE_N_HEAP in *; lia. }
  split; [exact Hfr|]. split; [exact Hc|].
  unfold rec_get_n_owned. rewrite Hc.
  subst page'. unfold rec_set_n_owned.
  destruct (negb (page_is_comp page =? 0)); cbn [fst].
  - unfold rec_set_n_owned_new, rec_get_n_owned_new. cbn [fst].
    now apply n_owned_field_set_same.
  - unfold rec_set_n_owned_old, rec_get_n_owned_old.
    now apply n_owned_field_set_same.
Qed.

Lemma rec_get_n_owned_range page rec : 0 <= rec_get_n_owned page rec < 16.
Proof.
  unfold rec_get_n_owned, rec_get_n_owned_new, rec_get_n_owned_old,
    rec_get_bit_field_1, REC_N_OWNED_MASK, REC_N_OWNED_SHIFT.
  destruct (negb (page_is_comp page =? 0)); rewrite Z.shiftr_0_r;
    change 0xF with (Z.ones 4); rewrite Z.land_ones by lia;
    apply Z.mod_pos_bound; reflexivity.
Qed.

(** What the loop of [page_dir_delete_slot] leaves in the directory. *)
Lemma page_dir_copy_slots_down_spec count : forall page i,
  let page' := page_dir_copy_slots_down page i count in
  (forall j, i - 1 <= j < i - 1 + Z.of_nat count ->
     page_dir_slot_get_rec page' (page_dir_get_nth_slot j)
     = page_dir_slot_get_rec page (page_dir_get_nth_slot (j + 1)))
  /\ (forall a, a < page_dir_get_nth_slot (i - 2 + Z.of_nat count)
                \/ page_dir_get_nth_slot (i - 1) + 2 <= a ->
        page' a = page a).
Proof.
  unfold page_dir_get_nth_slot, PAGE_DIR, PAGE_DIR_SLOT_SIZE.
  induction count as [|count IH]; intros page i.
  - cbn [page_dir_copy_slots_down].
    split; [intros j Hj; lia | reflexivity].
  - cbn [page_dir_copy_slots_down].
    unfold page_dir_get_nth_slot, PAGE_DIR, PAGE_DIR_SLOT_SIZE.
    set (r := page_dir_slot_get_rec page (UNIV_PAGE_SIZE - 8 - (i + 1) * 2)).
    set (p1 := page_dir_slot_set_rec page
                 (UNIV_PAGE_SIZE - 8 - (i - 1 + 1) * 2) r).
    destruct (IH p1 (i + 1)) as [I1 I2].
    assert (Hr : 0 <= r < 65536) by apply read2_range.
    split.
    + intros j Hj. destruct (Z.eq_dec j (i - 1)) as [->|Hne].
      * rewrite (slot_rec_ext p1) by (apply I2; lia).
        unfold p1. rewrite slot_set_rec_same by exact Hr.
        subst r. f_equal. lia.
      * rewrite I1 by lia.
        apply slot_rec_ext; apply slot_set_rec_frame; lia.
    + intros a Ha. rewrite I2 by lia. apply slot_set_rec_frame; lia.
Qed.

(** What [page_dir_delete_slot] does to the page. *)
Lemma page_dir_delete_slot_spec page page_zip slot_no :
  let n_slots := page_dir_get_n_slots page in
  let slot_rec := fun j => page_dir_slot_get_rec page (page_dir_get_nth_slot j) in
  let old_rec := slot_rec slot_no in
  let up_rec := slot_rec (slot_no + 1) in
  let page' := fst (page_dir_delete_slot page page_zip slot_no) in
  UNIV_PAGE_SIZE <= 65536 ->
  0 < slot_no -> slot_no + 1 < n_slots ->
  page_header_get_field page PAGE_HEAP_TOP
  <= page_dir_get_nth_slot (n_slots - 1) ->
  rec_in_heap page old_rec -> rec_in_heap page up_rec -> old_rec <> up_rec ->
  rec_get_n_owned page old_rec + rec_get_n_owned page up_rec < 16 ->
  page_dir_get_n_slots page' = n_slots - 1
  /\ (forall j, 0 <= j < slot_no ->
        page_dir_slot_get_rec page' (page_dir_get_nth_slot j) = slot_rec j)
  /\ (forall j, slot_no <= j < n_slots - 1 ->
        page_dir_slot_get_rec page' (page_dir_get_nth_slot j)
        = slot_rec (j + 1))
  /\ page_dir_slot_get_rec page' (page_dir_get_nth_slot (n_slots - 1)) = 0
  /\ rec_get_n_owned page' old_rec = 0
  /\ rec_get_n_owned page' up_rec
     = rec_get_n_owned page old_rec + rec_get_n_owned page up_rec
  /\ forall a,
       a <> PAGE_HEADER + PAGE_N_DIR_SLOTS ->
       a <> PAGE_HEADER + PAGE_N_DIR_SLOTS + 1 ->
       a < page_dir_get_nth_slot (n_slots - 1)
       \/ page_dir_get_nth_slot (slot_no - 1) <= a ->
       a <> n_owned_addr page old_rec ->
       a <> n_owned_addr page up_rec ->
       page' a = page a.
Proof.
  intros n_slots slot_rec old_rec up_rec page' Hups Hk0 Hk Hroom
    [Ho1 Ho2] [Hu1 Hu2] Hne Hsum.
  pose proof (rec_get_n_owned_range page old_rec) as Hno.
  pose proof (rec_get_n_owned_range page up_rec) as Hnu.
  set (oa := n_owned_addr page old_rec) in *.
  set (ua := n_owned_addr page up_rec) in *.
  set (top := page_header_get_field page PAGE_HEAP_TOP) in *.
  assert (Hoa : oa < old_rec /\ old_rec <= oa + 6).
  { subst oa. unfold n_owned_addr, REC_NEW_N_OWNED, REC_OLD_N_OWNED.
    destruct (negb (page_is_comp page =? 0)); lia. }
  assert (Hua : ua < up_rec /\ up_rec <= ua + 6).
  { subst ua. unfold n_owned_addr, REC_NEW_N_OWNED, REC_OLD_N_OWNED.
    destruct (negb (page_is_comp page =? 0)); lia. }
  assert (Houa : oa <> ua).
  { subst oa ua. unfold n_owned_addr.
    destruct (negb (page_is_comp page =? 0)); lia. }
  pose proof (read2_range page (PAGE_HEADER + PAGE_N_DIR_SLOTS)) as Hns.
  fold (page_header_get_field page PAGE_N_DIR_SLOTS) in Hns.
  fold (page_dir_get_n_slots page) in Hns. fold n_slots in Hns.
  subst page'. unfold page_dir_delete_slot. fold n_slots.
  rewrite slot_get_n_owned_eq. fold (slot_rec slot_no). fold old_rec.
  (* 1. *)
  destruct (slot_set_n_owned_spec page page_zip
              (page_dir_get_nth_slot slot_no) 0 ltac:(lia) Ho1)
    as (B1 & B2 & B3).
  fold (slot_rec slot_no) in B1, B3. fold old_rec in B1, B3. fold oa in B1.
  destruct (page_dir_slot_set_n_owned page page_zip
              (page_dir_get_nth_slot slot_no) 0) as [p1 z1].
  cbn [fst] in B1, B2, B3.
  unfold page_dir_get_nth_slot, PAGE_DATA, PAGE_HEADER, PAGE_DIR,
    PAGE_DIR_SLOT_SIZE, PAGE_N_DIR_SLOTS, PAGE_N_HEAP in *.
  (* 2. *)
  set (us := UNIV_PAGE_SIZE - 8 - (slot_no + 1 + 1) * 2) in *.
  assert (Hrec1 : page_dir_slot_get_rec p1 us = up_rec)
    by (apply slot_rec_ext; apply B1; lia).
  rewrite slot_get_n_owned_eq, Hrec1.
  assert (Hn1 : rec_get_n_owned p1 up_rec = rec_get_n_owned page up_rec).
  { apply rec_get_n_owned_ext; [exact B2|]. fold ua. apply B1. lia. }
  rewrite Hn1.
  set (tot := rec_get_n_owned page old_rec + rec_get_n_owned page up_rec) in *.
  destruct (slot_set_n_owned_spec p1 z1 us tot ltac:(lia)) as (C1 & C2 & C3).
  { rewrite Hrec1, (n_owned_addr_ext page p1) by exact B2. exact Hu1. }
  rewrite Hrec1, (n_owned_addr_ext page p1) in C1 by exact B2.
  rewrite Hrec1 in C3. fold ua in C1.
  destruct (page_dir_slot_set_n_owned p1 z1 us tot) as [p2 z2].
  cbn [fst] in C1, C2, C3.
  (* 3. *)
  destruct (page_dir_copy_slots_down_spec
              (Z.to_nat (n_slots - (slot_no + 1))) p2 (slot_no + 1))
    as [D1 D2].
  set (p3 := page_dir_copy_slots_down p2 (slot_no + 1)
               (Z.to_nat (n_slots - (slot_no + 1)))) in *.
  unfold page_dir_get_nth_slot, PAGE_DIR, PAGE_DIR_SLOT_SIZE in D1, D2.
  rewrite Z2Nat.id in D1, D2 by lia.
  (* 4. and 5. *)
  set (ls := UNIV_PAGE_SIZE - 8 - (n_slots - 1 + 1) * 2) in *.
  set (p4 := mach_write_to_2 p3 ls 0).
  assert (E5 : fst (page_header_set_field p4 z2 0 (n_slots - 1))
               = mach_write_to_2 p4 38 (n_slots - 1)) by reflexivity.
  rewrite E5. clear E5.
  set (p5 := mach_write_to_2 p4 38 (n_slots - 1)).
  assert (F45 : forall a, a <> 38 -> a <> 39 -> p5 a = p4 a)
    by (intros; apply write2_other; lia).
  assert (F34 : forall a, a <> ls -> a <> ls + 1 -> p4 a = p3 a)
    by (intros; apply write2_other; lia).
  assert (F02 : forall a, a <> oa -> a <> ua -> p2 a = page a)
    by (intros; rewrite C1, B1 by assumption; reflexivity).
  assert (Hslot02 : forall j, 0 <= j < n_slots ->
            page_dir_slot_get_rec p2 (UNIV_PAGE_SIZE - 8 - (j + 1) * 2)
            = slot_rec j).
  { intros j Hj. apply slot_rec_ext; apply F02; lia. }
  assert (Hc5 : page_is_comp p5 = page_is_comp page).
  { rewrite <- B2, <- C2. apply page_is_comp_ext;
      unfold PAGE_HEADER, PAGE_N_HEAP;
      rewrite F45, F34, D2 by lia; reflexivity. }
  split; [|split; [|split; [|split; [|split; [|split]]]]].
  - unfold page_dir_get_n_slots, page_header_get_field, PAGE_HEADER,
      PAGE_N_DIR_SLOTS. unfold p5.
    rewrite read2_write2_same. apply Z.mod_small. lia.
  - intros j Hj. rewrite <- Hslot02 by lia.
    apply slot_rec_ext; rewrite F45, F34, D2 by lia; reflexivity.
  - intros j Hj. rewrite <- Hslot02 by lia. rewrite <- D1 by lia.
    apply slot_rec_ext; rewrite F45, F34 by lia; reflexivity.
  - rewrite (slot_rec_ext p4 p5) by (apply F45; lia).
    unfold page_dir_slot_get_rec, p4. fold ls. now rewrite read2_write2_same.
  - rewrite (rec_get_n_owned_ext p1 p5); [exact B3 | congruence |].
    rewrite (n_owned_addr_ext page p1) by exact B2. fold oa.
    rewrite F45, F34, D2, C1 by lia. reflexivity.
  - rewrite (rec_get_n_owned_ext p2 p5); [exact C3 | congruence |].
    rewrite (n_owned_addr_ext page p2) by congruence. fold ua.
    rewrite F45, F34, D2 by lia. reflexivity.
  - intros a H38 H39 Hdir Ha1 Ha2.
    rewrite F45, F34, D2 by lia. now apply F02.
Qed.

(** C5.  Directory slot balance, on a page whose records lie in the heap
    below the directory: let the record of slot [slot_no > 0] own
    [PAGE_DIR_SLOT_MIN_N_OWNED - 1] records.  When the slot is the last one,
    [page_dir_balance_slot] changes nothing.  Otherwise, when the upper
    slot owns more than [PAGE_DIR_SLOT_MIN_N_OWNED] records, one record
    changes hands: slot [slot_no] points at the next record of the list,
    which owns [PAGE_DIR_SLOT_MIN_N_OWNED] records, the former owner owns
    none, the upper slot owns one less, and the number of slots is the
    same.  Otherwise slot [slot_no] is deleted: its record owns no record
    any more, the record of the upper slot owns the records of both, every
    later slot has moved down by one, and [n_dir_slots] is one less. *)
Theorem page_dir_balance_slot_spec page page_zip slot_no :
  let n_slots := page_dir_get_n_slots page in
  let slot_rec := fun j => page_dir_slot_get_rec page (page_dir_get_nth_slot j) in
  let old_rec := slot_rec slot_no in
  let up_rec := slot_rec (slot_no + 1) in
  let new_rec := rec_get_next_ptr page old_rec (negb (page_is_comp page =? 0)) in
  let n_owned := rec_get_n_owned page old_rec in
  let up_n_owned := rec_get_n_owned page up_rec in
  let after := page_dir_balance_slot page page_zip slot_no in
  UNIV_PAGE_SIZE <= 65536 ->
  0 < slot_no < n_slots ->
  n_owned = PAGE_DIR_SLOT_MIN_N_OWNED - 1 ->
  page_header_get_field page PAGE_HEAP_TOP
  <= page_dir_get_nth_slot (n_slots - 1) ->
  (slot_no = n_slots - 1 -> after = (page, page_zip))
  /\ (slot_no < n_slots - 1 ->
      rec_in_heap page old_rec -> rec_in_heap page up_rec ->
      old_rec <> up_rec ->
      (PAGE_DIR_SLOT_MIN_N_OWNED < up_n_owned ->
       rec_in_heap page new_rec -> new_rec <> old_rec -> new_rec <> up_rec ->
       page_dir_slot_get_rec (fst after) (page_dir_get_nth_slot slot_no)
       = new_rec
       /\ rec_get_n_owned (fst after) old_rec = 0
       /\ rec_get_n_owned (fst after) new_rec = PAGE_DIR_SLOT_MIN_N_OWNED
       /\ rec_get_n_owned (fst after) up_rec = up_n_owned - 1
       /\ page_dir_get_n_slots (fst after) = n_slots
       /\ (forall j, 0 <= j < n_slots -> j <> slot_no ->
             page_dir_slot_get_rec (fst after) (page_dir_get_nth_slot j)
             = slot_rec j)
       /\ forall a,
            a <> page_dir_get_nth_slot slot_no ->
            a <> page_dir_get_nth_slot slot_no + 1 ->
            a <> n_owned_addr page old_rec ->
            a <> n_owned_addr page new_rec ->
            a <> n_owned_addr page up_rec ->
            fst after a = page a)
      /\ (up_n_owned <= PAGE_DIR_SLOT_MIN_N_OWNED ->
          page_dir_get_n_slots (fst after) = n_slots - 1
          /\ (forall j, 0 <= j < slot_no ->
                page_dir_slot_get_rec (fst after) (page_dir_get_nth_slot j)
                = slot_rec j)
          /\ (forall j, slot_no <= j < n_slots - 1 ->
                page_dir_slot_get_rec (fst after) (page_dir_get_nth_slot j)
                = slot_rec (j + 1))
          /\ rec_get_n_owned (fst after) old_rec = 0
          /\ rec_get_n_owned (fst after) up_rec = n_owned + up_n_owned
          /\ forall a,
               a <> PAGE_HEADER + PAGE_N_DIR_SLOTS ->
               a <> PAGE_HEADER + PAGE_N_DIR_SLOTS + 1 ->
               a < page_dir_get_nth_slot (n_slots - 1)
               \/ page_dir_get_nth_slot (slot_no - 1) <= a ->
               a <> n_owned_addr page old_rec ->
               a <> n_owned_addr page up_rec ->
               fst after a = page a)).
Proof.
  intros n_slots slot_rec old_rec up_rec new_rec n_owned up_n_owned after
    Hups Hk Hn Hroom.
  assert (Hafter :
            after
            = if slot_no =? n_slots - 1 then (page, page_zip)
              else if PAGE_DIR_SLOT_MIN_N_OWNED <? up_n_owned
              then
                let r1 := rec_set_n_owned page page_zip old_rec 0 in
                let r2 := if negb (page_is_comp page =? 0)
                          then rec_set_n_owned_new (fst r1) (snd r1) new_rec
                                 (n_owned + 1)
                          else (rec_set_n_owned_old (fst r1) new_rec
                                  (n_owned + 1), snd r1) in
                page_dir_slot_set_n_owned
                  (page_dir_slot_set_rec (fst r2)
                     (page_dir_get_nth_slot slot_no) new_rec)
                  (snd r2) (page_dir_get_nth_slot (slot_no + 1))
                  (up_n_owned - 1)
              else page_dir_delete_slot page page_zip slot_no).
  { subst after. unfold page_dir_balance_slot. fold n_slots.
    rewrite !slot_get_n_owned_eq.
    fold (slot_rec slot_no) (slot_rec (slot_no + 1)).
    fold old_rec up_rec. fold n_owned up_n_owned.
    destruct (slot_no =? n_slots - 1); [reflexivity|].
    destruct (PAGE_DIR_SLOT_MIN_N_OWNED <? up_n_owned); [|reflexivity].
    unfold rec_set_n_owned. subst new_rec.
    destruct (negb (page_is_comp page =? 0)); cbv zeta.
    - destruct (rec_set_n_owned_new page page_zip old_rec 0); reflexivity.
    - reflexivity. }
  rewrite Hafter. clear Hafter. clearbody after. clear after.
  split.
  - intros ->. now rewrite Z.eqb_refl.
  - intros Hlast Hold Hup Hne.
    destruct (Z.eqb_spec slot_no (n_slots - 1)) as [|_]; [lia|].
    split.
    + (* one record changes hands *)
      intros Hgt [Hw1 Hw2] Hno Hnu.
      destruct Hold as [Ho1 Ho2]. destruct Hup as [Hu1 Hu2].
      destruct (Z.ltb_spec PAGE_DIR_SLOT_MIN_N_OWNED up_n_owned) as [_|]; [|lia].
      pose proof (rec_get_n_owned_range page up_rec) as Hur.
      fold up_n_owned in Hur.
      set (oa := n_owned_addr page old_rec) in *.
      set (wa := n_owned_addr page new_rec) in *.
      set (ua := n_owned_addr page up_rec) in *.
      set (top := page_header_get_field page PAGE_HEAP_TOP) in *.
      assert (Hoa : oa < old_rec /\ old_rec <= oa + 6).
      { subst oa. unfold n_owned_addr, REC_NEW_N_OWNED, REC_OLD_N_OWNED.
        destruct (negb (page_is_comp page =? 0)); lia. }
      assert (Hwa : wa < new_rec /\ new_rec <= wa + 6).
      { subst wa. unfold n_owned_addr, REC_NEW_N_OWNED, REC_OLD_N_OWNED.
        destruct (negb (page_is_comp page =? 0)); lia. }
      assert (Hua : ua < up_rec /\ up_rec <= ua + 6).
      { subst ua. unfold n_owned_addr, REC_NEW_N_OWNED, REC_OLD_N_OWNED.
        destruct (negb (page_is_comp page =? 0)); lia. }
      assert (Hd : oa <> wa /\ wa <> ua /\ oa <> ua).
      { subst oa wa ua. unfold n_owned_addr.
        destruct (negb (page_is_comp page =? 0)); lia. }
      destruct Hd as (Hd1 & Hd2 & Hd3).
      pose proof (read2_range page (PAGE_HEADER + PAGE_N_DIR_SLOTS)) as Hns.
      fold (page_header_get_field page PAGE_N_DIR_SLOTS) in Hns.
      fold (page_dir_get_n_slots page) in Hns. fold n_slots in Hns.
      (* the two records *)
      destruct (rec_set_n_owned_spec page page_zip old_rec 0 ltac:(lia) Ho1)
        as (B1 & B2 & B3). fold oa in B1.
      destruct (rec_set_n_owned_spec
                  (fst (rec_set_n_owned page page_zip old_rec 0))
                  (snd (rec_set_n_owned page page_zip old_rec 0))
                  new_rec (n_owned + 1)
                  ltac:(rewrite Hn; unfold PAGE_DIR_SLOT_MIN_N_OWNED; lia))
        as (C1 & C2 & C3).
      { rewrite (n_owned_addr_ext page) by exact B2. exact Hw1. }
      rewrite (n_owned_addr_ext page) in C1 by exact B2. fold wa in C1.
      cbv zeta.
      destruct (rec_set_n_owned page page_zip old_rec 0) as [p1 z1].
      cbn [fst snd] in *.
      replace (if negb (page_is_comp page =? 0)
               then rec_set_n_owned_new p1 z1 new_rec (n_owned + 1)
               else (rec_set_n_owned_old p1 new_rec (n_owned + 1), z1))
        with (rec_set_n_owned p1 z1 new_rec (n_owned + 1))
        by (unfold rec_set_n_owned; rewrite B2; reflexivity).
      destruct (rec_set_n_owned p1 z1 new_rec (n_owned + 1)) as [p2 z2].
      cbn [fst snd] in *.
      unfold page_dir_get_nth_slot, PAGE_DATA, PAGE_HEADER, PAGE_DIR,
        PAGE_DIR_SLOT_SIZE, PAGE_N_DIR_SLOTS, PAGE_N_HEAP in *.
      (* the slot *)
      set (ks := UNIV_PAGE_SIZE - 8 - (slot_no + 1) * 2) in *.
      set (us := UNIV_PAGE_SIZE - 8 - (slot_no + 1 + 1) * 2) in *.
      set (p3 := page_dir_slot_set_rec p2 ks new_rec).
      assert (F03 : forall a, a <> oa -> a <> wa -> a <> ks -> a <> ks + 1 ->
                              p3 a = page a).
      { intros a H1 H2 H3 H4. unfold p3.
        rewrite slot_set_rec_frame, C1, B1 by assumption. reflexivity. }
      assert (Hc3 : page_is_comp p3 = page_is_comp page).
      { apply page_is_comp_ext; apply F03;
          unfold PAGE_HEADER, PAGE_N_HEAP; lia. }
      assert (Hrec3 : page_dir_slot_get_rec p3 us = up_rec).
      { apply slot_rec_ext; apply F03; lia. }
      (* the upper slot *)
      destruct (slot_set_n_owned_spec p3 z2 us (up_n_owned - 1)
                  ltac:(unfold PAGE_DIR_SLOT_MIN_N_OWNED in *; lia))
        as (D1 & D2 & D3).
      { rewrite Hrec3, (n_owned_addr_ext page p3) by exact Hc3. exact Hu1. }
      rewrite Hrec3, (n_owned_addr_ext page p3) in D1 by exact Hc3.
      rewrite Hrec3 in D3. fold ua in D1.
      destruct (page_dir_slot_set_n_owned p3 z2 us (up_n_owned - 1))
        as [p4 z4].
      cbn [fst] in *.
      assert (Hc4 : page_is_comp p4 = page_is_comp page) by congruence.
      split; [|split; [|split; [|split; [|split; [|split]]]]].
      * rewrite (slot_rec_ext p3 p4) by (apply D1; lia).
        unfold p3. apply slot_set_rec_same. lia.
      * rewrite (rec_get_n_owned_ext p1 p4); [exact B3 | congruence |].
        rewrite (n_owned_addr_ext page p1) by exact B2. fold oa.
        rewrite D1 by lia. unfold p3.
        rewrite slot_set_rec_frame, C1 by lia. reflexivity.
      * rewrite (rec_get_n_owned_ext p2 p4); [rewrite C3, Hn; reflexivity
                                             | congruence |].
        rewrite (n_owned_addr_ext page p2) by congruence. fold wa.
        rewrite D1 by lia. unfold p3.
        rewrite slot_set_rec_frame by lia. reflexivity.
      * exact D3.
      * apply n_slots_ext; rewrite D1, F03 by (unfold PAGE_HEADER,
          PAGE_N_DIR_SLOTS; lia); reflexivity.
      * intros j Hj Hjk.
        apply slot_rec_ext; rewrite D1, F03 by lia; reflexivity.
      * intros a H1 H2 H3 H4 H5. rewrite D1, F03 by assumption. reflexivity.
    + (* the two slots are merged *)
      intros Hle.
      destruct (Z.ltb_spec PAGE_DIR_SLOT_MIN_N_OWNED up_n_owned) as [|_]; [lia|].
      destruct (page_dir_delete_slot_spec page page_zip slot_no Hups
                  ltac:(lia) ltac:(lia) Hroom Hold Hup Hne)
        as (E1 & E2 & E3 & _ & E5 & E6 & E7).
      { fold (slot_rec slot_no) (slot_rec (slot_no + 1)).
        fold old_rec up_rec. fold n_owned up_n_owned.
        unfold PAGE_DIR_SLOT_MIN_N_OWNED in *. lia. }
      repeat split; assumption.
Qed.

(** *** The position of a record in the list *)

Definition page_get_infimum_rec (page : mem) : Z :=
  if negb (page_is_comp page =? 0) then PAGE_NEW_INFIMUM else PAGE_OLD_INFIMUM.

Definition page_get_supremum_rec (page : mem) : Z :=
  if negb (page_is_comp page =? 0) then PAGE_NEW_SUPREMUM else PAGE_OLD_SUPREMUM.

(** The loop [for (i = 0;; i++)] of [page_rec_get_nth_const], from slot [i]
    on: the slot at which it breaks and what is left of [nth].  The loops
    with no bound take fuel; [None] is fuel run out. *)
Fixpoint nth_slot_search (page : mem) (fuel : nat) (i nth : Z)
    : option (Z * Z) :=
  match fuel with
  | O => None
  | S fuel' =>
    let slot := page_dir_get_nth_slot i in
    let n_owned := page_dir_slot_get_n_owned page slot in
    if nth <? n_owned then Some (i, nth)
    else nth_slot_search page fuel' (i + 1) (nth - n_owned)
  end.

(** [do { rec = page_rec_get_next_low(rec, comp); } while (nth--)]; the
    source does not survive the step from a null record. *)
Fixpoint page_rec_get_next_low_times (page : mem) (comp : bool) (rec : Z)
    (nth : nat) {struct nth} : option Z :=
  if rec =? NULL then None
  else
    match page_rec_get_next_low page rec comp with
    | None => None
    | Some rec' =>
      match nth with
      | O => Some rec'
      | S nth' => page_rec_get_next_low_times page comp rec' nth'
      end
    end.

(** [page_rec_get_nth_const(page, nth)]. *)
Definition page_rec_get_nth_const (page : mem) (fuel : nat) (nth : Z)
    : option Z :=
  if nth =? 0 then Some (page_get_infimum_rec page)
  else
    match nth_slot_search page fuel 0 nth with
    | None => None
    | Some (i, nth) =>
      let slot := page_dir_get_nth_slot (i - 1) in
      let rec := page_dir_slot_get_rec page slot in
      if negb (page_is_comp page =? 0)
      then page_rec_get_next_low_times page true rec (Z.to_nat nth)
      else page_rec_get_next_low_times page false rec (Z.to_nat nth)
    end.

(** [while (rec_get_n_owned(rec) == 0) { rec = rec_get_next_ptr_const(rec,
    comp); n--; }]: the owner and [n]. *)
Fixpoint owner_search (page : mem) (comp : bool) (fuel : nat) (rec n : Z)
    : option (Z * Z) :=
  match fuel with
  | O => None
  | S fuel' =>
    if rec =? NULL then None
    else if (if comp then rec_get_n_owned_new page rec
             else rec_get_n_owned_old page rec) =? 0
    then owner_search page comp fuel' (rec_get_next_ptr page rec comp) (n - 1)
    else Some (rec, n)
  end.

(** [for (i = 0; ; i++)] of [page_rec_get_n_recs_before], from slot [i]
    on. *)
Fixpoint slot_count (page : mem) (comp : bool) (fuel : nat) (i rec n : Z)
    : option Z :=
  match fuel with
  | O => None
  | S fuel' =>
    let slot := page_dir_get_nth_slot i in
    let slot_rec := page_dir_slot_get_rec page slot in
    let n := n + (if comp then rec_get_n_owned_new page slot_rec
                  else rec_get_n_owned_old page slot_rec) in
    if rec =? slot_rec then Some n
    else slot_count page comp fuel' (i + 1) rec n
  end.

(** [page_rec_get_n_recs_before(rec)]; [n] is signed, and the result is
    [(ulint) n]. *)
Definition page_rec_get_n_recs_before (page : mem) (fuel : nat) (rec : Z)
    : option Z :=
  let count := fun comp =>
    match owner_search page comp fuel rec 0 with
    | None => None
    | Some (rec, n) =>
      match slot_count page comp fuel 0 rec n with
      | None => None
      | Some n => Some ((n - 1) mod 2 ^ 64)
      end
    end in
  if negb (page_is_comp page =? 0) then count true else count false.

(** The structural invariants of the list and of the directory: [groups]
    holds, slot by slot, the records a slot owns in the order of the list,
    the last one being the record of the slot.  The first slot owns the
    infimum alone; a record owns the records of its group, the others own
    none; and each record is followed in the list by the next one. *)
Record page_dir_valid (page : mem) (groups : list (list Z)) : Prop := {
  v_first : exists rest, groups = [page_get_infimum_rec page] :: rest;
  v_range : forall r, In r (concat groups) -> 0 < r < UNIV_PAGE_SIZE;
  v_nodup : NoDup (concat groups);
  v_slot : forall i g, nth_error groups i = Some g ->
    g <> []
    /\ page_dir_slot_get_rec page (page_dir_get_nth_slot (Z.of_nat i))
       = last g 0;
  v_owned : forall g, In g groups ->
    rec_get_n_owned page (last g 0) = Z.of_nat (length g)
    /\ forall r, In r (removelast g) -> rec_get_n_owned page r = 0;
  v_next : forall p r r',
    nth_error (concat groups) p = Some r ->
    nth_error (concat groups) (S p) = Some r' ->
    rec_get_next_offs page r (negb (page_is_comp page =? 0)) = r'
}.

(** **** Lists of groups *)

Lemma nth_error_concat_mid (pre : list (list Z)) g rest j :
  (j < length g)%nat ->
  nth_error (concat (pre ++ g :: rest)) (length (concat pre) + j)
  = nth_error g j.
Proof.
  intros Hj. rewrite concat_app. cbn [concat].
  rewrite nth_error_app2 by lia.
  replace (length (concat pre) + j - length (concat pre))%nat with j by lia.
  now rewrite nth_error_app1 by exact Hj.
Qed.

Lemma removelast_length (g : list Z) :
  g <> [] -> length g = S (length (removelast g)).
Proof.
  intros Hg. rewrite (app_removelast_last 0 Hg) at 1.
  rewrite length_app. cbn [length]. lia.
Qed.

Lemma last_In (g : list Z) : g <> [] -> In (last g 0) g.
Proof.
  intros Hg. rewrite (app_removelast_last 0 Hg) at 2.
  apply in_or_app. right. now left.
Qed.

Lemma nth_error_last (g : list Z) j r :
  nth_error g j = Some r -> S j = length g -> last g 0 = r.
Proof.
  intros Hj Hl.
  assert (Hg : g <> []) by (intros ->; discriminate).
  pose proof (removelast_length g Hg) as HL.
  rewrite (app_removelast_last 0 Hg) in Hj.
  rewrite nth_error_app2 in Hj by lia.
  replace (j - length (removelast g))%nat with 0%nat in Hj by lia.
  now injection Hj.
Qed.

Lemma nth_error_removelast (g : list Z) j r :
  nth_error g j = Some r -> (S j < length g)%nat -> In r (removelast g).
Proof.
  intros Hj Hl.
  assert (Hg : g <> []) by (intros ->; cbn in Hl; lia).
  pose proof (removelast_length g Hg) as HL.
  rewrite (app_removelast_last 0 Hg) in Hj.
  rewrite nth_error_app1 in Hj by lia.
  now apply nth_error_In in Hj.
Qed.

Lemma NoDup_app_disjoint (l1 l2 : list Z) x :
  NoDup (l1 ++ l2) -> In x l1 -> In x l2 -> False.
Proof.
  induction l1 as [|a l1 IH]; intros Hnd H1 H2; [contradiction|].
  cbn [app] in Hnd. inversion Hnd as [|? ? Hnot Hnd']; subst.
  destruct H1 as [->|H1].
  - apply Hnot. apply in_or_app. now right.
  - now apply IH.
Qed.

Lemma groups_last_distinct (pre : list (list Z)) h mid g rest :
  NoDup (concat (pre ++ h :: mid ++ g :: rest)) ->
  h <> [] -> g <> [] -> last g 0 <> last h 0.
Proof.
  intros Hnd Hh Hg E.
  rewrite concat_app in Hnd. apply NoDup_app_remove_l in Hnd.
  cbn [concat] in Hnd.
  apply (NoDup_app_disjoint _ _ (last h 0) Hnd (last_In h Hh)).
  rewrite concat_app. apply in_or_app. right. cbn [concat].
  apply in_or_app. left. rewrite <- E. now apply last_In.
Qed.

Lemma concat_length_ge (gs : list (list Z)) :
  (forall g, In g gs -> g <> []) -> (length gs <= length (concat gs))%nat.
Proof.
  induction gs as [|g gs IH]; intros H; cbn [concat length]; [lia|].
  rewrite length_app.
  assert (Hg : g <> []) by (apply H; now left).
  assert (0 < length g)%nat by (destruct g; [contradiction | cbn; lia]).
  specialize (IH (fun x Hx => H x (or_intror Hx))). lia.
Qed.

Lemma NoDup_range_length (l : list Z) u :
  0 <= u ->
  NoDup l -> (forall r, In r l -> 0 < r < u) -> Z.of_nat (length l) <= u.
Proof.
  intros Hu Hnd Hr.
  assert (Hincl : incl l (map Z.of_nat (seq 0 (Z.to_nat u)))).
  { intros r Hin. specialize (Hr r Hin). apply in_map_iff.
    exists (Z.to_nat r). split; [lia|]. apply in_seq. lia. }
  apply (NoDup_incl_length Hnd) in Hincl.
  rewrite length_map, length_seq in Hincl.
  lia.
Qed.

(** **** The two functions on a page that satisfies the invariants *)

Definition page_comp (page : mem) : bool := negb (page_is_comp page =? 0).

Lemma rec_get_next_ptr_offs page rec comp :
  rec_get_next_ptr page rec comp = rec_get_next_offs page rec comp.
Proof.
  unfold rec_get_next_ptr, rec_get_next_offs, NULL.
  destruct comp; destruct (mach_read_from_2 page (rec - REC_NEXT) =? 0) eqn:E;
    try reflexivity.
  apply Z.eqb_eq in E. now rewrite E.
Qed.

Section Position.

Variable page : mem.
Variable groups : list (list Z).
Hypothesis Hv : page_dir_valid page groups.

Lemma group_nonempty g : In g groups -> g <> [].
Proof.
  intros Hin. apply In_nth_error in Hin as [i Hi].
  now destruct (v_slot _ _ Hv i g Hi).
Qed.

Lemma group_at (pre : list (list Z)) g rest :
  groups = pre ++ g :: rest ->
  g <> []
  /\ page_dir_slot_get_rec page (page_dir_get_nth_slot (Z.of_nat (length pre)))
     = last g 0
  /\ rec_get_n_owned page (last g 0) = Z.of_nat (length g).
Proof.
  intros E.
  assert (Hn : nth_error groups (length pre) = Some g).
  { rewrite E, nth_error_app2 by lia. now rewrite Nat.sub_diag. }
  destruct (v_slot _ _ Hv _ _ Hn) as [Hg Hs].
  split; [exact Hg|]. split; [exact Hs|].
  apply (v_owned _ _ Hv). now apply nth_error_In in Hn.
Qed.

Lemma next_step p r r' :
  nth_error (concat groups) p = Some r ->
  nth_error (concat groups) (S p) = Some r' ->
  r <> NULL
  /\ page_rec_get_next_low page r (page_comp page) = Some r'
  /\ rec_get_next_ptr page r (page_comp page) = r'.
Proof.
  intros H1 H2.
  pose proof (v_range _ _ Hv r (nth_error_In _ _ H1)) as Hr.
  pose proof (v_range _ _ Hv r' (nth_error_In _ _ H2)) as Hr'.
  pose proof (v_next _ _ Hv p r r' H1 H2) as Hn. fold (page_comp page) in Hn.
  split; [unfold NULL; lia|]. split.
  - unfold page_rec_get_next_low. rewrite Hn.
    destruct (Z.leb_spec UNIV_PAGE_SIZE r'); [lia|].
    destruct (Z.eqb_spec r' 0); [lia | reflexivity].
  - now rewrite rec_get_next_ptr_offs.
Qed.

Lemma next_low_times_spec steps : forall p r,
  nth_error (concat groups) p = Some r ->
  (p + steps + 1 < length (concat groups))%nat ->
  exists r', nth_error (concat groups) (p + steps + 1) = Some r'
             /\ page_rec_get_next_low_times page (page_comp page) r steps
                = Some r'.
Proof.
  induction steps as [|steps IH]; intros p r Hp Hlen.
  - destruct (nth_error (concat groups) (S p)) as [r'|] eqn:E.
    2:{ apply nth_error_None in E. lia. }
    destruct (next_step p r r' Hp E) as (N1 & N2 & _).
    exists r'. split; [now replace (p + 0 + 1)%nat with (S p) by lia|].
    cbn [page_rec_get_next_low_times].
    destruct (Z.eqb_spec r NULL); [contradiction|]. now rewrite N2.
  - destruct (nth_error (concat groups) (S p)) as [r1|] eqn:E.
    2:{ apply nth_error_None in E. lia. }
    destruct (next_step p r r1 Hp E) as (N1 & N2 & _).
    destruct (IH (S p) r1 E ltac:(lia)) as (r' & R1 & R2).
    exists r'. split; [now replace (p + S steps + 1)%nat
                         with (S p + steps + 1)%nat by lia|].
    cbn [page_rec_get_next_low_times].
    destruct (Z.eqb_spec r NULL); [contradiction|]. now rewrite N2.
Qed.

Lemma nth_slot_search_spec post : forall pre nth fuel,
  groups = pre ++ post ->
  0 <= nth < Z.of_nat (length (concat post)) ->
  (length post <= fuel)%nat ->
  exists mid g rest nth',
    post = mid ++ g :: rest
    /\ nth = Z.of_nat (length (concat mid)) + nth'
    /\ 0 <= nth' < Z.of_nat (length g)
    /\ nth_slot_search page fuel (Z.of_nat (length pre)) nth
       = Some (Z.of_nat (length pre) + Z.of_nat (length mid), nth').
Proof.
  induction post as [|h post IH]; intros pre nth fuel E Hn Hf.
  - cbn in Hn. lia.
  - destruct fuel as [|fuel]; [cbn in Hf; lia|].
    destruct (group_at pre h post E) as (Hh & Hs & Ho).
    cbn [nth_slot_search]. rewrite slot_get_n_owned_eq, Hs, Ho.
    destruct (Z.ltb_spec nth (Z.of_nat (length h))) as [Hlt|Hge].
    + exists [], h, post, nth. cbn [app concat length].
      repeat split; try lia. f_equal. f_equal. lia.
    + cbn [concat] in Hn. rewrite length_app in Hn.
      destruct (IH (pre ++ [h]) (nth - Z.of_nat (length h)) fuel)
        as (mid & g & rest & nth' & P1 & P2 & P3 & P4).
      * rewrite <- app_assoc. exact E.
      * lia.
      * cbn [length] in Hf. lia.
      * exists (h :: mid), g, rest, nth'.
        split; [cbn [app]; now rewrite P1|].
        split; [cbn [concat]; rewrite length_app; lia|].
        split; [exact P3|].
        rewrite length_app in P4. cbn [length] in P4.
        replace (Z.of_nat (length pre) + 1)
          with (Z.of_nat (length pre + 1)) by lia.
        rewrite P4. f_equal. f_equal. cbn [length]. lia.
Qed.

Lemma owner_search_spec d : forall pre g rest j r n fuel,
  groups = pre ++ g :: rest ->
  nth_error g j = Some r ->
  (j + d + 1 = length g)%nat ->
  (d < fuel)%nat ->
  owner_search page (page_comp page) fuel r n
  = Some (last g 0, n - Z.of_nat d).
Proof.
  induction d as [|d IH]; intros pre g rest j r n fuel E Hj Hd Hf;
    (destruct fuel as [|fuel]; [lia|]); cbn [owner_search].
  - assert (Hin : In r (concat groups)).
    { rewrite E, concat_app. apply in_or_app. right. cbn [concat].
      apply in_or_app. left. now apply nth_error_In in Hj. }
    pose proof (v_range _ _ Hv r Hin) as Hr.
    destruct (Z.eqb_spec r NULL) as [E0|_]; [unfold NULL in E0; lia|].
    destruct (group_at pre g rest E) as (Hg & _ & Ho).
    rewrite (nth_error_last g j r Hj ltac:(lia)) in *.
    change (if page_comp page then rec_get_n_owned_new page r
            else rec_get_n_owned_old page r) with (rec_get_n_owned page r).
    rewrite Ho.
    destruct (Z.eqb_spec (Z.of_nat (length g)) 0); [lia|].
    f_equal. f_equal. lia.
  - assert (Hin : In r (concat groups)).
    { rewrite E, concat_app. apply in_or_app. right. cbn [concat].
      apply in_or_app. left. now apply nth_error_In in Hj. }
    pose proof (v_range _ _ Hv r Hin) as Hr.
    destruct (Z.eqb_spec r NULL) as [E0|_]; [unfold NULL in E0; lia|].
    assert (Hg : In g groups)
      by (rewrite E; apply in_or_app; right; now left).
    destruct (v_owned _ _ Hv g Hg) as [_ Hz].
    change (if page_comp page then rec_get_n_owned_new page r
            else rec_get_n_owned_old page r) with (rec_get_n_owned page r).
    rewrite (Hz r (nth_error_removelast g j r Hj ltac:(lia))).
    cbn [Z.eqb].
    destruct (nth_error g (S j)) as [r1|] eqn:E1.
    2:{ apply nth_error_None in E1. lia. }
    assert (P0 : nth_error (concat groups) (length (concat pre) + j) = Some r).
    { rewrite E, nth_error_concat_mid by lia. exact Hj. }
    assert (P1 : nth_error (concat groups) (S (length (concat pre) + j))
                 = Some r1).
    { replace (S (length (concat pre) + j))
        with (length (concat pre) + S j)%nat by lia.
      rewrite E, nth_error_concat_mid by lia. exact E1. }
    destruct (next_step _ r r1 P0 P1) as (_ & _ & N3). rewrite N3.
    rewrite (IH pre g rest (S j) r1 (n - 1) fuel E E1 ltac:(lia) ltac:(lia)).
    f_equal. f_equal. lia.
Qed.

Lemma slot_count_spec mid : forall pre g rest n fuel,
  groups = pre ++ mid ++ g :: rest ->
  (length mid < fuel)%nat ->
  slot_count page (page_comp page) fuel (Z.of_nat (length pre)) (last g 0) n
  = Some (n + Z.of_nat (length (concat mid)) + Z.of_nat (length g)).
Proof.
  induction mid as [|h mid IH]; intros pre g rest n fuel E Hf;
    (destruct fuel as [|fuel]; [cbn in Hf; lia|]); cbn [slot_count].
  - cbn [app] in E. destruct (group_at pre g rest E) as (Hg & Hs & Ho).
    rewrite Hs, Z.eqb_refl.
    change (if page_comp page then rec_get_n_owned_new page (last g 0)
            else rec_get_n_owned_old page (last g 0))
      with (rec_get_n_owned page (last g 0)).
    rewrite Ho. cbn [concat length]. f_equal. lia.
  - cbn [app] in E.
    destruct (group_at pre h (mid ++ g :: rest) E) as (Hh & Hs & Ho).
    rewrite Hs.
    change (if page_comp page then rec_get_n_owned_new page (last h 0)
            else rec_get_n_owned_old page (last h 0))
      with (rec_get_n_owned page (last h 0)).
    rewrite Ho.
    assert (Hg : g <> []).
    { apply group_nonempty. rewrite E. apply in_or_app. right. right.
      apply in_or_app. right. now left. }
    pose proof (v_nodup _ _ Hv) as Hnd. rewrite E in Hnd.
    pose proof (groups_last_distinct pre h mid g rest Hnd Hh Hg) as Hne.
    destruct (Z.eqb_spec (last g 0) (last h 0)); [contradiction|].
    replace (Z.of_nat (length pre) + 1)
      with (Z.of_nat (length (pre ++ [h])))
      by (rewrite length_app; cbn [length]; lia).
    rewrite (IH (pre ++ [h]) g rest _ fuel).
    + f_equal. cbn [concat]. rewrite length_app. lia.
    + rewrite <- app_assoc. exact E.
    + cbn [length] in Hf. lia.
Qed.

(** The records before the record at place [j] of a group. *)
Lemma n_recs_before_at mid g rest j r fuel :
  UNIV_PAGE_SIZE <= 65536 ->
  groups = mid ++ g :: rest ->
  nth_error g j = Some r ->
  (length (concat groups) <= fuel)%nat ->
  page_rec_get_n_recs_before page fuel r
  = Some (Z.of_nat (length (concat mid)) + Z.of_nat j).
Proof.
  intros Hups E Hj Hf.
  assert (Hjl : (j < length g)%nat) by (apply nth_error_Some; congruence).
  assert (Hlen : (length (concat groups)
                  = length (concat mid) + length g + length (concat rest))%nat).
  { rewrite E, concat_app, length_app. cbn [concat].
    rewrite length_app. lia. }
  assert (Hgl : (length groups <= length (concat groups))%nat)
    by (apply concat_length_ge, group_nonempty).
  assert (Hml : (length mid < length groups)%nat)
    by (rewrite E, length_app; cbn [length]; lia).
  assert (Hu : 0 <= UNIV_PAGE_SIZE).
  { assert (Hin : In r (concat groups)).
    { rewrite E, concat_app. apply in_or_app. right. cbn [concat].
      apply in_or_app. left. now apply nth_error_In in Hj. }
    pose proof (v_range _ _ Hv r Hin). lia. }
  pose proof (NoDup_range_length _ _ Hu (v_nodup _ _ Hv) (v_range _ _ Hv))
    as Hb.
  assert (Eq : page_rec_get_n_recs_before page fuel r
               = match owner_search page (page_comp page) fuel r 0 with
                 | None => None
                 | Some (rec, n) =>
                   match slot_count page (page_comp page) fuel 0 rec n with
                   | None => None
                   | Some n => Some ((n - 1) mod 2 ^ 64)
                   end
                 end).
  { unfold page_rec_get_n_recs_before, page_comp.
    destruct (negb (page_is_comp page =? 0)); reflexivity. }
  rewrite Eq.
  rewrite (owner_search_spec (length g - 1 - j) mid g rest j r 0 fuel E Hj
             ltac:(lia) ltac:(lia)).
  rewrite (slot_count_spec mid [] g rest _ fuel E ltac:(lia)).
  f_equal. rewrite Z.mod_small; [lia|].
  change (2 ^ 64) with 18446744073709551616. lia.
Qed.

End Position.

(** C9.  [page_rec_get_n_recs_before] undoes [page_rec_get_nth_const]: on
    a page that satisfies the structural invariants, for every place [n]
    from 0 to the number of the records of the list minus one, with fuel
    for the loops, [page_rec_get_nth_const(page, n)] is the record at
    place [n] of the list and [page_rec_get_n_recs_before] of that record
    is [n]. *)
Theorem page_rec_nth_inverse page groups n fuel :
  page_dir_valid page groups ->
  UNIV_PAGE_SIZE <= 65536 ->
  0 <= n < Z.of_nat (length (concat groups)) ->
  (length (concat groups) <= fuel)%nat ->
  exists rec,
    page_rec_get_nth_const page fuel n = Some rec
    /\ nth_error (concat groups) (Z.to_nat n) = Some rec
    /\ page_rec_get_n_recs_before page fuel rec = Some n.
Proof.
  intros Hv Hups Hn Hf.
  assert (Hgl : (length groups <= length (concat groups))%nat)
    by (apply concat_length_ge, (group_nonempty page groups Hv)).
  destruct (v_first _ _ Hv) as [rest0 E0].
  unfold page_rec_get_nth_const.
  destruct (Z.eqb_spec n 0) as [->|Hn0].
  - exists (page_get_infimum_rec page). split; [reflexivity|].
    split; [rewrite E0; reflexivity|].
    rewrite (n_recs_before_at page groups Hv [] [page_get_infimum_rec page]
               rest0 0 _ fuel Hups E0 eq_refl Hf).
    reflexivity.
  - destruct (nth_slot_search_spec page groups Hv groups [] n fuel eq_refl Hn
                ltac:(lia))
      as (mid & g & rest & nth' & P1 & P2 & P3 & P4).
    cbn [length] in P4. change (Z.of_nat 0) with 0 in P4. rewrite P4.
    destruct (exists_last (l := mid)) as (mid0 & h & Em).
    { intros ->. cbn [app] in P1. rewrite E0 in P1.
      injection P1 as <- _. cbn in P2, P3. lia. }
    subst mid.
    assert (Eg : groups = mid0 ++ h :: g :: rest)
      by (rewrite P1, <- app_assoc; reflexivity).
    destruct (group_at page groups Hv mid0 h (g :: rest) Eg) as (Hh & Hs & _).
    rewrite length_app in *. cbn [length] in *.
    replace (0 + Z.of_nat (length mid0 + 1) - 1)
      with (Z.of_nat (length mid0)) by lia.
    rewrite Hs.
    pose proof (removelast_length h Hh) as Hhl.
    assert (Ph : nth_error (concat groups)
                   (length (concat mid0) + length (removelast h))
                 = Some (last h 0)).
    { rewrite Eg, nth_error_concat_mid by lia.
      rewrite (app_removelast_last 0 Hh) at 1.
      rewrite nth_error_app2 by lia. now rewrite Nat.sub_diag. }
    assert (Hcm : length (concat (mid0 ++ [h]))
                  = (length (concat mid0) + length h)%nat).
    { rewrite concat_app, length_app. cbn [concat].
      rewrite app_nil_r. reflexivity. }
    rewrite Hcm in P2.
    assert (Hlen : (length (concat groups)
                    = length (concat mid0) + length h + length g
                      + length (concat rest))%nat).
    { rewrite Eg, concat_app, length_app. cbn [concat].
      rewrite !length_app. lia. }
    destruct (next_low_times_spec page groups Hv (Z.to_nat nth') _ _ Ph
                ltac:(lia)) as (r & R1 & R2).
    fold (page_comp page).
    assert (Ew : (if page_comp page
                  then page_rec_get_next_low_times page true (last h 0)
                         (Z.to_nat nth')
                  else page_rec_get_next_low_times page false (last h 0)
                         (Z.to_nat nth'))
                 = page_rec_get_next_low_times page (page_comp page)
                     (last h 0) (Z.to_nat nth'))
      by (destruct (page_comp page); reflexivity).
    rewrite Ew, R2.
    replace (length (concat mid0) + length (removelast h)
             + Z.to_nat nth' + 1)%nat with (Z.to_nat n) in R1 by lia.
    exists r. split; [reflexivity|]. split; [exact R1|].
    assert (Rg : nth_error g (Z.to_nat nth') = Some r).
    { rewrite <- R1.
      replace (Z.to_nat n)
        with (length (concat (mid0 ++ [h])) + Z.to_nat nth')%nat by lia.
      rewrite P1. symmetry. apply nth_error_concat_mid. lia. }
    rewrite (n_recs_before_at page groups Hv (mid0 ++ [h]) g rest
               (Z.to_nat nth') r fuel Hups P1 Rg Hf).
    f_equal. rewrite Hcm. lia.
Qed.

(** ** The redo log of a mini-transaction *)

(** [mtr_log_t], the logging mode of a mini-transaction. *)
Inductive mtr_log_t : Set :=
| MTR_LOG_ALL
| MTR_LOG_NONE
| MTR_LOG_NO_REDO
| MTR_LOG_SHORT_INSERTS.

(** [mlog_id_t], as far as the functions below write it. *)
Inductive mlog_id_t : Set :=
| MLOG_8BYTES
| MLOG_LIST_END_DELETE
| MLOG_LIST_START_DELETE
| MLOG_PAGE_CREATE
| MLOG_COMP_LIST_END_DELETE
| MLOG_COMP_LIST_START_DELETE
| MLOG_COMP_PAGE_CREATE
| MLOG_PAGE_CREATE_RTREE
| MLOG_COMP_PAGE_CREATE_RTREE.

(** A redo log record: its type and the bytes its writer adds after the
    initial part (the type, the space id and the page number, followed for
    a compact page by the description of the index). *)
Record mlog_rec_t := mk_mlog {
  mlog_type : mlog_id_t;
  mlog_body : list byte
}.

(** [mtr_t]: the logging mode and the log records written so far, the
    oldest first. *)
Record mtr_t := mk_mtr {
  m_log_mode : mtr_log_t;
  m_log : list mlog_rec_t
}.

Definition mtr_get_log_mode (mtr : mtr_t) : mtr_log_t := m_log_mode mtr.

(** [mtr_set_log_mode(mtr, mode)] of mtr0mtr.ic: the old mode, and the
    mini-transaction; MTR_LOG_NO_REDO is never left, and MTR_LOG_NONE is
    kept when MTR_LOG_SHORT_INSERTS is asked for. *)
Definition mtr_set_log_mode (mtr : mtr_t) (mode : mtr_log_t)
    : mtr_log_t * mtr_t :=
  let old_mode := m_log_mode mtr in
  match old_mode, mode with
  | MTR_LOG_NO_REDO, _ => (old_mode, mtr)
  | MTR_LOG_NONE, MTR_LOG_NONE => (old_mode, mtr)
  | MTR_LOG_NONE, MTR_LOG_SHORT_INSERTS => (old_mode, mtr)
  | _, _ => (old_mode, mk_mtr mode (m_log mtr))
  end.

(** [mlog_open(mtr, size)] of mtr0log.ic returns NULL when the mode is
    MTR_LOG_NONE or MTR_LOG_NO_REDO; [true] stands for a buffer. *)
Definition mlog_open (mtr : mtr_t) : bool :=
  match mtr_get_log_mode mtr with
  | MTR_LOG_NONE | MTR_LOG_NO_REDO => false
  | _ => true
  end.

(** [mlog_close(mtr, ptr)]: the record written since [mlog_open] joins the
    log. *)
Definition mlog_close (mtr : mtr_t) (log : mlog_rec_t) : mtr_t :=
  mk_mtr (m_log_mode mtr) (m_log mtr ++ [log]).

(** [mlog_write_initial_log_record(ptr, type, mtr)] of mtr0log.cc. *)
Definition mlog_write_initial_log_record (type : mlog_id_t) (mtr : mtr_t)
    : mtr_t :=
  if mlog_open mtr then mlog_close mtr (mk_mlog type []) else mtr.

(** [mlog_open_and_write_index(mtr, rec, index, type, size)] of
    mtr0log.cc: the record begun, or [None] for NULL when nothing is
    logged. *)
Definition mlog_open_and_write_index (mtr : mtr_t) (index : dict_index_t)
    (type : mlog_id_t) : option mlog_rec_t :=
  if mlog_open mtr then Some (mk_mlog type []) else None.

(** The two bytes [mach_write_to_2(log_ptr, n)] puts into a log record. *)
Definition mach_bytes_2 (n : Z) : list byte :=
  [byte_of_Z (Z.shiftr n 8); byte_of_Z n].

(** A buffer block: the frame, the compressed page if there is one, and
    the modify clock. *)
Record buf_block_t := mk_block {
  buf_block_get_frame : mem;
  buf_block_get_page_zip : option zip_t;
  modify_clock : Z
}.

Definition buf_block_modify_clock_inc (block : buf_block_t) : buf_block_t :=
  mk_block (buf_block_get_frame block) (buf_block_get_page_zip block)
    (modify_clock block + 1).

(** What the page code calls and these sources do not hold. *)
Section Bulk_delete.

(** The parameters of the record codec. *)
Variable DATA_BIG_LEN_MTYPE : Z -> Z -> bool.
Variable dict_col_get_fixed_size : dict_col_t -> bool -> Z.
Variable mem_heap_alloc : Z -> offsets_t.

(** [recv_recovery_is_on()]: whether the redo log is being applied. *)
Variable recv_recovery_is_on : bool.

(** [truncate_t::s_fix_up_active]. *)
Variable truncate_s_fix_up_active : bool.

(** [page_zip_compress(page_zip, page, index, level, NULL, mtr)] of
    page0zip.cc, with [None] for a NULL [mtr]: whether it succeeded, the
    compressed page and the mini-transaction. *)
Variable page_zip_compress :
  zip_t -> mem -> dict_index_t -> option mtr_t -> bool * zip_t * option mtr_t.

(** [page_zip_write_header_log(str, length, mtr)] of page0zip.cc, which
    [page_zip_write_header] calls when it is given a mini-transaction. *)
Variable page_zip_write_header_log : mem -> Z -> Z -> mtr_t -> mtr_t.

(** The bytes [mach_u64_write_compressed(log_ptr, n)] writes. *)
Variable mach_u64_write_compressed : Z -> list byte.

(** [page_rec_get_prev(rec)] of page0page.ic. *)
Variable page_rec_get_prev : mem -> Z -> Z.

(** [page_cur_delete_rec(cursor, index, offsets, mtr)] of page0cur.cc, the
    cursor standing on [rec] in [block]. *)
Variable page_cur_delete_rec :
  buf_block_t -> Z -> dict_index_t -> offsets_t -> mtr_t -> buf_block_t * mtr_t.

(** The array [offsets_] on the stack of [page_delete_rec_list_end], as it
    is before [rec_offs_init]. *)
Variable offsets_ : offsets_t.

Definition REC_OFFS_NORMAL_SIZE : Z := 100.

Definition rec_get_offsets (page : mem) (rec : Z) (index : dict_index_t)
    (offsets : offsets_t) (n_fields : Z) : option offsets_t :=
  rec_get_offsets_func DATA_BIG_LEN_MTYPE dict_col_get_fixed_size
    mem_heap_alloc page rec index (Some offsets) n_fields.

(** [mlog_write_ull(ptr, val, mtr)] of mtr0log.cc, for a [mtr] that is not
    NULL. *)
Definition mlog_write_ull (page : mem) (ptr val : Z) (mtr : mtr_t)
    : mem * mtr_t :=
  let page := mach_write_to_8 page ptr val in
  (page,
   if mlog_open mtr
   then mlog_close mtr
          (mk_mlog MLOG_8BYTES (mach_bytes_2 ptr ++ mach_u64_write_compressed val))
   else mtr).

(** *** The maximum transaction id *)

Definition page_get_max_trx_id (page : mem) : Z :=
  mach_read_from_8 page (PAGE_HEADER + PAGE_MAX_TRX_ID).

Definition page_is_leaf (page : mem) : bool :=
  page_header_get_field page PAGE_LEVEL =? 0.

(** [page_set_max_trx_id(block, page_zip, trx_id, mtr)]; [page_zip], when
    it is not NULL, is the compressed page of [block]. *)
Definition page_set_max_trx_id (block : buf_block_t) (page_zip : option zip_t)
    (trx_id : Z) (mtr : option mtr_t) : buf_block_t * option mtr_t :=
  let page := buf_block_get_frame block in
  match page_zip with
  | Some z =>
    let page := mach_write_to_8 page (PAGE_HEADER + PAGE_MAX_TRX_ID) trx_id in
    (mk_block page
       (Some (page_zip_write_header z page (PAGE_HEADER + PAGE_MAX_TRX_ID) 8))
       (modify_clock block),
     match mtr with
     | Some mtr =>
       Some (page_zip_write_header_log page (PAGE_HEADER + PAGE_MAX_TRX_ID) 8
               mtr)
     | None => None
     end)
  | None =>
    match mtr with
    | Some mtr =>
      let '(page, mtr) :=
        mlog_write_ull page (PAGE_HEADER + PAGE_MAX_TRX_ID) trx_id mtr in
      (mk_block page (buf_block_get_page_zip block) (modify_clock block),
       Some mtr)
    | None =>
      (mk_block (mach_write_to_8 page (PAGE_HEADER + PAGE_MAX_TRX_ID) trx_id)
         (buf_block_get_page_zip block) (modify_clock block),
       None)
    end
  end.

(** [page_update_max_trx_id(block, page_zip, trx_id, mtr)] of
    page0page.ic. *)
Definition page_update_max_trx_id (block : buf_block_t)
    (page_zip : option zip_t) (trx_id : Z) (mtr : option mtr_t)
    : buf_block_t * option mtr_t :=
  if page_get_max_trx_id (buf_block_get_frame block) <? trx_id
  then page_set_max_trx_id block page_zip trx_id mtr
  else (block, mtr).

(** *** Page creation *)

Definition page_create_write_log (mtr : mtr_t) (comp : Z) (is_rtree : bool)
    : mtr_t :=
  let type :=
    if is_rtree then
      if negb (comp =? 0) then MLOG_COMP_PAGE_CREATE_RTREE
      else MLOG_PAGE_CREATE_RTREE
    else
      if negb (comp =? 0) then MLOG_COMP_PAGE_CREATE else MLOG_PAGE_CREATE in
  mlog_write_initial_log_record type mtr.

(** The page infimum and supremum of an empty page in
    ROW_FORMAT=REDUNDANT. *)
Definition infimum_supremum_redundant : list byte :=
  [ (* the infimum record *)
    x08 (* end offset *);
    x01 (* n_owned *);
    x00; x00 (* heap_no=0 *);
    x03 (* n_fields=1, 1-byte offsets *);
    x00; x74 (* pointer to supremum *);
    x69; x6e; x66; x69; x6d; x75; x6d; x00 (* infimum *);
    (* the supremum record *)
    x09 (* end offset *);
    x01 (* n_owned *);
    x00; x08 (* heap_no=1 *);
    x03 (* n_fields=1, 1-byte offsets *);
    x00; x00 (* end of record list *);
    x73; x75; x70; x72; x65; x6d; x75; x6d; x00 (* supremum *) ].

(** The page infimum and supremum of an empty page in
    ROW_FORMAT=COMPACT. *)
Definition infimum_supremum_compact : list byte :=
  [ (* the infimum record *)
    x01 (* n_owned=1 *);
    x00; x02 (* heap_no=0, REC_STATUS_INFIMUM *);
    x00; x0d (* pointer to supremum *);
    x69; x6e; x66; x69; x6d; x75; x6d; x00 (* infimum *);
    (* the supremum record *)
    x01 (* n_owned=1 *);
    x00; x0b (* heap_no=1, REC_STATUS_SUPREMUM *);
    x00; x00 (* end of record list *);
    x73; x75; x70; x72; x65; x6d; x75; x6d (* supremum *) ].

Definition fil_page_set_type (page : mem) (type : Z) : mem :=
  mach_write_to_2 page FIL_PAGE_TYPE type.

(** [page_create_low(block, comp, is_rtree)]; [page[i] = n] is
    [mach_write_to_1]. *)
Definition page_create_low (block : buf_block_t) (comp : Z) (is_rtree : bool)
    : buf_block_t :=
  let block := buf_block_modify_clock_inc block in
  let page := buf_block_get_frame block in
  let page :=
    if is_rtree then fil_page_set_type page FIL_PAGE_RTREE
    else fil_page_set_type page FIL_PAGE_INDEX in
  let page := memset page PAGE_HEADER 0 PAGE_HEADER_PRIV_END in
  let page := mach_write_to_1 page (PAGE_HEADER + PAGE_N_DIR_SLOTS + 1) 2 in
  let page :=
    mach_write_to_1 page (PAGE_HEADER + PAGE_DIRECTION + 1) PAGE_NO_DIRECTION in
  let page :=
    if negb (comp =? 0) then
      let page := mach_write_to_1 page (PAGE_HEADER + PAGE_N_HEAP) 0x80 in
      let page :=
        mach_write_to_1 page (PAGE_HEADER + PAGE_N_HEAP + 1)
          PAGE_HEAP_NO_USER_LOW in
      let page :=
        mach_write_to_1 page (PAGE_HEADER + PAGE_HEAP_TOP + 1)
          PAGE_NEW_SUPREMUM_END in
      let page :=
        memcpy page PAGE_DATA infimum_supremum_compact
          (Z.of_nat (length infimum_supremum_compact)) in
      let page :=
        memset page PAGE_NEW_SUPREMUM_END 0
          (UNIV_PAGE_SIZE - PAGE_DIR - PAGE_NEW_SUPREMUM_END) in
      let page :=
        mach_write_to_1 page
          (UNIV_PAGE_SIZE - PAGE_DIR - PAGE_DIR_SLOT_SIZE * 2 + 1)
          PAGE_NEW_SUPREMUM in
      mach_write_to_1 page (UNIV_PAGE_SIZE - PAGE_DIR - PAGE_DIR_SLOT_SIZE + 1)
        PAGE_NEW_INFIMUM
    else
      let page :=
        mach_write_to_1 page (PAGE_HEADER + PAGE_N_HEAP + 1)
          PAGE_HEAP_NO_USER_LOW in
      let page :=
        mach_write_to_1 page (PAGE_HEADER + PAGE_HEAP_TOP + 1)
          PAGE_OLD_SUPREMUM_END in
      let page :=
        memcpy page PAGE_DATA infimum_supremum_redundant
          (Z.of_nat (length infimum_supremum_redundant)) in
      let page :=
        memset page PAGE_OLD_SUPREMUM_END 0
          (UNIV_PAGE_SIZE - PAGE_DIR - PAGE_OLD_SUPREMUM_END) in
      let page :=
        mach_write_to_1 page
          (UNIV_PAGE_SIZE - PAGE_DIR - PAGE_DIR_SLOT_SIZE * 2 + 1)
          PAGE_OLD_SUPREMUM in
      mach_write_to_1 page (UNIV_PAGE_SIZE - PAGE_DIR - PAGE_DIR_SLOT_SIZE + 1)
        PAGE_OLD_INFIMUM in
  mk_block page (buf_block_get_page_zip block) (modify_clock block).

(** [page_create(block, mtr, comp, is_rtree)]. *)
Definition page_create (block : buf_block_t) (mtr : mtr_t) (comp : Z)
    (is_rtree : bool) : mtr_t * buf_block_t :=
  let mtr := page_create_write_log mtr comp is_rtree in
  (mtr, page_create_low block comp is_rtree).

(** [page_create_zip(block, index, level, max_trx_id, NULL, mtr)] for an
    [index] that is not NULL and a block that has a compressed page.  The
    result is the mini-transaction as the call leaves it and, unless the
    call stops at [ut_error], the block. *)
Definition page_create_zip (block : buf_block_t) (index : dict_index_t)
    (level max_trx_id : Z) (mtr : mtr_t) : mtr_t * option buf_block_t :=
  match buf_block_get_page_zip block with
  | None => (mtr, None)
  | Some page_zip =>
    let is_spatial := dict_index_is_spatial index in
    let block := page_create_low block 1 is_spatial in
    let page := buf_block_get_frame block in
    let page := mach_write_to_2 page (PAGE_HEADER + PAGE_LEVEL) level in
    let page := mach_write_to_8 page (PAGE_HEADER + PAGE_MAX_TRX_ID) max_trx_id in
    if truncate_s_fix_up_active then
      let '(ok, page_zip, _) := page_zip_compress page_zip page index None in
      if negb ok then (mtr, None)
      else (mtr, Some (mk_block page (Some page_zip) (modify_clock block)))
    else
      let '(ok, page_zip, mtr') :=
        page_zip_compress page_zip page index (Some mtr) in
      let mtr := match mtr' with Some mtr' => mtr' | None => mtr end in
      if negb ok then (mtr, None)
      else (mtr, Some (mk_block page (Some page_zip) (modify_clock block)))
  end.

(** [page_create_empty(block, index, mtr)]. *)
Definition page_create_empty (block : buf_block_t) (index : dict_index_t)
    (mtr : mtr_t) : mtr_t * option buf_block_t :=
  let page := buf_block_get_frame block in
  let page_zip := buf_block_get_page_zip block in
  let max_trx_id :=
    if dict_index_is_sec_or_ibuf index
       && negb (dict_table_is_temporary index)
       && page_is_leaf page
    then page_get_max_trx_id page
    else 0 in
  match page_zip with
  | Some _ =>
    page_create_zip block index (page_header_get_field page PAGE_LEVEL)
      max_trx_id mtr
  | None =>
    let '(mtr, block) :=
      page_create block mtr (page_is_comp page) (dict_index_is_spatial index) in
    if negb (max_trx_id =? 0) then
      match page_update_max_trx_id block page_zip max_trx_id (Some mtr) with
      | (block, Some mtr) => (mtr, Some block)
      | (block, None) => (mtr, Some block)
      end
    else (mtr, Some block)
  end.

(** *** Deleting the end of the record list *)

(** [page_delete_rec_list_write_log(rec, index, type, mtr)]. *)
Definition page_delete_rec_list_write_log (rec : Z) (index : dict_index_t)
    (type : mlog_id_t) (mtr : mtr_t) : mtr_t :=
  match mlog_open_and_write_index mtr index type with
  | Some log =>
    (* Write the parameter as a 2-byte ulint *)
    mlog_close mtr (mk_mlog (mlog_type log) (mlog_body log ++ mach_bytes_2 rec))
  | None => mtr
  end.

Definition page_rec_is_supremum (rec : Z) : bool :=
  (rec =? PAGE_NEW_SUPREMUM) || (rec =? PAGE_OLD_SUPREMUM).

Definition page_rec_is_infimum (rec : Z) : bool :=
  (rec =? PAGE_NEW_INFIMUM) || (rec =? PAGE_OLD_INFIMUM).

(** [page_rec_set_next(rec, next)] of page0page.ic, over
    [rec_set_next_offs_new] and [rec_set_next_offs_old]. *)
Definition page_rec_set_next (page : mem) (rec next : Z) : mem :=
  let offs := if negb (next =? NULL) then next else 0 in
  if negb (page_is_comp page =? 0) then
    let field_value :=
      if negb (offs =? 0) then Z.land ((offs - rec) mod 2 ^ 64) 0xFFFF else 0 in
    mach_write_to_2 page (rec - REC_NEXT) field_value
  else mach_write_to_2 page (rec - REC_NEXT) offs.

(** The second loop of [page_dir_find_owner_slot], from [slot] towards the
    first slot; the slot holds [mach_encode_2(r - page)] when it reads as
    the offset of [r]. *)
Fixpoint slot_search (page : mem) (fuel : nat) (r first_slot slot : Z)
    : option Z :=
  match fuel with
  | O => None
  | S fuel' =>
    if negb (mach_read_from_2 page slot =? r mod 65536) then
      if slot =? first_slot then None
      else slot_search page fuel' r first_slot (slot + PAGE_DIR_SLOT_SIZE)
    else Some (((first_slot - slot) mod 2 ^ 64) / PAGE_DIR_SLOT_SIZE)
  end.

(** [page_dir_find_owner_slot(rec)]; [None] is [ut_error], or fuel run
    out. *)
Definition page_dir_find_owner_slot (page : mem) (fuel : nat) (rec : Z)
    : option Z :=
  let first_slot := page_dir_get_nth_slot 0 in
  let slot := page_dir_get_nth_slot (page_dir_get_n_slots page - 1) in
  match (if negb (page_is_comp page =? 0)
         then owner_search page true fuel rec 0
         else owner_search page false fuel rec 0) with
  | None => None
  | Some (r, _) => slot_search page fuel r first_slot slot
  end.

(** [do { ... } while (page_offset(rec) != PAGE_NEW_SUPREMUM)] for a
    compressed page: the records are deleted one by one.  The source does
    not survive a null record. *)
Fixpoint delete_rec_loop (fuel : nat) (rec : Z) (block : buf_block_t)
    (index : dict_index_t) (offsets : offsets_t) (mtr : mtr_t)
    : mtr_t * option buf_block_t :=
  match fuel with
  | O => (mtr, None)
  | S fuel' =>
    if rec =? NULL then (mtr, None)
    else
      match rec_get_offsets (buf_block_get_frame block) rec index offsets
              ULINT_UNDEFINED with
      | None => (mtr, None)
      | Some offsets =>
        let next := rec_get_next_ptr (buf_block_get_frame block) rec true in
        let '(block, mtr) := page_cur_delete_rec block rec index offsets mtr in
        if negb (next =? PAGE_NEW_SUPREMUM)
        then delete_rec_loop fuel' next block index offsets mtr
        else (mtr, Some block)
      end
  end.

(** [do { ... } while (!page_rec_is_supremum(rec2))]: the sum of the sizes
    and the number of the records from [rec2] on. *)
Fixpoint size_loop (page : mem) (fuel : nat) (rec2 : Z) (index : dict_index_t)
    (offsets : offsets_t) (size n_recs : Z) : option (Z * Z) :=
  match fuel with
  | O => None
  | S fuel' =>
    if rec2 =? NULL then None
    else
      match rec_get_offsets page rec2 index offsets ULINT_UNDEFINED with
      | None => None
      | Some offsets =>
        let s := rec_offs_size offsets in
        let size := size + s in
        let n_recs := n_recs + 1 in
        match page_rec_get_next page rec2 with
        | None => None
        | Some rec2 =>
          if negb (page_rec_is_supremum rec2)
          then size_loop page fuel' rec2 index offsets size n_recs
          else Some (size, n_recs)
        end
      end
  end.

(** [while (rec_get_n_owned(rec2) == 0) { count++; rec2 =
    rec_get_next_ptr(rec2, comp); }]: the owner and [count]. *)
Fixpoint owner_count (page : mem) (comp : bool) (fuel : nat) (rec2 count : Z)
    : option (Z * Z) :=
  match fuel with
  | O => None
  | S fuel' =>
    if rec2 =? NULL then None
    else if (if comp then rec_get_n_owned_new page rec2
             else rec_get_n_owned_old page rec2) =? 0
    then owner_count page comp fuel' (rec_get_next_ptr page rec2 comp)
           (count + 1)
    else Some (rec2, count)
  end.

(** The end of [page_delete_rec_list_end] for a page that is not
    compressed: the chain from [rec] on is cut out of the list and put on
    the free list.  [None] is [ut_error], a null record, or fuel run
    out. *)
Definition delete_rec_list_end_cut (fuel : nat) (rec : Z) (page : mem)
    (index : dict_index_t) (n_recs size : Z) (offsets : offsets_t)
    : option mem :=
  let prev_rec := page_rec_get_prev page rec in
  let last_rec := page_rec_get_prev page (page_get_supremum_rec page) in
  match (if (size =? ULINT_UNDEFINED) || (n_recs =? ULINT_UNDEFINED)
         then (* Calculate the sum of sizes and the number of records *)
           size_loop page fuel rec index offsets 0 0
         else Some (size, n_recs)) with
  | None => None
  | Some (size, n_recs) =>
    (* Update the page directory *)
    let comp := negb (page_is_comp page =? 0) in
    match owner_count page comp fuel rec 0 with
    | None => None
    | Some (rec2, count) =>
      let n_owned :=
        (if comp then rec_get_n_owned_new page rec2
         else rec_get_n_owned_old page rec2) - count in
      match page_dir_find_owner_slot page fuel rec2 with
      | None => None
      | Some slot_index =>
        let slot := page_dir_get_nth_slot slot_index in
        let page := page_dir_slot_set_rec page slot (page_get_supremum_rec page) in
        let '(page, _) := page_dir_slot_set_n_owned page None slot n_owned in
        let '(page, _) := page_dir_set_n_slots page None (slot_index + 1) in
        (* Remove the record chain segment from the record chain *)
        let page := page_rec_set_next page prev_rec (page_get_supremum_rec page) in
        (* Catenate the deleted chain segment to the page free list *)
        let page :=
          page_rec_set_next page last_rec (page_header_get_ptr page PAGE_FREE) in
        let '(page, _) := page_header_set_ptr page None PAGE_FREE rec in
        let '(page, _) :=
          page_header_set_field page None PAGE_GARBAGE
            (size + page_header_get_field page PAGE_GARBAGE) in
        let '(page, _) :=
          page_header_set_field page None PAGE_N_RECS
            ((page_get_n_recs page - n_recs) mod 2 ^ 64) in
        Some page
      end
    end
  end.

(** [page_delete_rec_list_end] from the reset of PAGE_LAST_INSERT on, once
    it is settled that part of the records stay. *)
Definition delete_rec_list_end_some (fuel : nat) (rec : Z)
    (block : buf_block_t) (index : dict_index_t) (n_recs size : Z)
    (mtr : mtr_t) : mtr_t * option buf_block_t :=
  let page_zip := buf_block_get_page_zip block in
  let page := buf_block_get_frame block in
  let offsets := rec_offs_set_n_alloc offsets_ REC_OFFS_NORMAL_SIZE in
  (* Reset the last insert info in the page header and increment the
     modify clock for the frame *)
  let '(page, page_zip) := page_header_set_ptr page page_zip PAGE_LAST_INSERT NULL in
  let block := buf_block_modify_clock_inc (mk_block page page_zip (modify_clock block)) in
  let mtr :=
    page_delete_rec_list_write_log rec index
      (if negb (page_is_comp page =? 0) then MLOG_COMP_LIST_END_DELETE
       else MLOG_LIST_END_DELETE) mtr in
  match page_zip with
  | Some _ =>
    if page_is_comp page =? 0 then (mtr, None)
    else
      (* Individual deletes are not logged *)
      let '(log_mode, mtr) := mtr_set_log_mode mtr MTR_LOG_NONE in
      match delete_rec_loop fuel rec block index offsets mtr with
      | (mtr, Some block) =>
        (* Restore log mode *)
        (snd (mtr_set_log_mode mtr log_mode), Some block)
      | (mtr, None) => (mtr, None)
      end
  | None =>
    (mtr,
     match delete_rec_list_end_cut fuel rec page index n_recs size offsets with
     | Some page => Some (mk_block page None (modify_clock block))
     | None => None
     end)
  end.

(** [page_delete_rec_list_end(rec, block, index, n_recs, size, mtr)]: the
    mini-transaction as the call leaves it and, unless the call stops at
    [ut_error] or the fuel of a loop runs out, the block. *)
Definition page_delete_rec_list_end (fuel : nat) (rec : Z)
    (block : buf_block_t) (index : dict_index_t) (n_recs size : Z)
    (mtr : mtr_t) : mtr_t * option buf_block_t :=
  let page := buf_block_get_frame block in
  if page_rec_is_supremum rec then
    (* Nothing to do, there are no records bigger than the page
       supremum. *)
    (mtr, Some block)
  else if recv_recovery_is_on then
    delete_rec_list_end_some fuel rec block index n_recs size mtr
  else if page_rec_is_infimum rec || (n_recs =? page_get_n_recs page) then
    (* We are deleting all records. *)
    page_create_empty block index mtr
  else if negb (page_is_comp page =? 0) then
    match page_rec_get_next_low page PAGE_NEW_INFIMUM true with
    | None => (mtr, None)
    | Some first =>
      if first =? rec then page_create_empty block index mtr
      else delete_rec_list_end_some fuel rec block index n_recs size mtr
    end
  else
    match page_rec_get_next_low page PAGE_OLD_INFIMUM false with
    | None => (mtr, None)
    | Some first =>
      if first =? rec then page_create_empty block index mtr
      else delete_rec_list_end_some fuel rec block index n_recs size mtr
    end.


(** *** Properties of the log and of the bulk delete *)

Lemma mtr_set_log_mode_log mtr mode :
  m_log (snd (mtr_set_log_mode mtr mode)) = m_log mtr.
Proof.
  unfold mtr_set_log_mode. destruct (m_log_mode mtr), mode; reflexivity.
Qed.

Lemma mtr_set_log_mode_none mtr :
  mlog_open (snd (mtr_set_log_mode mtr MTR_LOG_NONE)) = false.
Proof.
  unfold mtr_set_log_mode, mlog_open, mtr_get_log_mode.
  destruct (m_log_mode mtr) eqn:E; cbn; try rewrite E; reflexivity.
Qed.

(** While nothing is logged, deleting the records one by one leaves the
    mini-transaction as it is, provided [page_cur_delete_rec] does. *)
Lemma delete_rec_loop_no_log fuel :
  (forall b r i o m,
      mlog_open m = false -> snd (page_cur_delete_rec b r i o m) = m) ->
  forall rec block index offsets mtr,
    mlog_open mtr = false ->
    fst (delete_rec_loop fuel rec block index offsets mtr) = mtr.
Proof.
  intros Hcur. induction fuel as [|fuel IH]; intros rec block index offsets mtr Hm.
  - reflexivity.
  - cbn [delete_rec_loop].
    destruct (rec =? NULL); [reflexivity|].
    destruct (rec_get_offsets _ rec index offsets ULINT_UNDEFINED) as [o|];
      [|reflexivity].
    pose proof (Hcur block rec index o mtr Hm) as Hc.
    destruct (page_cur_delete_rec block rec index o mtr) as [b m].
    cbn [snd] in Hc. subst m.
    destruct (negb _); [now apply IH | reflexivity].
Qed.

Lemma mach_bytes_2_value n :
  0 <= n < 65536 ->
  exists b1 b2,
    mach_bytes_2 n = [b1; b2] /\ Z_of_byte b1 * 256 + Z_of_byte b2 = n.
Proof.
  intros Hn. exists (byte_of_Z (Z.shiftr n 8)), (byte_of_Z n).
  split; [reflexivity|].
  rewrite !Z_of_byte_of_Z, Z.shiftr_div_pow2 by lia.
  change (2 ^ 8) with 256. div_mod_eqs. lia.
Qed.

Lemma write_log_open rec index type mtr :
  mlog_open mtr = true ->
  page_delete_rec_list_write_log rec index type mtr
  = mk_mtr (m_log_mode mtr) (m_log mtr ++ [mk_mlog type (mach_bytes_2 rec)]).
Proof.
  intros H. unfold page_delete_rec_list_write_log, mlog_open_and_write_index.
  rewrite H. reflexivity.
Qed.

Lemma write_log_closed rec index type mtr :
  mlog_open mtr = false ->
  page_delete_rec_list_write_log rec index type mtr = mtr.
Proof.
  intros H. unfold page_delete_rec_list_write_log, mlog_open_and_write_index.
  rewrite H. reflexivity.
Qed.

(** What [page_delete_rec_list_end] adds to the log once it is settled that
    part of the records stay: the record of the bulk delete, if anything
    is logged, and nothing else. *)
Lemma delete_rec_list_end_some_log fuel rec block index n_recs size mtr :
  (forall b r i o m,
      mlog_open m = false -> snd (page_cur_delete_rec b r i o m) = m) ->
  m_log (fst (delete_rec_list_end_some fuel rec block index n_recs size mtr))
  = m_log (page_delete_rec_list_write_log rec index
             (if negb (page_is_comp (buf_block_get_frame block) =? 0)
              then MLOG_COMP_LIST_END_DELETE else MLOG_LIST_END_DELETE) mtr).
Proof.
  intros Hcur. unfold delete_rec_list_end_some.
  destruct (page_header_set_ptr (buf_block_get_frame block)
              (buf_block_get_page_zip block) PAGE_LAST_INSERT NULL)
    as [page page_zip] eqn:E.
  assert (Hc : page_is_comp page = page_is_comp (buf_block_get_frame block)).
  { replace page with (fst (page_header_set_ptr (buf_block_get_frame block)
                              (buf_block_get_page_zip block) PAGE_LAST_INSERT NULL))
      by now rewrite E.
    unfold page_header_set_ptr. apply page_is_comp_ext;
      apply header_field_set_frame; unfold PAGE_HEADER, PAGE_LAST_INSERT, PAGE_N_HEAP; lia. }
  rewrite Hc.
  set (mtr1 := page_delete_rec_list_write_log _ _ _ mtr).
  destruct page_zip as [z|]; [|reflexivity].
  destruct (page_is_comp (buf_block_get_frame block) =? 0); [reflexivity|].
  pose proof (mtr_set_log_mode_log mtr1 MTR_LOG_NONE) as Hl.
  pose proof (mtr_set_log_mode_none mtr1) as Hn.
  destruct (mtr_set_log_mode mtr1 MTR_LOG_NONE) as [log_mode mtr2].
  cbn [snd] in Hl, Hn.
  pose proof (delete_rec_loop_no_log fuel Hcur rec
                (buf_block_modify_clock_inc (mk_block page (Some z) (modify_clock block)))
                index (rec_offs_set_n_alloc offsets_ REC_OFFS_NORMAL_SIZE)
                mtr2 Hn) as Hd.
  destruct (delete_rec_loop _ _ _ _ _ mtr2) as [mtr3 [b|]]; cbn [fst] in Hd; subst mtr3.
  - cbn [fst]. now rewrite mtr_set_log_mode_log.
  - cbn [fst]. exact Hl.
Qed.

(** C10.  Supremum no-op: called with the supremum record of the page,
    [page_delete_rec_list_end] returns at once; the block it leaves is the
    block it was given, so that no byte of the page has changed, and the
    mini-transaction is the one it was given, so that no log record has
    been written. *)
Theorem page_delete_rec_list_end_supremum fuel block index n_recs size mtr :
  page_delete_rec_list_end fuel
    (page_get_supremum_rec (buf_block_get_frame block)) block index n_recs
    size mtr
  = (mtr, Some block).
Proof.
  unfold page_delete_rec_list_end, page_get_supremum_rec, page_rec_is_supremum.
  destruct (negb (page_is_comp (buf_block_get_frame block) =? 0)); reflexivity.
Qed.

(** C8.  Delete-list-end logging, for a mini-transaction that logs: a call
    of [page_delete_rec_list_end] outside recovery that deletes a proper,
    non-empty tail of the user records ([rec] is neither the supremum, nor
    the infimum, nor the first user record, and [n_recs] is not the number
    of records of the page) adds exactly one record to the log of the
    mini-transaction, of type MLOG_COMP_LIST_END_DELETE for a compact page
    and MLOG_LIST_END_DELETE otherwise, whose two bytes hold the page
    offset of [rec], the most significant byte first.  Nothing else is
    written, whether the records are unlinked in one step or, on a
    compressed page, deleted one by one with logging switched off, which
    [page_cur_delete_rec] is taken to respect. *)
Theorem page_delete_rec_list_end_log fuel rec block index n_recs size mtr
    first :
  let page := buf_block_get_frame block in
  let comp := negb (page_is_comp page =? 0) in
  (forall b r i o m,
      mlog_open m = false -> snd (page_cur_delete_rec b r i o m) = m) ->
  recv_recovery_is_on = false ->
  mlog_open mtr = true ->
  page_rec_is_supremum rec = false ->
  page_rec_is_infimum rec = false ->
  n_recs <> page_get_n_recs page ->
  page_rec_get_next_low page (page_get_infimum_rec page) comp = Some first ->
  first <> rec ->
  0 <= rec < 65536 ->
  exists b1 b2,
    m_log (fst (page_delete_rec_list_end fuel rec block index n_recs size mtr))
    = m_log mtr
      ++ [mk_mlog (if comp then MLOG_COMP_LIST_END_DELETE
                   else MLOG_LIST_END_DELETE) [b1; b2]]
    /\ Z_of_byte b1 * 256 + Z_of_byte b2 = rec.
Proof.
  intros page comp Hcur Hrecv Hopen Hsup Hinf Hn Hfirst Hne Hrec.
  destruct (mach_bytes_2_value rec Hrec) as (b1 & b2 & Hb & Hv).
  exists b1, b2. split; [|exact Hv].
  assert (Hsome :
    page_delete_rec_list_end fuel rec block index n_recs size mtr
    = delete_rec_list_end_some fuel rec block index n_recs size mtr).
  { unfold page_delete_rec_list_end. rewrite Hsup, Hrecv, Hinf.
    fold page. replace (n_recs =? page_get_n_recs page) with false
      by (symmetry; now apply Z.eqb_neq).
    cbn [orb]. unfold page_get_infimum_rec in Hfirst. subst comp.
    destruct (negb (page_is_comp page =? 0)); rewrite Hfirst;
      now replace (first =? rec) with false by (symmetry; now apply Z.eqb_neq). }
  rewrite Hsome, (delete_rec_list_end_some_log _ _ _ _ _ _ _ Hcur).
  fold page. fold comp. rewrite write_log_open by assumption.
  cbn [m_log]. now rewrite Hb.
Qed.


(** *** The page that [page_create_empty] leaves *)

Lemma read4_write4_same m a n :
  mach_read_from_4 (mach_write_to_4 m a n) a = n mod 2 ^ 32.
Proof.
  unfold mach_read_from_4, mach_write_to_4.
  rewrite read2_write2_same, read2_write2_other, read2_write2_same by lia.
  rewrite lor_shiftl_add by (try lia; apply Z.mod_pos_bound; lia).
  rewrite Z.shiftr_div_pow2 by lia.
  change (2 ^ 16) with 65536. change (2 ^ 32) with 4294967296.
  div_mod_eqs. lia.
Qed.

Lemma read4_write4_other m a b n :
  a + 3 < b \/ b + 3 < a ->
  mach_read_from_4 (mach_write_to_4 m b n) a = mach_read_from_4 m a.
Proof.
  intros H. unfold mach_read_from_4, mach_write_to_4.
  now rewrite !read2_write2_other by lia.
Qed.

Lemma read4_range m a : 0 <= mach_read_from_4 m a < 2 ^ 32.
Proof.
  unfold mach_read_from_4.
  pose proof (read2_range m a). pose proof (read2_range m (a + 2)).
  rewrite lor_shiftl_add by lia. change (2 ^ 16) with 65536.
  change (2 ^ 32) with 4294967296. lia.
Qed.

Lemma read8_write8_same m a n :
  mach_read_from_8 (mach_write_to_8 m a n) a = n mod 2 ^ 64.
Proof.
  unfold mach_read_from_8, mach_write_to_8.
  rewrite read4_write4_same, read4_write4_other, read4_write4_same by lia.
  rewrite lor_shiftl_add by (try lia; apply Z.mod_pos_bound; lia).
  rewrite Z.shiftr_div_pow2 by lia.
  change (2 ^ 32) with 4294967296. change (2 ^ 64) with 18446744073709551616.
  div_mod_eqs. lia.
Qed.

Lemma read8_range m a : 0 <= mach_read_from_8 m a < 2 ^ 64.
Proof.
  unfold mach_read_from_8.
  pose proof (read4_range m a). pose proof (read4_range m (a + 4)).
  rewrite lor_shiftl_add by lia.
  change (2 ^ 32) with 4294967296 in *.
  change (2 ^ 64) with 18446744073709551616. lia.
Qed.

(** Settles the comparisons of addresses that reading a byte through a
    sequence of stores comes down to. *)
Ltac settle_cmp :=
  repeat match goal with
         | |- context [Z.eqb ?a ?b] =>
           first [ rewrite (proj2 (Z.eqb_neq a b)) by lia
                 | rewrite (proj2 (Z.eqb_eq a b)) by lia ]
         | |- context [Z.leb ?a ?b] =>
           first [ rewrite (proj2 (Z.leb_le a b)) by lia
                 | rewrite (proj2 (Z.leb_gt a b)) by lia ]
         | |- context [Z.ltb ?a ?b] =>
           first [ rewrite (proj2 (Z.ltb_lt a b)) by lia
                 | rewrite (proj2 (Z.ltb_ge a b)) by lia ]
         end.

Ltac read_bytes :=
  cbv [mach_read_from_8 mach_read_from_4 mach_read_from_2 mach_read_from_1
       mach_write_to_8 mach_write_to_4 mach_write_to_2 mach_write_to_1
       fil_page_set_type memset memcpy
       PAGE_HEADER PAGE_N_DIR_SLOTS PAGE_HEAP_TOP PAGE_N_HEAP PAGE_FREE
       PAGE_GARBAGE PAGE_LAST_INSERT PAGE_DIRECTION PAGE_N_DIRECTION
       PAGE_N_RECS PAGE_MAX_TRX_ID PAGE_HEADER_PRIV_END PAGE_LEVEL
       PAGE_INDEX_ID PAGE_DATA PAGE_OLD_INFIMUM PAGE_OLD_SUPREMUM
       PAGE_OLD_SUPREMUM_END PAGE_NEW_INFIMUM PAGE_NEW_SUPREMUM
       PAGE_NEW_SUPREMUM_END PAGE_DIR PAGE_DIR_SLOT_SIZE FIL_PAGE_TYPE
       REC_N_OLD_EXTRA_BYTES REC_N_NEW_EXTRA_BYTES REC_NEXT];
  settle_cmp; cbn [andb orb negb].

(** The header and the two records of the page [page_create_low] sets up,
    as far as the properties below read them. *)
Lemma page_create_low_n_recs block comp is_rtree :
  4096 <= UNIV_PAGE_SIZE ->
  page_get_n_recs (buf_block_get_frame (page_create_low block comp is_rtree)) = 0.
Proof.
  intros Hs. unfold page_get_n_recs, page_header_get_field, page_create_low.
  cbn [buf_block_get_frame buf_block_modify_clock_inc].
  destruct (negb (comp =? 0)), is_rtree; read_bytes; reflexivity.
Qed.

Lemma page_create_low_max_trx_id block comp is_rtree :
  4096 <= UNIV_PAGE_SIZE ->
  page_get_max_trx_id (buf_block_get_frame (page_create_low block comp is_rtree))
  = 0.
Proof.
  intros Hs. unfold page_get_max_trx_id, page_create_low.
  cbn [buf_block_get_frame buf_block_modify_clock_inc].
  destruct (negb (comp =? 0)), is_rtree; read_bytes; reflexivity.
Qed.

Lemma page_create_low_is_comp block comp is_rtree :
  4096 <= UNIV_PAGE_SIZE ->
  page_is_comp (buf_block_get_frame (page_create_low block comp is_rtree))
  = if negb (comp =? 0) then 0x8000 else 0.
Proof.
  intros Hs. unfold page_is_comp, page_header_get_field, page_create_low.
  cbn [buf_block_get_frame buf_block_modify_clock_inc].
  destruct (negb (comp =? 0)), is_rtree; read_bytes; reflexivity.
Qed.

Lemma page_create_low_next block comp is_rtree :
  4096 <= UNIV_PAGE_SIZE ->
  let page := buf_block_get_frame (page_create_low block comp is_rtree) in
  mach_read_from_2 page (page_get_infimum_rec page - REC_NEXT)
  = if negb (comp =? 0) then PAGE_NEW_SUPREMUM - PAGE_NEW_INFIMUM
    else PAGE_OLD_SUPREMUM.
Proof.
  intros Hs page. subst page. unfold page_get_infimum_rec.
  rewrite page_create_low_is_comp by assumption.
  unfold page_create_low.
  cbn [buf_block_get_frame buf_block_modify_clock_inc].
  destruct (negb (comp =? 0)), is_rtree; cbn [Z.eqb negb]; read_bytes;
    reflexivity.
Qed.

Lemma write4_other m a b n :
  a < b \/ b + 3 < a -> mach_write_to_4 m b n a = m a.
Proof.
  intros H. unfold mach_write_to_4. now rewrite !write2_other by lia.
Qed.

Lemma write8_other m a b n :
  a < b \/ b + 7 < a -> mach_write_to_8 m b n a = m a.
Proof.
  intros H. unfold mach_write_to_8. now rewrite !write4_other by lia.
Qed.

(** The transaction id [page_create_empty] keeps. *)
Definition kept_max_trx_id (page : mem) (index : dict_index_t) : Z :=
  if dict_index_is_sec_or_ibuf index
     && negb (dict_table_is_temporary index)
     && page_is_leaf page
  then page_get_max_trx_id page
  else 0.

(** The frame [page_create_empty] leaves is the one [page_create_low] sets
    up, but for the level and the maximum transaction id. *)
Lemma page_create_empty_frame block index mtr block' :
  4096 <= UNIV_PAGE_SIZE ->
  snd (page_create_empty block index mtr) = Some block' ->
  exists comp,
    (forall a,
        a < PAGE_HEADER + PAGE_MAX_TRX_ID \/ PAGE_HEADER + PAGE_INDEX_ID <= a ->
        buf_block_get_frame block' a
        = buf_block_get_frame
            (page_create_low block comp (dict_index_is_spatial index)) a)
    /\ page_get_max_trx_id (buf_block_get_frame block')
       = kept_max_trx_id (buf_block_get_frame block) index.
Proof.
  intros Hs. unfold page_create_empty. fold (kept_max_trx_id (buf_block_get_frame block) index).
  assert (Hk : 0 <= kept_max_trx_id (buf_block_get_frame block) index < 2 ^ 64).
  { unfold kept_max_trx_id.
    destruct (dict_index_is_sec_or_ibuf index
              && negb (dict_table_is_temporary index)
              && page_is_leaf (buf_block_get_frame block));
      [exact (read8_range _ _) |].
    change (2 ^ 64) with 18446744073709551616. lia. }
  change (2 ^ 64) with 18446744073709551616 in Hk.
  set (k := kept_max_trx_id (buf_block_get_frame block) index) in *.
  clearbody k.
  destruct (buf_block_get_page_zip block) as [z|] eqn:Ez.
  - unfold page_create_zip. rewrite Ez.
    set (page1 := mach_write_to_8 _ _ k).
    assert (Hzip : forall b : buf_block_t,
               buf_block_get_frame b = page1 ->
               exists comp : Z,
                 (forall a,
                     a < PAGE_HEADER + PAGE_MAX_TRX_ID
                     \/ PAGE_HEADER + PAGE_INDEX_ID <= a ->
                     buf_block_get_frame b a
                     = buf_block_get_frame
                         (page_create_low block comp (dict_index_is_spatial index)) a)
                 /\ page_get_max_trx_id (buf_block_get_frame b) = k).
    { intros b ->. exists 1. split.
      - intros a Ha. subst page1.
        unfold PAGE_HEADER, PAGE_MAX_TRX_ID, PAGE_INDEX_ID, PAGE_LEVEL in *.
        rewrite write8_other, write2_other by lia. reflexivity.
      - subst page1. unfold page_get_max_trx_id.
        rewrite read8_write8_same.
        change (2 ^ 64) with 18446744073709551616. apply Z.mod_small. exact Hk. }
    destruct truncate_s_fix_up_active.
    + destruct (page_zip_compress z page1 index None) as [[ok z'] m'].
      destruct ok; cbn [negb snd]; [|discriminate].
      intros [= <-]. now apply Hzip.
    + destruct (page_zip_compress z page1 index (Some mtr)) as [[ok z'] m'].
      destruct ok; cbn [negb snd]; [|discriminate].
      intros [= <-]. now apply Hzip.
  - unfold page_create, page_update_max_trx_id, page_set_max_trx_id,
      mlog_write_ull.
    rewrite page_create_low_max_trx_id by assumption.
    destruct (Z.eqb_spec k 0) as [E|E]; cbn [negb snd].
    + intros [= <-]. exists (page_is_comp (buf_block_get_frame block)).
      split; [reflexivity|]. rewrite E. now apply page_create_low_max_trx_id.
    + replace (0 <? k) with true by (symmetry; apply Z.ltb_lt; lia).
      cbn [snd]. intros [= <-]. cbn [buf_block_get_frame].
      exists (page_is_comp (buf_block_get_frame block)). split.
      * intros a Ha. unfold PAGE_HEADER, PAGE_MAX_TRX_ID, PAGE_INDEX_ID in *.
        now rewrite write8_other by lia.
      * unfold page_get_max_trx_id. rewrite read8_write8_same.
        change (2 ^ 64) with 18446744073709551616. apply Z.mod_small. exact Hk.
Qed.

(** A page [page_create_empty] has returned holds no user record: the
    header counts none, and the supremum follows the infimum. *)
Lemma page_create_empty_no_recs block index mtr block' :
  4096 <= UNIV_PAGE_SIZE ->
  snd (page_create_empty block index mtr) = Some block' ->
  let page' := buf_block_get_frame block' in
  page_get_n_recs page' = 0
  /\ page_rec_get_next page' (page_get_infimum_rec page')
     = Some (page_get_supremum_rec page').
Proof.
  intros Hs He page'.
  destruct (page_create_empty_frame _ _ _ _ Hs He) as (comp & Hf & _).
  fold page' in Hf.
  set (low := buf_block_get_frame
                (page_create_low block comp (dict_index_is_spatial index))) in *.
  assert (Hc : page_is_comp page' = if negb (comp =? 0) then 0x8000 else 0).
  { rewrite <- (page_create_low_is_comp block comp (dict_index_is_spatial index)) by assumption.
    apply page_is_comp_ext; apply Hf; unfold PAGE_HEADER, PAGE_N_HEAP, PAGE_MAX_TRX_ID; lia. }
  split.
  - rewrite <- (page_create_low_n_recs block comp (dict_index_is_spatial index)) by assumption.
    unfold page_get_n_recs, page_header_get_field.
    apply read2_ext; apply Hf; unfold PAGE_HEADER, PAGE_N_RECS, PAGE_MAX_TRX_ID; lia.
  - pose proof (page_create_low_next block comp (dict_index_is_spatial index) Hs) as Hn.
    cbv zeta in Hn. fold low in Hn.
    assert (Hi : page_get_infimum_rec page' = page_get_infimum_rec low).
    { unfold page_get_infimum_rec. rewrite Hc. subst low.
      now rewrite page_create_low_is_comp by assumption. }
    assert (Hr : mach_read_from_2 page' (page_get_infimum_rec page' - REC_NEXT)
                 = mach_read_from_2 low (page_get_infimum_rec low - REC_NEXT)).
    { rewrite Hi. unfold page_get_infimum_rec. subst low.
      rewrite page_create_low_is_comp by assumption.
      apply read2_ext; apply Hf;
        destruct (negb (comp =? 0)); cbn;
        unfold PAGE_HEADER, PAGE_INDEX_ID, PAGE_NEW_INFIMUM, PAGE_OLD_INFIMUM, PAGE_DATA,
          REC_N_NEW_EXTRA_BYTES, REC_N_OLD_EXTRA_BYTES, REC_NEXT; lia. }
    rewrite Hn in Hr.
    unfold page_rec_get_next, page_rec_get_next_low, rec_get_next_offs.
    rewrite Hr. unfold page_get_infimum_rec, page_get_supremum_rec. rewrite Hc.
    destruct (negb (comp =? 0)); cbn [Z.eqb negb].
    + change (PAGE_NEW_SUPREMUM - PAGE_NEW_INFIMUM) with 13.
      change PAGE_NEW_INFIMUM with 99. change PAGE_NEW_SUPREMUM with 112.
      change NULL with 0. change (99 + 13) with 112.
      rewrite Z.mod_small by lia. settle_cmp. reflexivity.
    + change PAGE_OLD_SUPREMUM with 116. change NULL with 0.
      settle_cmp. reflexivity.
Qed.

(** C7.  Delete-all equivalence, for a [rec] that is not the supremum:
    outside redo-log recovery, [page_delete_rec_list_end] called at the
    first user record of the page, or at the infimum, or with [n_recs]
    equal to the number of records on the page, does what
    [page_create_empty] does: the block and the mini-transaction it leaves
    are those [page_create_empty] leaves.  That page is empty (it counts no
    record and its infimum is followed by its supremum), and its
    [max_trx_id] is the one the page had if the page was a leaf page of a
    secondary index of a table that is not temporary. *)
Theorem page_delete_rec_list_end_all fuel rec block index n_recs size mtr :
  let page := buf_block_get_frame block in
  let comp := negb (page_is_comp page =? 0) in
  4096 <= UNIV_PAGE_SIZE ->
  recv_recovery_is_on = false ->
  page_rec_is_supremum rec = false ->
  page_rec_get_next_low page (page_get_infimum_rec page) comp = Some rec
  \/ page_rec_is_infimum rec = true
  \/ n_recs = page_get_n_recs page ->
  page_delete_rec_list_end fuel rec block index n_recs size mtr
  = page_create_empty block index mtr
  /\ forall block',
       snd (page_create_empty block index mtr) = Some block' ->
       let page' := buf_block_get_frame block' in
       page_get_n_recs page' = 0
       /\ page_rec_get_next page' (page_get_infimum_rec page')
          = Some (page_get_supremum_rec page')
       /\ (dict_index_is_sec_or_ibuf index = true ->
           dict_table_is_temporary index = false ->
           page_is_leaf page = true ->
           page_get_max_trx_id page' = page_get_max_trx_id page).
Proof.
  intros page comp Hs Hrecv Hsup Hall. split.
  - unfold page_delete_rec_list_end. rewrite Hsup, Hrecv. fold page.
    destruct (page_rec_is_infimum rec || (n_recs =? page_get_n_recs page)) eqn:E;
      [reflexivity|].
    apply Bool.orb_false_iff in E. destruct E as [Ei En].
    apply Z.eqb_neq in En.
    destruct Hall as [Hf | [Hi | Hn]]; [| congruence | contradiction].
    unfold page_get_infimum_rec in Hf. subst comp.
    destruct (negb (page_is_comp page =? 0)); rewrite Hf, Z.eqb_refl;
      reflexivity.
  - intros block' He page'.
    destruct (page_create_empty_no_recs _ _ _ _ Hs He) as [H1 H2].
    split; [exact H1|]. split; [exact H2|].
    intros Hsec Htemp Hleaf.
    destruct (page_create_empty_frame _ _ _ _ Hs He) as (c & _ & Hm).
    fold page' page in Hm. rewrite Hm. unfold kept_max_trx_id.
    now rewrite Hsec, Htemp, Hleaf.
Qed.

(** *** Setting the maximum transaction id *)

(** [page_set_max_trx_id] stores the transaction id where
    [page_get_max_trx_id] reads it back, and changes no other byte of the
    frame.  On a page that is not compressed, a mini-transaction that logs
    gets one MLOG_8BYTES record of the offset of the field and of the
    value, and one that does not log stays as it is. *)
Theorem page_set_max_trx_id_spec block page_zip trx_id mtr :
  let r := page_set_max_trx_id block page_zip trx_id mtr in
  let page' := buf_block_get_frame (fst r) in
  page_get_max_trx_id page' = trx_id mod 2 ^ 64
  /\ (forall a,
        a < PAGE_HEADER + PAGE_MAX_TRX_ID
        \/ PAGE_HEADER + PAGE_MAX_TRX_ID + 8 <= a ->
        page' a = buf_block_get_frame block a)
  /\ modify_clock (fst r) = modify_clock block
  /\ (page_zip = None ->
      buf_block_get_page_zip (fst r) = buf_block_get_page_zip block
      /\ snd r
         = match mtr with
           | Some mtr =>
             Some (if mlog_open mtr
                   then mk_mtr (m_log_mode mtr)
                          (m_log mtr
                           ++ [mk_mlog MLOG_8BYTES
                                 (mach_bytes_2 (PAGE_HEADER + PAGE_MAX_TRX_ID)
                                  ++ mach_u64_write_compressed trx_id)])
                   else mtr)
           | None => None
           end).
Proof.
  intros r page'. subst page' r. unfold page_set_max_trx_id, mlog_write_ull.
  destruct page_zip as [z|]; [|destruct mtr as [m|]];
    cbn [fst snd buf_block_get_frame modify_clock buf_block_get_page_zip];
    (split; [unfold page_get_max_trx_id; apply read8_write8_same|]);
    (split; [intros a Ha; apply write8_other; lia|]);
    (split; [reflexivity|]); intros E; try discriminate E;
    split; reflexivity.
Qed.

(** *** Deleting the start of the record list *)

(** The loop [while (page_cur_get_rec(&cur1) != rec)] of
    [page_delete_rec_list_start]: [page_cur_delete_rec] leaves the cursor
    on the record that followed the deleted one. *)
Fixpoint delete_start_loop (fuel : nat) (cur1 rec : Z) (block : buf_block_t)
    (index : dict_index_t) (offsets : offsets_t) (mtr : mtr_t)
    : mtr_t * option buf_block_t :=
  match fuel with
  | O => (mtr, None)
  | S fuel' =>
    if negb (cur1 =? rec) then
      if cur1 =? NULL then (mtr, None)
      else
        match rec_get_offsets (buf_block_get_frame block) cur1 index offsets
                ULINT_UNDEFINED with
        | None => (mtr, None)
        | Some offsets =>
          match page_rec_get_next (buf_block_get_frame block) cur1 with
          | None => (mtr, None)
          | Some next =>
            let '(block, mtr) :=
              page_cur_delete_rec block cur1 index offsets mtr in
            delete_start_loop fuel' next rec block index offsets mtr
          end
        end
    else (mtr, Some block)
  end.

(** [page_delete_rec_list_start(rec, block, index, mtr)]: the
    mini-transaction as the call leaves it and, unless the call stops at
    [ut_error] or the fuel of the loop runs out, the block. *)
Definition page_delete_rec_list_start (fuel : nat) (rec : Z)
    (block : buf_block_t) (index : dict_index_t) (mtr : mtr_t)
    : mtr_t * option buf_block_t :=
  let offsets := rec_offs_set_n_alloc offsets_ REC_OFFS_NORMAL_SIZE in
  if page_rec_is_infimum rec then (mtr, Some block)
  else if page_rec_is_supremum rec then
    (* We are deleting all records. *)
    page_create_empty block index mtr
  else
    let type :=
      if negb (page_is_comp (buf_block_get_frame block) =? 0)
      then MLOG_COMP_LIST_START_DELETE
      else MLOG_LIST_START_DELETE in
    let mtr := page_delete_rec_list_write_log rec index type mtr in
    match page_rec_get_next (buf_block_get_frame block)
            (page_get_infimum_rec (buf_block_get_frame block)) with
    | None => (mtr, None)
    | Some cur1 =>
      (* Individual deletes are not logged *)
      let '(log_mode, mtr) := mtr_set_log_mode mtr MTR_LOG_NONE in
      match delete_start_loop fuel cur1 rec block index offsets mtr with
      | (mtr, Some block) =>
        (* Restore log mode *)
        (snd (mtr_set_log_mode mtr log_mode), Some block)
      | (mtr, None) => (mtr, None)
      end
    end.

(** [page_parse_delete_rec_list(type, ptr, end_ptr, block, index, mtr)]
    over the buffer [log] of the log record; [block] is [None] for NULL.
    The result is the mini-transaction as the call leaves it and, unless
    the call stops, the pointer returned and the block. *)
Definition page_parse_delete_rec_list (fuel : nat) (type : mlog_id_t)
    (log : mem) (ptr end_ptr : Z) (block : option buf_block_t)
    (index : dict_index_t) (mtr : mtr_t)
    : mtr_t * option (Z * option buf_block_t) :=
  (* Read the record offset as a 2-byte ulint *)
  if end_ptr <? ptr + 2 then (mtr, Some (NULL, block))
  else
    let offset := mach_read_from_2 log ptr in
    let ptr := ptr + 2 in
    match block with
    | None => (mtr, Some (ptr, None))
    | Some block =>
      let '(mtr, block) :=
        match type with
        | MLOG_LIST_END_DELETE | MLOG_COMP_LIST_END_DELETE =>
          page_delete_rec_list_end fuel offset block index ULINT_UNDEFINED
            ULINT_UNDEFINED mtr
        | _ => page_delete_rec_list_start fuel offset block index mtr
        end in
      (mtr,
       match block with
       | Some block => Some (ptr, Some block)
       | None => None
       end)
    end.

Lemma delete_start_loop_no_log fuel :
  (forall b r i o m,
      mlog_open m = false -> snd (page_cur_delete_rec b r i o m) = m) ->
  forall cur1 rec block index offsets mtr,
    mlog_open mtr = false ->
    fst (delete_start_loop fuel cur1 rec block index offsets mtr) = mtr.
Proof.
  intros Hcur.
  induction fuel as [|fuel IH]; intros cur1 rec block index offsets mtr Hm.
  - reflexivity.
  - cbn [delete_start_loop].
    destruct (negb (cur1 =? rec)); [|reflexivity].
    destruct (cur1 =? NULL); [reflexivity|].
    destruct (rec_get_offsets _ cur1 index offsets ULINT_UNDEFINED) as [o|];
      [|reflexivity].
    destruct (page_rec_get_next _ cur1) as [next|]; [|reflexivity].
    pose proof (Hcur block cur1 index o mtr Hm) as Hc.
    destruct (page_cur_delete_rec block cur1 index o mtr) as [b m].
    cbn [snd] in Hc. subst m. now apply IH.
Qed.

(** [page_delete_rec_list_start] at the ends of the list and in between.
    At the infimum it returns at once: the block and the mini-transaction
    stay as they are.  At the supremum it does what [page_create_empty]
    does.  At any other record, with a mini-transaction that logs, it adds
    exactly one record to the log, of type MLOG_COMP_LIST_START_DELETE for
    a compact page and MLOG_LIST_START_DELETE otherwise, whose two bytes
    hold the page offset of [rec]; the deletes of the single records are
    not logged, [page_cur_delete_rec] being taken to write nothing while
    logging is switched off. *)
Theorem page_delete_rec_list_start_spec fuel rec block index mtr :
  let page := buf_block_get_frame block in
  let comp := negb (page_is_comp page =? 0) in
  let r := page_delete_rec_list_start fuel rec block index mtr in
  (forall b r i o m,
      mlog_open m = false -> snd (page_cur_delete_rec b r i o m) = m) ->
  0 <= rec < 65536 ->
  (page_rec_is_infimum rec = true -> r = (mtr, Some block))
  /\ (page_rec_is_infimum rec = false -> page_rec_is_supremum rec = true ->
      r = page_create_empty block index mtr)
  /\ (page_rec_is_infimum rec = false -> page_rec_is_supremum rec = false ->
      m_log (fst r)
      = m_log mtr
        ++ (if mlog_open mtr
            then [mk_mlog (if comp then MLOG_COMP_LIST_START_DELETE
                           else MLOG_LIST_START_DELETE) (mach_bytes_2 rec)]
            else [])
      /\ exists b1 b2,
           mach_bytes_2 rec = [b1; b2]
           /\ Z_of_byte b1 * 256 + Z_of_byte b2 = rec).
Proof.
  intros page comp r Hcur Hrec. subst r.
  unfold page_delete_rec_list_start. fold page.
  split; [now intros ->|]. split; [now intros -> ->|].
  intros -> ->. split; [|now apply mach_bytes_2_value].
  fold comp.
  set (type := if comp then MLOG_COMP_LIST_START_DELETE
               else MLOG_LIST_START_DELETE).
  assert (Hlog : m_log (page_delete_rec_list_write_log rec index type mtr)
                 = m_log mtr
                   ++ (if mlog_open mtr then [mk_mlog type (mach_bytes_2 rec)]
                       else [])).
  { destruct (mlog_open mtr) eqn:Eo.
    - now rewrite write_log_open.
    - rewrite write_log_closed by assumption. now rewrite app_nil_r. }
  set (mtr1 := page_delete_rec_list_write_log rec index type mtr) in *.
  destruct (page_rec_get_next page (page_get_infimum_rec page)) as [cur1|];
    [|exact Hlog].
  pose proof (mtr_set_log_mode_log mtr1 MTR_LOG_NONE) as Hl.
  pose proof (mtr_set_log_mode_none mtr1) as Hn.
  destruct (mtr_set_log_mode mtr1 MTR_LOG_NONE) as [log_mode mtr2].
  cbn [snd] in Hl, Hn.
  pose proof (delete_start_loop_no_log fuel Hcur cur1 rec block index
                (rec_offs_set_n_alloc offsets_ REC_OFFS_NORMAL_SIZE) mtr2 Hn)
    as Hd.
  destruct (delete_start_loop _ _ _ _ _ _ mtr2) as [mtr3 [b|]];
    cbn [fst] in Hd |- *; subst mtr3.
  - rewrite mtr_set_log_mode_log. congruence.
  - congruence.
Qed.

(** Replaying the log record of a bulk delete.  The two bytes that
    [page_delete_rec_list_write_log] wrote for [rec] are read back as the
    offset of [rec]: with a block, [page_parse_delete_rec_list] calls
    [page_delete_rec_list_end] (for the two types of a delete of the end of
    the list) or [page_delete_rec_list_start] at [rec], with the number
    and the size of the records not known, and returns the pointer behind
    the two bytes; with no block it only returns that pointer.  A buffer
    that holds fewer than two bytes makes it return [NULL] and change
    nothing. *)
Theorem page_parse_delete_rec_list_spec fuel type log ptr end_ptr block index
    mtr rec :
  0 <= rec < 65536 ->
  bytes_at log ptr 2 = mach_bytes_2 rec ->
  (end_ptr < ptr + 2 ->
   page_parse_delete_rec_list fuel type log ptr end_ptr block index mtr
   = (mtr, Some (NULL, block)))
  /\ (ptr + 2 <= end_ptr ->
      page_parse_delete_rec_list fuel type log ptr end_ptr None index mtr
      = (mtr, Some (ptr + 2, None))
      /\ forall b,
           block = Some b ->
           let call :=
             match type with
             | MLOG_LIST_END_DELETE | MLOG_COMP_LIST_END_DELETE =>
               page_delete_rec_list_end fuel rec b index ULINT_UNDEFINED
                 ULINT_UNDEFINED mtr
             | _ => page_delete_rec_list_start fuel rec b index mtr
             end in
           page_parse_delete_rec_list fuel type log ptr end_ptr block index mtr
           = (fst call,
              match snd call with
              | Some b' => Some (ptr + 2, Some b')
              | None => None
              end)).
Proof.
  intros Hrec Hb.
  assert (Hr : mach_read_from_2 log ptr = rec).
  { unfold bytes_at, mach_bytes_2 in Hb. cbn [seq map] in Hb.
    injection Hb as H0 H1. rewrite Z.add_0_r in H0.
    rewrite read2_eq. unfold mach_read_from_1.
    change (Z.of_nat 1) with 1 in H1. rewrite H0, H1, !Z_of_byte_of_Z.
    rewrite Z.shiftr_div_pow2 by lia. change (2 ^ 8) with 256.
    div_mod_eqs. lia. }
  unfold page_parse_delete_rec_list. split.
  - intros H. now replace (end_ptr <? ptr + 2) with true
      by (symmetry; apply Z.ltb_lt; lia).
  - intros H. replace (end_ptr <? ptr + 2) with false
      by (symmetry; apply Z.ltb_ge; lia).
    split; [reflexivity|]. intros b ->. cbv zeta. rewrite Hr.
    destruct type;
      match goal with
      | |- (let '(_, _) := ?c in _) = _ => destruct c as [m' [b'|]]
      end; reflexivity.
Qed.

End Bulk_delete.

(** ** The page that [page_create_low] sets up *)

Ltac settle_cmp' :=
  repeat match goal with
         | |- context [Z.eqb ?a ?b] =>
           first [ rewrite (proj2 (Z.eqb_neq a b)) by lia
                 | rewrite (proj2 (Z.eqb_eq a b)) by lia ]
         | |- context [Z.leb ?a ?b] =>
           first [ rewrite (proj2 (Z.leb_le a b)) by lia
                 | rewrite (proj2 (Z.leb_gt a b)) by lia ]
         | |- context [Z.ltb ?a ?b] =>
           first [ rewrite (proj2 (Z.ltb_lt a b)) by lia
                 | rewrite (proj2 (Z.ltb_ge a b)) by lia ]
         end.

(** Reads the bytes of a frame that a sequence of stores at known offsets
    has set up. *)
Ltac frame_bytes :=
  cbv [mach_read_from_8 mach_read_from_4 mach_read_from_2 mach_read_from_1
       mach_write_to_8 mach_write_to_4 mach_write_to_2 mach_write_to_1
       fil_page_set_type memset memcpy
       page_header_get_field page_dir_get_nth_slot page_dir_slot_get_rec
       rec_get_n_owned_new rec_get_n_owned_old rec_get_bit_field_1
       rec_get_next_offs
       REC_NEW_N_OWNED REC_OLD_N_OWNED REC_N_OWNED_MASK REC_N_OWNED_SHIFT
       PAGE_HEADER PAGE_N_DIR_SLOTS PAGE_HEAP_TOP PAGE_N_HEAP PAGE_FREE
       PAGE_GARBAGE PAGE_LAST_INSERT PAGE_DIRECTION PAGE_N_DIRECTION
       PAGE_N_RECS PAGE_MAX_TRX_ID PAGE_HEADER_PRIV_END PAGE_LEVEL
       PAGE_INDEX_ID PAGE_DATA PAGE_OLD_INFIMUM PAGE_OLD_SUPREMUM
       PAGE_OLD_SUPREMUM_END PAGE_NEW_INFIMUM PAGE_NEW_SUPREMUM
       PAGE_NEW_SUPREMUM_END PAGE_DIR PAGE_DIR_SLOT_SIZE FIL_PAGE_TYPE
       PAGE_HEAP_NO_USER_LOW PAGE_NO_DIRECTION
       REC_N_OLD_EXTRA_BYTES REC_N_NEW_EXTRA_BYTES REC_NEXT];
  settle_cmp'; cbn [andb orb negb].

(** The frame of [page_create_low], with the format settled. *)
Definition created (block : buf_block_t) (comp is_rtree : bool) : mem :=
  buf_block_get_frame
    (page_create_low block (if comp then 1 else 0) is_rtree).

Lemma created_eq block comp is_rtree :
  buf_block_get_frame (page_create_low block comp is_rtree)
  = created block (negb (comp =? 0)) is_rtree.
Proof.
  unfold created, page_create_low.
  destruct (Z.eqb_spec comp 0) as [->|H]; cbn [negb]; [reflexivity|].
  reflexivity.
Qed.

Lemma created_is_comp block comp is_rtree :
  4096 <= UNIV_PAGE_SIZE ->
  page_is_comp (created block comp is_rtree) = if comp then 0x8000 else 0.
Proof.
  intros Hs. unfold created. rewrite page_create_low_is_comp by assumption.
  now destruct comp.
Qed.

Lemma created_dir_valid block comp is_rtree :
  4096 <= UNIV_PAGE_SIZE ->
  let page := created block comp is_rtree in
  page_dir_valid page
    [[page_get_infimum_rec page]; [page_get_supremum_rec page]].
Proof.
  intros Hs page.
  assert (Hc : page_is_comp page = if comp then 0x8000 else 0)
    by now apply created_is_comp.
  assert (Hi : page_get_infimum_rec page
               = if comp then PAGE_NEW_INFIMUM else PAGE_OLD_INFIMUM).
  { unfold page_get_infimum_rec. rewrite Hc. now destruct comp. }
  assert (Hu : page_get_supremum_rec page
               = if comp then PAGE_NEW_SUPREMUM else PAGE_OLD_SUPREMUM).
  { unfold page_get_supremum_rec. rewrite Hc. now destruct comp. }
  rewrite Hi, Hu.
  constructor.
  - rewrite Hi. eexists. reflexivity.
  - intros r Hr. cbn in Hr.
    destruct Hr as [<- | [<- | []]]; destruct comp;
      unfold PAGE_NEW_INFIMUM, PAGE_OLD_INFIMUM, PAGE_NEW_SUPREMUM,
        PAGE_OLD_SUPREMUM, PAGE_DATA, PAGE_HEADER, REC_N_NEW_EXTRA_BYTES,
        REC_N_OLD_EXTRA_BYTES; lia.
  - cbn [concat app]. constructor.
    + intros [E | []]. destruct comp; discriminate E.
    + constructor; [intros [] | constructor].
  - intros i g Hg.
    destruct i as [|[|i]]; cbn in Hg; [| |destruct i; discriminate];
      injection Hg as <-; (split; [discriminate|]); cbn [last];
      subst page; unfold created, page_create_low;
      cbn [buf_block_get_frame buf_block_modify_clock_inc];
      destruct comp, is_rtree; cbn [Z.eqb negb Z.of_nat]; frame_bytes;
      reflexivity.
  - intros g Hg. unfold rec_get_n_owned. rewrite Hc.
    destruct Hg as [<- | [<- | []]]; cbn [last removelast length];
      (split; [|intros r []]);
      subst page; unfold created, page_create_low;
      cbn [buf_block_get_frame buf_block_modify_clock_inc];
      destruct comp, is_rtree; cbn [Z.eqb negb Z.of_nat]; frame_bytes;
      reflexivity.
  - intros p r r' H1 H2. rewrite Hc.
    destruct p as [|[|p]]; cbn in H1, H2; try discriminate.
    injection H1 as <-. injection H2 as <-.
    subst page; unfold created, page_create_low;
      cbn [buf_block_get_frame buf_block_modify_clock_inc];
      destruct comp, is_rtree; cbn [Z.eqb negb];
      change (Z.of_nat (length infimum_supremum_compact)) with 26;
      change (Z.of_nat (length infimum_supremum_redundant)) with 31;
      frame_bytes;
      match goal with
      | |- context [Z.lor ?a ?b] =>
        let v := eval vm_compute in (Z.lor a b) in
        change (Z.lor a b) with v
      end;
      cbn [Z.eqb]; try reflexivity;
      change (99 + 13) with 112; rewrite Z.mod_small by lia; reflexivity.
Qed.

Ltac created_bytes :=
  unfold created, page_create_low;
  cbn [buf_block_get_frame buf_block_modify_clock_inc];
  change (Z.of_nat (length infimum_supremum_compact)) with 26;
  change (Z.of_nat (length infimum_supremum_redundant)) with 31;
  match goal with
  | c : bool, r : bool |- _ => destruct c, r
  end;
  cbn [Z.eqb negb]; frame_bytes.

Lemma created_sup_next block (c r : bool) :
  4096 <= UNIV_PAGE_SIZE ->
  rec_get_next_offs (created block c r)
    (if c then PAGE_NEW_SUPREMUM else PAGE_OLD_SUPREMUM) c = 0.
Proof. intros Hs. created_bytes; reflexivity. Qed.

Lemma created_field block (c r : bool) field :
  4096 <= UNIV_PAGE_SIZE ->
  In field [PAGE_N_DIR_SLOTS; PAGE_HEAP_TOP; PAGE_N_HEAP; PAGE_FREE;
            PAGE_GARBAGE; PAGE_LAST_INSERT; PAGE_DIRECTION; PAGE_N_DIRECTION;
            PAGE_N_RECS] ->
  page_header_get_field (created block c r) field
  = nth (Z.to_nat (field / 2))
      [2; if c then PAGE_NEW_SUPREMUM_END else PAGE_OLD_SUPREMUM_END;
       if c then 0x8000 + PAGE_HEAP_NO_USER_LOW else PAGE_HEAP_NO_USER_LOW;
       0; 0; 0; PAGE_NO_DIRECTION; 0; 0] 0.
Proof.
  intros Hs Hf. cbn [In] in Hf.
  repeat (destruct Hf as [<- | Hf]; [created_bytes; reflexivity|]).
  contradiction.
Qed.

Lemma created_type block (c r : bool) :
  4096 <= UNIV_PAGE_SIZE ->
  mach_read_from_2 (created block c r) FIL_PAGE_TYPE
  = if r then FIL_PAGE_RTREE else FIL_PAGE_INDEX.
Proof. intros Hs. created_bytes; reflexivity. Qed.

Lemma created_max_trx_id block (c r : bool) :
  4096 <= UNIV_PAGE_SIZE -> page_get_max_trx_id (created block c r) = 0.
Proof.
  intros Hs. unfold created. now apply page_create_low_max_trx_id.
Qed.

Lemma created_heap_zero block (c r : bool) a :
  4096 <= UNIV_PAGE_SIZE ->
  (if c then PAGE_NEW_SUPREMUM_END else PAGE_OLD_SUPREMUM_END) <= a
    < page_dir_get_nth_slot 1 ->
  created block c r a = x00.
Proof.
  intros Hs Ha. unfold page_dir_get_nth_slot in Ha.
  unfold created, page_create_low.
  cbn [buf_block_get_frame buf_block_modify_clock_inc].
  destruct c, r; cbn [Z.eqb negb] in *;
    unfold PAGE_NEW_SUPREMUM_END, PAGE_OLD_SUPREMUM_END, PAGE_NEW_SUPREMUM,
      PAGE_OLD_SUPREMUM, PAGE_DATA, PAGE_HEADER, PAGE_DIR, PAGE_DIR_SLOT_SIZE,
      REC_N_NEW_EXTRA_BYTES, REC_N_OLD_EXTRA_BYTES in *;
    rewrite !write1_other by lia; apply memset_in; lia.
Qed.

Lemma created_frame block (c r : bool) a :
  4096 <= UNIV_PAGE_SIZE ->
  a < FIL_PAGE_TYPE \/ FIL_PAGE_TYPE + 2 <= a < PAGE_HEADER
  \/ PAGE_HEADER + PAGE_HEADER_PRIV_END <= a < PAGE_DATA
  \/ UNIV_PAGE_SIZE - PAGE_DIR <= a ->
  created block c r a = buf_block_get_frame block a.
Proof.
  intros Hs Ha.
  unfold created, page_create_low.
  cbn [buf_block_get_frame buf_block_modify_clock_inc].
  change (Z.of_nat (length infimum_supremum_compact)) with 26.
  change (Z.of_nat (length infimum_supremum_redundant)) with 31.
  destruct c, r; cbn [Z.eqb negb] in *;
    unfold fil_page_set_type, PAGE_NEW_SUPREMUM_END, PAGE_OLD_SUPREMUM_END,
      PAGE_NEW_SUPREMUM, PAGE_OLD_SUPREMUM, PAGE_DATA, PAGE_HEADER, PAGE_DIR,
      PAGE_DIR_SLOT_SIZE, REC_N_NEW_EXTRA_BYTES, REC_N_OLD_EXTRA_BYTES,
      FIL_PAGE_TYPE, PAGE_HEADER_PRIV_END, PAGE_N_DIR_SLOTS, PAGE_DIRECTION,
      PAGE_N_HEAP, PAGE_HEAP_TOP in *;
    rewrite !write1_other by lia;
    rewrite memset_out, memcpy_out by lia;
    rewrite !write1_other by lia;
    rewrite memset_out by lia;
    rewrite write2_other by lia; reflexivity.
Qed.

(** The page [page_create_low] sets up is a well-formed empty page: the
    directory has the two slots of the infimum and of the supremum, each
    owning itself, the supremum follows the infimum and ends the list, the
    header counts no record and no garbage, and the heap ends at the end of
    the supremum, with nothing but zeros up to the directory.  The type of
    the page is set, the modify clock is incremented, and the frame keeps
    its bytes outside the page type, the private part of the header, the
    records and the directory. *)
Theorem page_create_low_spec block comp is_rtree :
  4096 <= UNIV_PAGE_SIZE ->
  let block' := page_create_low block comp is_rtree in
  let page := buf_block_get_frame block' in
  let new := negb (comp =? 0) in
  page_dir_valid page
    [[page_get_infimum_rec page]; [page_get_supremum_rec page]]
  /\ negb (page_is_comp page =? 0) = new
  /\ rec_get_next_offs page (page_get_supremum_rec page) new = 0
  /\ page_dir_get_n_slots page = 2
  /\ page_get_n_recs page = 0
  /\ page_dir_get_n_heap page = PAGE_HEAP_NO_USER_LOW
  /\ page_header_get_field page PAGE_HEAP_TOP
     = (if new then PAGE_NEW_SUPREMUM_END else PAGE_OLD_SUPREMUM_END)
  /\ page_header_get_ptr page PAGE_FREE = NULL
  /\ page_header_get_field page PAGE_GARBAGE = 0
  /\ page_header_get_ptr page PAGE_LAST_INSERT = NULL
  /\ page_header_get_field page PAGE_DIRECTION = PAGE_NO_DIRECTION
  /\ page_header_get_field page PAGE_N_DIRECTION = 0
  /\ page_get_max_trx_id page = 0
  /\ mach_read_from_2 page FIL_PAGE_TYPE
     = (if is_rtree then FIL_PAGE_RTREE else FIL_PAGE_INDEX)
  /\ modify_clock block' = modify_clock block + 1
  /\ buf_block_get_page_zip block' = buf_block_get_page_zip block
  /\ (forall a,
        page_header_get_field page PAGE_HEAP_TOP <= a
          < page_dir_get_nth_slot 1 ->
        page a = x00)
  /\ (forall a,
        a < FIL_PAGE_TYPE \/ FIL_PAGE_TYPE + 2 <= a < PAGE_HEADER
        \/ PAGE_HEADER + PAGE_HEADER_PRIV_END <= a < PAGE_DATA
        \/ UNIV_PAGE_SIZE - PAGE_DIR <= a ->
        page a = buf_block_get_frame block a).
Proof.
  intros Hs block' page new.
  assert (Hp : page = created block new is_rtree)
    by (subst page block' new; apply created_eq).
  assert (Hc : page_is_comp page = if new then 0x8000 else 0)
    by (rewrite Hp; now apply created_is_comp).
  assert (Hf : forall field,
             In field [PAGE_N_DIR_SLOTS; PAGE_HEAP_TOP; PAGE_N_HEAP; PAGE_FREE;
                       PAGE_GARBAGE; PAGE_LAST_INSERT; PAGE_DIRECTION;
                       PAGE_N_DIRECTION; PAGE_N_RECS] ->
             page_header_get_field page field
             = nth (Z.to_nat (field / 2))
                 [2; if new then PAGE_NEW_SUPREMUM_END else PAGE_OLD_SUPREMUM_END;
                  if new then 0x8000 + PAGE_HEAP_NO_USER_LOW
                  else PAGE_HEAP_NO_USER_LOW;
                  0; 0; 0; PAGE_NO_DIRECTION; 0; 0] 0)
    by (intros field Hin; rewrite Hp; now apply created_field).
  split; [rewrite Hp; now apply created_dir_valid|].
  split; [rewrite Hc; now destruct new|].
  split.
  { unfold page_get_supremum_rec. rewrite Hc, Hp.
    replace (negb ((if new then 32768 else 0) =? 0)) with new
      by now destruct new.
    now apply created_sup_next. }
  unfold page_dir_get_n_slots, page_get_n_recs, page_dir_get_n_heap,
    page_header_get_ptr, page_header_get_offs.
  rewrite !Hf by (cbn [In]; tauto).
  split; [reflexivity|]. split; [reflexivity|].
  split; [now destruct new|]. split; [reflexivity|].
  split; [reflexivity|]. split; [reflexivity|]. split; [reflexivity|].
  split; [reflexivity|]. split; [reflexivity|].
  split; [rewrite Hp; now apply created_max_trx_id|].
  split; [rewrite Hp; now apply created_type|].
  split; [reflexivity|]. split; [reflexivity|].
  split.
  - intros a Ha. rewrite Hp. now apply created_heap_zero.
  - intros a Ha. rewrite Hp. now apply created_frame.
Qed.

(** ** Looking records up *)

(** [rec_get_heap_no_new(rec)], [rec_get_heap_no_old(rec)] and
    [rec_get_deleted_flag(rec, comp)] of rem0rec.ic. *)
Definition rec_get_heap_no_new (page : mem) (rec : Z) : Z :=
  rec_get_bit_field_2 page rec REC_NEW_HEAP_NO REC_HEAP_NO_MASK
    REC_HEAP_NO_SHIFT.

Definition rec_get_heap_no_old (page : mem) (rec : Z) : Z :=
  rec_get_bit_field_2 page rec REC_OLD_HEAP_NO REC_HEAP_NO_MASK
    REC_HEAP_NO_SHIFT.

Definition REC_INFO_DELETED_FLAG : Z := 0x20.

Definition rec_get_deleted_flag (page : mem) (rec : Z) (comp : bool) : Z :=
  if comp
  then rec_get_bit_field_1 page rec REC_NEW_INFO_BITS REC_INFO_DELETED_FLAG
         REC_INFO_BITS_SHIFT
  else rec_get_bit_field_1 page rec REC_OLD_INFO_BITS REC_INFO_DELETED_FLAG
         REC_INFO_BITS_SHIFT.

Definition PAGE_HEAP_NO_SUPREMUM : Z := 1.

(** The loop [for (;;)] of [page_find_rec_with_heap_no], from [rec] on;
    [None] is fuel run out. *)
Fixpoint heap_no_search (page : mem) (comp : bool) (fuel : nat) (rec : Z)
    (heap_no : Z) : option Z :=
  match fuel with
  | O => None
  | S fuel' =>
    let rec_heap_no :=
      if comp then rec_get_heap_no_new page rec
      else rec_get_heap_no_old page rec in
    if rec_heap_no =? heap_no then Some rec
    else if rec_heap_no =? PAGE_HEAP_NO_SUPREMUM then Some NULL
    else heap_no_search page comp fuel' (rec_get_next_offs page rec comp)
           heap_no
  end.

(** [page_find_rec_with_heap_no(page, heap_no)]: the record, or [NULL]. *)
Definition page_find_rec_with_heap_no (page : mem) (fuel : nat) (heap_no : Z)
    : option Z :=
  if negb (page_is_comp page =? 0)
  then heap_no_search page true fuel PAGE_NEW_INFIMUM heap_no
  else heap_no_search page false fuel PAGE_OLD_INFIMUM heap_no.

(** The loop [do { ... } while (rec != page + PAGE_NEW_SUPREMUM)] of
    [page_find_rec_max_not_deleted]; [None] is [ut_error], a null record,
    or fuel run out. *)
Fixpoint not_deleted_search (page : mem) (comp : bool) (fuel : nat)
    (rec prev_rec : Z) : option Z :=
  match fuel with
  | O => None
  | S fuel' =>
    if rec =? NULL then None
    else
      let prev_rec :=
        if rec_get_deleted_flag page rec comp =? 0 then rec else prev_rec in
      match page_rec_get_next_low page rec comp with
      | None => None
      | Some rec =>
        if negb (rec =? (if comp then PAGE_NEW_SUPREMUM else PAGE_OLD_SUPREMUM))
        then not_deleted_search page comp fuel' rec prev_rec
        else Some prev_rec
      end
  end.

(** [page_find_rec_max_not_deleted(page)]. *)
Definition page_find_rec_max_not_deleted (page : mem) (fuel : nat) : option Z :=
  let rec := page_get_infimum_rec page in
  let prev_rec := NULL in
  if negb (page_is_comp page =? 0)
  then not_deleted_search page true fuel rec prev_rec
  else not_deleted_search page false fuel rec prev_rec.

Section Lookup.

Variable page : mem.
Variable groups : list (list Z).
Hypothesis Hv : page_dir_valid page groups.

Lemma valid_size_nonneg : 0 <= UNIV_PAGE_SIZE.
Proof.
  destruct (v_first _ _ Hv) as [rest E].
  assert (Hin : In (page_get_infimum_rec page) (concat groups))
    by (rewrite E; now left).
  pose proof (v_range _ _ Hv _ Hin). lia.
Qed.

Lemma valid_groups_length :
  (length groups <= length (concat groups))%nat
  /\ Z.of_nat (length (concat groups)) <= UNIV_PAGE_SIZE.
Proof.
  split.
  - apply concat_length_ge. intros g Hg.
    destruct (In_nth_error _ _ Hg) as [i Hi].
    now destruct (v_slot _ _ Hv _ _ Hi).
  - apply NoDup_range_length;
      [apply valid_size_nonneg | apply (v_nodup _ _ Hv) | apply (v_range _ _ Hv)].
Qed.

Lemma slot_search_spec mid : forall pre g rest fuel,
  UNIV_PAGE_SIZE <= 65536 ->
  groups = pre ++ g :: mid ++ rest ->
  (length mid < fuel)%nat ->
  slot_search page fuel (last g 0) (page_dir_get_nth_slot 0)
    (page_dir_get_nth_slot (Z.of_nat (length pre + length mid)))
  = Some (Z.of_nat (length pre)).
Proof.
  induction mid as [|h mid IH] using rev_ind; intros pre g rest fuel Hs E Hf;
    (destruct fuel as [|fuel]; [cbn in Hf; lia|]); cbn [slot_search].
  - cbn [app length] in *. rewrite Nat.add_0_r.
    destruct (group_at page groups Hv pre g rest E) as (Hg & Hslot & _).
    unfold page_dir_slot_get_rec in Hslot. rewrite Hslot.
    assert (Hin : In (last g 0) (concat groups)).
    { rewrite E, concat_app. apply in_or_app. right. cbn [concat].
      apply in_or_app. left. now apply last_In. }
    pose proof (v_range _ _ Hv _ Hin) as Hr.
    rewrite Z.mod_small by lia. rewrite Z.eqb_refl. cbn [negb].
    destruct valid_groups_length as [H1 H2].
    assert (Hl : (length pre < length groups)%nat)
      by (rewrite E, length_app; cbn [length]; lia).
    f_equal. unfold page_dir_get_nth_slot, PAGE_DIR_SLOT_SIZE.
    replace (UNIV_PAGE_SIZE - PAGE_DIR - (0 + 1) * 2
             - (UNIV_PAGE_SIZE - PAGE_DIR - (Z.of_nat (length pre) + 1) * 2))
      with (2 * Z.of_nat (length pre)) by lia.
    rewrite Z.mod_small
      by (change (2 ^ 64) with 18446744073709551616; lia).
    rewrite Z.mul_comm. apply Z.div_mul. lia.
  - rewrite <- app_assoc in E. cbn [app] in E.
    assert (E' : groups = (pre ++ g :: mid) ++ h :: rest)
      by (rewrite E, <- app_assoc; reflexivity).
    destruct (group_at page groups Hv _ h rest E') as (Hh & Hslot & _).
    destruct (group_at page groups Hv pre g (mid ++ h :: rest) E)
      as (Hg & _ & _).
    rewrite length_app in *. cbn [length] in *.
    replace (length pre + (length mid + 1))%nat
      with (length pre + S (length mid))%nat in * by lia.
    unfold page_dir_slot_get_rec in Hslot. rewrite Hslot.
    assert (Hin : In (last g 0) (concat groups)).
    { rewrite E, concat_app. apply in_or_app. right. cbn [concat].
      apply in_or_app. left. now apply last_In. }
    pose proof (v_range _ _ Hv _ Hin) as Hr.
    rewrite Z.mod_small by lia.
    pose proof (v_nodup _ _ Hv) as Hnd. rewrite E in Hnd.
    pose proof (groups_last_distinct pre g mid h rest Hnd Hg Hh) as Hne.
    destruct (Z.eqb_spec (last h 0) (last g 0)) as [Eq|_]; [contradiction|].
    cbn [negb].
    destruct (Z.eqb_spec
                (page_dir_get_nth_slot (Z.of_nat (length pre + S (length mid))))
                (page_dir_get_nth_slot 0)) as [Es|_].
    { unfold page_dir_get_nth_slot, PAGE_DIR_SLOT_SIZE in Es. lia. }
    replace (page_dir_get_nth_slot (Z.of_nat (length pre + S (length mid)))
             + PAGE_DIR_SLOT_SIZE)
      with (page_dir_get_nth_slot (Z.of_nat (length pre + length mid)))
      by (unfold page_dir_get_nth_slot, PAGE_DIR_SLOT_SIZE; lia).
    apply (IH pre g (h :: rest) fuel Hs E). lia.
Qed.

Lemma find_owner_slot_valid pre g rest j r fuel :
  UNIV_PAGE_SIZE <= 65536 ->
  page_dir_get_n_slots page = Z.of_nat (length groups) ->
  groups = pre ++ g :: rest ->
  nth_error g j = Some r ->
  (length (concat groups) <= fuel)%nat ->
  page_dir_find_owner_slot page fuel r = Some (Z.of_nat (length pre)).
Proof.
  intros Hs Hn E Hj Hf.
  assert (Hjl : (j < length g)%nat) by (apply nth_error_Some; congruence).
  assert (Hgl : (length g <= length (concat groups))%nat).
  { rewrite E, concat_app, length_app. cbn [concat].
    rewrite length_app. lia. }
  destruct valid_groups_length as [H1 H2].
  unfold page_dir_find_owner_slot.
  pose proof (owner_search_spec page groups Hv (length g - j - 1) pre g rest
                j r 0 fuel E Hj ltac:(lia) ltac:(lia)) as Ho.
  unfold page_comp in Ho.
  destruct (negb (page_is_comp page =? 0)); rewrite Ho; rewrite Hn;
    replace (Z.of_nat (length groups) - 1)
      with (Z.of_nat (length pre + length rest))
      by (rewrite E, length_app; cbn [length]; lia);
    apply (slot_search_spec rest pre g [] fuel Hs);
    try (rewrite app_nil_r; exact E);
    (assert (length groups = length pre + S (length rest))%nat
       by (rewrite E, length_app; reflexivity); lia).
Qed.

(** *** [page_find_rec_with_heap_no] *)

Definition rec_get_heap_no (rec : Z) : Z :=
  if page_comp page then rec_get_heap_no_new page rec
  else rec_get_heap_no_old page rec.

Lemma heap_no_search_spec heap_no d : forall q r fuel,
  nth_error (concat groups) q = Some r ->
  (forall k r', (q <= k < q + d)%nat -> nth_error (concat groups) k = Some r' ->
                rec_get_heap_no r' <> heap_no
                /\ rec_get_heap_no r' <> PAGE_HEAP_NO_SUPREMUM) ->
  (d < fuel)%nat ->
  forall r', nth_error (concat groups) (q + d) = Some r' ->
  (rec_get_heap_no r' = heap_no ->
   heap_no_search page (page_comp page) fuel r heap_no = Some r')
  /\ (rec_get_heap_no r' <> heap_no ->
      rec_get_heap_no r' = PAGE_HEAP_NO_SUPREMUM ->
      heap_no_search page (page_comp page) fuel r heap_no = Some NULL).
Proof.
  induction d as [|d IH]; intros q r fuel Hq Hpass Hf r' Hr';
    (destruct fuel as [|fuel]; [lia|]); cbn [heap_no_search];
    change (if page_comp page then rec_get_heap_no_new page r
            else rec_get_heap_no_old page r) with (rec_get_heap_no r).
  - rewrite Nat.add_0_r in Hr'. assert (r' = r) by congruence. subst r'.
    split.
    + intros ->. now rewrite Z.eqb_refl.
    + intros Hne Hsup. rewrite Hsup in *.
      destruct (Z.eqb_spec PAGE_HEAP_NO_SUPREMUM heap_no); [contradiction|].
      now rewrite Z.eqb_refl.
  - destruct (Hpass q r ltac:(lia) Hq) as [H1 H2].
    destruct (Z.eqb_spec (rec_get_heap_no r) heap_no); [contradiction|].
    destruct (Z.eqb_spec (rec_get_heap_no r) PAGE_HEAP_NO_SUPREMUM);
      [contradiction|].
    assert (Hlt : (S q < length (concat groups))%nat).
    { assert (q + S d < length (concat groups))%nat
        by (apply nth_error_Some; congruence). lia. }
    destruct (nth_error (concat groups) (S q)) as [r1|] eqn:E1;
      [|apply nth_error_None in E1; lia].
    pose proof (v_next _ _ Hv q r r1 Hq E1) as Hn.
    fold (page_comp page) in Hn. rewrite Hn.
    apply (IH (S q) r1 fuel E1).
    + intros k rk Hk. apply Hpass. lia.
    + lia.
    + now replace (S q + d)%nat with (q + S d)%nat by lia.
Qed.

(** *** [page_find_rec_max_not_deleted] *)

Definition last_not_deleted (prev r : Z) : Z :=
  if rec_get_deleted_flag page r (page_comp page) =? 0 then r else prev.

Lemma not_deleted_search_spec recs : forall q r prev fuel pre,
  concat groups = pre ++ r :: recs ++ [page_get_supremum_rec page] ->
  q = length pre ->
  (length recs < fuel)%nat ->
  not_deleted_search page (page_comp page) fuel r prev
  = Some (fold_left last_not_deleted (r :: recs) prev).
Proof.
  induction recs as [|r1 recs IH]; intros q r prev fuel pre E Hq Hf;
    (destruct fuel as [|fuel]; [cbn in Hf; lia|]); cbn [not_deleted_search].
  - cbn [app] in E.
    assert (H1 : nth_error (concat groups) q = Some r).
    { rewrite E, Hq, nth_error_app2 by lia. now rewrite Nat.sub_diag. }
    assert (H2 : nth_error (concat groups) (S q)
                 = Some (page_get_supremum_rec page)).
    { rewrite E, Hq, nth_error_app2 by lia.
      now replace (S (length pre) - length pre)%nat with 1%nat by lia. }
    destruct (next_step page groups Hv q r _ H1 H2) as (Hnz & Hn & _).
    destruct (Z.eqb_spec r NULL); [contradiction|].
    rewrite Hn. cbn [fold_left]. unfold last_not_deleted.
    unfold page_get_supremum_rec. fold (page_comp page).
    destruct (page_comp page); rewrite Z.eqb_refl; reflexivity.
  - cbn [app] in E.
    assert (H1 : nth_error (concat groups) q = Some r).
    { rewrite E, Hq, nth_error_app2 by lia. now rewrite Nat.sub_diag. }
    assert (H2 : nth_error (concat groups) (S q) = Some r1).
    { rewrite E, Hq, nth_error_app2 by lia.
      now replace (S (length pre) - length pre)%nat with 1%nat by lia. }
    destruct (next_step page groups Hv q r _ H1 H2) as (Hnz & Hn & _).
    destruct (Z.eqb_spec r NULL); [contradiction|].
    rewrite Hn.
    assert (Hne : r1 <> page_get_supremum_rec page).
    { pose proof (v_nodup _ _ Hv) as Hnd. rewrite E in Hnd.
      apply NoDup_remove_1 in Hnd. apply NoDup_app_remove_l in Hnd.
      intros Eq. rewrite Eq in Hnd.
      apply NoDup_cons_iff in Hnd. destruct Hnd as [Hnd _].
      apply Hnd. apply in_or_app. right. now left. }
    assert (Hs : (r1 =? (if page_comp page then PAGE_NEW_SUPREMUM
                         else PAGE_OLD_SUPREMUM)) = false).
    { apply Z.eqb_neq. unfold page_get_supremum_rec in Hne.
      fold (page_comp page) in Hne. exact Hne. }
    rewrite Hs. cbn [negb].
    change (if rec_get_deleted_flag page r (page_comp page) =? 0
            then r else prev) with (last_not_deleted prev r).
    rewrite (IH (S q) r1 (last_not_deleted prev r) fuel (pre ++ [r])).
    + reflexivity.
    + rewrite E, <- app_assoc. reflexivity.
    + rewrite length_app. cbn [length]. lia.
    + cbn [length] in Hf. lia.
Qed.

End Lookup.

Lemma fold_last_not_deleted page l : forall prev,
  let deleted := fun r =>
    negb (rec_get_deleted_flag page r (page_comp page) =? 0) in
  (fold_left (last_not_deleted page) l prev = prev
   /\ forall r, In r l -> deleted r = true)
  \/ exists l1 l2,
       l = l1 ++ fold_left (last_not_deleted page) l prev :: l2
       /\ deleted (fold_left (last_not_deleted page) l prev) = false
       /\ forall r, In r l2 -> deleted r = true.
Proof.
  induction l as [|x l IH] using rev_ind; intros prev deleted.
  - left. split; [reflexivity | intros r []].
  - rewrite fold_left_app. cbn [fold_left].
    change (last_not_deleted page (fold_left (last_not_deleted page) l prev) x)
      with (if rec_get_deleted_flag page x (page_comp page) =? 0 then x
            else fold_left (last_not_deleted page) l prev).
    destruct (rec_get_deleted_flag page x (page_comp page) =? 0) eqn:E.
    + right. exists l, []. split; [reflexivity|]. split.
      * subst deleted. cbv beta. now rewrite E.
      * intros r [].
    + destruct (IH prev) as [[H1 H2] | (l1 & l2 & H1 & H2 & H3)].
      * left. split; [exact H1|]. intros r Hr.
        apply in_app_or in Hr. destruct Hr as [Hr | [<- | []]];
          [now apply H2|]. subst deleted. cbv beta. now rewrite E.
      * right. exists l1, (l2 ++ [x]). split; [|split].
        -- rewrite H1 at 1. rewrite <- app_assoc. reflexivity.
        -- exact H2.
        -- intros r Hr. apply in_app_or in Hr.
           destruct Hr as [Hr | [<- | []]]; [now apply H3|].
           subst deleted. cbv beta. now rewrite E.
Qed.

(** The slot that owns a record.  On a page whose list and directory
    satisfy the structural invariants, [page_dir_find_owner_slot] returns,
    for a record of the list, the number of the slot whose group holds it:
    the slot points to the last record of the group, which owns as many
    records as the group has.  The search never ends in [ut_error]. *)
Theorem page_dir_find_owner_slot_spec page groups pre g rest j r fuel :
  page_dir_valid page groups ->
  UNIV_PAGE_SIZE <= 65536 ->
  page_dir_get_n_slots page = Z.of_nat (length groups) ->
  groups = pre ++ g :: rest ->
  nth_error g j = Some r ->
  (length (concat groups) <= fuel)%nat ->
  let slot_no := Z.of_nat (length pre) in
  page_dir_find_owner_slot page fuel r = Some slot_no
  /\ 0 <= slot_no < page_dir_get_n_slots page
  /\ page_dir_slot_get_rec page (page_dir_get_nth_slot slot_no) = last g 0
  /\ page_dir_slot_get_n_owned page (page_dir_get_nth_slot slot_no)
     = Z.of_nat (length g).
Proof.
  intros Hv Hs Hn E Hj Hf slot_no. subst slot_no.
  split; [now apply (find_owner_slot_valid page groups Hv pre g rest j r)|].
  destruct (group_at page groups Hv pre g rest E) as (Hg & Hslot & Ho).
  split.
  { rewrite Hn, E, length_app. cbn [length]. lia. }
  split; [exact Hslot|].
  unfold page_dir_slot_get_n_owned. rewrite Hslot. exact Ho.
Qed.

(** [page_find_rec_with_heap_no] walks the list from the infimum.  On a
    page that satisfies the structural invariants it returns the first
    record of the list that has the heap number asked for, if no record
    before it has the heap number of the supremum; and it returns [NULL]
    when it meets the heap number of the supremum before the one asked
    for. *)
Theorem page_find_rec_with_heap_no_spec page groups heap_no p r fuel :
  let no := fun r =>
    if page_comp page then rec_get_heap_no_new page r
    else rec_get_heap_no_old page r in
  page_dir_valid page groups ->
  nth_error (concat groups) p = Some r ->
  (forall k r', (k < p)%nat -> nth_error (concat groups) k = Some r' ->
                no r' <> heap_no /\ no r' <> PAGE_HEAP_NO_SUPREMUM) ->
  (p < fuel)%nat ->
  (no r = heap_no ->
   page_find_rec_with_heap_no page fuel heap_no = Some r)
  /\ (no r <> heap_no -> no r = PAGE_HEAP_NO_SUPREMUM ->
      page_find_rec_with_heap_no page fuel heap_no = Some NULL).
Proof.
  intros no Hv Hp Hpass Hf.
  destruct (v_first _ _ Hv) as [rest E].
  assert (H0 : nth_error (concat groups) 0 = Some (page_get_infimum_rec page))
    by (rewrite E; reflexivity).
  pose proof (heap_no_search_spec page groups Hv heap_no p 0
                (page_get_infimum_rec page) fuel H0) as H.
  cbn [Nat.add] in H.
  specialize (H (fun k r' Hk => Hpass k r' (proj2 Hk)) Hf r Hp).
  unfold page_find_rec_with_heap_no.
  unfold page_get_infimum_rec, page_comp in H.
  subst no. unfold rec_get_heap_no, page_comp in *.
  destruct (negb (page_is_comp page =? 0)); exact H.
Qed.

(** [page_find_rec_max_not_deleted] returns the last record before the
    supremum that is not delete-marked: every record that follows it in
    the list is delete-marked.  It is the infimum when every user record
    is delete-marked and the infimum is not; were the infimum delete-marked
    too, the result would be [NULL]. *)
Theorem page_find_rec_max_not_deleted_spec page groups recs fuel :
  let deleted := fun r =>
    negb (rec_get_deleted_flag page r (page_comp page) =? 0) in
  page_dir_valid page groups ->
  concat groups = recs ++ [page_get_supremum_rec page] ->
  (length recs <= fuel)%nat ->
  exists res,
    page_find_rec_max_not_deleted page fuel = Some res
    /\ ((res = NULL /\ forall r, In r recs -> deleted r = true)
        \/ exists l1 l2,
             recs = l1 ++ res :: l2
             /\ deleted res = false
             /\ forall r, In r l2 -> deleted r = true).
Proof.
  intros deleted Hv E Hf.
  destruct (v_first _ _ Hv) as [rest Eg].
  destruct recs as [|r0 recs].
  { exfalso. rewrite Eg in E. cbn in E. injection E as E _.
    unfold page_get_infimum_rec, page_get_supremum_rec in E.
    destruct (negb (page_is_comp page =? 0)); discriminate E. }
  assert (Hr0 : r0 = page_get_infimum_rec page).
  { rewrite Eg in E. cbn in E. now injection E as <- _. }
  exists (fold_left (last_not_deleted page) (r0 :: recs) NULL). split.
  - unfold page_find_rec_max_not_deleted. rewrite <- Hr0.
    pose proof (not_deleted_search_spec page groups Hv recs 0 r0 NULL fuel []
                  E eq_refl ltac:(cbn [length] in Hf; lia)) as H.
    unfold page_comp in H.
    destruct (negb (page_is_comp page =? 0)); exact H.
  - destruct (fold_last_not_deleted page (r0 :: recs) NULL)
      as [[H1 H2] | H]; [left | right; exact H].
    split; [exact H1 | exact H2].
Qed.

(** ** Checking the structural invariants *)

Fixpoint nodup_b (l : list Z) : bool :=
  match l with
  | [] => true
  | x :: l' => negb (existsb (Z.eqb x) l') && nodup_b l'
  end.

Fixpoint slots_b (page : mem) (i : Z) (groups : list (list Z)) : bool :=
  match groups with
  | [] => true
  | g :: groups' =>
    negb (Nat.eqb (length g) 0)
    && (page_dir_slot_get_rec page (page_dir_get_nth_slot i) =? last g 0)
    && slots_b page (i + 1) groups'
  end.

Fixpoint next_b (page : mem) (l : list Z) : bool :=
  match l with
  | a :: (b :: _) as l' =>
    (rec_get_next_offs page a (negb (page_is_comp page =? 0)) =? b)
    && next_b page l'
  | _ => true
  end.

(** The invariants of [page_dir_valid], as a test. *)
Definition page_dir_valid_b (page : mem) (groups : list (list Z)) : bool :=
  match groups with
  | [r] :: _ => r =? page_get_infimum_rec page
  | _ => false
  end
  && forallb (fun r => (0 <? r) && (r <? UNIV_PAGE_SIZE)) (concat groups)
  && nodup_b (concat groups)
  && slots_b page 0 groups
  && forallb (fun g =>
                (rec_get_n_owned page (last g 0) =? Z.of_nat (length g))
                && forallb (fun r => rec_get_n_owned page r =? 0)
                     (removelast g)) groups
  && next_b page (concat groups).

Lemma nodup_b_sound l : nodup_b l = true -> NoDup l.
Proof.
  induction l as [|x l IH]; intros H; [constructor|].
  cbn in H. apply andb_prop in H as [H1 H2].
  constructor; [|now apply IH].
  intros Hin. apply Bool.negb_true_iff in H1.
  assert (existsb (Z.eqb x) l = true)
    by (apply existsb_exists; exists x; split; [exact Hin | apply Z.eqb_refl]).
  congruence.
Qed.

Lemma slots_b_sound page groups : forall i0,
  slots_b page i0 groups = true ->
  forall i g, nth_error groups i = Some g ->
    g <> []
    /\ page_dir_slot_get_rec page (page_dir_get_nth_slot (i0 + Z.of_nat i))
       = last g 0.
Proof.
  induction groups as [|g0 groups IH]; intros i0 H i g Hg.
  - destruct i; discriminate.
  - cbn [slots_b] in H. apply andb_prop in H as [H H3].
    apply andb_prop in H as [H1 H2]. destruct i as [|i].
    + cbn in Hg. injection Hg as <-. split.
      * intros ->. discriminate H1.
      * rewrite Z.add_0_r. now apply Z.eqb_eq.
    + cbn [nth_error] in Hg.
      replace (i0 + Z.of_nat (S i)) with (i0 + 1 + Z.of_nat i) by lia.
      now apply IH.
Qed.

Lemma next_b_sound page l :
  next_b page l = true ->
  forall p r r', nth_error l p = Some r -> nth_error l (S p) = Some r' ->
    rec_get_next_offs page r (negb (page_is_comp page =? 0)) = r'.
Proof.
  induction l as [|a l IH]; intros H p r r' H1 H2; [destruct p; discriminate|].
  destruct l as [|b l]; [destruct p; [discriminate | destruct p; discriminate]|].
  cbn [next_b] in H. apply andb_prop in H as [Ha Hb].
  destruct p as [|p].
  - cbn in H1, H2. injection H1 as <-. injection H2 as <-. now apply Z.eqb_eq.
  - cbn [nth_error] in H1, H2. now apply (IH Hb p).
Qed.

Lemma page_dir_valid_b_sound page groups :
  page_dir_valid_b page groups = true -> page_dir_valid page groups.
Proof.
  unfold page_dir_valid_b. intros H.
  apply andb_prop in H as [H H6]. apply andb_prop in H as [H H5].
  apply andb_prop in H as [H H4]. apply andb_prop in H as [H H3].
  apply andb_prop in H as [H1 H2].
  constructor.
  - destruct groups as [|[|r [|]] rest]; try discriminate H1.
    apply Z.eqb_eq in H1. subst r. now exists rest.
  - intros r Hr. rewrite forallb_forall in H2. specialize (H2 r Hr).
    apply andb_prop in H2 as [Ha Hb].
    apply Z.ltb_lt in Ha. apply Z.ltb_lt in Hb. lia.
  - now apply nodup_b_sound.
  - intros i g Hg. exact (slots_b_sound page groups 0 H4 i g Hg).
  - intros g Hg. rewrite forallb_forall in H5. specialize (H5 g Hg).
    apply andb_prop in H5 as [Ha Hb]. split; [now apply Z.eqb_eq|].
    intros r Hr. rewrite forallb_forall in Hb. apply Z.eqb_eq. now apply Hb.
  - now apply next_b_sound.
Qed.


(** *** Cutting the end of the list out of a page that is not compressed *)

(** The bytes of the header of a record that the page code reads: five
    before the origin in the compact format, six in the old one. *)
Definition rec_extra (page : mem) : Z :=
  if negb (page_is_comp page =? 0)
  then REC_N_NEW_EXTRA_BYTES else REC_N_OLD_EXTRA_BYTES.

(** The records of a list lie in the heap: the header of each one starts in
    the data area, no record starts above the lowest slot of the
    directory, and the headers of two records do not overlap. *)
Record page_layout (page : mem) (l : list Z) : Prop := {
  l_low : forall r, In r l -> PAGE_DATA + rec_extra page <= r;
  l_high : forall r, In r l ->
    r <= page_dir_get_nth_slot (page_dir_get_n_slots page - 1);
  l_apart : forall r r', In r l -> In r' l -> r < r' ->
    r + rec_extra page <= r'
}.

(** The conditions of [page_layout], as a test. *)
Definition page_layout_b (page : mem) (l : list Z) : bool :=
  forallb
    (fun r =>
       (PAGE_DATA + rec_extra page <=? r)
       && (r <=? page_dir_get_nth_slot (page_dir_get_n_slots page - 1))
       && forallb (fun r' => negb (r <? r') || (r + rec_extra page <=? r')) l)
    l.

Lemma page_layout_b_sound page l :
  page_layout_b page l = true -> page_layout page l.
Proof.
  unfold page_layout_b. rewrite forallb_forall. intros H.
  constructor.
  - intros r Hr. specialize (H r Hr).
    apply andb_prop in H as [H _]. apply andb_prop in H as [H _].
    now apply Z.leb_le.
  - intros r Hr. specialize (H r Hr).
    apply andb_prop in H as [H _]. apply andb_prop in H as [_ H].
    now apply Z.leb_le.
  - intros r r' Hr Hr' Hlt. specialize (H r Hr).
    apply andb_prop in H as [_ H]. rewrite forallb_forall in H.
    specialize (H r' Hr'). apply Bool.orb_true_iff in H as [H|H].
    + apply Bool.negb_true_iff, Z.ltb_ge in H. lia.
    + now apply Z.leb_le.
Qed.

Lemma rec_extra_cases page :
  (rec_extra page = 5 \/ rec_extra page = 6)
  /\ forall r, n_owned_addr page r = r - rec_extra page.
Proof.
  unfold rec_extra, n_owned_addr, REC_N_NEW_EXTRA_BYTES, REC_N_OLD_EXTRA_BYTES,
    REC_NEW_N_OWNED, REC_OLD_N_OWNED.
  destruct (negb (page_is_comp page =? 0)); split; auto.
Qed.

Lemma layout_apart page l r r' :
  page_layout page l -> In r l -> In r' l -> r <> r' ->
  r + rec_extra page <= r' \/ r' + rec_extra page <= r.
Proof.
  intros Hl Hr Hr' Hne.
  destruct (Z.lt_ge_cases r r') as [H|H].
  - left. now apply (l_apart _ _ Hl).
  - right. apply (l_apart _ _ Hl); [assumption .. | lia].
Qed.

Lemma next_offs_ext page page' rec comp :
  page' (rec - REC_NEXT) = page (rec - REC_NEXT) ->
  page' (rec - REC_NEXT + 1) = page (rec - REC_NEXT + 1) ->
  rec_get_next_offs page' rec comp = rec_get_next_offs page rec comp.
Proof.
  intros H1 H2. unfold rec_get_next_offs.
  now rewrite (read2_ext page' page) by assumption.
Qed.

Lemma page_rec_set_next_frame page rec next a :
  a <> rec - REC_NEXT -> a <> rec - REC_NEXT + 1 ->
  page_rec_set_next page rec next a = page a.
Proof.
  intros H1 H2. unfold page_rec_set_next.
  destruct (negb (page_is_comp page =? 0)); now apply write2_other.
Qed.

(** The pointer that [page_rec_set_next] stores reads back, on a page whose
    size divides the range of the two bytes. *)
Lemma page_rec_set_next_same page rec next :
  0 < UNIV_PAGE_SIZE -> 65536 mod UNIV_PAGE_SIZE = 0 ->
  0 < rec < UNIV_PAGE_SIZE -> 0 < next < UNIV_PAGE_SIZE -> rec <> next ->
  rec_get_next_offs (page_rec_set_next page rec next) rec
    (negb (page_is_comp page =? 0)) = next.
Proof.
  intros Hu Hd Hr Hn Hne.
  assert (Hu' : UNIV_PAGE_SIZE <= 65536).
  { destruct (Z.le_gt_cases UNIV_PAGE_SIZE 65536) as [H|H]; [exact H|].
    rewrite Z.mod_small in Hd by lia. lia. }
  unfold page_rec_set_next, rec_get_next_offs, NULL.
  destruct (Z.eqb_spec next 0) as [|_]; [lia|]. cbn [negb].
  destruct (Z.eqb_spec next 0) as [|_]; [lia|]. cbn [negb].
  destruct (negb (page_is_comp page =? 0)).
  - rewrite read2_write2_same.
    change 0xFFFF with (Z.ones 16). rewrite Z.land_ones by lia.
    change (2 ^ 64) with (2 ^ 16 * 281474976710656).
    rewrite Z.rem_mul_r by lia. rewrite Z.mul_comm, Z.mod_add by lia.
    rewrite Z.mod_mod by lia. change (2 ^ 16) with 65536.
    rewrite Z.mod_mod by lia.
    assert (Hf : (next - rec) mod 65536 <> 0).
    { intros E. apply Z.mod_divide in E; [|lia]. destruct E as [c E].
      assert (c = 0) by nia. subst c. lia. }
    destruct (Z.eqb_spec ((next - rec) mod 65536) 0) as [|_]; [contradiction|].
    apply Z.mod_divide in Hd; [|lia]. destruct Hd as [c Hc].
    assert (E : rec + (next - rec) mod 65536
                = next + (- ((next - rec) / 65536) * c) * UNIV_PAGE_SIZE).
    { pose proof (Z.div_mod (next - rec) 65536 ltac:(lia)). nia. }
    rewrite E, Z.mod_add by lia. apply Z.mod_small. lia.
  - rewrite read2_write2_same. apply Z.mod_small. lia.
Qed.

Lemma page_rec_set_next_null page rec comp :
  rec_get_next_offs (page_rec_set_next page rec NULL) rec comp = 0.
Proof.
  unfold page_rec_set_next, rec_get_next_offs, NULL. cbn [Z.eqb negb].
  destruct (negb (page_is_comp page =? 0)); rewrite read2_write2_same;
    destruct comp; reflexivity.
Qed.

Lemma owner_count_search page comp fuel : forall rec count n,
  owner_count page comp fuel rec count
  = match owner_search page comp fuel rec n with
    | Some (r, n') => Some (r, count + (n - n'))
    | None => None
    end.
Proof.
  induction fuel as [|fuel IH]; intros rec count n; [reflexivity|].
  cbn [owner_count owner_search].
  destruct (rec =? NULL); [reflexivity|].
  destruct ((if comp then rec_get_n_owned_new page rec
             else rec_get_n_owned_old page rec) =? 0).
  - rewrite (IH _ (count + 1) (n - 1)).
    destruct (owner_search page comp fuel (rec_get_next_ptr page rec comp) (n - 1))
      as [[r n']|]; [|reflexivity].
    f_equal. f_equal. lia.
  - f_equal. f_equal. lia.
Qed.

Lemma app_head {A} (l1 l2 : list A) x r :
  l1 <> [] -> l1 ++ l2 = x :: r -> exists l1', l1 = x :: l1'.
Proof.
  intros Hn E. destruct l1 as [|a l1]; [contradiction|].
  injection E as -> _. now exists l1.
Qed.

Lemma In_removelast (l : list Z) r : In r (removelast l) -> In r l.
Proof.
  intros H. destruct l as [|a l]; [contradiction|].
  rewrite (app_removelast_last 0 (l := a :: l)) by discriminate.
  apply in_or_app. now left.
Qed.

(** The bytes that the writes of the cut leave as they were: [q2] to [q9]
    are the frames after the writes to the slot, to the count of the
    supremum, to the number of slots, to the pointers of [prev] and of
    [last_rec], and to PAGE_FREE, PAGE_GARBAGE and PAGE_N_RECS. *)
Lemma cut_frame (page q2 q3 q4 q5 q6 q7 q8 q9 : mem) E slot sup prev last_rec :
  E = 5 \/ E = 6 ->
  (forall a, a <> slot -> a <> slot + 1 -> q2 a = page a) ->
  (forall a, a <> sup - E -> q3 a = q2 a) ->
  (forall a, a <> 38 -> a <> 39 -> q4 a = q3 a) ->
  (forall a, a <> prev - 2 -> a <> prev - 1 -> q5 a = q4 a) ->
  (forall a, a <> last_rec - 2 -> a <> last_rec - 1 -> q6 a = q5 a) ->
  (forall a, a <> 44 -> a <> 45 -> q7 a = q6 a) ->
  (forall a, a <> 46 -> a <> 47 -> q8 a = q7 a) ->
  (forall a, a <> 54 -> a <> 55 -> q9 a = q8 a) ->
  94 + E <= sup <= slot -> 94 + E <= prev <= slot ->
  94 + E <= last_rec <= slot ->
  prev + E <= sup \/ sup + E <= prev ->
  prev + E <= last_rec \/ last_rec + E <= prev ->
  last_rec + E <= sup \/ sup + E <= last_rec ->
  (forall a, a <> slot -> a <> slot + 1 -> a <> sup - E ->
     a <> prev - 2 -> a <> prev - 1 -> a <> last_rec - 2 ->
     a <> last_rec - 1 ->
     a <> 38 -> a <> 39 -> a <> 44 -> a <> 45 -> a <> 46 -> a <> 47 ->
     a <> 54 -> a <> 55 -> q9 a = page a)
  /\ (forall a, a = 42 \/ a = 43 \/ a = 48 \/ a = 49 -> q9 a = page a)
  /\ (forall a, a = 38 \/ a = 39 -> q9 a = q4 a)
  /\ (forall a, a = 44 \/ a = 45 -> q9 a = q7 a /\ q5 a = page a)
  /\ (forall a, a = 46 \/ a = 47 -> q9 a = q8 a /\ q7 a = page a)
  /\ (forall a, a = 54 \/ a = 55 -> q8 a = page a)
  /\ (forall a, a = slot \/ a = slot + 1 -> q9 a = q2 a)
  /\ q9 (sup - E) = q3 (sup - E)
  /\ (forall a, a = prev - 2 \/ a = prev - 1 -> q9 a = q5 a)
  /\ (forall a, a = last_rec - 2 \/ a = last_rec - 1 -> q9 a = q6 a).
Proof.
  intros HE F2 F3 F4 F5 F6 F7 F8 F9 Hs Hp Hl Aps Apl Als.
  split.
  { intros a. intros.
    rewrite F9, F8, F7, F6, F5, F4, F3, F2 by assumption.
    reflexivity. }
  destruct HE; subst E.
  all: repeat split; intros;
    repeat match goal with
           | |- _ /\ _ => split
           end;
    first
      [ rewrite F9, F8, F7, F6, F5, F4, F3, F2 by lia; reflexivity
      | rewrite F9, F8, F7, F6, F5, F4, F3 by lia; reflexivity
      | rewrite F9, F8, F7, F6, F5, F4 by lia; reflexivity
      | rewrite F9, F8, F7, F6, F5 by lia; reflexivity
      | rewrite F9, F8, F7, F6 by lia; reflexivity
      | rewrite F9, F8, F7 by lia; reflexivity
      | rewrite F9, F8 by lia; reflexivity
      | rewrite F9 by lia; reflexivity
      | rewrite F8, F7, F6, F5, F4, F3, F2 by lia; reflexivity
      | rewrite F7, F6, F5, F4, F3, F2 by lia; reflexivity
      | rewrite F5, F4, F3, F2 by lia; reflexivity ].
Qed.

(** The header bytes of a record that the cut does not touch. *)
Lemma cut_frame_rec (page q9 : mem) E slot sup prev last_rec r :
  E = 5 \/ E = 6 ->
  (forall a, 94 <= a -> a <> slot -> a <> slot + 1 -> a <> sup - E ->
     a <> prev - 2 -> a <> prev - 1 -> a <> last_rec - 2 ->
     a <> last_rec - 1 -> q9 a = page a) ->
  94 + E <= r <= slot ->
  r = sup \/ r + E <= sup \/ sup + E <= r ->
  r = prev \/ r + E <= prev \/ prev + E <= r ->
  r = last_rec \/ r + E <= last_rec \/ last_rec + E <= r ->
  (r <> sup -> q9 (r - E) = page (r - E))
  /\ (r <> prev -> r <> last_rec ->
      q9 (r - 2) = page (r - 2) /\ q9 (r - 1) = page (r - 1)).
Proof.
  intros HE G Hr As Ap Al.
  destruct HE; subst E.
  all: split; [intros Hs | intros Hp Hl; split];
    apply G;
    first [ clear Ap Al; lia | clear As Al; lia | clear As Ap; lia ].
Qed.

Section Cut.

Variable DATA_BIG_LEN_MTYPE : Z -> Z -> bool.
Variable dict_col_get_fixed_size : dict_col_t -> bool -> Z.
Variable mem_heap_alloc : Z -> offsets_t.
Variable page_rec_get_prev : mem -> Z -> Z.

Variable page : mem.
Variables (pre : list (list Z)) (g : list Z) (rest : list (list Z)).
Variables (j : nat) (rec prev last_rec : Z).

Let groups := pre ++ g :: rest.
Let sup := page_get_supremum_rec page.
Let kept := concat pre ++ firstn j g.

Hypothesis Hv : page_dir_valid page groups.
Hypothesis Hl : page_layout page (concat groups).
Hypothesis Hsize : 65536 mod UNIV_PAGE_SIZE = 0.
Hypothesis Hslots : page_dir_get_n_slots page = Z.of_nat (length groups).
Hypothesis Hsup : last (concat groups) 0 = sup.
Hypothesis Hpre : pre <> [].
Hypothesis Hrec : nth_error g j = Some rec.
Hypothesis Hne : rec <> sup.
Hypothesis Hprev :
  nth_error (concat groups) (length (concat pre) + j - 1) = Some prev.
Hypothesis Hlast :
  nth_error (concat groups) (length (concat groups) - 2) = Some last_rec.

Lemma cut_positions :
  (1 <= length (concat pre))%nat
  /\ (j < length g)%nat
  /\ (length (concat pre) + j + 1 < length (concat groups))%nat
  /\ concat groups = kept ++ skipn j g ++ concat rest
  /\ nth_error (concat groups) (length (concat pre) + j) = Some rec.
Proof.
  assert (Hj : (j < length g)%nat) by (apply nth_error_Some; congruence).
  assert (Hp : nth_error (concat groups) (length (concat pre) + j) = Some rec).
  { unfold groups. rewrite nth_error_concat_mid by exact Hj. exact Hrec. }
  assert (Hc : concat groups = kept ++ skipn j g ++ concat rest).
  { unfold groups, kept. rewrite concat_app. cbn [concat].
    rewrite <- (firstn_skipn j g) at 1. now rewrite <- !app_assoc. }
  split; [|split; [exact Hj|split; [|split; [exact Hc | exact Hp]]]].
  - destruct pre as [|h pre']; [contradiction|].
    assert (Hh : h <> []).
    { apply (group_nonempty page groups Hv). unfold groups. now left. }
    destruct h; [contradiction|]. cbn. lia.
  - assert (Hlen : (length (concat pre) + j < length (concat groups))%nat)
      by (apply nth_error_Some; congruence).
    destruct (Nat.eq_dec (length (concat pre) + j + 1) (length (concat groups)))
      as [E|E]; [|lia].
    exfalso. apply Hne. rewrite <- Hsup.
    assert (Hnil : concat groups <> []) by (intros E0; rewrite E0 in Hlen; cbn in Hlen; lia).
    rewrite (app_removelast_last 0 Hnil) in Hp.
    pose proof (removelast_length _ Hnil) as Hrl.
    rewrite nth_error_app2 in Hp by lia.
    replace (length (concat pre) + j - length (removelast (concat groups)))%nat
      with 0%nat in Hp by lia.
    cbn in Hp. congruence.
Qed.

Lemma cut_members :
  0 < UNIV_PAGE_SIZE <= 65536
  /\ In sup (concat groups) /\ In rec (concat groups)
  /\ In prev kept /\ last kept 0 = prev
  /\ In last_rec (skipn j g ++ concat rest)
  /\ In sup (skipn j g ++ concat rest)
  /\ NoDup kept
  /\ (forall r, In r kept -> ~ In r (skipn j g ++ concat rest))
  /\ (forall r, In r kept -> In r (concat groups)).
Proof.
  destruct cut_positions as (P1 & P2 & P3 & P4 & P5).
  pose proof (v_nodup _ _ Hv) as Hnd. fold groups in Hnd.
  assert (Hnil : concat groups <> [])
    by (intros E0; rewrite E0 in P3; cbn in P3; lia).
  assert (Hsin : In sup (concat groups))
    by (rewrite <- Hsup; now apply last_In).
  assert (Hu : 0 < UNIV_PAGE_SIZE <= 65536).
  { pose proof (v_range _ _ Hv sup Hsin).
    destruct (Z.le_gt_cases UNIV_PAGE_SIZE 65536) as [H1|H1]; [lia|].
    rewrite Z.mod_small in Hsize by lia. lia. }
  assert (Hkl : length kept = (length (concat pre) + j)%nat).
  { unfold kept. rewrite length_app, length_firstn. lia. }
  assert (Hpk : nth_error kept (length (concat pre) + j - 1) = Some prev).
  { rewrite <- Hprev, P4. symmetry. apply nth_error_app1. lia. }
  assert (Hknil : kept <> []) by (intros E0; rewrite E0 in Hkl; cbn in Hkl; lia).
  assert (Hlk : last kept 0 = prev).
  { rewrite (app_removelast_last 0 Hknil) in Hpk.
    pose proof (removelast_length _ Hknil) as Hrl.
    rewrite nth_error_app2 in Hpk by lia.
    replace (length (concat pre) + j - 1 - length (removelast kept))%nat
      with 0%nat in Hpk by lia.
    cbn in Hpk. congruence. }
  assert (Htl : forall p r, (length kept <= p)%nat ->
            nth_error (concat groups) p = Some r ->
            In r (skipn j g ++ concat rest)).
  { intros p r Hp Hr. rewrite P4, nth_error_app2 in Hr by exact Hp.
    now apply nth_error_In in Hr. }
  split; [exact Hu|]. split; [exact Hsin|].
  split; [now apply nth_error_In in P5|].
  split; [now apply nth_error_In in Hpk|]. split; [exact Hlk|].
  split; [apply (Htl (length (concat groups) - 2)%nat last_rec ltac:(lia) Hlast)|].
  split.
  { apply (Htl (length (concat groups) - 1)%nat); [lia|].
    rewrite <- Hsup. rewrite (app_removelast_last 0 Hnil) at 1.
    pose proof (removelast_length _ Hnil) as Hrl.
    rewrite nth_error_app2 by lia.
    replace (length (concat groups) - 1 - length (removelast (concat groups)))%nat
      with 0%nat by lia.
    reflexivity. }
  rewrite P4 in Hnd.
  split; [now apply NoDup_app_remove_r in Hnd|].
  split.
  - intros r Hr Hr'. revert Hnd Hr Hr'. clear.
    induction kept as [|a k IH]; intros Hnd Hr Hr'; [contradiction|].
    cbn in Hnd. inversion Hnd as [|? ? Ha Hk]. subst.
    destruct Hr as [->|Hr].
    + apply Ha. apply in_or_app. now right.
    + now apply IH.
  - intros r Hr. rewrite P4. apply in_or_app. now left.
Qed.

Lemma cut_owner fuel :
  (length (concat groups) <= fuel)%nat ->
  owner_count page (page_comp page) fuel rec 0
  = Some (last g 0, Z.of_nat (length g) - Z.of_nat j - 1)
  /\ page_dir_find_owner_slot page fuel (last g 0)
     = Some (Z.of_nat (length pre))
  /\ rec_get_n_owned page (last g 0) = Z.of_nat (length g).
Proof.
  intros Hf.
  destruct cut_positions as (P1 & P2 & P3 & P4 & P5).
  assert (Hgl : (length g <= length (concat groups))%nat).
  { unfold groups. rewrite concat_app, length_app. cbn [concat].
    rewrite length_app. lia. }
  destruct cut_members as (Hu & _).
  destruct (group_at page groups Hv pre g rest eq_refl) as (Hg & _ & Ho).
  split; [|split; [|exact Ho]].
  - rewrite (owner_count_search page (page_comp page) fuel rec 0 0).
    rewrite (owner_search_spec page groups Hv (length g - j - 1) pre g rest j
               rec 0 fuel eq_refl Hrec ltac:(lia) ltac:(lia)).
    f_equal. f_equal. lia.
  - apply (find_owner_slot_valid page groups Hv pre g rest (length g - 1)
             (last g 0) fuel ltac:(lia) Hslots eq_refl); [|exact Hf].
    rewrite (app_removelast_last 0 Hg) at 1.
    pose proof (removelast_length _ Hg) as Hrl.
    rewrite nth_error_app2 by lia.
    replace (length g - 1 - length (removelast g))%nat with 0%nat by lia.
    reflexivity.
Qed.

Lemma delete_rec_list_end_cut_valid index n_recs size offsets fuel :
  size <> ULINT_UNDEFINED -> n_recs <> ULINT_UNDEFINED ->
  page_rec_get_prev page rec = prev ->
  page_rec_get_prev page sup = last_rec ->
  (length (concat groups) <= fuel)%nat ->
  exists page',
    delete_rec_list_end_cut DATA_BIG_LEN_MTYPE dict_col_get_fixed_size
      mem_heap_alloc page_rec_get_prev fuel rec page index n_recs size offsets
    = Some page'
    /\ page_dir_valid page' (pre ++ [firstn j g ++ [sup]])
    /\ page_layout page' (kept ++ [sup])
    /\ page_dir_get_n_slots page' = Z.of_nat (length pre) + 1
    /\ page_is_comp page' = page_is_comp page
    /\ page_header_get_ptr page' PAGE_FREE = rec
    /\ page_header_get_field page' PAGE_GARBAGE
       = (size + page_header_get_field page PAGE_GARBAGE) mod 65536
    /\ page_get_n_recs page'
       = ((page_get_n_recs page - n_recs) mod 2 ^ 64) mod 65536
    /\ (forall r, In r (skipn j g ++ concat rest) -> r <> last_rec ->
          rec_get_next_offs page' r (page_comp page)
          = rec_get_next_offs page r (page_comp page))
    /\ (page_header_get_ptr page PAGE_FREE < UNIV_PAGE_SIZE ->
        page_header_get_ptr page PAGE_FREE <> last_rec ->
        rec_get_next_offs page' last_rec (page_comp page)
        = page_header_get_ptr page PAGE_FREE)
    /\ (forall a,
          (forall f, In f [PAGE_N_DIR_SLOTS; PAGE_FREE; PAGE_GARBAGE;
                           PAGE_N_RECS] ->
             a <> PAGE_HEADER + f /\ a <> PAGE_HEADER + f + 1) ->
          a <> page_dir_get_nth_slot (Z.of_nat (length pre)) ->
          a <> page_dir_get_nth_slot (Z.of_nat (length pre)) + 1 ->
          a <> n_owned_addr page sup ->
          a <> prev - REC_NEXT -> a <> prev - REC_NEXT + 1 ->
          a <> last_rec - REC_NEXT -> a <> last_rec - REC_NEXT + 1 ->
          page' a = page a).
Proof.
  intros Hs Hn Hp1 Hp2 Hf.
  destruct cut_positions as (P1 & P2 & P3 & P4 & P5).
  destruct cut_members
    as (Hu & Hsin & Hrin & Hpin & Hlk & Hlin & Hstl & Hknd & Hdisj & Hkin).
  destruct (cut_owner fuel Hf) as (Hoc & Hfs & Hown).
  unfold delete_rec_list_end_cut. fold (page_comp page).
  rewrite Hp1. fold sup. rewrite Hp2.
  destruct (Z.eqb_spec size ULINT_UNDEFINED) as [|_]; [contradiction|].
  destruct (Z.eqb_spec n_recs ULINT_UNDEFINED) as [|_]; [contradiction|].
  cbn [orb]. rewrite Hoc.
  change (if page_comp page then rec_get_n_owned_new page (last g 0)
          else rec_get_n_owned_old page (last g 0))
    with (rec_get_n_owned page (last g 0)).
  rewrite Hown, Hfs.
  replace (Z.of_nat (length g) - (Z.of_nat (length g) - Z.of_nat j - 1))
    with (Z.of_nat j + 1) by lia.
  set (k := Z.of_nat (length pre)).
  set (slot := page_dir_get_nth_slot k).
  destruct (rec_extra_cases page) as [HE Hna].
  set (E := rec_extra page) in *.
  assert (Hj16 : 0 <= Z.of_nat j + 1 < 16).
  { pose proof (rec_get_n_owned_range page (last g 0)). lia. }
  assert (HD : forall r, In r (concat groups) ->
            94 + E <= r /\ r <= slot /\ 0 < r < UNIV_PAGE_SIZE).
  { intros r Hr. split; [apply (l_low _ _ Hl r Hr)|]. split.
    - pose proof (l_high _ _ Hl r Hr) as Hh. rewrite Hslots in Hh.
      unfold slot, k, page_dir_get_nth_slot, PAGE_DIR_SLOT_SIZE in *.
      unfold groups in Hh. rewrite length_app in Hh. cbn [length] in Hh. lia.
    - apply (v_range _ _ Hv r Hr). }
  assert (HA : forall r r', In r (concat groups) -> In r' (concat groups) ->
            r <> r' -> r + E <= r' \/ r' + E <= r).
  { intros r r'. apply (layout_apart page _ r r' Hl). }
  assert (Hhdr : PAGE_HEADER = 38 /\ PAGE_N_DIR_SLOTS = 0 /\ PAGE_N_HEAP = 4
                 /\ PAGE_FREE = 6 /\ PAGE_GARBAGE = 8 /\ PAGE_N_RECS = 16
                 /\ REC_NEXT = 2 /\ PAGE_DATA = 94) by (repeat split).
  destruct Hhdr as (Eh & Ens & Enh & Efr & Ega & Enr & Enx & Eda).
  destruct (HD sup Hsin) as (Hs1 & Hs2 & Hs3).
  set (q2 := page_dir_slot_set_rec page slot sup).
  assert (F2 : forall a, a <> slot -> a <> slot + 1 -> q2 a = page a).
  { intros a H1 H2. now apply slot_set_rec_frame. }
  assert (C2 : page_is_comp q2 = page_is_comp page).
  { apply page_is_comp_ext; apply F2; lia. }
  assert (Esl : page_dir_slot_get_rec q2 slot = sup)
    by (apply slot_set_rec_same; lia).
  pose proof (slot_set_n_owned_spec q2 None slot (Z.of_nat j + 1)) as S3.
  cbv zeta in S3. rewrite Esl in S3.
  rewrite (n_owned_addr_ext page q2 sup C2), Hna in S3.
  specialize (S3 Hj16 ltac:(lia)).
  destruct (page_dir_slot_set_n_owned q2 None slot (Z.of_nat j + 1))
    as [q3 z3].
  cbn [fst] in S3. destruct S3 as (F3 & C3 & O3).
  unfold page_dir_set_n_slots, page_header_set_ptr, page_header_set_field.
  cbv beta iota zeta.
  set (q4 := mach_write_to_2 q3 (PAGE_HEADER + PAGE_N_DIR_SLOTS) (k + 1)).
  assert (F4 : forall a, a <> 38 -> a <> 39 -> q4 a = q3 a).
  { intros a H1 H2. apply write2_other; lia. }
  assert (C4 : page_is_comp q4 = page_is_comp page).
  { rewrite <- C2, <- C3. apply page_is_comp_ext; apply F4; lia. }
  assert (Es4 : page_get_supremum_rec q4 = sup).
  { unfold sup, page_get_supremum_rec. now rewrite C4. }
  rewrite Es4.
  set (q5 := page_rec_set_next q4 prev sup).
  assert (F5 : forall a, a <> prev - 2 -> a <> prev - 1 -> q5 a = q4 a).
  { intros a H1 H2. apply page_rec_set_next_frame; lia. }
  set (q6 := page_rec_set_next q5 last_rec (page_header_get_ptr q5 PAGE_FREE)).
  assert (F6 : forall a, a <> last_rec - 2 -> a <> last_rec - 1 -> q6 a = q5 a).
  { intros a H1 H2. apply page_rec_set_next_frame; lia. }
  set (q7 := mach_write_to_2 q6 (PAGE_HEADER + PAGE_FREE)
               (if rec =? NULL then 0 else rec)).
  assert (F7 : forall a, a <> 44 -> a <> 45 -> q7 a = q6 a).
  { intros a H1 H2. apply write2_other; lia. }
  set (q8 := mach_write_to_2 q7 (PAGE_HEADER + PAGE_GARBAGE)
               (size + page_header_get_field q7 PAGE_GARBAGE)).
  assert (F8 : forall a, a <> 46 -> a <> 47 -> q8 a = q7 a).
  { intros a H1 H2. apply write2_other; lia. }
  change (2 ^ 64) with 18446744073709551616.
  set (q9 := mach_write_to_2 q8 (PAGE_HEADER + PAGE_N_RECS)
               ((page_get_n_recs q8 - n_recs) mod 18446744073709551616)).
  assert (F9 : forall a, a <> 54 -> a <> 55 -> q9 a = q8 a).
  { intros a H1 H2. apply write2_other; lia. }
  exists q9. split; [reflexivity|].
  (* the special records *)
  assert (Hpg : In prev (concat groups)) by now apply Hkin.
  assert (Hlg : In last_rec (concat groups))
    by (rewrite P4; apply in_or_app; now right).
  assert (Hps : prev <> sup) by (intros ->; exact (Hdisj _ Hpin Hstl)).
  assert (Hpl : prev <> last_rec) by (intros ->; exact (Hdisj _ Hpin Hlin)).
  assert (Hls : last_rec <> sup).
  { intros El. pose proof (v_nodup _ _ Hv) as Hnd. fold groups in Hnd.
    rewrite NoDup_nth_error in Hnd.
    assert (Hlast' : nth_error (concat groups) (length (concat groups) - 1)
                     = Some sup).
    { assert (Hnil : concat groups <> [])
        by (intros E0; rewrite E0 in P3; cbn in P3; lia).
      pose proof (removelast_length _ Hnil) as Hrl.
      rewrite <- Hsup. rewrite (app_removelast_last 0 Hnil) at 1.
      rewrite nth_error_app2 by lia.
      replace (length (concat groups) - 1
               - length (removelast (concat groups)))%nat with 0%nat by lia.
      reflexivity. }
    specialize (Hnd (length (concat groups) - 2)%nat
                    (length (concat groups) - 1)%nat ltac:(lia)).
    rewrite Hlast, Hlast', El in Hnd. specialize (Hnd eq_refl). lia. }
  destruct (HD prev Hpg) as (Hp1' & Hp2' & Hp3').
  destruct (HD last_rec Hlg) as (Hl1' & Hl2' & Hl3').
  destruct (cut_frame page q2 q3 q4 q5 q6 q7 q8 q9 E slot sup prev last_rec
              HE F2 F3 F4 F5 F6 F7 F8 F9 (conj Hs1 Hs2) (conj Hp1' Hp2')
              (conj Hl1' Hl2') (HA prev sup Hpg Hsin Hps)
              (HA prev last_rec Hpg Hlg Hpl) (HA last_rec sup Hlg Hsin Hls))
    as (Gall & Gc & Gns & Gfr & Gga & Gnr & Gsl & Gso & Gpn & Gln).
  assert (G : forall a, 94 <= a -> a <> slot -> a <> slot + 1 ->
            a <> sup - E -> a <> prev - 2 -> a <> prev - 1 ->
            a <> last_rec - 2 -> a <> last_rec - 1 -> q9 a = page a).
  { intros a H0 H1 H2 H3 H4 H5 H6 H7.
    apply Gall; try assumption; clear - H0; lia. }
  assert (Hrecs : forall r, In r (concat groups) ->
            (r <> sup -> q9 (r - E) = page (r - E))
            /\ (r <> prev -> r <> last_rec ->
                q9 (r - 2) = page (r - 2) /\ q9 (r - 1) = page (r - 1))).
  { intros r Hr. destruct (HD r Hr) as (Hr1 & Hr2 & _).
    apply (cut_frame_rec page q9 E slot sup prev last_rec r HE G
             (conj Hr1 Hr2)).
    - destruct (Z.eq_dec r sup) as [|Hn']; [now left | right; now apply HA].
    - destruct (Z.eq_dec r prev) as [|Hn']; [now left | right; now apply HA].
    - destruct (Z.eq_dec r last_rec) as [|Hn']; [now left | right; now apply HA]. }
  assert (C9 : page_is_comp q9 = page_is_comp page).
  { apply page_is_comp_ext; apply Gc; rewrite Eh, Enh; auto. }
  assert (E9 : rec_extra q9 = E) by (unfold E, rec_extra; now rewrite C9).
  assert (Hcomp9 : negb (page_is_comp q9 =? 0) = page_comp page)
    by (unfold page_comp; now rewrite C9).
  assert (C4' : negb (page_is_comp q4 =? 0) = page_comp page)
    by (unfold page_comp; now rewrite C4).
  assert (Hkl : length kept = (length (concat pre) + j)%nat).
  { unfold kept. rewrite length_app, length_firstn. lia. }
  assert (Hcc : concat (pre ++ [firstn j g ++ [sup]]) = kept ++ [sup]).
  { rewrite concat_app. cbn [concat]. rewrite app_nil_r.
    unfold kept. now rewrite app_assoc. }
  assert (Hks : forall r, In r kept -> r <> sup)
    by (intros r Hr ->; exact (Hdisj _ Hr Hstl)).
  assert (Hkl' : forall r, In r kept -> r <> last_rec)
    by (intros r Hr ->; exact (Hdisj _ Hr Hlin)).
  assert (Hin' : forall r, In r (kept ++ [sup]) -> In r (concat groups)).
  { intros r Hr. apply in_app_or in Hr as [Hr|[<-|[]]]; [now apply Hkin|].
    exact Hsin. }
  destruct (valid_groups_length page groups Hv) as [Hgl1 Hgl2].
  assert (Hk : 0 <= k + 1 < 65536).
  { assert (Hpl' : (length pre <= length (concat pre))%nat).
    { apply concat_length_ge. intros g0 Hg0.
      apply (group_nonempty page groups Hv). unfold groups.
      apply in_or_app. now left. }
    unfold k. lia. }
  assert (Hn9 : page_dir_get_n_slots q9 = k + 1).
  { unfold page_dir_get_n_slots, page_header_get_field.
    rewrite (read2_ext q9 q4) by (apply Gns; rewrite Eh, Ens; auto).
    unfold q4. rewrite read2_write2_same. now apply Z.mod_small. }
  assert (Hown9 : forall r, In r kept ->
            rec_get_n_owned q9 r = rec_get_n_owned page r).
  { intros r Hr. apply rec_get_n_owned_ext; [exact C9|].
    rewrite Hna. apply (Hrecs r (Hkin r Hr)). now apply Hks. }
  assert (Hnext9 : forall r, In r (concat groups) -> r <> prev ->
            r <> last_rec ->
            rec_get_next_offs q9 r (page_comp page)
            = rec_get_next_offs page r (page_comp page)).
  { intros r Hr Hrp Hrl. destruct (Hrecs r Hr) as [_ Hx].
    destruct (Hx Hrp Hrl) as [X1 X2].
    apply next_offs_ext; rewrite Enx;
      [exact X1 | replace (r - 2 + 1) with (r - 1) by lia; exact X2]. }
  split; [|split; [|split; [exact Hn9|split; [exact C9|]]]].
  - (* the invariants *)
    constructor.
    + destruct (v_first _ _ Hv) as [rest0 E0]. fold groups in E0.
      unfold groups in E0.
      destruct (app_head pre (g :: rest) _ rest0 Hpre E0) as [pre' Ep].
      exists (pre' ++ [firstn j g ++ [sup]]). rewrite Ep.
      unfold page_get_infimum_rec. rewrite C9. reflexivity.
    + intros r Hr. rewrite Hcc in Hr. apply (v_range _ _ Hv). now apply Hin'.
    + rewrite Hcc. apply NoDup_app; [exact Hknd | |].
      * constructor; [intros [] | constructor].
      * intros a Ha [Ea|[]]. exact (Hks a Ha (eq_sym Ea)).
    + intros i g' Hi.
      destruct (Nat.lt_ge_cases i (length pre)) as [Hlt|Hge].
      * rewrite nth_error_app1 in Hi by exact Hlt.
        assert (Hold : nth_error groups i = Some g')
          by (unfold groups; rewrite nth_error_app1 by exact Hlt; exact Hi).
        destruct (v_slot _ _ Hv i g' Hold) as [Hg' Hs']. split; [exact Hg'|].
        rewrite <- Hs'.
        assert (Hsi : page_dir_get_nth_slot (Z.of_nat i)
                      = slot + 2 * (k - Z.of_nat i))
          by (unfold slot, k, page_dir_get_nth_slot, PAGE_DIR_SLOT_SIZE; lia).
        assert (Hki : 0 < k - Z.of_nat i) by (unfold k; lia).
        rewrite Hsi. clear - G Hki Hs1 Hs2 Hp2' Hl2' HE.
        apply slot_rec_ext; apply G; lia.
      * rewrite nth_error_app2 in Hi by exact Hge.
        destruct (i - length pre)%nat as [|i'] eqn:Ei;
          [|destruct i'; discriminate].
        cbn in Hi. injection Hi as <-.
        split; [intros E0; now apply app_eq_nil in E0 as [_ E0]|].
        rewrite last_last.
        replace (Z.of_nat i) with k by (unfold k; lia). fold slot.
        rewrite <- Esl. apply slot_rec_ext; apply Gsl; auto.
    + intros g' Hg'. apply in_app_or in Hg' as [Hg'|[<-|[]]].
      * assert (Hgg : In g' groups)
          by (unfold groups; apply in_or_app; left; exact Hg').
        destruct (v_owned _ _ Hv g' Hgg) as [Ho1 Ho2].
        assert (Hsub : forall r, In r g' -> In r kept).
        { intros r Hr. unfold kept. apply in_or_app. left.
          apply in_concat. exists g'. split; assumption. }
        pose proof (group_nonempty page groups Hv g' Hgg) as Hgn.
        split.
        -- rewrite Hown9 by (apply Hsub, last_In, Hgn). exact Ho1.
        -- intros r Hr. rewrite Hown9 by (apply Hsub, In_removelast, Hr).
           apply Ho2, Hr.
      * rewrite last_last, removelast_last. split.
        -- rewrite length_app, length_firstn. cbn [length].
           replace (Z.of_nat (Nat.min j (length g) + 1))
             with (Z.of_nat j + 1) by (clear - P2; lia).
           rewrite <- O3.
           apply rec_get_n_owned_ext;
             [rewrite C9, C3, C2; reflexivity|].
           rewrite (n_owned_addr_ext page q3 sup)
             by (rewrite C3, C2; reflexivity).
           rewrite Hna. exact Gso.
        -- intros r Hr.
           rewrite Hown9 by (unfold kept; apply in_or_app; right; exact Hr).
           assert (Hgg : In g groups)
             by (unfold groups; apply in_or_app; right; left; reflexivity).
           destruct (v_owned _ _ Hv g Hgg) as [_ Ho2]. apply Ho2.
           destruct (In_nth_error _ _ Hr) as [i Hi].
           rewrite nth_error_firstn in Hi.
           destruct (Nat.ltb_spec i j) as [Hij|]; [|discriminate].
           apply (nth_error_removelast g i r Hi). clear - Hij P2. lia.
    + intros p r r' H1 H2. rewrite Hcc in H1, H2. rewrite Hcomp9.
      destruct (Nat.lt_ge_cases (S p) (length kept)) as [Hlt|Hge].
      * rewrite nth_error_app1 in H1, H2 by lia.
        assert (Hrk : In r kept) by now apply nth_error_In in H1.
        assert (Hrp : r <> prev).
        { intros ->. pose proof Hknd as Hnd'.
          rewrite NoDup_nth_error in Hnd'.
          assert (Hpk : nth_error kept (length kept - 1) = Some prev).
          { rewrite <- Hprev, P4, nth_error_app1 by lia.
            f_equal. lia. }
          specialize (Hnd' p (length kept - 1)%nat ltac:(lia)).
          rewrite H1, Hpk in Hnd'. specialize (Hnd' eq_refl). lia. }
        rewrite Hnext9 by (auto using Hkin, Hkl').
        apply (v_next _ _ Hv p r r'); fold groups;
          rewrite P4, nth_error_app1 by lia; assumption.
      * assert (Hp' : S p = length kept).
        { assert (S p < length (kept ++ [sup]))%nat
            by (apply nth_error_Some; congruence).
          rewrite length_app in *. cbn [length] in *. lia. }
        rewrite nth_error_app1 in H1 by lia.
        rewrite nth_error_app2 in H2 by lia.
        replace (S p - length kept)%nat with 0%nat in H2 by lia.
        cbn in H2. injection H2 as <-.
        assert (Er : r = prev).
        { assert (Hpk : nth_error kept p = Some prev).
          { rewrite <- Hprev, P4, nth_error_app1 by lia. f_equal. lia. }
          congruence. }
        subst r.
        rewrite (next_offs_ext q5 q9)
          by (rewrite Enx; apply Gpn; clear; lia).
        unfold q5. rewrite <- C4'.
        apply page_rec_set_next_same; auto; lia.
  - constructor.
    + intros r Hr. rewrite E9. apply (HD r (Hin' r Hr)).
    + intros r Hr. rewrite Hn9.
      replace (k + 1 - 1) with k by lia. apply (HD r (Hin' r Hr)).
    + intros r r' Hr Hr' Hlt. rewrite E9.
      apply (l_apart _ _ Hl); auto.
  - assert (Hrr : 0 < rec < 65536).
    { pose proof (v_range _ _ Hv rec Hrin). clear - H Hu. lia. }
    split; [|split; [|split; [|split; [|split]]]].
    + unfold page_header_get_ptr, page_header_get_offs, page_header_get_field.
      rewrite (read2_ext q9 q7)
        by (apply Gfr; rewrite Eh, Efr; clear; lia).
      unfold q7. rewrite read2_write2_same. unfold NULL.
      destruct (Z.eqb_spec rec 0) as [E0|_]; [clear - E0 Hrr; lia|].
      rewrite Z.mod_small by (clear - Hrr; lia).
      destruct (Z.eqb_spec rec 0) as [E0|_]; [clear - E0 Hrr; lia|].
      reflexivity.
    + unfold page_header_get_field.
      rewrite (read2_ext q9 q8)
        by (apply Gga; rewrite Eh, Ega; clear; lia).
      unfold q8. rewrite read2_write2_same. unfold page_header_get_field.
      rewrite (read2_ext q7 page)
        by (apply Gga; rewrite Eh, Ega; clear; lia).
      reflexivity.
    + unfold page_get_n_recs, page_header_get_field, q9.
      rewrite read2_write2_same.
      unfold page_get_n_recs, page_header_get_field.
      rewrite (read2_ext q8 page)
        by (apply Gnr; rewrite Eh, Enr; clear; lia).
      reflexivity.
    + intros r Hr Hrl. apply Hnext9; [|intros ->; exact (Hdisj _ Hpin Hr)|exact Hrl].
      rewrite P4. apply in_or_app. right. exact Hr.
    + intros Hfu Hfl.
      rewrite (next_offs_ext q6 q9) by (rewrite Enx; apply Gln; clear; lia).
      unfold q6.
      assert (Hfree : page_header_get_ptr q5 PAGE_FREE
                      = page_header_get_ptr page PAGE_FREE).
      { unfold page_header_get_ptr, page_header_get_offs,
          page_header_get_field.
        rewrite (read2_ext q5 page)
          by (apply Gfr; rewrite Eh, Efr; clear; lia).
        reflexivity. }
      rewrite Hfree.
      assert (Hf0 : 0 <= page_header_get_ptr page PAGE_FREE).
      { unfold page_header_get_ptr, page_header_get_offs,
          page_header_get_field, NULL.
        pose proof (read2_range page (PAGE_HEADER + PAGE_FREE)) as Hrg.
        destruct (negb (mach_read_from_2 page (PAGE_HEADER + PAGE_FREE) =? 0));
          [exact (proj1 Hrg) | apply Z.le_refl]. }
      set (free := page_header_get_ptr page PAGE_FREE) in *.
      destruct (Z.eq_dec free 0) as [E0|Hn0].
      * rewrite E0. apply page_rec_set_next_null.
      * assert (C5 : negb (page_is_comp q5 =? 0) = page_comp page).
        { unfold page_comp. rewrite <- C4. f_equal. f_equal.
          apply page_is_comp_ext; apply F5; clear - Hp1' HE Eh Enh; lia. }
        rewrite <- C5. apply page_rec_set_next_same; auto.
        -- clear - Hu. lia.
        -- clear - Hf0 Hn0 Hfu. lia.
    + intros a Ha H1 H2 H3 H4 H5 H6 H7. rewrite Hna in H3.
      rewrite Enx in H4, H5, H6, H7.
      pose proof (Ha PAGE_N_DIR_SLOTS ltac:(cbn; auto)) as [A1 A2].
      pose proof (Ha PAGE_FREE ltac:(cbn; auto)) as [A3 A4].
      pose proof (Ha PAGE_GARBAGE ltac:(cbn; auto)) as [A5 A6].
      pose proof (Ha PAGE_N_RECS ltac:(cbn; auto)) as [A7 A8].
      rewrite Eh in *. rewrite Ens in A1, A2. rewrite Efr in A3, A4.
      rewrite Ega in A5, A6. rewrite Enr in A7, A8.
      apply Gall; try assumption;
        clear - H5 H7 A1 A2 A3 A4 A5 A6 A7 A8; lia.
Qed.

End Cut.

(** The invariants read the header of the page only for its format and
    its number of slots. *)
Lemma page_dir_valid_ext page page' groups :
  page_dir_valid page groups -> page_layout page (concat groups) ->
  page_dir_get_n_slots page = Z.of_nat (length groups) ->
  (forall a, 94 <= a -> page' a = page a) ->
  (forall a, a = 38 \/ a = 39 \/ a = 42 \/ a = 43 -> page' a = page a) ->
  page_dir_valid page' groups /\ page_layout page' (concat groups)
  /\ page_dir_get_n_slots page' = page_dir_get_n_slots page
  /\ page_is_comp page' = page_is_comp page.
Proof.
  intros Hv Hl Hn Hd Hh.
  assert (C : page_is_comp page' = page_is_comp page)
    by (apply page_is_comp_ext; apply Hh; unfold PAGE_HEADER, PAGE_N_HEAP; lia).
  assert (N : page_dir_get_n_slots page' = page_dir_get_n_slots page)
    by (apply n_slots_ext; apply Hh;
        unfold PAGE_HEADER, PAGE_N_DIR_SLOTS; lia).
  assert (E' : rec_extra page' = rec_extra page)
    by (unfold rec_extra; now rewrite C).
  destruct (rec_extra_cases page) as [HE Hna].
  assert (HD : forall r, In r (concat groups) ->
            94 + rec_extra page <= r
            /\ r <= page_dir_get_nth_slot (page_dir_get_n_slots page - 1)).
  { intros r Hr. split; [apply (l_low _ _ Hl r Hr) | apply (l_high _ _ Hl r Hr)]. }
  split; [|split; [|split; [exact N | exact C]]].
  - constructor.
    + destruct (v_first _ _ Hv) as [rest0 E0]. exists rest0.
      unfold page_get_infimum_rec. now rewrite C.
    + apply (v_range _ _ Hv).
    + apply (v_nodup _ _ Hv).
    + intros i g Hi. destruct (v_slot _ _ Hv i g Hi) as [Hg Hs].
      split; [exact Hg|]. rewrite <- Hs.
      assert (Hlt : (i < length groups)%nat)
        by (apply nth_error_Some; congruence).
      assert (Hin : In (last g 0) (concat groups)).
      { apply in_concat. exists g. split; [eapply nth_error_In; eauto|].
        now apply last_In. }
      destruct (HD _ Hin) as [H1 H2]. rewrite Hn in H2.
      unfold page_dir_get_nth_slot, PAGE_DIR_SLOT_SIZE in *.
      apply slot_rec_ext; apply Hd; lia.
    + intros g Hg. destruct (v_owned _ _ Hv g Hg) as [Ho1 Ho2].
      pose proof (group_nonempty page groups Hv g Hg) as Hgn.
      assert (Hsub : forall r, In r g -> In r (concat groups))
        by (intros r Hr; apply in_concat; now exists g).
      split.
      * rewrite <- Ho1. apply rec_get_n_owned_ext; [exact C|].
        rewrite Hna. apply Hd.
        destruct (HD _ (Hsub _ (last_In g Hgn))). lia.
      * intros r Hr. rewrite <- (Ho2 r Hr).
        apply rec_get_n_owned_ext; [exact C|].
        rewrite Hna. apply Hd.
        destruct (HD _ (Hsub _ (In_removelast g r Hr))). lia.
    + intros p r r' H1 H2. rewrite C.
      rewrite <- (v_next _ _ Hv p r r' H1 H2).
      destruct (HD r (nth_error_In _ _ H1)).
      apply next_offs_ext; apply Hd; unfold REC_NEXT; lia.
  - constructor.
    + intros r Hr. rewrite E'. apply (l_low _ _ Hl r Hr).
    + intros r Hr. rewrite N. apply (l_high _ _ Hl r Hr).
    + intros r r' Hr Hr' Hlt. rewrite E'. now apply (l_apart _ _ Hl).
Qed.

Section Cut_end.

Variable DATA_BIG_LEN_MTYPE : Z -> Z -> bool.
Variable dict_col_get_fixed_size : dict_col_t -> bool -> Z.
Variable mem_heap_alloc : Z -> offsets_t.
Variable recv_recovery_is_on : bool.
Variable truncate_s_fix_up_active : bool.
Variable page_zip_compress :
  zip_t -> mem -> dict_index_t -> option mtr_t -> bool * zip_t * option mtr_t.
Variable page_zip_write_header_log : mem -> Z -> Z -> mtr_t -> mtr_t.
Variable mach_u64_write_compressed : Z -> list byte.
Variable page_rec_get_prev : mem -> Z -> Z.
Variable page_cur_delete_rec :
  buf_block_t -> Z -> dict_index_t -> offsets_t -> mtr_t -> buf_block_t * mtr_t.
Variable offsets_ : offsets_t.

(** N5. On a page that is not compressed, whose list and directory satisfy
    the structural invariants, whose records lie in the heap and whose
    list ends at the supremum, [page_delete_rec_list_end] called with a
    user record [rec] other than the first one, and with the number and
    the size of the records to delete, cuts the list before [rec]: the
    records before [rec] and the supremum are the list of the new page,
    which satisfies the invariants with the slots before the one of [rec]
    as they were and a last slot that points at the supremum and owns
    what is left of the group of [rec]; PAGE_N_DIR_SLOTS, PAGE_N_RECS,
    PAGE_GARBAGE and PAGE_LAST_INSERT are updated, PAGE_FREE points at
    [rec], the deleted records stay chained up to [last_rec], which is
    followed by the old free list, and no other byte of the page
    changes. *)
Theorem page_delete_rec_list_end_cut fuel block index n_recs size mtr
    pre g rest j rec prev last_rec :
  let page := buf_block_get_frame block in
  let groups := pre ++ g :: rest in
  let sup := page_get_supremum_rec page in
  let kept := concat pre ++ firstn j g in
  let page1 := fst (page_header_set_ptr page None PAGE_LAST_INSERT NULL) in
  buf_block_get_page_zip block = None ->
  page_dir_valid page groups ->
  page_layout page (concat groups) ->
  65536 mod UNIV_PAGE_SIZE = 0 ->
  page_dir_get_n_slots page = Z.of_nat (length groups) ->
  last (concat groups) 0 = sup ->
  nth_error g j = Some rec ->
  rec <> sup ->
  (2 <= length (concat pre) + j)%nat ->
  nth_error (concat groups) (length (concat pre) + j - 1) = Some prev ->
  nth_error (concat groups) (length (concat groups) - 2) = Some last_rec ->
  page_rec_get_prev page1 rec = prev ->
  page_rec_get_prev page1 sup = last_rec ->
  size <> ULINT_UNDEFINED -> n_recs <> ULINT_UNDEFINED ->
  n_recs <> page_get_n_recs page ->
  (length (concat groups) <= fuel)%nat ->
  exists page',
    snd (page_delete_rec_list_end DATA_BIG_LEN_MTYPE dict_col_get_fixed_size
           mem_heap_alloc recv_recovery_is_on truncate_s_fix_up_active
           page_zip_compress page_zip_write_header_log
           mach_u64_write_compressed page_rec_get_prev page_cur_delete_rec
           offsets_ fuel rec block index n_recs size mtr)
    = Some (mk_block page' None (modify_clock block + 1))
    /\ page_dir_valid page' (pre ++ [firstn j g ++ [sup]])
    /\ page_layout page' (kept ++ [sup])
    /\ page_dir_get_n_slots page' = Z.of_nat (length pre) + 1
    /\ page_is_comp page' = page_is_comp page
    /\ page_header_get_ptr page' PAGE_FREE = rec
    /\ page_header_get_field page' PAGE_GARBAGE
       = (size + page_header_get_field page PAGE_GARBAGE) mod 65536
    /\ page_get_n_recs page'
       = ((page_get_n_recs page - n_recs) mod 2 ^ 64) mod 65536
    /\ page_header_get_ptr page' PAGE_LAST_INSERT = NULL
    /\ (forall r, In r (skipn j g ++ concat rest) -> r <> last_rec ->
          rec_get_next_offs page' r (page_comp page)
          = rec_get_next_offs page r (page_comp page))
    /\ (page_header_get_ptr page PAGE_FREE < UNIV_PAGE_SIZE ->
        page_header_get_ptr page PAGE_FREE <> last_rec ->
        rec_get_next_offs page' last_rec (page_comp page)
        = page_header_get_ptr page PAGE_FREE)
    /\ (forall a,
          (forall f, In f [PAGE_N_DIR_SLOTS; PAGE_FREE; PAGE_GARBAGE;
                           PAGE_LAST_INSERT; PAGE_N_RECS] ->
             a <> PAGE_HEADER + f /\ a <> PAGE_HEADER + f + 1) ->
          a <> page_dir_get_nth_slot (Z.of_nat (length pre)) ->
          a <> page_dir_get_nth_slot (Z.of_nat (length pre)) + 1 ->
          a <> n_owned_addr page sup ->
          a <> prev - REC_NEXT -> a <> prev - REC_NEXT + 1 ->
          a <> last_rec - REC_NEXT -> a <> last_rec - REC_NEXT + 1 ->
          page' a = page a).
Proof.
  intros page groups sup kept page1 Hzip Hv Hl Hsize Hslots Hsup Hrec Hne Hj2
    Hprev Hlast Hp1 Hp2 Hs Hn Hnr Hf.
  assert (Hj : (j < length g)%nat) by (apply nth_error_Some; congruence).
  assert (Hp : nth_error (concat groups) (length (concat pre) + j) = Some rec).
  { unfold groups. rewrite nth_error_concat_mid by exact Hj. exact Hrec. }
  assert (Hpre : pre <> []).
  { intros E0. destruct (v_first _ _ Hv) as [rest0 E1]. unfold groups in *.
    rewrite E0 in *. cbn in E1, Hj2. injection E1 as E1 _. subst g.
    cbn in Hj. lia. }
  destruct (rec_extra_cases page) as [HE Hna].
  (* the first records of the list *)
  destruct (v_first _ _ Hv) as [rest0 E0].
  assert (H0 : nth_error (concat groups) 0 = Some (page_get_infimum_rec page))
    by (rewrite E0; reflexivity).
  assert (Hlen : (length (concat pre) + j < length (concat groups))%nat)
    by (apply nth_error_Some; congruence).
  destruct (nth_error (concat groups) 1) as [first|] eqn:H1.
  2:{ apply nth_error_None in H1. lia. }
  destruct (next_step page groups Hv 0 _ first H0 H1) as (_ & Hnx & _).
  pose proof (v_nodup _ _ Hv) as Hnd. rewrite NoDup_nth_error in Hnd.
  assert (Hfr : first <> rec).
  { intros ->. specialize (Hnd 1%nat (length (concat pre) + j)%nat ltac:(lia)).
    rewrite H1, Hp in Hnd. specialize (Hnd eq_refl). lia. }
  assert (Hri : rec <> page_get_infimum_rec page).
  { intros E1. specialize (Hnd 0%nat (length (concat pre) + j)%nat ltac:(lia)).
    rewrite H0, Hp, E1 in Hnd. specialize (Hnd eq_refl). lia. }
  assert (Hrin : In rec (concat groups)) by (eapply nth_error_In; eauto).
  assert (Hiin : In (page_get_infimum_rec page) (concat groups))
    by (eapply nth_error_In; eauto).
  assert (Hsin : In sup (concat groups)).
  { rewrite <- Hsup. apply last_In. intros E1. rewrite E1 in Hlen.
    cbn in Hlen. lia. }
  pose proof (layout_apart page _ rec sup Hl Hrin Hsin Hne) as Ars.
  pose proof (layout_apart page _ rec _ Hl Hrin Hiin Hri) as Ari.
  assert (Hsi : page_rec_is_supremum rec = false
                /\ page_rec_is_infimum rec = false).
  { unfold page_rec_is_supremum, page_rec_is_infimum, sup,
      page_get_supremum_rec, page_get_infimum_rec, rec_extra,
      PAGE_NEW_SUPREMUM, PAGE_OLD_SUPREMUM, PAGE_NEW_INFIMUM,
      PAGE_OLD_INFIMUM, PAGE_DATA, PAGE_HEADER, REC_N_NEW_EXTRA_BYTES,
      REC_N_OLD_EXTRA_BYTES in *.
    clear - Ars Ari.
    destruct (negb (page_is_comp page =? 0));
      split; apply Bool.orb_false_iff; split; apply Z.eqb_neq; lia. }
  destruct Hsi as [Hsf Hif].
  (* the page after the reset of PAGE_LAST_INSERT *)
  assert (G1 : forall a, a <> 48 -> a <> 49 -> page1 a = page a).
  { intros a A1 A2. apply header_field_set_frame;
      unfold PAGE_HEADER, PAGE_LAST_INSERT; lia. }
  destruct (page_dir_valid_ext page page1 groups Hv Hl Hslots)
    as (Hv1 & Hl1 & Hn1 & C1).
  { intros a Ha. apply G1; lia. }
  { intros a Ha. apply G1; lia. }
  assert (Es1 : page_get_supremum_rec page1 = sup)
    by (unfold sup, page_get_supremum_rec; now rewrite C1).
  rewrite <- Es1 in Hsup, Hne, Hp2. rewrite <- Hn1 in Hslots.
  destruct (delete_rec_list_end_cut_valid DATA_BIG_LEN_MTYPE
              dict_col_get_fixed_size mem_heap_alloc page_rec_get_prev
              page1 pre g rest j rec prev last_rec Hv1 Hl1 Hsize Hslots Hsup
              Hpre Hrec Hne Hprev Hlast index n_recs size
              (rec_offs_set_n_alloc offsets_ REC_OFFS_NORMAL_SIZE) fuel
              Hs Hn Hp1 Hp2 Hf)
    as (page' & Hcut & V & L & N & C & Fr & Ga & Nr & Tn & Ln & Frame).
  rewrite Es1 in *.
  exists page'.
  split.
  { unfold page_delete_rec_list_end. fold page. rewrite Hsf, Hif.
    destruct (Z.eqb_spec n_recs (page_get_n_recs page)) as [|_];
      [contradiction|].
    cbn [orb].
    assert (Hsome : snd (delete_rec_list_end_some DATA_BIG_LEN_MTYPE
                           dict_col_get_fixed_size mem_heap_alloc
                           page_rec_get_prev page_cur_delete_rec offsets_
                           fuel rec block index n_recs size mtr)
                    = Some (mk_block page' None (modify_clock block + 1))).
    { unfold delete_rec_list_end_some. rewrite Hzip. fold page.
      unfold page_header_set_ptr, page_header_set_field in *.
      cbn [fst] in page1. fold page1. cbv beta iota zeta.
      rewrite Hcut. reflexivity. }
    destruct recv_recovery_is_on; [exact Hsome|].
    unfold page_get_infimum_rec, page_comp in Hnx.
    destruct (negb (page_is_comp page =? 0)); rewrite Hnx;
      (destruct (Z.eqb_spec first rec) as [|_]; [contradiction|]);
      exact Hsome. }
  assert (Hc1 : page_comp page1 = page_comp page)
    by (unfold page_comp; now rewrite C1).
  assert (Hhf : forall f, f + 1 < PAGE_LAST_INSERT \/ PAGE_LAST_INSERT + 1 < f ->
            page_header_get_field page1 f = page_header_get_field page f).
  { intros f Hf'. apply header_field_set_other. exact Hf'. }
  assert (Hhp : page_header_get_ptr page1 PAGE_FREE
                = page_header_get_ptr page PAGE_FREE).
  { unfold page_header_get_ptr, page_header_get_offs.
    rewrite Hhf by (unfold PAGE_FREE, PAGE_LAST_INSERT; lia). reflexivity. }
  assert (HD : forall r, In r (concat groups) ->
            94 + rec_extra page <= r
            /\ r <= page_dir_get_nth_slot (Z.of_nat (length pre))).
  { intros r Hr. split; [apply (l_low _ _ Hl r Hr)|].
    pose proof (l_high _ _ Hl r Hr) as Hh. rewrite <- Hn1, Hslots in Hh.
    unfold page_dir_get_nth_slot, PAGE_DIR_SLOT_SIZE in *.
    unfold groups in Hh. rewrite length_app in Hh. cbn [length] in Hh. lia. }
  assert (Hpin : In prev (concat groups)) by (eapply nth_error_In; eauto).
  assert (Hlin : In last_rec (concat groups)) by (eapply nth_error_In; eauto).
  destruct (HD sup Hsin) as [Ds1 Ds2].
  destruct (HD prev Hpin) as [Dp1 _].
  destruct (HD last_rec Hlin) as [Dl1 _].
  rewrite (n_owned_addr_ext page page1 sup C1), Hna in Frame.
  assert (Hli : page' 48 = page1 48 /\ page' 49 = page1 49).
  { unfold REC_NEXT in Frame.
    split; apply Frame;
      try (intros f [<-|[<-|[<-|[<-|[]]]]];
           unfold PAGE_HEADER, PAGE_N_DIR_SLOTS, PAGE_FREE, PAGE_GARBAGE,
             PAGE_N_RECS);
      clear - HE Ds1 Ds2 Dp1 Dl1; lia. }
  split; [exact V|]. split; [exact L|]. split; [exact N|].
  split; [now rewrite C, C1|]. split; [exact Fr|].
  split.
  { rewrite Ga, Hhf by (unfold PAGE_GARBAGE, PAGE_LAST_INSERT; lia).
    reflexivity. }
  split.
  { rewrite Nr. unfold page_get_n_recs.
    rewrite Hhf by (unfold PAGE_N_RECS, PAGE_LAST_INSERT; lia).
    reflexivity. }
  split.
  { unfold page_header_get_ptr, page_header_get_offs, page_header_get_field.
    rewrite (read2_ext page' page1)
      by (unfold PAGE_HEADER, PAGE_LAST_INSERT; apply Hli).
    unfold page1, page_header_set_ptr, page_header_set_field. cbn [fst].
    rewrite read2_write2_same. reflexivity. }
  split.
  { intros r Hr Hrl. rewrite <- Hc1, (Tn r Hr Hrl).
    assert (Hrg : In r (concat groups)).
    { unfold groups. rewrite concat_app. cbn [concat].
      rewrite <- (firstn_skipn j g). rewrite <- !app_assoc.
      apply in_or_app. right. apply in_or_app. right. exact Hr. }
    destruct (HD r Hrg) as [Dr _].
    apply next_offs_ext; apply G1; unfold REC_NEXT; clear - Dr HE; lia. }
  split.
  { intros Hfu Hfl. rewrite <- Hc1, <- Hhp. apply Ln; rewrite Hhp; assumption. }
  intros a Ha H1' H2' H3' H4' H5' H6' H7'. rewrite Hna in H3'.
  destruct (Ha PAGE_LAST_INSERT ltac:(cbn; auto)) as [A1 A2].
  transitivity (page1 a).
  - apply Frame; try assumption.
    intros f Hf'. apply Ha. cbn in Hf' |- *. tauto.
  - apply G1; unfold PAGE_HEADER, PAGE_LAST_INSERT in *; assumption.
Qed.

End Cut_end.

End Index_page.

(** ** Pages of sixteen kilobytes

    A block without a compressed copy, a compact page that
    [page_create_low] has set up in it, and pages of eight records of one
    four-byte column, stored one after the other and owned in different
    ways. *)
Definition no_zip_header (z : unit) (page : mem) (pos len : Z) : unit := tt.
Definition no_zip_owned (z : unit) (rec flag : Z) : unit := tt.
Definition no_zip_log (page : mem) (pos len : Z) (mtr : mtr_t) : mtr_t := mtr.
Definition zip_compress_ok (z : unit) (page : mem) (index : dict_index_t)
    (mtr : option mtr_t) : bool * unit * option mtr_t := (true, z, mtr).
Definition one_byte_u64 (n : Z) : list byte := [byte_of_Z n].
Definition cur_delete_nothing (block : buf_block_t unit) (rec : Z)
    (index : dict_index_t) (offsets : offsets_t) (mtr : mtr_t)
    : buf_block_t unit * mtr_t := (block, mtr).

Definition fresh_block : buf_block_t unit :=
  page_create_low 16384 unit (mk_block unit zero_mem None 0) 1 false.

Definition user_recs : list Z := [125; 134; 143; 152; 161; 170; 179; 188].

Fixpoint link_recs (page : mem) (recs : list Z) : mem :=
  match recs with
  | a :: (b :: _) as rest =>
    link_recs (mach_write_to_2 page (a - REC_NEXT) ((b - a) mod 65536)) rest
  | _ => page
  end.

Fixpoint number_recs (page : mem) (heap_no : Z) (recs : list Z) : mem :=
  match recs with
  | [] => page
  | r :: rest =>
    number_recs
      (rec_set_bit_field_2 page r heap_no REC_NEW_HEAP_NO REC_HEAP_NO_MASK
         REC_HEAP_NO_SHIFT) (heap_no + 1) rest
  end.

Fixpoint own_recs (page : mem) (i : Z) (groups : list (list Z)) : mem :=
  match groups with
  | [] => page
  | g :: rest =>
    let page :=
      page_dir_slot_set_rec page (page_dir_get_nth_slot 16384 i) (last g 0) in
    let page :=
      rec_set_bit_field_1 page (last g 0) (Z.of_nat (length g))
        REC_NEW_N_OWNED REC_N_OWNED_MASK REC_N_OWNED_SHIFT in
    own_recs page (i + 1) rest
  end.

Definition set_header (page : mem) (field val : Z) : mem :=
  fst (page_header_set_field unit no_zip_header page None field val).

(** The page whose slots own the records as [groups] says. *)
Definition page_of (groups : list (list Z)) : mem :=
  let page := buf_block_get_frame unit fresh_block in
  let page := link_recs page (concat groups) in
  let page := number_recs page 2 user_recs in
  let page := own_recs page 0 groups in
  let page := set_header page PAGE_N_DIR_SLOTS (Z.of_nat (length groups)) in
  let page := set_header page PAGE_HEAP_TOP 192 in
  let page := set_header page PAGE_N_HEAP (0x8000 + 10) in
  set_header page PAGE_N_RECS 8.

Definition groups_4_5 : list (list Z) :=
  [[99]; [125; 134; 143; 152]; [161; 170; 179; 188; 112]].
Definition groups_9 : list (list Z) :=
  [[99]; [125; 134; 143; 152; 161; 170; 179; 188; 112]].
Definition groups_3_6 : list (list Z) :=
  [[99]; [125; 134; 143]; [152; 161; 170; 179; 188; 112]].

(** The last two records are delete-marked. *)
Definition page_deleted_tail : mem :=
  let page := page_of groups_4_5 in
  let mark := fun page r =>
    rec_set_bit_field_1 page r REC_INFO_DELETED_FLAG REC_NEW_INFO_BITS
      REC_INFO_DELETED_FLAG REC_INFO_BITS_SHIFT in
  mark (mark page 179) 188.

Definition int_index : dict_index_t :=
  mk_index [mk_field (mk_col DATA_NOT_NULL 6 4) 4] 0 true 1 false false false.

Definition block_of (page : mem) : buf_block_t unit := mk_block unit page None 0.
Definition logging : mtr_t := mk_mtr MTR_LOG_ALL [].
Definition not_logging : mtr_t := mk_mtr MTR_LOG_NONE [].

(** A [page_rec_get_prev] for these pages: the record before [rec] on the
    way from the infimum. *)
Fixpoint walk_prev (page : mem) (fuel : nat) (cur rec : Z) : Z :=
  match fuel with
  | O => NULL
  | S fuel' =>
    match page_rec_get_next 16384 page cur with
    | Some next => if next =? rec then cur else walk_prev page fuel' next rec
    | None => NULL
    end
  end.

Definition prev_by_walk (page : mem) (rec : Z) : Z :=
  walk_prev page 16 (page_get_infimum_rec page) rec.

Lemma page_4_5_valid : page_dir_valid 16384 (page_of groups_4_5) groups_4_5.
Proof. apply page_dir_valid_b_sound. vm_compute. reflexivity. Qed.

Lemma page_deleted_tail_valid :
  page_dir_valid 16384 page_deleted_tail groups_4_5.
Proof. apply page_dir_valid_b_sound. vm_compute. reflexivity. Qed.

Lemma page_3_6_n_owned :
  page_dir_slot_get_n_owned (page_of groups_3_6)
    (page_dir_get_nth_slot 16384 1) = PAGE_DIR_SLOT_MIN_N_OWNED - 1.
Proof. vm_compute. reflexivity. Qed.

Lemma page_mem_alloc_heap_witness :
  exists page' page_zip',
    page_mem_alloc_heap 16384 unit no_zip_header
      (buf_block_get_frame unit fresh_block) None 10
    = (Some (120, 2), (page', page_zip'))
    /\ page_header_get_field page' PAGE_HEAP_TOP = 130.
Proof.
  destruct (proj1 (page_mem_alloc_heap_spec 16384 unit no_zip_header
                     (buf_block_get_frame unit fresh_block) None 10
                     ltac:(lia) ltac:(vm_compute; reflexivity)
                     ltac:(vm_compute; discriminate) ltac:(lia)
                     ltac:(vm_compute; reflexivity))
             ltac:(vm_compute; discriminate))
    as (page' & page_zip' & E & _ & Ht & _).
  exists page', page_zip'. split; [exact E | exact Ht].
Defined.

Lemma page_dir_split_slot_witness :
  page_dir_slot_get_n_owned (page_of groups_9) (page_dir_get_nth_slot 16384 1)
  = PAGE_DIR_SLOT_MAX_N_OWNED + 1
  /\ exists page' page_zip',
       page_dir_split_slot 16384 unit no_zip_header no_zip_owned
         (page_of groups_9) None 1 = Some (page', page_zip')
       /\ page_dir_get_n_slots page' = 3
       /\ page_dir_slot_get_rec page' (page_dir_get_nth_slot 16384 1) = 152
       /\ page_dir_slot_get_n_owned page' (page_dir_get_nth_slot 16384 1) = 4
       /\ page_dir_slot_get_n_owned page' (page_dir_get_nth_slot 16384 2) = 5.
Proof.
  split; [vm_compute; reflexivity|].
  destruct (page_dir_split_slot_spec 16384 unit no_zip_header no_zip_owned
              (page_of groups_9) None 1 152
              ltac:(lia) ltac:(vm_compute; split; reflexivity)
              ltac:(vm_compute; reflexivity)
              ltac:(vm_compute; discriminate)
              ltac:(vm_compute; reflexivity)
              ltac:(vm_compute; split; [discriminate | reflexivity])
              ltac:(vm_compute; split; [discriminate | reflexivity])
              ltac:(vm_compute; discriminate))
    as (page' & page_zip' & E & Hn & _ & Hr & _ & H1 & H2 & _).
  exists page', page_zip'.
  split; [exact E|]. split; [exact Hn|]. split; [exact Hr|].
  split; [exact H1 | exact H2].
Defined.

Lemma page_dir_balance_slot_witness :
  let after :=
    page_dir_balance_slot 16384 unit no_zip_header no_zip_owned
      (page_of groups_3_6) None 1 in
  rec_get_n_owned (page_of groups_3_6) 143 = PAGE_DIR_SLOT_MIN_N_OWNED - 1
  /\ page_dir_slot_get_rec (fst after) (page_dir_get_nth_slot 16384 1) = 152
  /\ rec_get_n_owned (fst after) 143 = 0
  /\ rec_get_n_owned (fst after) 152 = PAGE_DIR_SLOT_MIN_N_OWNED
  /\ rec_get_n_owned (fst after) 112 = 5
  /\ page_dir_get_n_slots (fst after) = 3.
Proof.
  cbv zeta. split; [vm_compute; reflexivity|].
  destruct (page_dir_balance_slot_spec 16384 unit no_zip_header no_zip_owned
              (page_of groups_3_6) None 1
              ltac:(lia) ltac:(vm_compute; split; reflexivity)
              ltac:(vm_compute; reflexivity)
              ltac:(vm_compute; discriminate)) as [_ H].
  destruct (H ltac:(vm_compute; reflexivity)
              ltac:(vm_compute; split; [discriminate | reflexivity])
              ltac:(vm_compute; split; [discriminate | reflexivity])
              ltac:(vm_compute; discriminate)) as [Ht _].
  destruct (Ht ltac:(vm_compute; reflexivity)
               ltac:(vm_compute; split; [discriminate | reflexivity])
               ltac:(vm_compute; discriminate)
               ltac:(vm_compute; discriminate))
    as (H1 & H2 & H3 & H4 & H5 & _).
  split; [exact H1|]. split; [exact H2|]. split; [exact H3|].
  split; [exact H4 | exact H5].
Defined.

Lemma page_rec_nth_inverse_witness :
  exists rec,
    page_rec_get_nth_const 16384 (page_of groups_4_5) 10 6 = Some rec
    /\ nth_error (concat groups_4_5) (Z.to_nat 6) = Some rec
    /\ page_rec_get_n_recs_before 16384 (page_of groups_4_5) 10 rec = Some 6.
Proof.
  apply (page_rec_nth_inverse 16384 (page_of groups_4_5) groups_4_5 6 10
           page_4_5_valid);
    [lia | vm_compute; split; [discriminate | reflexivity] | cbn; lia].
Defined.

(** The bulk deletes with the page functions of these pages. *)
Definition delete_end : nat -> Z -> buf_block_t unit -> dict_index_t -> Z -> Z
    -> mtr_t -> mtr_t * option (buf_block_t unit) :=
  page_delete_rec_list_end 16384 unit no_zip_header no_zip_owned big_over_255
    no_fixed_size zero_heap false false zip_compress_ok no_zip_log one_byte_u64
    prev_by_walk cur_delete_nothing (zero_heap 0).

Definition delete_start : nat -> Z -> buf_block_t unit -> dict_index_t
    -> mtr_t -> mtr_t * option (buf_block_t unit) :=
  page_delete_rec_list_start 16384 unit no_zip_header big_over_255
    no_fixed_size zero_heap false zip_compress_ok no_zip_log one_byte_u64
    cur_delete_nothing (zero_heap 0).

Definition create_empty : buf_block_t unit -> dict_index_t -> mtr_t
    -> mtr_t * option (buf_block_t unit) :=
  page_create_empty 16384 unit no_zip_header false zip_compress_ok no_zip_log
    one_byte_u64.

Lemma page_delete_rec_list_end_all_witness :
  page_rec_get_next_low 16384 (page_of groups_4_5) PAGE_NEW_INFIMUM true
  = Some 125
  /\ delete_end 20 125 (block_of (page_of groups_4_5)) int_index
       ULINT_UNDEFINED ULINT_UNDEFINED logging
     = create_empty (block_of (page_of groups_4_5)) int_index logging.
Proof.
  split; [vm_compute; reflexivity|].
  apply (page_delete_rec_list_end_all 16384 unit no_zip_header no_zip_owned
           big_over_255 no_fixed_size zero_heap false false zip_compress_ok
           no_zip_log one_byte_u64 prev_by_walk cur_delete_nothing
           (zero_heap 0) 20 125 (block_of (page_of groups_4_5)) int_index
           ULINT_UNDEFINED ULINT_UNDEFINED logging);
    [lia | reflexivity | vm_compute; reflexivity
    | left; vm_compute; reflexivity].
Defined.

Lemma page_delete_rec_list_end_log_witness :
  exists b1 b2,
    m_log (fst (delete_end 20 161 (block_of (page_of groups_4_5)) int_index
                  ULINT_UNDEFINED ULINT_UNDEFINED logging))
    = [mk_mlog MLOG_COMP_LIST_END_DELETE [b1; b2]]
    /\ Z_of_byte b1 * 256 + Z_of_byte b2 = 161.
Proof.
  apply (page_delete_rec_list_end_log 16384 unit no_zip_header no_zip_owned
           big_over_255 no_fixed_size zero_heap false false zip_compress_ok
           no_zip_log one_byte_u64 prev_by_walk cur_delete_nothing
           (zero_heap 0) 20 161 (block_of (page_of groups_4_5)) int_index
           ULINT_UNDEFINED ULINT_UNDEFINED logging 125);
    [ reflexivity | reflexivity | reflexivity | vm_compute; reflexivity
    | vm_compute; reflexivity | vm_compute; discriminate
    | vm_compute; reflexivity | discriminate | lia ].
Defined.

(** With a mini-transaction that does not log, the same call writes no
    record. *)
Lemma page_delete_rec_list_end_unlogged :
  mlog_open not_logging = false
  /\ page_rec_is_supremum 161 = false
  /\ page_rec_is_infimum 161 = false
  /\ ULINT_UNDEFINED <> page_get_n_recs (page_of groups_4_5)
  /\ page_rec_get_next_low 16384 (page_of groups_4_5) PAGE_NEW_INFIMUM true
     = Some 125
  /\ exists block',
       delete_end 20 161 (block_of (page_of groups_4_5)) int_index
         ULINT_UNDEFINED ULINT_UNDEFINED not_logging
       = (not_logging, Some block')
       /\ page_get_n_recs (buf_block_get_frame unit block') = 4.
Proof.
  repeat (split; [vm_compute; first [reflexivity | discriminate]|]).
  eexists. split; [vm_compute; reflexivity|]. vm_compute. reflexivity.
Qed.

(** At the supremum of an emptied page, and with [n_recs] the number of
    records of the page, the call leaves the page as it is, with its
    garbage, where [page_create_empty] would set the page up anew. *)
Definition emptied_page : mem :=
  set_header (set_header (buf_block_get_frame unit fresh_block)
                PAGE_GARBAGE 9) PAGE_HEAP_TOP 129.

Lemma page_delete_rec_list_end_at_supremum :
  page_get_n_recs emptied_page = 0
  /\ delete_end 20 PAGE_NEW_SUPREMUM (block_of emptied_page) int_index 0
       ULINT_UNDEFINED logging
     = (logging, Some (block_of emptied_page))
  /\ exists mtr' block',
       create_empty (block_of emptied_page) int_index logging
       = (mtr', Some block')
       /\ m_log mtr' = [mk_mlog MLOG_COMP_PAGE_CREATE []]
       /\ page_header_get_field (buf_block_get_frame unit block') PAGE_GARBAGE
          = 0
       /\ page_header_get_field emptied_page PAGE_GARBAGE = 9.
Proof.
  split; [vm_compute; reflexivity|]. split; [reflexivity|].
  eexists. eexists. split; [reflexivity|].
  split; [vm_compute; reflexivity|].
  split; vm_compute; reflexivity.
Qed.

Lemma page_create_low_witness :
  let page := buf_block_get_frame unit fresh_block in
  page_dir_valid 16384 page [[PAGE_NEW_INFIMUM]; [PAGE_NEW_SUPREMUM]]
  /\ page_dir_get_n_slots page = 2
  /\ page_get_n_recs page = 0
  /\ page_header_get_field page PAGE_HEAP_TOP = PAGE_NEW_SUPREMUM_END.
Proof.
  cbv zeta.
  destruct (page_create_low_spec 16384 unit (mk_block unit zero_mem None 0) 1
              false ltac:(lia))
    as (H1 & _ & _ & H2 & H3 & _ & H4 & _).
  split; [exact H1|]. split; [exact H2|]. split; [exact H3 | exact H4].
Defined.

Lemma page_dir_find_owner_slot_witness :
  page_dir_find_owner_slot 16384 (page_of groups_4_5) 10 134 = Some 1
  /\ page_dir_slot_get_rec (page_of groups_4_5) (page_dir_get_nth_slot 16384 1)
     = 152.
Proof.
  destruct (page_dir_find_owner_slot_spec 16384 (page_of groups_4_5)
              groups_4_5 [[99]] [125; 134; 143; 152]
              [[161; 170; 179; 188; 112]] 1 134 10 page_4_5_valid
              ltac:(lia) ltac:(vm_compute; reflexivity) eq_refl eq_refl
              ltac:(cbn; lia))
    as (H1 & _ & H2 & _).
  split; [exact H1 | exact H2].
Defined.

Lemma page_find_rec_with_heap_no_witness :
  page_find_rec_with_heap_no 16384 (page_of groups_4_5) 10 5 = Some 152
  /\ page_find_rec_with_heap_no 16384 (page_of groups_4_5) 10 77 = Some NULL.
Proof.
  assert (Hpass : forall heap_no p,
             (heap_no = 5 /\ p = 4%nat) \/ (heap_no = 77 /\ p = 9%nat) ->
             forall (k : nat) (r' : Z),
               (k < p)%nat ->
               nth_error (concat groups_4_5) k = Some r' ->
               (if page_comp (page_of groups_4_5)
                then rec_get_heap_no_new (page_of groups_4_5) r'
                else rec_get_heap_no_old (page_of groups_4_5) r') <> heap_no
               /\ (if page_comp (page_of groups_4_5)
                   then rec_get_heap_no_new (page_of groups_4_5) r'
                   else rec_get_heap_no_old (page_of groups_4_5) r')
                  <> PAGE_HEAP_NO_SUPREMUM).
  { intros heap_no p Hc k r' Hk Hn.
    destruct Hc as [[-> ->] | [-> ->]];
      do 9 (destruct k as [|k];
            [first [lia | cbn in Hn; injection Hn as <-; vm_compute; split;
                          discriminate]|]);
      lia. }
  split.
  - apply (proj1 (page_find_rec_with_heap_no_spec 16384 (page_of groups_4_5)
                    groups_4_5 5 4 152 10 page_4_5_valid eq_refl
                    (Hpass 5 4%nat (or_introl (conj eq_refl eq_refl)))
                    ltac:(lia))).
    vm_compute. reflexivity.
  - apply (proj2 (page_find_rec_with_heap_no_spec 16384 (page_of groups_4_5)
                    groups_4_5 77 9 112 10 page_4_5_valid eq_refl
                    (Hpass 77 9%nat (or_intror (conj eq_refl eq_refl)))
                    ltac:(lia)));
      vm_compute; [discriminate | reflexivity].
Defined.

Lemma page_find_rec_max_not_deleted_witness :
  exists res,
    page_find_rec_max_not_deleted 16384 page_deleted_tail 10 = Some res
    /\ ((res = NULL
         /\ forall r, In r [99; 125; 134; 143; 152; 161; 170; 179; 188] ->
              negb (rec_get_deleted_flag page_deleted_tail r
                      (page_comp page_deleted_tail) =? 0) = true)
        \/ exists l1 l2,
             [99; 125; 134; 143; 152; 161; 170; 179; 188] = l1 ++ res :: l2
             /\ negb (rec_get_deleted_flag page_deleted_tail res
                        (page_comp page_deleted_tail) =? 0) = false
             /\ forall r, In r l2 ->
                  negb (rec_get_deleted_flag page_deleted_tail r
                          (page_comp page_deleted_tail) =? 0) = true).
Proof.
  apply (page_find_rec_max_not_deleted_spec 16384 page_deleted_tail groups_4_5
           [99; 125; 134; 143; 152; 161; 170; 179; 188] 10
           page_deleted_tail_valid);
    [vm_compute; reflexivity | cbn; lia].
Defined.

Lemma page_delete_rec_list_start_witness :
  m_log (fst (delete_start 20 143 (block_of (page_of groups_4_5)) int_index
                logging))
  = [mk_mlog MLOG_COMP_LIST_START_DELETE (mach_bytes_2 143)].
Proof.
  destruct (page_delete_rec_list_start_spec 16384 unit no_zip_header
              big_over_255 no_fixed_size zero_heap false zip_compress_ok
              no_zip_log one_byte_u64 cur_delete_nothing (zero_heap 0) 20 143
              (block_of (page_of groups_4_5)) int_index logging
              ltac:(reflexivity) ltac:(lia)) as (_ & _ & H).
  destruct (H ltac:(vm_compute; reflexivity) ltac:(vm_compute; reflexivity))
    as [Hl _].
  exact Hl.
Defined.

Definition log_of_161 : mem := memcpy zero_mem 1000 (mach_bytes_2 161) 2.

Lemma page_parse_delete_rec_list_witness :
  page_parse_delete_rec_list 16384 unit no_zip_header no_zip_owned
    big_over_255 no_fixed_size zero_heap false false zip_compress_ok
    no_zip_log one_byte_u64 prev_by_walk cur_delete_nothing (zero_heap 0) 20
    MLOG_COMP_LIST_END_DELETE log_of_161 1000 1002
    (Some (block_of (page_of groups_4_5))) int_index logging
  = (fst (delete_end 20 161 (block_of (page_of groups_4_5)) int_index
            ULINT_UNDEFINED ULINT_UNDEFINED logging),
     match snd (delete_end 20 161 (block_of (page_of groups_4_5)) int_index
                  ULINT_UNDEFINED ULINT_UNDEFINED logging) with
     | Some b' => Some (1000 + 2, Some b')
     | None => None
     end).
Proof.
  destruct (page_parse_delete_rec_list_spec 16384 unit no_zip_header
              no_zip_owned big_over_255 no_fixed_size zero_heap false false
              zip_compress_ok no_zip_log one_byte_u64 prev_by_walk
              cur_delete_nothing (zero_heap 0) 20 MLOG_COMP_LIST_END_DELETE
              log_of_161 1000 1002 (Some (block_of (page_of groups_4_5)))
              int_index logging 161 ltac:(lia) ltac:(vm_compute; reflexivity))
    as [_ H].
  destruct (H ltac:(lia)) as [_ H2].
  exact (H2 _ eq_refl).
Defined.


(** Deleting from the record at 170 of the page of two groups of four and
    five: the records up to 161 stay, and the last slot owns 161 and the
    supremum. *)
Lemma page_delete_rec_list_end_cut_witness :
  exists page',
    snd (delete_end 16 170 (block_of (page_of groups_4_5)) int_index 3 27
           logging)
    = Some (mk_block unit page' None 1)
    /\ page_dir_valid 16384 page' [[99]; [125; 134; 143; 152]; [161; 112]]
    /\ page_dir_get_n_slots page' = 3
    /\ page_header_get_ptr page' PAGE_FREE = 170
    /\ page_get_n_recs page' = 5.
Proof.
  destruct (page_delete_rec_list_end_cut 16384 unit no_zip_header no_zip_owned
              big_over_255 no_fixed_size zero_heap false false zip_compress_ok
              no_zip_log one_byte_u64 prev_by_walk cur_delete_nothing
              (zero_heap 0) 16 (block_of (page_of groups_4_5)) int_index 3 27
              logging [[99]; [125; 134; 143; 152]] [161; 170; 179; 188; 112]
              [] 1 170 161 188)
    as (page' & H1 & H2 & _ & H3 & _ & H4 & _ & H5 & _).
  - reflexivity.
  - exact page_4_5_valid.
  - apply page_layout_b_sound. vm_compute. reflexivity.
  - reflexivity.
  - vm_compute. reflexivity.
  - vm_compute. reflexivity.
  - reflexivity.
  - vm_compute. discriminate.
  - simpl. lia.
  - reflexivity.
  - reflexivity.
  - vm_compute. reflexivity.
  - vm_compute. reflexivity.
  - vm_compute. discriminate.
  - vm_compute. discriminate.
  - vm_compute. discriminate.
  - simpl. lia.
  - exists page'. split; [exact H1|]. split; [exact H2|].
    split; [exact H3|]. split; [exact H4|]. rewrite H5. vm_compute. reflexivity.
Defined.

End Page.
